(** * The epoll proactor: a shallow embedding and its properties

    The development follows the source file of the epoll proactor section by
    section: mutex and timer primitives, epoll registration, the wake
    subsystem, the connection state machine, the listener and the proactor
    core.  Every critical section of the source (the code between a [lock]
    and the matching [unlock]) is one function on the state it guards; the
    kernel objects the code talks to (the epoll interest list, a timerfd, the
    eventfd) are small explicit models next to the structs they belong to. *)

From stdpp Require Import base tactics option list gmap strings.
From Stdlib Require Import ZArith Lia.

#[local] Open Scope Z_scope.

(** ** How a call can end *)

Inductive crash : Set :=
| AssertFailed   (* assert() of a debug build *)
| EpollFatal     (* EPOLL_FATAL: fprintf + abort() *)
| Undefined.     (* signed overflow, read of an uninitialised value, bad pointer *)

Inductive outcome (A : Type) : Type :=
| Returns (a : A)
| Aborts (c : crash)
| Spins.         (* the loop bound of the model is exhausted *)
Arguments Returns {A} a.
Arguments Aborts {A} c.
Arguments Spins {A}.

Definition obind {A B : Type} (m : outcome A) (f : A → outcome B) : outcome B :=
  match m with
  | Returns a => f a
  | Aborts c => Aborts c
  | Spins => Spins
  end.

Declare Scope outcome_scope.
Notation "x ← y ; z" := (obind y (λ x : _, z))
  (at level 20, y at level 100, z at level 200, only parsing) : outcome_scope.
Notation "' x ← y ; z" := (obind y (λ x : _, z))
  (at level 20, x pattern, y at level 100, z at level 200, only parsing) : outcome_scope.
Notation "x ;; z" := (obind x (λ _, z))
  (at level 100, z at level 200, only parsing, right associativity) : outcome_scope.
#[local] Open Scope outcome_scope.

Lemma outcome_bind_returns {A B} (m : outcome A) (f : A → outcome B) (b : B) :
  obind m f = Returns b → ∃ a, m = Returns a ∧ f a = Returns b.
Proof. destruct m as [a| |]; simpl; intros H; [eauto | discriminate..]. Qed.

(** [assert(e)]: aborts in a debug build, is compiled out under [NDEBUG]. *)
Definition assert (NDEBUG : bool) (e : bool) : outcome unit :=
  if NDEBUG || e then Returns () else Aborts AssertFailed.

Lemma assert_returns NDEBUG e u : assert NDEBUG e = Returns u → NDEBUG = true ∨ e = true.
Proof. unfold assert. destruct NDEBUG, e; simpl; intros; auto; discriminate. Qed.

Ltac outcome_inv_step :=
  match goal with
  | H : Returns _ = Returns _ |- _ => injection H as H; try subst
  | H : Aborts _ = Returns _ |- _ => discriminate H
  | H : Spins = Returns _ |- _ => discriminate H
  | H : obind _ _ = Returns _ |- _ =>
      let a := fresh "a" in let Ha := fresh "Ha" in
      apply outcome_bind_returns in H as (a & Ha & H)
  | H : assert _ _ = Returns _ |- _ => apply assert_returns in H
  | H : (if ?c then _ else _) = Returns _ |- _ =>
      let Hc := fresh "Hc" in destruct c eqn:Hc
  | H : (let '(_, _) := ?p in _) = Returns _ |- _ =>
      let Hp := fresh "Hp" in destruct p eqn:Hp
  | H : match ?o with Some _ => _ | None => _ end = Returns _ |- _ =>
      let Ho := fresh "Ho" in destruct o eqn:Ho
  end.
Ltac outcome_inv := repeat outcome_inv_step.

(** ** Machine integers

    [int] is 32 bits; overflowing it is undefined.  [size_t], [uint64_t] and
    [uint32_t] wrap. *)

Definition INT_MAX : Z := 2147483647.
Definition INT_MIN : Z := -2147483648.
Definition SIZE_MOD : Z := 2 ^ 64.

Definition int_add (a b : Z) : outcome Z :=
  let r := a + b in
  if (INT_MIN <=? r) && (r <=? INT_MAX) then Returns r else Aborts Undefined.
Definition int_sub (a b : Z) : outcome Z := int_add a (- b).
Definition int_incr (a : Z) : outcome Z := int_add a 1.
Definition int_decr (a : Z) : outcome Z := int_add a (-1).

(** [(int) u] for a [uint64_t] (two's complement truncation). *)
Definition int_of_uint64 (u : Z) : Z := (u + 2 ^ 31) mod 2 ^ 32 - 2 ^ 31.

Definition size_incr (a : Z) : Z := (a + 1) mod SIZE_MOD.
Definition size_decr (a : Z) : Z := (a - 1) mod SIZE_MOD.


Lemma int_add_total a b : INT_MIN ≤ a + b ≤ INT_MAX → int_add a b = Returns (a + b).
Proof.
  intros Hb. unfold int_add.
  destruct (_ && _) eqn:E; [done|]. apply andb_false_iff in E as [E|E]; lia.
Qed.



(** ** Constants of <sys/epoll.h> and <errno.h> (Linux) *)

Definition EPOLLIN : Z := 1.
Definition EPOLLOUT : Z := 4.
Definition EPOLLERR : Z := 8.
Definition EPOLLHUP : Z := 16.
Definition EPOLLRDHUP : Z := 8192.
Definition EPOLLONESHOT : Z := 1073741824.

Definition EINTR : Z := 4.
Definition EBADF : Z := 9.
Definition EAGAIN : Z := 11.
Definition EWOULDBLOCK : Z := EAGAIN.   (* asm-generic/errno.h *)
Definition ENOTCONN : Z := 107.
Definition EINPROGRESS : Z := 115.

(** ** Events and the collector *)

Inductive pn_event_type_t : Set :=
| PN_CONNECTION_WAKE
| PN_LISTENER_OPEN
| PN_LISTENER_ACCEPT
| PN_LISTENER_CLOSE
| PN_PROACTOR_INTERRUPT
| PN_PROACTOR_TIMEOUT
| PN_PROACTOR_INACTIVE
| PN_TRANSPORT_EVENT (n : nat).   (* any event the protocol engine produces *)

#[global] Instance pn_event_type_eq_dec : EqDecision pn_event_type_t.
Proof. solve_decision. Defined.

(** Modelled from the spec: the event collector ([pn_collector_t], with
    [pn_collector_put], [pn_collector_peek] and [pn_collector_next]) is part
    of the protocol engine and is not among the sources.  It is a FIFO queue
    of events.  Every collector of this file receives events of one context
    object only, so an event is its type.  [pn_collector_put] drops an event
    equal to the one at the tail: this is the coalescing the comment above
    [proactor_update_batch] works around. *)
Definition pn_collector_t : Type := list pn_event_type_t.

Definition pn_collector_put (c : pn_collector_t) (t : pn_event_type_t) : pn_collector_t :=
  match last c with
  | Some t' => if decide (t' = t) then c else c ++ [t]
  | None => c ++ [t]
  end.

Definition pn_collector_peek (c : pn_collector_t) : option pn_event_type_t := head c.

Definition pn_collector_next (c : pn_collector_t) : option pn_event_type_t * pn_collector_t :=
  match c with
  | [] => (None, [])
  | e :: c' => (Some e, c')
  end.

Definition has_peek (c : pn_collector_t) : bool :=
  match pn_collector_peek c with Some _ => true | None => false end.

Lemma pn_collector_put_empty t : pn_collector_put [] t = [t].
Proof. reflexivity. Qed.

(** ** Epoll registration *)

Inductive epoll_type_t : Set :=
| WAKE | PCONNECTION_IO | PCONNECTION_TIMER | LISTENER_IO | PROACTOR_TIMER.

(** [epoll_extended_t].  The back pointer [psocket] is determined by where
    the record is embedded and is not stored. *)
Record epoll_extended_t : Set := mk_epoll_extended {
  ee_fd : Z;
  ee_type : epoll_type_t;
  ee_wanted : Z;
  ee_polling : bool
}.

Definition set_ee_fd (v : Z) (ee : epoll_extended_t) :=
  mk_epoll_extended v (ee_type ee) (ee_wanted ee) (ee_polling ee).
Definition set_ee_wanted (v : Z) (ee : epoll_extended_t) :=
  mk_epoll_extended (ee_fd ee) (ee_type ee) v (ee_polling ee).
Definition set_ee_polling (v : bool) (ee : epoll_extended_t) :=
  mk_epoll_extended (ee_fd ee) (ee_type ee) (ee_wanted ee) v.

(** The kernel side of one epoll instance: its interest list, from file
    descriptor to the event mask last installed. *)
Definition epoll_set : Type := gmap Z Z.

Inductive epoll_op : Set := EPOLL_CTL_ADD | EPOLL_CTL_DEL | EPOLL_CTL_MOD.

(** [epoll_ctl(epollfd, op, fd, &ev)]: 0 on success, -1 on failure
    (EBADF, EEXIST for ADD, ENOENT for MOD and DEL). *)
Definition epoll_ctl (k : epoll_set) (epollfd : Z) (op : epoll_op) (fd events : Z)
  : epoll_set * Z :=
  if (epollfd <? 0) || (fd <? 0) then (k, -1)
  else match op, k !! fd with
       | EPOLL_CTL_ADD, None => (<[fd := events]> k, 0)
       | EPOLL_CTL_ADD, Some _ => (k, -1)
       | EPOLL_CTL_MOD, Some _ => (<[fd := events]> k, 0)
       | EPOLL_CTL_MOD, None => (k, -1)
       | EPOLL_CTL_DEL, Some _ => (delete fd k, 0)
       | EPOLL_CTL_DEL, None => (k, -1)
       end.

Definition start_polling (ee : epoll_extended_t) (epollfd : Z) (k : epoll_set)
  : epoll_extended_t * epoll_set * bool :=
  if ee_polling ee then (ee, k, false)
  else
    let ee := set_ee_polling true ee in
    let '(k, r) := epoll_ctl k epollfd EPOLL_CTL_ADD (ee_fd ee)
                             (Z.lor (ee_wanted ee) EPOLLONESHOT) in
    (ee, k, r =? 0).

Definition stop_polling (ee : epoll_extended_t) (epollfd : Z) (k : epoll_set)
  : outcome (epoll_extended_t * epoll_set) :=
  if (ee_fd ee =? -1) || negb (ee_polling ee) || (epollfd =? -1) then Returns (ee, k)
  else
    let '(k, r) := epoll_ctl k epollfd EPOLL_CTL_DEL (ee_fd ee) 0 in
    if r =? -1 then Aborts EpollFatal
    else Returns (set_ee_polling false (set_ee_fd (-1) ee), k).

Definition rearm (epollfd : Z) (ee : epoll_extended_t) (k : epoll_set) : outcome epoll_set :=
  let '(k, r) := epoll_ctl k epollfd EPOLL_CTL_MOD (ee_fd ee)
                           (Z.lor (ee_wanted ee) EPOLLONESHOT) in
  if r =? -1 then Aborts EpollFatal else Returns k.

(** ** The timer: [ptimer_t] over a timerfd *)

(** The kernel side of a one-shot timerfd (Linux): the timer is armed or
    not, and expirations not yet read are counted.  An expired one-shot
    timer is disarmed.  [read] returns the count and resets it;
    [timerfd_settime] starts the count again at zero, so an expiration not
    read before the timer is set anew or disarmed is never read. *)
Record timerfd_t : Set := mk_timerfd {
  tfd_armed : bool;
  tfd_ticks : Z
}.

(** [timerfd_settime(fd, 0, &newt, &oldt)]; the result tells whether
    [oldt.it_value] is non-zero, which is the case exactly for an armed
    timer that has not expired. *)
Definition timerfd_settime (k : timerfd_t) (t_millis : Z) : timerfd_t * bool :=
  (mk_timerfd (negb (t_millis =? 0)) 0, tfd_armed k).

(** [read(timerfd, &u, 8)] on the non-blocking descriptor: fails with
    EAGAIN while no expiration is pending. *)
Definition timerfd_read (k : timerfd_t) : option (Z * timerfd_t) :=
  if tfd_ticks k =? 0 then None
  else Some (tfd_ticks k, mk_timerfd (tfd_armed k) 0).

(** The armed timer reaches its deadline. *)
Definition timerfd_fire (k : timerfd_t) : option timerfd_t :=
  if tfd_armed k then Some (mk_timerfd false ((tfd_ticks k + 1) mod 2 ^ 64)) else None.

Record ptimer_t : Set := mk_ptimer {
  timerfd : Z;
  pt_epoll_io : epoll_extended_t;
  pending_count : Z;
  skip_count : Z
}.

Definition set_pending_count (v : Z) (pt : ptimer_t) :=
  mk_ptimer (timerfd pt) (pt_epoll_io pt) v (skip_count pt).
Definition set_skip_count (v : Z) (pt : ptimer_t) :=
  mk_ptimer (timerfd pt) (pt_epoll_io pt) (pending_count pt) v.
Definition set_pt_epoll_io (v : epoll_extended_t) (pt : ptimer_t) :=
  mk_ptimer (timerfd pt) v (pending_count pt) (skip_count pt).

(** [ptimer_init]; [for_connection] is [ps != NULL]. *)
Definition ptimer_init (fd : Z) (for_connection : bool) : ptimer_t :=
  mk_ptimer fd
    (mk_epoll_extended fd (if for_connection then PCONNECTION_TIMER else PROACTOR_TIMER)
                       EPOLLIN false)
    0 0.

Definition timerfd_init : timerfd_t := mk_timerfd false 0.

Section Timer.
Variable NDEBUG : bool.

Definition ptimer_set (pt : ptimer_t) (k : timerfd_t) (t_millis : Z)
  : outcome (ptimer_t * timerfd_t) :=
  if (t_millis =? 0) && (pending_count pt =? 0) then Returns (pt, k)
  else
    let '(k, old_armed) := timerfd_settime k t_millis in
    pt ← (if old_armed then
            assert NDEBUG (0 <? pending_count pt);;
            n ← int_decr (pending_count pt);
            Returns (set_pending_count n pt)
          else if negb (pending_count pt =? 0) then
            n ← int_incr (skip_count pt);
            Returns (set_skip_count n pt)
          else Returns pt);
    pt ← (if negb (t_millis =? 0) then
            n ← int_incr (pending_count pt);
            Returns (set_pending_count n pt)
          else Returns pt);
    assert NDEBUG (0 <=? pending_count pt);;
    Returns (pt, k).

(** [uninit] is what the local [u_exp_count] holds before [read]: it is not
    initialised, and a [read] that fails leaves it as it is.  The first
    assertion then stops a debug build; a release build goes on with that
    value. *)
Definition ptimer_callback (pt : ptimer_t) (k : timerfd_t) (uninit : Z)
  : outcome (Z * ptimer_t * timerfd_t) :=
  let '(l_ok, u_exp_count, k) :=
    match timerfd_read k with
    | Some (u, k) => (true, u, k)
    | None => (false, uninit mod 2 ^ 64, k)     (* l == -1, errno EAGAIN *)
    end in
  assert NDEBUG l_ok;;
  assert NDEBUG (u_exp_count <? INT_MAX);;
  let exp_count := int_of_uint64 u_exp_count in
  assert NDEBUG (skip_count pt <=? exp_count);;
  assert NDEBUG (exp_count <=? pending_count pt);;
  exp_count ← int_sub exp_count (skip_count pt);
  let pt := set_skip_count 0 pt in
  n ← int_sub (pending_count pt) exp_count;
  let pt := set_pending_count n pt in
  Returns (exp_count, pt, k).

(** What can happen to one timer, in any order. *)
Inductive timer_op : Set :=
| TSet (t_millis : Z)     (* ptimer_set(pt, (uint64_t) t_millis) *)
| TFire                   (* the deadline of the timer passes *)
| TCallback (uninit : Z). (* ptimer_callback(pt), entered with [uninit] in u_exp_count *)

Definition timer_step (op : timer_op) (s : ptimer_t * timerfd_t)
  : outcome (ptimer_t * timerfd_t) :=
  let '(pt, k) := s in
  match op with
  | TSet t => ptimer_set pt k (t mod 2 ^ 64)
  | TFire => match timerfd_fire k with
             | Some k => Returns (pt, k)
             | None => Returns (pt, k)    (* nothing is armed: no expiry *)
             end
  | TCallback u => '(_, pt, k) ← ptimer_callback pt k u; Returns (pt, k)
  end.

Fixpoint timer_run (ops : list timer_op) (s : ptimer_t * timerfd_t)
  : outcome (ptimer_t * timerfd_t) :=
  match ops with
  | [] => Returns s
  | op :: ops => s ← timer_step op s; timer_run ops s
  end.


(** *** What one call does *)




(** *** The invariant of the accounting *)

Definition armed_count (k : timerfd_t) : Z := if tfd_armed k then 1 else 0.

Definition timer_inv (s : ptimer_t * timerfd_t) : Prop :=
  0 ≤ skip_count s.1 ∧ 0 ≤ tfd_ticks s.2 ∧
  armed_count s.2 + tfd_ticks s.2 ≤ pending_count s.1 ≤ INT_MAX.









End Timer.



(** The timer is set anew after an expiry that is not yet read.  The
    kernel drops that expiry, [skip_count] counts it, and the callback for
    the expiry of the new timer subtracts it: it returns 0 for an expiry
    that nobody cancelled, and the timer comes to rest with
    [pending_count] 2. *)
Example ptimer_run_set_after_expiry NDEBUG :
  timer_run NDEBUG [TSet 5; TFire; TSet 7; TFire] (ptimer_init 7 true, timerfd_init)
    = Returns (set_skip_count 1 (set_pending_count 2 (ptimer_init 7 true)), mk_timerfd false 1) ∧
  ptimer_callback NDEBUG (set_skip_count 1 (set_pending_count 2 (ptimer_init 7 true)))
                  (mk_timerfd false 1) 0
    = Returns (0, set_pending_count 2 (ptimer_init 7 true), timerfd_init).
Proof. by destruct NDEBUG. Qed.

(** Two expiries in a row are each overtaken by a new setting before they
    are read, and the third is read: [skip_count] is 2 and the counter
    read is 1.  A debug build stops at [assert(exp_count >= skip_count)];
    a release build returns -1 and counts [pending_count] up to 4. *)
Example ptimer_run_two_skips :
  let ops := [TSet 5; TFire; TSet 7; TFire; TSet 9; TFire] in
  let pt := set_skip_count 2 (set_pending_count 3 (ptimer_init 7 true)) in
  timer_run true ops (ptimer_init 7 true, timerfd_init) = Returns (pt, mk_timerfd false 1) ∧
  timer_run false ops (ptimer_init 7 true, timerfd_init) = Returns (pt, mk_timerfd false 1) ∧
  ptimer_callback true pt (mk_timerfd false 1) 0
    = Returns (-1, set_pending_count 4 (ptimer_init 7 true), timerfd_init) ∧
  ptimer_callback false pt (mk_timerfd false 1) 0 = Aborts AssertFailed.
Proof. done. Qed.

(** ** Contexts and the proactor *)

Inductive pcontext_type_t : Set := PROACTOR | PCONNECTION | LISTENER | WAKEABLE.

(** [pcontext_t].  A [pcontext_t *] is an index into the memory of contexts
    ([None] is NULL).  The mutex is not a field: what it guards is changed
    by one function at a time.  [proactor] and [owner] are immutable and
    fixed by where the context is embedded. *)
Record pcontext_t : Set := mk_pcontext {
  ctx_type : pcontext_type_t;
  working : bool;
  wake_ops : Z;
  wake_next : option nat;
  closing : bool;
  next : option nat;
  prev : option nat;
  disconnect_ops : Z;
  disconnecting : bool
}.

Definition set_working (v : bool) (x : pcontext_t) : pcontext_t :=
  mk_pcontext (ctx_type x) v (wake_ops x) (wake_next x) (closing x) (next x) (prev x) (disconnect_ops x) (disconnecting x).
Definition set_wake_ops (v : Z) (x : pcontext_t) : pcontext_t :=
  mk_pcontext (ctx_type x) (working x) v (wake_next x) (closing x) (next x) (prev x) (disconnect_ops x) (disconnecting x).
Definition set_wake_next (v : option nat) (x : pcontext_t) : pcontext_t :=
  mk_pcontext (ctx_type x) (working x) (wake_ops x) v (closing x) (next x) (prev x) (disconnect_ops x) (disconnecting x).
Definition set_closing (v : bool) (x : pcontext_t) : pcontext_t :=
  mk_pcontext (ctx_type x) (working x) (wake_ops x) (wake_next x) v (next x) (prev x) (disconnect_ops x) (disconnecting x).
Definition set_next (v : option nat) (x : pcontext_t) : pcontext_t :=
  mk_pcontext (ctx_type x) (working x) (wake_ops x) (wake_next x) (closing x) v (prev x) (disconnect_ops x) (disconnecting x).
Definition set_prev (v : option nat) (x : pcontext_t) : pcontext_t :=
  mk_pcontext (ctx_type x) (working x) (wake_ops x) (wake_next x) (closing x) (next x) v (disconnect_ops x) (disconnecting x).
Definition set_disconnect_ops (v : Z) (x : pcontext_t) : pcontext_t :=
  mk_pcontext (ctx_type x) (working x) (wake_ops x) (wake_next x) (closing x) (next x) (prev x) v (disconnecting x).
Definition set_disconnecting (v : bool) (x : pcontext_t) : pcontext_t :=
  mk_pcontext (ctx_type x) (working x) (wake_ops x) (wake_next x) (closing x) (next x) (prev x) (disconnect_ops x) v.

(** [pcontext_init]: [memset] to zero, then the type. *)
Definition pcontext_init (t : pcontext_type_t) : pcontext_t :=
  mk_pcontext t false 0 None false None None 0 false.

(** [struct pn_proactor_t].  [p_context] is the address of the embedded
    [context]; [batch] only identifies the owner and is not stored. *)
Record pn_proactor_t : Type := mk_proactor {
  p_context : nat;
  epollfd : Z;
  timer : ptimer_t;
  collector : pn_collector_t;
  contexts : option nat;
  epoll_wake : epoll_extended_t;
  interrupts : Z;
  deferred_interrupts : Z;
  disconnects_pending : Z;
  inactive : bool;
  timer_expired : bool;
  timer_cancelled : bool;
  timer_armed : bool;
  shutting_down : bool;
  eventfd : Z;
  wakes_in_progress : bool;
  wake_list_first : option nat;
  wake_list_last : option nat
}.

Definition set_epollfd (v : Z) (x : pn_proactor_t) : pn_proactor_t :=
  mk_proactor (p_context x) v (timer x) (collector x) (contexts x) (epoll_wake x) (interrupts x) (deferred_interrupts x) (disconnects_pending x) (inactive x) (timer_expired x) (timer_cancelled x) (timer_armed x) (shutting_down x) (eventfd x) (wakes_in_progress x) (wake_list_first x) (wake_list_last x).
Definition set_timer (v : ptimer_t) (x : pn_proactor_t) : pn_proactor_t :=
  mk_proactor (p_context x) (epollfd x) v (collector x) (contexts x) (epoll_wake x) (interrupts x) (deferred_interrupts x) (disconnects_pending x) (inactive x) (timer_expired x) (timer_cancelled x) (timer_armed x) (shutting_down x) (eventfd x) (wakes_in_progress x) (wake_list_first x) (wake_list_last x).
Definition set_collector (v : pn_collector_t) (x : pn_proactor_t) : pn_proactor_t :=
  mk_proactor (p_context x) (epollfd x) (timer x) v (contexts x) (epoll_wake x) (interrupts x) (deferred_interrupts x) (disconnects_pending x) (inactive x) (timer_expired x) (timer_cancelled x) (timer_armed x) (shutting_down x) (eventfd x) (wakes_in_progress x) (wake_list_first x) (wake_list_last x).
Definition set_contexts (v : option nat) (x : pn_proactor_t) : pn_proactor_t :=
  mk_proactor (p_context x) (epollfd x) (timer x) (collector x) v (epoll_wake x) (interrupts x) (deferred_interrupts x) (disconnects_pending x) (inactive x) (timer_expired x) (timer_cancelled x) (timer_armed x) (shutting_down x) (eventfd x) (wakes_in_progress x) (wake_list_first x) (wake_list_last x).
Definition set_epoll_wake (v : epoll_extended_t) (x : pn_proactor_t) : pn_proactor_t :=
  mk_proactor (p_context x) (epollfd x) (timer x) (collector x) (contexts x) v (interrupts x) (deferred_interrupts x) (disconnects_pending x) (inactive x) (timer_expired x) (timer_cancelled x) (timer_armed x) (shutting_down x) (eventfd x) (wakes_in_progress x) (wake_list_first x) (wake_list_last x).
Definition set_interrupts (v : Z) (x : pn_proactor_t) : pn_proactor_t :=
  mk_proactor (p_context x) (epollfd x) (timer x) (collector x) (contexts x) (epoll_wake x) v (deferred_interrupts x) (disconnects_pending x) (inactive x) (timer_expired x) (timer_cancelled x) (timer_armed x) (shutting_down x) (eventfd x) (wakes_in_progress x) (wake_list_first x) (wake_list_last x).
Definition set_deferred_interrupts (v : Z) (x : pn_proactor_t) : pn_proactor_t :=
  mk_proactor (p_context x) (epollfd x) (timer x) (collector x) (contexts x) (epoll_wake x) (interrupts x) v (disconnects_pending x) (inactive x) (timer_expired x) (timer_cancelled x) (timer_armed x) (shutting_down x) (eventfd x) (wakes_in_progress x) (wake_list_first x) (wake_list_last x).
Definition set_disconnects_pending (v : Z) (x : pn_proactor_t) : pn_proactor_t :=
  mk_proactor (p_context x) (epollfd x) (timer x) (collector x) (contexts x) (epoll_wake x) (interrupts x) (deferred_interrupts x) v (inactive x) (timer_expired x) (timer_cancelled x) (timer_armed x) (shutting_down x) (eventfd x) (wakes_in_progress x) (wake_list_first x) (wake_list_last x).
Definition set_inactive (v : bool) (x : pn_proactor_t) : pn_proactor_t :=
  mk_proactor (p_context x) (epollfd x) (timer x) (collector x) (contexts x) (epoll_wake x) (interrupts x) (deferred_interrupts x) (disconnects_pending x) v (timer_expired x) (timer_cancelled x) (timer_armed x) (shutting_down x) (eventfd x) (wakes_in_progress x) (wake_list_first x) (wake_list_last x).
Definition set_timer_expired (v : bool) (x : pn_proactor_t) : pn_proactor_t :=
  mk_proactor (p_context x) (epollfd x) (timer x) (collector x) (contexts x) (epoll_wake x) (interrupts x) (deferred_interrupts x) (disconnects_pending x) (inactive x) v (timer_cancelled x) (timer_armed x) (shutting_down x) (eventfd x) (wakes_in_progress x) (wake_list_first x) (wake_list_last x).
Definition set_timer_cancelled (v : bool) (x : pn_proactor_t) : pn_proactor_t :=
  mk_proactor (p_context x) (epollfd x) (timer x) (collector x) (contexts x) (epoll_wake x) (interrupts x) (deferred_interrupts x) (disconnects_pending x) (inactive x) (timer_expired x) v (timer_armed x) (shutting_down x) (eventfd x) (wakes_in_progress x) (wake_list_first x) (wake_list_last x).
Definition set_timer_armed (v : bool) (x : pn_proactor_t) : pn_proactor_t :=
  mk_proactor (p_context x) (epollfd x) (timer x) (collector x) (contexts x) (epoll_wake x) (interrupts x) (deferred_interrupts x) (disconnects_pending x) (inactive x) (timer_expired x) (timer_cancelled x) v (shutting_down x) (eventfd x) (wakes_in_progress x) (wake_list_first x) (wake_list_last x).
Definition set_eventfd (v : Z) (x : pn_proactor_t) : pn_proactor_t :=
  mk_proactor (p_context x) (epollfd x) (timer x) (collector x) (contexts x) (epoll_wake x) (interrupts x) (deferred_interrupts x) (disconnects_pending x) (inactive x) (timer_expired x) (timer_cancelled x) (timer_armed x) (shutting_down x) v (wakes_in_progress x) (wake_list_first x) (wake_list_last x).
Definition set_wakes_in_progress (v : bool) (x : pn_proactor_t) : pn_proactor_t :=
  mk_proactor (p_context x) (epollfd x) (timer x) (collector x) (contexts x) (epoll_wake x) (interrupts x) (deferred_interrupts x) (disconnects_pending x) (inactive x) (timer_expired x) (timer_cancelled x) (timer_armed x) (shutting_down x) (eventfd x) v (wake_list_first x) (wake_list_last x).
Definition set_wake_list_first (v : option nat) (x : pn_proactor_t) : pn_proactor_t :=
  mk_proactor (p_context x) (epollfd x) (timer x) (collector x) (contexts x) (epoll_wake x) (interrupts x) (deferred_interrupts x) (disconnects_pending x) (inactive x) (timer_expired x) (timer_cancelled x) (timer_armed x) (shutting_down x) (eventfd x) (wakes_in_progress x) v (wake_list_last x).
Definition set_wake_list_last (v : option nat) (x : pn_proactor_t) : pn_proactor_t :=
  mk_proactor (p_context x) (epollfd x) (timer x) (collector x) (contexts x) (epoll_wake x) (interrupts x) (deferred_interrupts x) (disconnects_pending x) (inactive x) (timer_expired x) (timer_cancelled x) (timer_armed x) (shutting_down x) (eventfd x) (wakes_in_progress x) (wake_list_first x) v.

(** One proactor with the memory its contexts live in and the kernel objects
    it owns: the epoll instance, the eventfd counter and its own timerfd.
    [w_uninit] is what the stack holds where [ptimer_callback] has its
    [u_exp_count], which the function does not initialise. *)
Record world : Type := mk_world {
  w_mem : list pcontext_t;
  w_p : pn_proactor_t;
  w_epoll : epoll_set;
  w_eventfd : Z;
  w_timerfd : timerfd_t;
  w_uninit : Z
}.

Definition set_w_mem (v : list pcontext_t) (x : world) : world :=
  mk_world v (w_p x) (w_epoll x) (w_eventfd x) (w_timerfd x) (w_uninit x).
Definition set_w_p (v : pn_proactor_t) (x : world) : world :=
  mk_world (w_mem x) v (w_epoll x) (w_eventfd x) (w_timerfd x) (w_uninit x).
Definition set_w_epoll (v : epoll_set) (x : world) : world :=
  mk_world (w_mem x) (w_p x) v (w_eventfd x) (w_timerfd x) (w_uninit x).
Definition set_w_eventfd (v : Z) (x : world) : world :=
  mk_world (w_mem x) (w_p x) (w_epoll x) v (w_timerfd x) (w_uninit x).
Definition set_w_timerfd (v : timerfd_t) (x : world) : world :=
  mk_world (w_mem x) (w_p x) (w_epoll x) (w_eventfd x) v (w_uninit x).
Definition set_w_uninit (v : Z) (x : world) : world :=
  mk_world (w_mem x) (w_p x) (w_epoll x) (w_eventfd x) (w_timerfd x) v.

Definition load (w : world) (a : nat) : outcome pcontext_t :=
  match w_mem w !! a with
  | Some c => Returns c
  | None => Aborts Undefined
  end.

Definition store (a : nat) (c : pcontext_t) (w : world) : world :=
  set_w_mem (<[a := c]> (w_mem w)) w.

Definition update_p (f : pn_proactor_t → pn_proactor_t) (w : world) : world :=
  set_w_p (f (w_p w)) w.

(** [pn_proactor()], on the path where the kernel hands out the three
    descriptors; [None] stands for the NULL it returns otherwise.  The
    collector is created empty.  What the stack holds is not the
    proactor's doing: [w_uninit] starts as 0 and the step [PUninit] of the
    transition system below gives it any other value. *)
Definition pn_proactor (epfd efd tfd : Z) : option world :=
  if (epfd <? 0) || (efd <? 0) || (tfd <? 0) then None
  else
    let timer := ptimer_init tfd false in
    let '(tio, k, _) := start_polling (pt_epoll_io timer) epfd ∅ in
    let '(wio, k, _) := start_polling (mk_epoll_extended efd WAKE EPOLLIN false) epfd k in
    Some (mk_world [pcontext_init PROACTOR]
            (mk_proactor 0 epfd (set_pt_epoll_io tio timer) [] None wio
                         0 0 0 false false false true false efd false None None)
            k 0 timerfd_init 0).

(** ** The wake subsystem *)

(** The kernel side of the eventfd: [write] adds to the counter and fails
    (EAGAIN) when it would pass 2^64 - 2; [read] resets it. *)
Definition eventfd_write (count : Z) : option Z :=
  if count + 1 <? 2 ^ 64 - 1 then Some (count + 1) else None.

Section Wake.
Variable NDEBUG : bool.

(** part1: call with ctx->owner lock held, return true if notify required
    by caller *)
Definition wake (ctx : nat) (w : world) : outcome (bool * world) :=
  c ← load w ctx;
  if wake_ops c =? 0 then
    if negb (working c) then
      n ← int_incr (wake_ops c);
      let w := store ctx (set_wake_ops n c) w in
      w ← match wake_list_first (w_p w) with
          | None =>
              Returns (update_p (λ p, set_wake_list_last (Some ctx)
                                        (set_wake_list_first (Some ctx) p)) w)
          | Some _ =>
              match wake_list_last (w_p w) with
              | None => Aborts Undefined
              | Some l =>
                  cl ← load w l;
                  Returns (update_p (set_wake_list_last (Some ctx))
                                    (store l (set_wake_next (Some ctx) cl) w))
              end
          end;
      if negb (wakes_in_progress (w_p w)) then
        Returns (true, update_p (set_wakes_in_progress true) w)
      else Returns (false, w)
    else Returns (false, w)
  else Returns (false, w).

(** part2: make OS call without lock held *)
Definition wake_notify (w : world) : outcome world :=
  if eventfd (w_p w) =? -1 then Returns w
  else match eventfd_write (w_eventfd w) with
       | Some n => Returns (set_w_eventfd n w)
       | None => Aborts EpollFatal
       end.

Definition wake_pop_front (w : world) : outcome (option nat * world) :=
  assert NDEBUG (wakes_in_progress (w_p w));;
  '(ctx, w) ← match wake_list_first (w_p w) with
              | Some ctx =>
                  c ← load w ctx;
                  let w := update_p (set_wake_list_first (wake_next c)) w in
                  let w := match wake_list_first (w_p w) with
                           | None => update_p (set_wake_list_last None) w
                           | Some _ => w
                           end in
                  let w := store ctx (set_wake_next None c) w in
                  let w := match wake_list_first (w_p w) with
                           | None => update_p (set_wakes_in_progress false)
                                              (set_w_eventfd 0 w)
                           | Some _ => w
                           end in
                  Returns (Some ctx, w)
              | None => Returns (None, w)
              end;
  k ← rearm (epollfd (w_p w)) (epoll_wake (w_p w)) (w_epoll w);
  Returns (ctx, set_w_epoll k w).

(** call with owner lock held, once for each pop from the wake list *)
Definition wake_done (ctx : nat) (w : world) : outcome world :=
  c ← load w ctx;
  assert NDEBUG (0 <? wake_ops c);;
  n ← int_decr (wake_ops c);
  Returns (store ctx (set_wake_ops n c) w).

(** The wake list read off the memory: follow [wake_next] from
    [wake_list_first]. *)
Fixpoint wake_walk (mem : list pcontext_t) (fuel : nat) (cur : option nat) : list nat :=
  match fuel, cur with
  | S fuel, Some a =>
      a :: wake_walk mem fuel (match mem !! a with
                               | Some c => wake_next c
                               | None => None
                               end)
  | _, _ => []
  end.

Definition wake_queue (w : world) : list nat :=
  wake_walk (w_mem w) (length (w_mem w)) (wake_list_first (w_p w)).

(** *** The subsystem as a transition system

    The state adds what the threads hold in local variables: how many
    callers of [wake] were told to notify and have not yet done so, and the
    contexts returned by [wake_pop_front] whose processing function has not
    yet called [wake_done]. *)
Record wake_state : Type := mk_wake_state {
  ws_world : world;
  ws_owed : nat;
  ws_popped : list nat
}.

Inductive wake_op : Set :=
| WNew (t : pcontext_type_t)       (* pcontext_init of a new context *)
| WWake (ctx : nat)                (* wake(ctx) under the lock of ctx *)
| WNotify                          (* wake_notify by a caller told to *)
| WPop                             (* wake_pop_front *)
| WDone (ctx : nat)                (* wake_done(ctx) in the processing function *)
| WWorking (ctx : nat) (b : bool). (* ctx->working = b under the lock of ctx *)

Fixpoint remove_first (a : nat) (l : list nat) : list nat :=
  match l with
  | [] => []
  | x :: l => if decide (x = a) then l else x :: remove_first a l
  end.

Definition wake_step (op : wake_op) (s : wake_state) : outcome wake_state :=
  let w := ws_world s in
  match op with
  | WNew t =>
      Returns (mk_wake_state (set_w_mem (w_mem w ++ [pcontext_init t]) w)
                             (ws_owed s) (ws_popped s))
  | WWake ctx =>
      '(notify, w) ← wake ctx w;
      Returns (mk_wake_state w (if notify then S (ws_owed s) else ws_owed s) (ws_popped s))
  | WNotify =>
      match ws_owed s with
      | O => Returns s
      | S n => w ← wake_notify w; Returns (mk_wake_state w n (ws_popped s))
      end
  | WPop =>
      '(r, w) ← wake_pop_front w;
      Returns (mk_wake_state w (ws_owed s)
                             (match r with Some a => a :: ws_popped s | None => ws_popped s end))
  | WDone ctx =>
      if decide (ctx ∈ ws_popped s) then
        w ← wake_done ctx w;
        Returns (mk_wake_state w (ws_owed s) (remove_first ctx (ws_popped s)))
      else Returns s
  | WWorking ctx b =>
      c ← load w ctx;
      Returns (mk_wake_state (store ctx (set_working b c) w) (ws_owed s) (ws_popped s))
  end.

Fixpoint wake_run (ops : list wake_op) (s : wake_state) : outcome wake_state :=
  match ops with
  | [] => Returns s
  | op :: ops => s ← wake_step op s; wake_run ops s
  end.
End Wake.

Example wake_run_example :
  ∃ w0 s, pn_proactor 3 4 5 = Some w0 ∧
    wake_run false [WNew PCONNECTION; WNew LISTENER; WWake 1; WWake 2; WWake 1; WNotify;
                    WPop; WWake 1; WWake 0]
             (mk_wake_state w0 0 []) = Returns s ∧
    wake_queue (ws_world s) = [2; 0]%nat ∧ ws_popped s = [1%nat] ∧
    w_eventfd (ws_world s) = 1 ∧
    wake_ops <$> w_mem (ws_world s) = [1; 1; 1].
Proof.
  eexists _, _. split; [vm_compute; reflexivity|]. split; [vm_compute; reflexivity|].
  vm_compute. auto.
Qed.

(** *** The wake list is a list: the representation invariant *)

Inductive wake_chain (mem : list pcontext_t) : option nat → list nat → Prop :=
| wake_chain_nil : wake_chain mem None []
| wake_chain_cons a c q :
    mem !! a = Some c → wake_chain mem (wake_next c) q →
    wake_chain mem (Some a) (a :: q).

Lemma wake_chain_valid mem cur q a :
  wake_chain mem cur q → a ∈ q → is_Some (mem !! a).
Proof.
  induction 1 as [|b c q Hb Hq IH]; intros Hin.
  - by apply elem_of_nil in Hin.
  - apply elem_of_cons in Hin as [->|Hin]; eauto.
Qed.

Lemma wake_chain_walk mem cur q fuel :
  wake_chain mem cur q → (length q ≤ fuel)%nat → wake_walk mem fuel cur = q.
Proof.
  intros H. revert fuel. induction H as [|a c q Ha Hq IH]; intros fuel Hlen.
  - by destruct fuel.
  - destruct fuel as [|fuel]; simpl in *; [lia|].
    rewrite Ha. f_equal. apply IH. lia.
Qed.

Lemma wake_chain_app mem cur q x :
  wake_chain mem cur q → wake_chain (mem ++ [x]) cur q.
Proof.
  induction 1 as [|a c q Ha Hq IH]; econstructor; eauto.
  by apply lookup_app_l_Some.
Qed.

(** Writing to a context outside the list, or not to its [wake_next]. *)
Lemma wake_chain_store mem cur q a x :
  wake_chain mem cur q →
  (a ∉ q ∨ ∃ c, mem !! a = Some c ∧ wake_next x = wake_next c) →
  wake_chain (<[a := x]> mem) cur q.
Proof.
  induction 1 as [|b c q Hb Hq IH]; intros Hor; [constructor|].
  destruct (decide (a = b)) as [->|Hne].
  - destruct Hor as [Hnin|(c' & Hc' & Hnext)].
    + exfalso. apply Hnin. left.
    + rewrite Hb in Hc'. injection Hc' as <-.
      econstructor.
      * apply list_lookup_insert_eq. by eapply lookup_lt_Some.
      * rewrite Hnext. apply IH. right. eauto.
  - econstructor.
    + by rewrite list_lookup_insert_ne.
    + apply IH. destruct Hor as [Hnin|?]; [left|by right].
      intros Hin. apply Hnin. by right.
Qed.

(** Appending [a] behind the last element [l]. *)
Lemma wake_chain_snoc mem cur q l cl a ca :
  wake_chain mem cur q → last q = Some l → NoDup q →
  mem !! l = Some cl → mem !! a = Some ca → wake_next ca = None → a ∉ q →
  wake_chain (<[l := set_wake_next (Some a) cl]> mem) cur (q ++ [a]).
Proof.
  intros H. revert l cl. induction H as [|b c q Hb Hq IH]; intros l cl Hlast Hnd Hl Ha Hnone Hnin.
  - discriminate.
  - apply NoDup_cons in Hnd as [Hbq Hnd].
    assert (a ≠ b) by (intros ->; apply Hnin; left).
    destruct q as [|b' q].
    + simpl in Hlast. injection Hlast as <-. rewrite Hb in Hl. injection Hl as <-.
      inversion Hq as [Hnext|]; subst. simpl.
      econstructor.
      * apply list_lookup_insert_eq. by eapply lookup_lt_Some.
      * simpl. econstructor; [|rewrite Hnone; constructor].
        by rewrite list_lookup_insert_ne.
    + assert (l ≠ b).
      { intros ->. apply Hbq. change (last (b :: b' :: q)) with (last (b' :: q)) in Hlast.
        by apply last_Some_elem_of. }
      simpl. econstructor.
      * by rewrite list_lookup_insert_ne.
      * apply (IH l cl); auto.
        intros Hin. apply Hnin. by right.
Qed.

Lemma wake_chain_empty mem q : wake_chain mem None q → q = [].
Proof. by inversion 1. Qed.

Lemma NoDup_bounded_length (q : list nat) (n : nat) :
  NoDup q → (∀ a, a ∈ q → (a < n)%nat) → (length q ≤ n)%nat.
Proof.
  intros Hnd Hlt.
  assert (Hsub : q ⊆+ seq 0 n).
  { apply NoDup_submseteq; [done|]. intros a Ha. apply elem_of_seq. specialize (Hlt a Ha). lia. }
  apply submseteq_length in Hsub. by rewrite length_seq in Hsub.
Qed.

Section WakeInvariant.
Variable NDEBUG : bool.

(** [q] is the wake list of [s]: the chain from [wake_list_first] spells
    [q] and ends in [wake_list_last]; no context is in it or among the
    popped ones twice; [wake_ops] is 1 exactly for the contexts in the list
    or popped, and 0 for all others; a context outside the list has a NULL
    [wake_next]. *)
Record wake_inv (s : wake_state) (q : list nat) : Prop := mk_wake_inv {
  wi_chain : wake_chain (w_mem (ws_world s)) (wake_list_first (w_p (ws_world s))) q;
  wi_last : wake_list_last (w_p (ws_world s)) = last q;
  wi_nodup : NoDup (q ++ ws_popped s);
  wi_valid : ∀ a, a ∈ ws_popped s → is_Some (w_mem (ws_world s) !! a);
  wi_ops : ∀ a c, w_mem (ws_world s) !! a = Some c →
                  wake_ops c = if decide (a ∈ q ++ ws_popped s) then 1 else 0;
  wi_next : ∀ a c, w_mem (ws_world s) !! a = Some c → a ∉ q → wake_next c = None
}.

Lemma wake_inv_queue s q : wake_inv s q → wake_queue (ws_world s) = q.
Proof.
  intros [Hch _ Hnd _ _ _]. unfold wake_queue.
  apply wake_chain_walk; [done|].
  apply NoDup_bounded_length; [by apply NoDup_app in Hnd as [? _]|].
  intros a Ha. eapply lookup_lt_is_Some, wake_chain_valid; eauto.
Qed.

Lemma wake_inv_unique s q q' : wake_inv s q → wake_inv s q' → q = q'.
Proof. intros H H'. by rewrite <- (wake_inv_queue _ _ H), <- (wake_inv_queue _ _ H'). Qed.

Lemma wake_returns ctx s q notify w' c :
  wake_inv s q → w_mem (ws_world s) !! ctx = Some c →
  wake ctx (ws_world s) = Returns (notify, w') →
  if (wake_ops c =? 0) && negb (working c) then
    wake_inv (mk_wake_state w' (ws_owed s) (ws_popped s)) (q ++ [ctx]) ∧
    notify = negb (wakes_in_progress (w_p (ws_world s))) ∧
    wake_ops <$> (w_mem w' !! ctx) = Some 1 ∧
    length (w_mem w') = length (w_mem (ws_world s))
  else w' = ws_world s ∧ notify = false.
Proof.
  intros Hinv Hc H. destruct s as [w owed popped]. simpl in *.
  unfold wake, load in H. rewrite Hc in H. simpl in H.
  destruct (wake_ops c =? 0) eqn:Hops; simpl; [|by injection H as <- <-].
  destruct (working c) eqn:Hw; simpl in *; [by injection H as <- <-|].
  apply Z.eqb_eq in Hops.
  destruct Hinv as [Hch Hlast Hnd Hval Hwops Hnext]. simpl in *.
  assert (Hnin : ctx ∉ q ++ popped).
  { intros Hin. specialize (Hwops _ _ Hc). rewrite decide_True in Hwops by done. lia. }
  assert (Hnq : ctx ∉ q) by (intros ?; apply Hnin, elem_of_app; auto).
  assert (Hlt : (ctx < length (w_mem w))%nat) by (by eapply lookup_lt_Some).
  rewrite Hops in H. change (int_incr 0) with (Returns (A:=Z) 1) in H. simpl in H.
  destruct (wake_list_first (w_p w)) as [f|] eqn:Hfirst.
  - (* the list is not empty *)
    destruct (wake_list_last (w_p w)) as [l|] eqn:Hl; [|discriminate].
    assert (Hlq : l ∈ q) by (by apply last_Some_elem_of).
    assert (Hne : l ≠ ctx) by (intros ->; done).
    destruct (wake_chain_valid _ _ _ _ Hch Hlq) as [cl Hcl].
    unfold load, store in H. simpl in H.
    rewrite list_lookup_insert_ne in H by done. rewrite Hcl in H. simpl in H.
    assert (Hr : notify = negb (wakes_in_progress (w_p w)) ∧
                 w_mem w' = <[l := set_wake_next (Some ctx) cl]>
                              (<[ctx := set_wake_ops 1 c]> (w_mem w)) ∧
                 wake_list_first (w_p w') = Some f ∧
                 wake_list_last (w_p w') = Some ctx).
    { destruct (wakes_in_progress (w_p w)); simpl in H; injection H as <- <-;
        simpl; by rewrite ?Hfirst. }
    clear H. destruct Hr as (-> & Hmem & Hf' & Hl').
    split; [|split; [done|split]].
    + constructor; simpl.
      * rewrite Hmem, Hf'.
        apply (wake_chain_snoc _ _ _ _ cl _ (set_wake_ops 1 c)).
        -- apply wake_chain_store; auto.
        -- by rewrite <- Hlast.
        -- by apply NoDup_app in Hnd as [? _].
        -- by rewrite list_lookup_insert_ne.
        -- by apply list_lookup_insert_eq.
        -- simpl. eauto.
        -- done.
      * by rewrite Hl', last_snoc.
      * rewrite <- (assoc_L (++)). apply NoDup_app in Hnd as (Hq & Hdisj & Hp).
        apply NoDup_app. split; [done|]. split.
        -- intros x Hx Hx'. apply elem_of_cons in Hx' as [->|Hx']; [done|].
           by apply (Hdisj x).
        -- apply NoDup_cons. split; [|done].
           intros ?. apply Hnin, elem_of_app. auto.
      * intros a Ha. rewrite Hmem. apply lookup_lt_is_Some.
        rewrite !length_insert. apply lookup_lt_is_Some. auto.
      * intros a ca. rewrite Hmem. intros Ha.
        destruct (decide (a = l)) as [->|Hal].
        -- rewrite list_lookup_insert_eq in Ha
             by (rewrite length_insert; by eapply lookup_lt_Some).
           injection Ha as <-. simpl. rewrite (Hwops _ _ Hcl).
           rewrite !decide_True; [done|..]; rewrite !elem_of_app; auto.
        -- rewrite list_lookup_insert_ne in Ha by done.
           destruct (decide (a = ctx)) as [->|Hac].
           ++ rewrite list_lookup_insert_eq in Ha by done. injection Ha as <-. simpl.
              rewrite decide_True; [done|]. rewrite !elem_of_app, list_elem_of_singleton. auto.
           ++ rewrite list_lookup_insert_ne in Ha by done. rewrite (Hwops _ _ Ha).
              destruct (decide (a ∈ q ++ popped)) as [Hin|Hin].
              ** rewrite decide_True; [done|]. revert Hin. rewrite !elem_of_app. tauto.
              ** rewrite decide_False; [done|]. revert Hin.
                 rewrite !elem_of_app, list_elem_of_singleton. tauto.
      * intros a ca. rewrite Hmem. intros Ha Hna.
        rewrite elem_of_app, list_elem_of_singleton in Hna.
        assert (a ≠ l) by (intros ->; tauto).
        assert (a ≠ ctx) by tauto.
        rewrite !list_lookup_insert_ne in Ha by done. apply (Hnext _ _ Ha). tauto.
    + rewrite Hmem. rewrite list_lookup_insert_ne by done.
      by rewrite list_lookup_insert_eq.
    + by rewrite Hmem, !length_insert.
  - (* the list is empty *)
    apply wake_chain_empty in Hch as Hq. subst q. simpl in *.
    assert (Hr : notify = negb (wakes_in_progress (w_p w)) ∧
                 w_mem w' = <[ctx := set_wake_ops 1 c]> (w_mem w) ∧
                 wake_list_first (w_p w') = Some ctx ∧
                 wake_list_last (w_p w') = Some ctx).
    { unfold store in H. simpl in H.
      destruct (wakes_in_progress (w_p w)); simpl in H; injection H as <- <-; by simpl. }
    clear H. destruct Hr as (-> & Hmem & Hf' & Hl').
    split; [|split; [done|split]].
    + constructor; simpl.
      * rewrite Hmem, Hf'. econstructor.
        -- by apply list_lookup_insert_eq.
        -- simpl. rewrite (Hnext _ _ Hc) by apply not_elem_of_nil. constructor.
      * done.
      * apply NoDup_cons. split; [done|]. done.
      * intros a Ha. rewrite Hmem. apply lookup_lt_is_Some.
        rewrite length_insert. apply lookup_lt_is_Some. auto.
      * intros a ca. rewrite Hmem. intros Ha.
        destruct (decide (a = ctx)) as [->|Hac].
        -- rewrite list_lookup_insert_eq in Ha by done. injection Ha as <-. simpl.
           rewrite decide_True; [done|]. left.
        -- rewrite list_lookup_insert_ne in Ha by done. rewrite (Hwops _ _ Ha).
           destruct (decide (a ∈ popped)) as [Hin|Hin].
           ++ rewrite decide_True; [done|]. by right.
           ++ rewrite decide_False; [done|]. intros Hx.
              apply elem_of_cons in Hx as [?|?]; done.
      * intros a ca. rewrite Hmem. intros Ha Hna.
        assert (a ≠ ctx) by (intros ->; apply Hna; left).
        rewrite list_lookup_insert_ne in Ha by done.
        apply (Hnext _ _ Ha). apply not_elem_of_nil.
    + rewrite Hmem. by rewrite list_lookup_insert_eq.
    + by rewrite Hmem, length_insert.
Qed.

Lemma wake_pop_front_returns s q r w' :
  wake_inv s q → wake_pop_front NDEBUG (ws_world s) = Returns (r, w') →
  r = head q ∧
  wake_inv (mk_wake_state w' (ws_owed s)
              (match r with Some a => a :: ws_popped s | None => ws_popped s end))
           (tail q) ∧
  (∀ a, r = Some a → wake_next <$> (w_mem w' !! a) = Some None) ∧
  length (w_mem w') = length (w_mem (ws_world s)).
Proof.
  intros Hinv H. destruct s as [w owed popped]. simpl in *.
  destruct Hinv as [Hch Hlast Hnd Hval Hwops Hnext]. simpl in *.
  unfold wake_pop_front in H.
  apply outcome_bind_returns in H as ([] & _ & H).
  apply outcome_bind_returns in H as ([r1 w1] & H1 & H).
  apply outcome_bind_returns in H as (k & _ & H).
  injection H as <- <-.
  destruct (wake_list_first (w_p w)) as [a|] eqn:Hfirst.
  - inversion Hch as [|a' c q' Ha Hq']; subst. simpl.
    unfold load in H1. rewrite Ha in H1. simpl in H1.
    assert (Hlt : (a < length (w_mem w))%nat) by (by eapply lookup_lt_Some).
    pose proof Hnd as Hnd'. rewrite <- app_comm_cons in Hnd'.
    apply NoDup_cons in Hnd' as [Hanin Hnd'].
    assert (Haq : a ∉ q') by (intros ?; apply Hanin, elem_of_app; auto).
    assert (Hr : r1 = Some a ∧ w_mem w1 = <[a := set_wake_next None c]> (w_mem w) ∧
                 wake_list_first (w_p w1) = wake_next c ∧
                 wake_list_last (w_p w1) = last q').
    { destruct (wake_next c) as [b|] eqn:Hn; simpl in H1; rewrite ?Hn in H1; simpl in H1;
        injection H1 as <- <-; simpl; rewrite ?Hn; simpl; repeat split; try done.
      - rewrite Hlast. inversion Hq'; subst. done.
      - inversion Hq'; subst. done. }
    clear H1. destruct Hr as (-> & Hmem & Hf' & Hl').
    split; [done|]. split; [|split].
    + constructor; simpl.
      * rewrite Hmem, Hf'. apply wake_chain_store; auto.
      * done.
      * apply NoDup_app in Hnd' as (Hq & Hdisj & Hp).
        apply NoDup_app. split; [done|]. split.
        -- intros x Hx Hx'. apply elem_of_cons in Hx' as [->|Hx']; [done|].
           by apply (Hdisj x).
        -- apply NoDup_cons. split; [|done].
           intros ?. apply Hanin, elem_of_app. auto.
      * intros b Hb. rewrite Hmem. apply lookup_lt_is_Some. rewrite length_insert.
        apply lookup_lt_is_Some. apply elem_of_cons in Hb as [->|Hb]; eauto.
      * intros b cb. rewrite Hmem. intros Hb.
        assert (Hiff : b ∈ q' ++ a :: popped ↔ b ∈ (a :: q') ++ popped).
        { rewrite !elem_of_app, !elem_of_cons. tauto. }
        destruct (decide (b = a)) as [->|Hne].
        -- rewrite list_lookup_insert_eq in Hb by done. injection Hb as <-. simpl.
           rewrite (Hwops _ _ Ha).
           rewrite decide_True by (by left).
           rewrite decide_True by (apply Hiff; by left). done.
        -- rewrite list_lookup_insert_ne in Hb by done. rewrite (Hwops _ _ Hb).
           destruct (decide (b ∈ (a :: q') ++ popped)) as [Hin|Hin].
           ++ rewrite decide_True; [done|]. by apply Hiff.
           ++ rewrite decide_False; [done|]. by rewrite Hiff.
      * intros b cb. rewrite Hmem. intros Hb Hnb.
        destruct (decide (b = a)) as [->|Hne].
        -- rewrite list_lookup_insert_eq in Hb by done. by injection Hb as <-.
        -- rewrite list_lookup_insert_ne in Hb by done. apply (Hnext _ _ Hb).
           intros Hin. apply elem_of_cons in Hin as [?|?]; done.
    + intros b [= <-]. simpl. rewrite Hmem.
      by rewrite list_lookup_insert_eq.
    + simpl. by rewrite Hmem, length_insert.
  - apply wake_chain_empty in Hch as ->. injection H1 as <- <-. simpl.
    split; [done|]. split; [|split; [discriminate|done]].
    constructor; simpl; try done. rewrite Hfirst. constructor.
Qed.

Lemma elem_of_remove_first a b l :
  b ∈ remove_first a l → b ∈ l.
Proof.
  induction l as [|x l IH]; simpl; [done|].
  destruct (decide (x = a)); intros H; [by right|].
  apply elem_of_cons in H as [->|H]; [left|right; auto].
Qed.

Lemma NoDup_remove_first a l :
  NoDup l → NoDup (remove_first a l) ∧ (a ∉ remove_first a l) ∧
  ∀ b, b ≠ a → b ∈ l → b ∈ remove_first a l.
Proof.
  induction 1 as [|x l Hx Hl IH]; simpl.
  - split; [constructor|]. split; [apply not_elem_of_nil|]. intros b _ Hb.
    by apply elem_of_nil in Hb.
  - destruct IH as (IH1 & IH2 & IH3). destruct (decide (x = a)) as [->|Hne].
    + split; [done|]. split; [done|]. intros b Hb Hin.
      apply elem_of_cons in Hin as [?|?]; done.
    + split; [|split].
      * apply NoDup_cons. split; [|done]. intros ?. by apply Hx, (elem_of_remove_first a).
      * intros Hin. apply elem_of_cons in Hin as [?|?]; done.
      * intros b Hb Hin. apply elem_of_cons in Hin as [->|Hin]; [left|right; auto].
Qed.

Lemma wake_done_returns s q ctx w' :
  wake_inv s q → ctx ∈ ws_popped s →
  wake_done NDEBUG ctx (ws_world s) = Returns w' →
  wake_inv (mk_wake_state w' (ws_owed s) (remove_first ctx (ws_popped s))) q.
Proof.
  intros Hinv Hin H. destruct s as [w owed popped]. simpl in *.
  destruct Hinv as [Hch Hlast Hnd Hval Hwops Hnext]. simpl in *.
  destruct (Hval _ Hin) as [c Hc].
  assert (Hlt : (ctx < length (w_mem w))%nat) by (by eapply lookup_lt_Some).
  apply NoDup_app in Hnd as (Hq & Hdisj & Hp).
  assert (Hcq : ctx ∉ q) by (intros ?; by apply (Hdisj ctx)).
  destruct (NoDup_remove_first ctx _ Hp) as (Hp' & Hnin' & Hkeep).
  unfold wake_done, load in H. rewrite Hc in H. simpl in H.
  apply outcome_bind_returns in H as ([] & _ & H).
  rewrite (Hwops _ _ Hc) in H.
  rewrite decide_True in H by (apply elem_of_app; auto).
  injection H as <-.
  constructor; simpl.
  - apply wake_chain_store; auto.
  - done.
  - apply NoDup_app. split; [done|]. split; [|done].
    intros x Hx Hx'. apply (Hdisj x Hx). by apply (elem_of_remove_first ctx).
  - intros a Ha. apply lookup_lt_is_Some. rewrite length_insert. apply lookup_lt_is_Some.
    apply Hval. by apply (elem_of_remove_first ctx).
  - intros a ca Ha. destruct (decide (a = ctx)) as [->|Hne].
    + rewrite list_lookup_insert_eq in Ha by done. injection Ha as <-. simpl.
      rewrite decide_False; [done|]. rewrite elem_of_app. tauto.
    + rewrite list_lookup_insert_ne in Ha by done. rewrite (Hwops _ _ Ha).
      destruct (decide (a ∈ q ++ popped)) as [Hi|Hi].
      * rewrite decide_True; [done|]. apply elem_of_app in Hi as [?|?];
          apply elem_of_app; auto.
      * rewrite decide_False; [done|]. intros Hx. apply Hi.
        apply elem_of_app in Hx as [?|?]; apply elem_of_app; auto.
        right. by apply (elem_of_remove_first ctx).
  - intros a ca Ha Hna. destruct (decide (a = ctx)) as [->|Hne].
    + rewrite list_lookup_insert_eq in Ha by done. injection Ha as <-. simpl. eauto.
    + rewrite list_lookup_insert_ne in Ha by done. eauto.
Qed.

Lemma wake_inv_init epfd efd tfd w0 :
  pn_proactor epfd efd tfd = Some w0 → wake_inv (mk_wake_state w0 0 []) [].
Proof.
  unfold pn_proactor. destruct (_ || _); [discriminate|].
  destruct (start_polling _ _ _) as [[tio k] b].
  destruct (start_polling _ _ _) as [[wio k'] b'].
  intros [= <-]. constructor; simpl.
  - constructor.
  - done.
  - constructor.
  - intros a Ha. by apply elem_of_nil in Ha.
  - intros [|a] c Ha; simpl in Ha; [by injection Ha as <-|done].
  - intros [|a] c Ha; simpl in Ha; [by injection Ha as <-|done].
Qed.

Lemma wake_step_inv op s s' q :
  wake_inv s q → wake_step NDEBUG op s = Returns s' → ∃ q', wake_inv s' q'.
Proof.
  intros Hinv H. destruct op as [t|ctx| | |ctx|ctx b]; simpl in H.
  - (* a new context *)
    injection H as <-. exists q.
    destruct s as [w owed popped]. destruct Hinv as [Hch Hlast Hnd Hval Hwops Hnext].
    simpl in *.
    assert (Hold : ∀ a, a ∈ q ++ popped → (a < length (w_mem w))%nat).
    { intros a Ha. apply lookup_lt_is_Some. apply elem_of_app in Ha as [Ha|Ha]; auto.
      eapply wake_chain_valid; eauto. }
    constructor; simpl; auto.
    + by apply wake_chain_app.
    + intros a Ha. apply lookup_lt_is_Some. rewrite length_app.
      assert ((a < length (w_mem w))%nat) by (apply Hold, elem_of_app; auto). lia.
    + intros a c Ha. apply lookup_app_Some in Ha as [Ha|[Hge Ha]]; [eauto|].
      apply list_lookup_singleton_Some in Ha as [_ <-]. simpl.
      rewrite decide_False; [done|]. intros Hin. apply Hold in Hin. lia.
    + intros a c Ha Hna. apply lookup_app_Some in Ha as [Ha|[Hge Ha]]; [eauto|].
      by apply list_lookup_singleton_Some in Ha as [_ <-].
  - (* wake *)
    apply outcome_bind_returns in H as ([notify w'] & Hwake & H). injection H as <-.
    assert (Hload : ∃ c, w_mem (ws_world s) !! ctx = Some c).
    { unfold wake, load in Hwake. destruct (w_mem (ws_world s) !! ctx); eauto. discriminate. }
    destruct Hload as [c Hc].
    pose proof (wake_returns ctx s q notify w' c Hinv Hc Hwake) as Hr.
    destruct ((wake_ops c =? 0) && negb (working c)).
    + destruct Hr as (Hinv' & _). exists (q ++ [ctx]).
      destruct Hinv'. constructor; auto.
    + destruct Hr as [-> ->]. exists q. destruct Hinv. constructor; auto.
  - (* wake_notify *)
    destruct (ws_owed s) as [|n] eqn:Howed; [injection H as <-; eauto|].
    apply outcome_bind_returns in H as (w' & Hn & H). injection H as <-.
    exists q. unfold wake_notify in Hn.
    assert (Hsame : w_mem w' = w_mem (ws_world s) ∧ w_p w' = w_p (ws_world s)).
    { destruct (eventfd _ =? -1); [by injection Hn as <-|].
      destruct (eventfd_write _); [|discriminate]. by injection Hn as <-. }
    destruct Hsame as [Hm Hp]. destruct Hinv. constructor; simpl; rewrite ?Hm, ?Hp; auto.
  - (* wake_pop_front *)
    apply outcome_bind_returns in H as ([r w'] & Hpop & H). injection H as <-.
    exists (tail q). by apply (wake_pop_front_returns s q r w' Hinv Hpop).
  - (* wake_done *)
    destruct (decide (ctx ∈ ws_popped s)) as [Hin|Hnin]; [|injection H as <-; eauto].
    apply outcome_bind_returns in H as (w' & Hdone & H). injection H as <-.
    exists q. by apply wake_done_returns.
  - (* the working flag *)
    apply outcome_bind_returns in H as (c & Hc & H). injection H as <-.
    unfold load in Hc. destruct (w_mem (ws_world s) !! ctx) as [c'|] eqn:Hc'; [|discriminate].
    injection Hc as ->. exists q.
    assert (Hlt : (ctx < length (w_mem (ws_world s)))%nat) by (by eapply lookup_lt_Some).
    destruct Hinv as [Hch Hlast Hnd Hval Hwops Hnext]. constructor; simpl; auto.
    + apply wake_chain_store; eauto.
    + intros a Ha. apply lookup_lt_is_Some. rewrite length_insert.
      apply lookup_lt_is_Some. auto.
    + intros a ca Ha. destruct (decide (a = ctx)) as [->|Hne].
      * rewrite list_lookup_insert_eq in Ha by done. injection Ha as <-. simpl. eauto.
      * rewrite list_lookup_insert_ne in Ha by done. eauto.
    + intros a ca Ha. destruct (decide (a = ctx)) as [->|Hne].
      * rewrite list_lookup_insert_eq in Ha by done. injection Ha as <-. simpl. eauto.
      * rewrite list_lookup_insert_ne in Ha by done. eauto.
Qed.

Lemma wake_run_inv ops : ∀ s s' q,
  wake_inv s q → wake_run NDEBUG ops s = Returns s' → ∃ q', wake_inv s' q'.
Proof.
  induction ops as [|op ops IH]; simpl; intros s s' q Hinv H.
  - injection H as <-. eauto.
  - apply outcome_bind_returns in H as (s1 & Hstep & H).
    destruct (wake_step_inv _ _ _ _ Hinv Hstep) as [q1 Hinv1]. eauto.
Qed.

Lemma count_occ_NoDup (q : list nat) (a : nat) :
  NoDup q → count_occ Nat.eq_dec q a = if decide (a ∈ q) then 1%nat else 0%nat.
Proof.
  intros Hnd. destruct (decide (a ∈ q)) as [Hin|Hnin].
  - apply NoDup_ListNoDup in Hnd. apply list_elem_of_In in Hin.
    by apply (proj1 (NoDup_count_occ' Nat.eq_dec q) Hnd).
  - apply count_occ_not_In. by rewrite <- list_elem_of_In.
Qed.

(** C1.  In every state the wake subsystem reaches from a new proactor, by
    any interleaving of context creation, [wake], [wake_notify],
    [wake_pop_front], [wake_done] after a pop, and changes of [working]:
    a context is in the wake list at most once; a context with
    [wake_ops > 0] that has not been popped is in it exactly once;
    [wake(ctx)] appends [ctx] to the list and makes [wake_ops] 1 when
    [wake_ops == 0] and [working] is false, and otherwise changes nothing
    and asks for no notify; [wake_pop_front] returns the head of the list,
    removes it, and leaves it out of the list with a NULL [wake_next]. *)
Theorem wake_enqueues_once epfd efd tfd w0 ops s :
  pn_proactor epfd efd tfd = Some w0 →
  wake_run NDEBUG ops (mk_wake_state w0 0 []) = Returns s →
  ∀ ctx c, w_mem (ws_world s) !! ctx = Some c →
    (count_occ Nat.eq_dec (wake_queue (ws_world s)) ctx ≤ 1)%nat ∧
    (0 < wake_ops c → ctx ∉ ws_popped s →
       count_occ Nat.eq_dec (wake_queue (ws_world s)) ctx = 1%nat) ∧
    (∀ notify w', wake ctx (ws_world s) = Returns (notify, w') →
       if (wake_ops c =? 0) && negb (working c) then
         wake_queue w' = wake_queue (ws_world s) ++ [ctx] ∧
         wake_ops <$> (w_mem w' !! ctx) = Some 1
       else w' = ws_world s ∧ notify = false) ∧
    (∀ w', wake_pop_front NDEBUG (ws_world s) = Returns (Some ctx, w') →
       head (wake_queue (ws_world s)) = Some ctx ∧
       wake_queue w' = tail (wake_queue (ws_world s)) ∧
       count_occ Nat.eq_dec (wake_queue w') ctx = 0%nat ∧
       wake_next <$> (w_mem w' !! ctx) = Some None).
Proof.
  intros Hinit Hrun ctx c Hc.
  destruct (wake_run_inv _ _ _ _ (wake_inv_init _ _ _ _ Hinit) Hrun) as [q Hinv].
  pose proof (wake_inv_queue _ _ Hinv) as Hq. rewrite Hq.
  pose proof (wi_nodup _ _ Hinv) as Hnd.
  apply NoDup_app in Hnd as (Hndq & Hdisj & Hndp).
  rewrite (count_occ_NoDup q ctx Hndq).
  split; [|split; [|split]].
  - destruct (decide (ctx ∈ q)); lia.
  - intros Hpos Hnp. rewrite decide_True; [done|].
    pose proof (wi_ops _ _ Hinv _ _ Hc) as Hops.
    destruct (decide (ctx ∈ q ++ ws_popped s)) as [Hin|Hnin]; [|lia].
    apply elem_of_app in Hin as [?|?]; done.
  - intros notify w' Hwake.
    pose proof (wake_returns ctx s q notify w' c Hinv Hc Hwake) as Hr.
    destruct ((wake_ops c =? 0) && negb (working c)); [|done].
    destruct Hr as (Hinv' & _ & Hops' & _).
    apply wake_inv_queue in Hinv'. simpl in Hinv'. by rewrite Hinv'.
  - intros w' Hpop.
    destruct (wake_pop_front_returns s q _ w' Hinv Hpop) as (Hhead & Hinv' & Hnext & _).
    split; [done|]. pose proof (wake_inv_queue _ _ Hinv') as Hq'. simpl in Hq'.
    rewrite Hq'. split; [done|].
    split; [|by apply Hnext].
    pose proof (wi_nodup _ _ Hinv') as Hnd'. simpl in Hnd'.
    apply NoDup_app in Hnd' as (Hndq' & Hdisj' & _).
    rewrite (count_occ_NoDup _ ctx Hndq'). rewrite decide_False; [done|].
    intros Hin. apply (Hdisj' ctx Hin). left.
Qed.
End WakeInvariant.

Definition wake_demo_ops : list wake_op :=
  [WNew PCONNECTION; WWake 1; WWake 1; WNotify; WWake 0].

Lemma wake_enqueues_once_witness :
  ∃ w0 s, pn_proactor 3 4 5 = Some w0 ∧
    wake_run false wake_demo_ops (mk_wake_state w0 0 []) = Returns s ∧
    wake_queue (ws_world s) = [1; 0]%nat ∧
    (count_occ Nat.eq_dec (wake_queue (ws_world s)) 1 ≤ 1)%nat.
Proof.
  destruct (pn_proactor 3 4 5) as [w0|] eqn:H0; [|vm_compute in H0; discriminate].
  destruct (wake_run false wake_demo_ops (mk_wake_state w0 0 [])) as [s| |] eqn:H1.
  2,3: exfalso; vm_compute in H0; injection H0 as <-; vm_compute in H1; discriminate.
  assert (H2 : wake_queue (ws_world s) = [1; 0]%nat ∧ is_Some (w_mem (ws_world s) !! 1%nat)).
  { vm_compute in H0; injection H0 as <-; vm_compute in H1; injection H1 as <-.
    split; [vm_compute; reflexivity|]. eexists. vm_compute. reflexivity. }
  destruct H2 as [H2 [c Hc]].
  exists w0, s. split; [done|]. split; [done|]. split; [done|].
  exact (proj1 (wake_enqueues_once false 3 4 5 w0 _ s H0 H1 1%nat c Hc)).
Defined.

(** ** The proactor core *)

(** An event batch names its owner.  The owner of a connection or listener
    batch is given by the address of its context. *)
Inductive batch_t : Set :=
| proactor_batch
| pconnection_batch (ctx : nat)
| listener_batch (ctx : nat).

Definition proactor_has_event (w : world) : bool := has_peek (collector (w_p w)).

Definition proactor_add_event (t : pn_event_type_t) (w : world) : world :=
  update_p (λ p, set_collector (pn_collector_put (collector p) t) p) w.

(** Call with lock held.  Leave unchanged if events pending.  There can be
    multiple interrupts but only one inside the collector to avoid
    coalescing.  Return true if there is an event in the collector. *)
Definition proactor_update_batch (w : world) : bool * world :=
  if proactor_has_event w then (true, w)
  else if 0 <? deferred_interrupts (w_p w) then
    (* drain these first *)
    let w := update_p (λ p, set_deferred_interrupts (size_decr (deferred_interrupts p)) p) w in
    let w := update_p (λ p, set_interrupts (size_decr (interrupts p)) p) w in
    (true, proactor_add_event PN_PROACTOR_INTERRUPT w)
  else if timer_expired (w_p w) then
    let w := update_p (set_timer_expired false) w in
    (true, proactor_add_event PN_PROACTOR_TIMEOUT w)
  else
    let ec := 0 in
    let '(ec, w) :=
      if 0 <? interrupts (w_p w) then
        let w := update_p (λ p, set_interrupts (size_decr (interrupts p)) p) w in
        let w := proactor_add_event PN_PROACTOR_INTERRUPT w in
        let w := if 0 <? interrupts (w_p w)
                 then update_p (λ p, set_deferred_interrupts (interrupts p) p) w
                 else w in
        (ec + 1, w)
      else (ec, w) in
    let '(ec, w) :=
      if inactive (w_p w) && (ec =? 0) then
        let w := update_p (set_inactive false) w in
        (ec + 1, proactor_add_event PN_PROACTOR_INACTIVE w)
      else (ec, w) in
    (0 <? ec, w).

Definition proactor_batch_next (w : world) : option pn_event_type_t * world :=
  let '(_, w) := proactor_update_batch w in
  let '(e, c) := pn_collector_next (collector (w_p w)) in
  (e, update_p (set_collector c) w).

Section ProactorCore.
Variable NDEBUG : bool.

(** [ptimer_callback] and [ptimer_set] on the proactor's own timer. *)
Definition proactor_timer_callback (w : world) : outcome (Z * world) :=
  '(n, pt, k) ← ptimer_callback NDEBUG (timer (w_p w)) (w_timerfd w) (w_uninit w);
  Returns (n, set_w_timerfd k (update_p (set_timer pt) w)).

Definition proactor_timer_set (t_millis : Z) (w : world) : outcome world :=
  '(pt, k) ← ptimer_set NDEBUG (timer (w_p w)) (w_timerfd w) t_millis;
  Returns (set_w_timerfd k (update_p (set_timer pt) w)).

Definition set_ctx_working (ctx : nat) (b : bool) (w : world) : outcome world :=
  c ← load w ctx; Returns (store ctx (set_working b c) w).

Definition proactor_rearm_timer (w : world) : outcome world :=
  k ← rearm (epollfd (w_p w)) (pt_epoll_io (timer (w_p w))) (w_epoll w);
  Returns (set_w_epoll k w).

Definition proactor_process (timeout : bool) (w : world) : outcome (option batch_t * world) :=
  '(timer_fired, w) ← (if timeout then
                         '(n, w) ← proactor_timer_callback w; Returns (negb (n =? 0), w)
                       else Returns (false, w));
  (* lock(&p->context.mutex) *)
  w ← (if timeout then
         let w := update_p (set_timer_armed false) w in
         Returns (if timer_fired && negb (timer_cancelled (w_p w))
                  then update_p (set_timer_expired true) w else w)
       else wake_done NDEBUG (p_context (w_p w)) w);
  c ← load w (p_context (w_p w));
  let '(has_batch, w) :=
    if negb (working c) then proactor_update_batch w else (false, w) in
  if has_batch then
    w ← set_ctx_working (p_context (w_p w)) true w;
    Returns (Some proactor_batch, w)
  else
    let rearm_timer := negb (timer_armed (w_p w)) in
    (* unlock *)
    w ← (if rearm_timer then proactor_rearm_timer w else Returns w);
    Returns (None, w).

(** [pn_proactor_done], for the proactor's own batch. *)
Definition pn_proactor_done (w : world) : outcome world :=
  let rearm_timer := negb (timer_armed (w_p w)) in
  w ← set_ctx_working (p_context (w_p w)) false w;
  let '(_, w) := proactor_update_batch w in
  '(notify, w) ← (if proactor_has_event w then wake (p_context (w_p w)) w
                  else Returns (false, w));
  (* unlock *)
  w ← (if notify then wake_notify w else Returns w);
  if rearm_timer then proactor_rearm_timer w else Returns w.

Definition pn_proactor_interrupt (w : world) : outcome world :=
  let w := update_p (λ p, set_interrupts (size_incr (interrupts p)) p) w in
  '(notify, w) ← wake (p_context (w_p w)) w;
  if notify then wake_notify w else Returns w.

Definition pn_proactor_set_timeout (t : Z) (w : world) : outcome world :=
  let w := update_p (set_timer_cancelled false) w in
  '(notify, w) ← (if t =? 0 then
                    w ← proactor_timer_set 0 w;
                    let w := update_p (set_timer_expired true) w in
                    wake (p_context (w_p w)) w
                  else
                    w ← proactor_timer_set t w; Returns (false, w));
  if notify then wake_notify w else Returns w.

Definition pn_proactor_cancel_timeout (w : world) : outcome world :=
  let w := update_p (set_timer_cancelled true) w in  (* stays cancelled until next set_timeout() *)
  let w := update_p (set_timer_expired false) w in
  proactor_timer_set 0 w.

(** The end of [proactor_remove] and of [pn_proactor_disconnect] when the
    last context goes: [p->inactive = true; notify = wake(&p->context)]. *)
Definition proactor_set_inactive (w : world) : outcome world :=
  let w := update_p (set_inactive true) w in
  '(notify, w) ← wake (p_context (w_p w)) w;
  if notify then wake_notify w else Returns w.
End ProactorCore.

(** *** Dispatch of epoll events

    [process_inbound_wake] and [proactor_do_epoll] call the processing
    functions of connections and listeners, which the source declares ahead.
    Here they are parameters, over any state [S] that holds the proactor's
    world. *)

(** What [epoll_wait(p->epollfd, &ev, 1, timeout)] returns. *)
Inductive epoll_wait_t : Set :=
| epoll_wait_error (errno : Z)                                   (* n < 0 *)
| epoll_wait_none                                                (* n == 0 *)
| epoll_wait_event (type : epoll_type_t) (owner : nat) (events : Z).  (* n == 1 *)

Section Dispatch.
Variable NDEBUG : bool.
Context {S : Type} (world_of : S → world) (with_world : world → S → S).
(** [pconnection_process(pc, events, timeout, topup)] and
    [listener_process(ps, events)], the object given by the address of its
    context. *)
Variable pconnection_process : nat → Z → bool → bool → S → outcome (option batch_t * S).
Variable listener_process : nat → Z → S → outcome (option batch_t * S).

Definition on_world {A} (f : world → outcome (A * world)) (s : S) : outcome (A * S) :=
  '(a, w) ← f (world_of s); Returns (a, with_world w s).

Definition process_inbound_wake (s : S) : outcome (option batch_t * S) :=
  '(ctx, s) ← on_world (wake_pop_front NDEBUG) s;
  match ctx with
  | Some ctx =>
      c ← load (world_of s) ctx;
      match ctx_type c with
      | PROACTOR => on_world (proactor_process NDEBUG false) s
      | PCONNECTION => pconnection_process ctx 0 false false s
      | LISTENER => listener_process ctx 0 s
      | WAKEABLE => _ ← assert NDEBUG true; Returns (None, s)
      end
  | None => Returns (None, s)
  end.

(** The loop takes what [epoll_wait] returns, call after call, from
    [kernel]; once the list is used up nothing is ready any more. *)
Fixpoint proactor_do_epoll (can_block : bool) (kernel : list epoll_wait_t) (s : S)
  : outcome (option batch_t * S) :=
  match kernel with
  | [] => if can_block then Spins else Returns (None, s)
  | epoll_wait_error _ :: kernel | epoll_wait_none :: kernel =>
      if can_block then proactor_do_epoll can_block kernel s else Returns (None, s)
  | epoll_wait_event type owner events :: kernel =>
      '(batch, s) ← match type with
                    | WAKE => process_inbound_wake s
                    | PROACTOR_TIMER => on_world (proactor_process NDEBUG true) s
                    | PCONNECTION_IO => pconnection_process owner events false false s
                    | PCONNECTION_TIMER => pconnection_process owner 0 true false s
                    | LISTENER_IO => listener_process owner events s
                    end;
      match batch with
      | Some b => Returns (Some b, s)
      | None => proactor_do_epoll can_block kernel s  (* epoll_wait() again *)
      end
  end.

Definition pn_proactor_wait := proactor_do_epoll true.
Definition pn_proactor_get := proactor_do_epoll false.
End Dispatch.

(** *** The proactor's own context as a transition system

    The calls an application and the kernel can make on a proactor that
    concern its own context, in any order, and what the calls in between
    leave on the stack.  The state records the events that
    [proactor_batch_next] has handed out so far. *)
Record proactor_state : Type := mk_proactor_state {
  ps_world : world;
  ps_delivered : list pn_event_type_t
}.

Inductive proactor_op : Set :=
| PInterrupt                           (* pn_proactor_interrupt *)
| PSetTimeout (t : Z)                  (* pn_proactor_set_timeout *)
| PCancelTimeout                       (* pn_proactor_cancel_timeout *)
| PTimerFire                           (* the deadline of the proactor's timer passes *)
| PGet (kernel : list epoll_wait_t)    (* pn_proactor_get *)
| PWait (kernel : list epoll_wait_t)   (* pn_proactor_wait *)
| PBatchNext                           (* proactor_batch_next through the batch *)
| PDone                                (* pn_proactor_done of the proactor's batch *)
| PInactive                            (* the last context is removed *)
| PUninit (u : Z).                     (* other calls leave [u] on the stack, where
                                          ptimer_callback will have its u_exp_count *)

Section ProactorMachine.
Variable NDEBUG : bool.

(** No connection and no listener is registered with this proactor. *)
Definition no_pconnection (ctx : nat) (events : Z) (timeout topup : bool) (w : world)
  : outcome (option batch_t * world) := Aborts Undefined.
Definition no_listener (ctx : nat) (events : Z) (w : world)
  : outcome (option batch_t * world) := Aborts Undefined.

Definition proactor_epoll (can_block : bool) (kernel : list epoll_wait_t) (w : world)
  : outcome (option batch_t * world) :=
  proactor_do_epoll NDEBUG id (λ w _, w) no_pconnection no_listener can_block kernel w.

Definition proactor_step (op : proactor_op) (s : proactor_state) : outcome proactor_state :=
  let w := ps_world s in
  let keep (w : world) := Returns (mk_proactor_state w (ps_delivered s)) in
  match op with
  | PInterrupt => w ← pn_proactor_interrupt w; keep w
  | PSetTimeout t => w ← pn_proactor_set_timeout NDEBUG (t mod 2 ^ 32) w; keep w
  | PCancelTimeout => w ← pn_proactor_cancel_timeout NDEBUG w; keep w
  | PTimerFire =>
      match timerfd_fire (w_timerfd w) with
      | Some k => keep (set_w_timerfd k w)
      | None => keep w
      end
  | PGet kernel => '(_, w) ← proactor_epoll false kernel w; keep w
  | PWait kernel => '(_, w) ← proactor_epoll true kernel w; keep w
  | PBatchNext =>
      let '(e, w) := proactor_batch_next w in
      Returns (mk_proactor_state w (match e with
                                    | Some e => ps_delivered s ++ [e]
                                    | None => ps_delivered s
                                    end))
  | PDone => w ← pn_proactor_done w; keep w
  | PInactive => w ← proactor_set_inactive w; keep w
  | PUninit u => keep (set_w_uninit u w)
  end.

Fixpoint proactor_run (ops : list proactor_op) (s : proactor_state) : outcome proactor_state :=
  match ops with
  | [] => Returns s
  | op :: ops => s ← proactor_step op s; proactor_run ops s
  end.

(** Every event produced so far: handed out, or still in the collector. *)
Definition produced (s : proactor_state) : list pn_event_type_t :=
  ps_delivered s ++ collector (w_p (ps_world s)).
End ProactorMachine.

Definition count_event (t : pn_event_type_t) (l : list pn_event_type_t) : Z :=
  Z.of_nat (length (filter (λ e, e = t) l)).

Fixpoint count_interrupt_calls (ops : list proactor_op) : Z :=
  match ops with
  | [] => 0
  | PInterrupt :: ops => 1 + count_interrupt_calls ops
  | _ :: ops => count_interrupt_calls ops
  end.

Example proactor_run_interrupts :
  ∃ w0 s, pn_proactor 3 4 5 = Some w0 ∧
    proactor_run false [PInterrupt; PInterrupt; PGet [epoll_wait_event WAKE 0 EPOLLIN];
                        PInterrupt; PBatchNext; PBatchNext; PBatchNext; PBatchNext; PDone]
                 (mk_proactor_state w0 []) = Returns s ∧
    ps_delivered s = [PN_PROACTOR_INTERRUPT; PN_PROACTOR_INTERRUPT; PN_PROACTOR_INTERRUPT] ∧
    interrupts (w_p (ps_world s)) = 0.
Proof.
  eexists _, _. split; [vm_compute; reflexivity|]. split; [vm_compute; reflexivity|].
  vm_compute. auto.
Qed.

(** *** What the calls do to the fields that decide the events *)

Record core : Type := mk_core {
  c_collector : pn_collector_t;
  c_interrupts : Z;
  c_deferred : Z;
  c_inactive : bool;
  c_expired : bool;
  c_cancelled : bool
}.

Definition core_of (w : world) : core :=
  let p := w_p w in
  mk_core (collector p) (interrupts p) (deferred_interrupts p) (inactive p)
          (timer_expired p) (timer_cancelled p).

Inductive core_label : Set :=
| LUpdate            (* proactor_update_batch *)
| LNext              (* pn_collector_next, the event goes to the application *)
| LInterrupt         (* ++p->interrupts *)
| LExpire            (* if (timer_fired && !p->timer_cancelled) p->timer_expired = true *)
| LSetTimeout (zero : bool)
| LCancel
| LInactive.

Definition core_update_batch (c : core) : core :=
  match c_collector c with
  | _ :: _ => c
  | [] =>
      if 0 <? c_deferred c then
        mk_core [PN_PROACTOR_INTERRUPT] (size_decr (c_interrupts c)) (size_decr (c_deferred c))
                (c_inactive c) (c_expired c) (c_cancelled c)
      else if c_expired c then
        mk_core [PN_PROACTOR_TIMEOUT] (c_interrupts c) (c_deferred c) (c_inactive c)
                false (c_cancelled c)
      else if 0 <? c_interrupts c then
        let i := size_decr (c_interrupts c) in
        mk_core [PN_PROACTOR_INTERRUPT] i (if 0 <? i then i else c_deferred c)
                (c_inactive c) (c_expired c) (c_cancelled c)
      else if c_inactive c then
        mk_core [PN_PROACTOR_INACTIVE] (c_interrupts c) (c_deferred c) false
                (c_expired c) (c_cancelled c)
      else c
  end.

Definition core_apply (a : core * list pn_event_type_t) (l : core_label)
  : core * list pn_event_type_t :=
  let '(c, delivered) := a in
  match l with
  | LUpdate => (core_update_batch c, delivered)
  | LNext =>
      match c_collector c with
      | [] => (c, delivered)
      | e :: q => (mk_core q (c_interrupts c) (c_deferred c) (c_inactive c) (c_expired c)
                           (c_cancelled c), delivered ++ [e])
      end
  | LInterrupt =>
      (mk_core (c_collector c) (size_incr (c_interrupts c)) (c_deferred c) (c_inactive c)
               (c_expired c) (c_cancelled c), delivered)
  | LExpire =>
      (mk_core (c_collector c) (c_interrupts c) (c_deferred c) (c_inactive c)
               (c_expired c || negb (c_cancelled c)) (c_cancelled c), delivered)
  | LSetTimeout zero =>
      (mk_core (c_collector c) (c_interrupts c) (c_deferred c) (c_inactive c)
               (c_expired c || zero) false, delivered)
  | LCancel =>
      (mk_core (c_collector c) (c_interrupts c) (c_deferred c) (c_inactive c) false true,
       delivered)
  | LInactive =>
      (mk_core (c_collector c) (c_interrupts c) (c_deferred c) true (c_expired c)
               (c_cancelled c), delivered)
  end.

Definition abs_of (s : proactor_state) : core * list pn_event_type_t :=
  (core_of (ps_world s), ps_delivered s).

Lemma proactor_update_batch_core w :
  core_of (proactor_update_batch w).2 = core_update_batch (core_of w).
Proof.
  unfold proactor_update_batch, core_update_batch, proactor_has_event, has_peek,
    pn_collector_peek, proactor_add_event, core_of, update_p.
  destruct w as [mem p ke kv kt]. destruct p. cbn.
  destruct collector0 as [|e q]; cbn; [|done].
  destruct (0 <? deferred_interrupts0) eqn:Hd; cbn; [done|].
  destruct timer_expired0; cbn; [done|].
  destruct (0 <? interrupts0) eqn:Hi; cbn.
  - rewrite andb_false_r.
    destruct (0 <? size_decr interrupts0) eqn:Hi'; cbn; rewrite ?Hi'; done.
  - destruct inactive0; cbn; done.
Qed.

(** The helpers leave those fields alone. *)
Lemma wake_core ctx w notify w' :
  wake ctx w = Returns (notify, w') → core_of w' = core_of w.
Proof.
  unfold wake, load, int_incr, int_add. intros H.
  destruct (w_mem w !! ctx) as [c|]; [|discriminate]. simpl in H.
  destruct (wake_ops c =? 0); [|by injection H as <- <-].
  destruct (working c); simpl in H; [by injection H as <- <-|].
  destruct (_ && _); [|discriminate]. simpl in H.
  destruct (wake_list_first (w_p w)).
  - destruct (wake_list_last (w_p w)) as [l|]; [|discriminate]. simpl in H.
    destruct (_ !! l); [|discriminate]. simpl in H.
    destruct (wakes_in_progress (w_p w)); simpl in H; by injection H as <- <-.
  - simpl in H. destruct (wakes_in_progress (w_p w)); simpl in H; by injection H as <- <-.
Qed.

Lemma wake_notify_core w w' : wake_notify w = Returns w' → core_of w' = core_of w.
Proof.
  unfold wake_notify. destruct (eventfd (w_p w) =? -1); [by intros [= <-]|].
  destruct (eventfd_write _); [|discriminate]. by intros [= <-].
Qed.

Lemma wake_then_notify_core ctx w w' :
  ('(notify, w) ← wake ctx w; if notify then wake_notify w else Returns w) = Returns w' →
  core_of w' = core_of w.
Proof.
  intros H. apply outcome_bind_returns in H as ([notify w1] & H1 & H).
  apply wake_core in H1. destruct notify.
  - apply wake_notify_core in H. congruence.
  - injection H as <-. done.
Qed.

Lemma core_of_set_timer_expired b w :
  core_of (update_p (set_timer_expired b) w) =
  mk_core (c_collector (core_of w)) (c_interrupts (core_of w)) (c_deferred (core_of w))
          (c_inactive (core_of w)) b (c_cancelled (core_of w)).
Proof. done. Qed.

Section CoreFrames.
Variable NDEBUG : bool.

Lemma wake_done_core ctx w w' :
  wake_done NDEBUG ctx w = Returns w' → core_of w' = core_of w.
Proof. unfold wake_done, load. intros H. outcome_inv. done. Qed.

Lemma wake_pop_front_core w r w' :
  wake_pop_front NDEBUG w = Returns (r, w') → core_of w' = core_of w.
Proof.
  unfold wake_pop_front, load, rearm. intros H.
  apply outcome_bind_returns in H as ([] & _ & H).
  apply outcome_bind_returns in H as ([r1 w1] & H1 & H).
  apply outcome_bind_returns in H as (k & _ & H). injection H as <- <-.
  destruct (wake_list_first (w_p w)) as [a|]; [|by injection H1 as <- <-].
  destruct (w_mem w !! a) as [c|]; [|discriminate]. simpl in H1.
  destruct (wake_next c); simpl in H1; by injection H1 as <- <-.
Qed.

Lemma set_ctx_working_core ctx b w w' :
  set_ctx_working ctx b w = Returns w' → core_of w' = core_of w.
Proof. unfold set_ctx_working, load. intros H. outcome_inv. done. Qed.

Lemma proactor_rearm_timer_core w w' :
  proactor_rearm_timer w = Returns w' → core_of w' = core_of w.
Proof. unfold proactor_rearm_timer. intros H. outcome_inv. done. Qed.

Lemma proactor_timer_set_core t w w' :
  proactor_timer_set NDEBUG t w = Returns w' → core_of w' = core_of w.
Proof.
  unfold proactor_timer_set. intros H.
  apply outcome_bind_returns in H as ([pt k] & _ & H). by injection H as <-.
Qed.

Lemma proactor_timer_callback_core w n w' :
  proactor_timer_callback NDEBUG w = Returns (n, w') → core_of w' = core_of w.
Proof.
  unfold proactor_timer_callback. intros H.
  apply outcome_bind_returns in H as ([[n' pt] k] & _ & H). by injection H as <- <-.
Qed.
End CoreFrames.

Definition core_run (ls : list core_label) (a : core * list pn_event_type_t)
  : core * list pn_event_type_t :=
  fold_left core_apply ls a.

Lemma core_run_app ls1 ls2 a : core_run (ls1 ++ ls2) a = core_run ls2 (core_run ls1 a).
Proof. apply fold_left_app. Qed.

Definition label_quiet (l : core_label) : Prop := l = LUpdate ∨ l = LExpire.

Section CoreRefinement.
Variable NDEBUG : bool.

Lemma proactor_process_core timeout w b w' d :
  proactor_process NDEBUG timeout w = Returns (b, w') →
  ∃ ls, (core_of w', d) = core_run ls (core_of w, d) ∧ Forall label_quiet ls.
Proof.
  unfold proactor_process. intros H.
  apply outcome_bind_returns in H as ([fired w1] & H1 & H).
  apply outcome_bind_returns in H as (w2 & H2 & H).
  apply outcome_bind_returns in H as (c & _ & H).
  assert (Hw2 : ∃ ls, (core_of w2, d) = core_run ls (core_of w, d) ∧ Forall label_quiet ls).
  { destruct timeout.
    - apply outcome_bind_returns in H1 as ([n w0] & Hcb & H1). injection H1 as <- <-.
      apply proactor_timer_callback_core in Hcb. injection H2 as <-.
      rewrite <- Hcb. clear. destruct w0 as [m0 p0 ke kv kt]. destruct p0.
      destruct (negb (n =? 0)), timer_cancelled0; cbn.
      * exists []. split; [done|constructor].
      * exists [LExpire]. split; [|repeat constructor; by right].
        cbn. by rewrite orb_true_r.
      * exists []. split; [done|constructor].
      * exists []. split; [done|constructor].
    - injection H1 as <- <-. apply wake_done_core in H2.
      exists []. split; [|constructor]. cbn. by rewrite H2. }
  destruct Hw2 as (ls & Hls & Hq).
  destruct (negb (working c)).
  - pose proof (proactor_update_batch_core w2) as Hub.
    destruct (proactor_update_batch w2) as [has_batch w3]. simpl in Hub.
    exists (ls ++ [LUpdate]). split; [|apply Forall_app; split; [done|repeat constructor; by left]].
    rewrite core_run_app, <- Hls. cbn. rewrite <- Hub.
    destruct has_batch.
    + apply outcome_bind_returns in H as (w4 & H4 & H). injection H as <- <-.
      apply set_ctx_working_core in H4. by rewrite H4.
    + apply outcome_bind_returns in H as (w4 & H4 & H). injection H as <- <-.
      destruct (negb (timer_armed (w_p w3))).
      * apply proactor_rearm_timer_core in H4. by rewrite H4.
      * by injection H4 as <-.
  - exists ls. split; [|done]. rewrite <- Hls.
    apply outcome_bind_returns in H as (w4 & H4 & H). injection H as <- <-.
    destruct (negb (timer_armed (w_p w2))).
    + apply proactor_rearm_timer_core in H4. by rewrite H4.
    + by injection H4 as <-.
Qed.

Lemma proactor_epoll_core can_block kernel : ∀ w b w' d,
  proactor_epoll NDEBUG can_block kernel w = Returns (b, w') →
  ∃ ls, (core_of w', d) = core_run ls (core_of w, d) ∧ Forall label_quiet ls.
Proof.
  unfold proactor_epoll.
  induction kernel as [|ev kernel IH]; intros w b w' d H; simpl in H.
  - destruct can_block; [discriminate|]. injection H as <- <-.
    exists []. split; [done|constructor].
  - destruct ev as [errno| |type owner events].
    + destruct can_block; [eauto|]. injection H as <- <-.
      exists []. split; [done|constructor].
    + destruct can_block; [eauto|]. injection H as <- <-.
      exists []. split; [done|constructor].
    + apply outcome_bind_returns in H as ([batch w1] & H1 & H).
      assert (Hw1 : ∃ ls, (core_of w1, d) = core_run ls (core_of w, d) ∧ Forall label_quiet ls).
      { destruct type; try discriminate H1.
        - (* WAKE *)
          unfold process_inbound_wake, on_world in H1. simpl in H1.
          apply outcome_bind_returns in H1 as ([ctx w2] & Hpop & H1).
          apply outcome_bind_returns in Hpop as ([ctx' w3] & Hpop & Heq).
          injection Heq as <- <-. apply wake_pop_front_core in Hpop.
          destruct ctx' as [ctx|].
          + apply outcome_bind_returns in H1 as (c & _ & H1).
            destruct (ctx_type c); try discriminate H1.
            * apply outcome_bind_returns in H1 as ([b2 w4] & Hp & Heq).
              injection Heq as <- <-.
              apply (proactor_process_core _ _ _ _ d) in Hp. by rewrite Hpop in Hp.
            * apply outcome_bind_returns in H1 as ([] & _ & H1). injection H1 as <- <-.
              exists []. split; [by rewrite <- Hpop|constructor].
          + injection H1 as <- <-. exists []. split; [by rewrite <- Hpop|constructor].
        - (* PROACTOR_TIMER *)
          unfold on_world in H1. simpl in H1.
          apply outcome_bind_returns in H1 as ([b2 w4] & Hp & Heq). injection Heq as <- <-.
          by apply (proactor_process_core _ _ _ _ d) in Hp. }
      destruct Hw1 as (ls1 & Hls1 & Hq1).
      destruct batch as [b1|].
      * injection H as <- <-. eauto.
      * destruct (IH _ _ _ d H) as (ls2 & Hls2 & Hq2).
        exists (ls1 ++ ls2). split; [|by apply Forall_app].
        by rewrite core_run_app, <- Hls1.
Qed.

Definition labels_ok (op : proactor_op) (ls : list core_label) : Prop :=
  match op with
  | PInterrupt => ls = [LInterrupt]
  | PSetTimeout _ => ∃ zero, ls = [LSetTimeout zero]
  | PCancelTimeout => ls = [LCancel]
  | PTimerFire => ls = []
  | PGet _ | PWait _ => Forall label_quiet ls
  | PBatchNext => ls = [LUpdate; LNext]
  | PDone => ls = [LUpdate]
  | PInactive => ls = [LInactive]
  | PUninit _ => ls = []
  end.

Lemma proactor_step_core op s s' :
  proactor_step NDEBUG op s = Returns s' →
  ∃ ls, abs_of s' = core_run ls (abs_of s) ∧ labels_ok op ls.
Proof.
  destruct s as [w d]. unfold abs_of. destruct op; simpl; intros H.
  - (* interrupt *)
    apply outcome_bind_returns in H as (w1 & H1 & H). injection H as <-.
    exists [LInterrupt]. split; [|done]. simpl.
    unfold pn_proactor_interrupt in H1. apply wake_then_notify_core in H1. by rewrite H1.
  - (* set_timeout *)
    apply outcome_bind_returns in H as (w1 & H1 & H). injection H as <-.
    exists [LSetTimeout (t mod 2 ^ 32 =? 0)]. split; [|eauto]. simpl.
    unfold pn_proactor_set_timeout in H1.
    apply outcome_bind_returns in H1 as ([notify w2] & H2 & H1).
    assert (Hw1 : core_of w1 = core_of w2).
    { destruct notify; [by apply wake_notify_core in H1|by injection H1 as <-]. }
    rewrite Hw1. destruct (t mod 2 ^ 32 =? 0).
    + apply outcome_bind_returns in H2 as (w3 & H3 & H2).
      apply wake_core in H2. apply proactor_timer_set_core in H3. rewrite H2.
      rewrite core_of_set_timer_expired, H3. cbn. by rewrite orb_true_r.
    + apply outcome_bind_returns in H2 as (w3 & H3 & H2). injection H2 as <- <-.
      apply proactor_timer_set_core in H3. rewrite H3.
      unfold core_of. cbn. by rewrite orb_false_r.
  - (* cancel_timeout *)
    apply outcome_bind_returns in H as (w1 & H1 & H). injection H as <-.
    exists [LCancel]. split; [|done]. simpl.
    unfold pn_proactor_cancel_timeout in H1. apply proactor_timer_set_core in H1.
    by rewrite H1.
  - (* the timer fires *)
    exists []. split; [|done]. destruct (timerfd_fire _); by injection H as <-.
  - apply outcome_bind_returns in H as ([b w1] & H1 & H). injection H as <-.
    by apply (proactor_epoll_core _ _ _ _ _ d) in H1.
  - apply outcome_bind_returns in H as ([b w1] & H1 & H). injection H as <-.
    by apply (proactor_epoll_core _ _ _ _ _ d) in H1.
  - (* batch_next *)
    exists [LUpdate; LNext]. split; [|done].
    unfold proactor_batch_next in H. pose proof (proactor_update_batch_core w) as Hub.
    destruct (proactor_update_batch w) as [b w1]. simpl in Hub.
    cbn. rewrite <- Hub. clear Hub.
    destruct w1 as [m1 p1 ke kv kt]. destruct p1. cbn in *.
    destruct collector0 as [|e q]; cbn in *; by injection H as <-.
  - (* done *)
    apply outcome_bind_returns in H as (w1 & H1 & H). injection H as <-.
    exists [LUpdate]. split; [|done]. cbn.
    unfold pn_proactor_done in H1.
    apply outcome_bind_returns in H1 as (w2 & H2 & H1).
    apply set_ctx_working_core in H2.
    pose proof (proactor_update_batch_core w2) as Hub.
    destruct (proactor_update_batch w2) as [b w3]. simpl in Hub.
    rewrite <- H2, <- Hub.
    apply outcome_bind_returns in H1 as ([notify w4] & H4 & H1).
    apply outcome_bind_returns in H1 as (w5 & H5 & H1).
    assert (core_of w4 = core_of w3).
    { destruct (proactor_has_event w3); [by apply wake_core in H4|by injection H4 as <- <-]. }
    assert (core_of w5 = core_of w4).
    { destruct notify; [by apply wake_notify_core in H5|by injection H5 as <-]. }
    assert (core_of w1 = core_of w5).
    { destruct (negb (timer_armed (w_p w)));
        [by apply proactor_rearm_timer_core in H1|by injection H1 as <-]. }
    congruence.
  - (* inactive *)
    apply outcome_bind_returns in H as (w1 & H1 & H). injection H as <-.
    exists [LInactive]. split; [|done]. simpl.
    unfold proactor_set_inactive in H1. apply wake_then_notify_core in H1. by rewrite H1.
  - (* the stack *)
    injection H as <-. by exists [].
Qed.
End CoreRefinement.

(** *** Interrupts are conserved *)

Lemma size_decr_pos i : 0 < i < 2 ^ 64 → size_decr i = i - 1.
Proof. intros H. unfold size_decr, SIZE_MOD. apply Z.mod_small. lia. Qed.

Lemma size_incr_small i : 0 ≤ i → i + 1 < 2 ^ 64 → size_incr i = i + 1.
Proof. intros H1 H2. unfold size_incr, SIZE_MOD. apply Z.mod_small. lia. Qed.

Lemma count_event_app t l1 l2 :
  count_event t (l1 ++ l2) = count_event t l1 + count_event t l2.
Proof. unfold count_event. rewrite filter_app, length_app. lia. Qed.

Lemma count_event_nonneg t l : 0 ≤ count_event t l.
Proof. unfold count_event. lia. Qed.

Definition conserved (N : Z) (a : core * list pn_event_type_t) : Prop :=
  (length (c_collector a.1) ≤ 1)%nat ∧
  0 ≤ c_deferred a.1 ≤ c_interrupts a.1 ∧
  count_event PN_PROACTOR_INTERRUPT (a.2 ++ c_collector a.1) + c_interrupts a.1 = N.

Definition label_calls (l : core_label) : Z :=
  match l with LInterrupt => 1 | _ => 0 end.

Lemma conserved_bound N a : conserved N a → c_interrupts a.1 ≤ N.
Proof.
  intros (_ & _ & H). pose proof (count_event_nonneg PN_PROACTOR_INTERRUPT (a.2 ++ c_collector a.1)).
  lia.
Qed.

Lemma conserved_apply N a l :
  N + label_calls l < 2 ^ 64 → conserved N a → conserved (N + label_calls l) (core_apply a l).
Proof.
  intros HN Hc. pose proof (conserved_bound _ _ Hc) as Hb.
  destruct a as [c d]. destruct Hc as (Hlen & Hdef & Hcount). simpl in *.
  destruct l; simpl in *; rewrite ?Z.add_0_r; unfold conserved; simpl.
  - (* update_batch *)
    unfold core_update_batch. destruct (c_collector c) as [|e q] eqn:Hq; [|by rewrite Hq].
    rewrite app_nil_r in Hcount.
    destruct (0 <? c_deferred c) eqn:Hd; simpl.
    { apply Z.ltb_lt in Hd. rewrite !size_decr_pos by lia.
      rewrite count_event_app. unfold count_event at 2. simpl. repeat split; try lia. }
    apply Z.ltb_ge in Hd.
    destruct (c_expired c); simpl.
    { rewrite count_event_app. unfold count_event at 2. simpl. repeat split; try lia. }
    destruct (0 <? c_interrupts c) eqn:Hi; simpl.
    { apply Z.ltb_lt in Hi. rewrite !size_decr_pos by lia.
      rewrite count_event_app. unfold count_event at 2. simpl.
      destruct (0 <? c_interrupts c - 1) eqn:Hi'; repeat split; try lia. }
    destruct (c_inactive c); simpl.
    { rewrite count_event_app. unfold count_event at 2. simpl. repeat split; try lia. }
    rewrite Hq, app_nil_r. repeat split; try lia.
  - (* next *)
    destruct (c_collector c) as [|e q] eqn:Hq; simpl; rewrite ?Hq.
    + repeat split; try lia.
    + simpl in Hlen. rewrite <- (assoc_L (++)). simpl. repeat split; try lia.
  - (* interrupt *)
    rewrite size_incr_small by lia. repeat split; try lia.
  - repeat split; try lia.
  - repeat split; try lia.
  - repeat split; try lia.
  - repeat split; try lia.
Qed.

Fixpoint labels_calls (ls : list core_label) : Z :=
  match ls with
  | [] => 0
  | l :: ls => label_calls l + labels_calls ls
  end.

Lemma labels_calls_nonneg ls : 0 ≤ labels_calls ls.
Proof. induction ls as [|[] ls IH]; simpl; lia. Qed.

Lemma conserved_run ls : ∀ N a,
  N + labels_calls ls < 2 ^ 64 → conserved N a → conserved (N + labels_calls ls) (core_run ls a).
Proof.
  induction ls as [|l ls IH]; intros N a HN Hc; simpl in *.
  - by rewrite Z.add_0_r.
  - pose proof (labels_calls_nonneg ls). pose proof (labels_calls_nonneg [l]) as Hl.
    simpl in Hl. rewrite Z.add_assoc. apply IH; [lia|]. apply conserved_apply; [lia|done].
Qed.

Lemma labels_quiet_calls ls : Forall label_quiet ls → labels_calls ls = 0.
Proof. induction 1 as [|l ls [->| ->] _ IH]; simpl; lia. Qed.

Lemma labels_ok_calls op ls :
  labels_ok op ls → labels_calls ls = count_interrupt_calls [op].
Proof.
  destruct op; simpl; try (intros ->; reflexivity).
  - intros [zero ->]. reflexivity.
  - apply labels_quiet_calls.
  - apply labels_quiet_calls.
Qed.

Lemma count_interrupt_calls_cons op ops :
  count_interrupt_calls (op :: ops) = count_interrupt_calls [op] + count_interrupt_calls ops.
Proof. destruct op; simpl; lia. Qed.

Lemma count_interrupt_calls_nonneg ops : 0 ≤ count_interrupt_calls ops.
Proof. induction ops as [|[] ops IH]; simpl; lia. Qed.

Lemma proactor_run_conserved NDEBUG ops : ∀ s s' N,
  proactor_run NDEBUG ops s = Returns s' →
  N + count_interrupt_calls ops < 2 ^ 64 →
  conserved N (abs_of s) → conserved (N + count_interrupt_calls ops) (abs_of s').
Proof.
  induction ops as [|op ops IH]; intros s s' N H HN Hc; simpl in H.
  - injection H as <-. simpl. by rewrite Z.add_0_r.
  - apply outcome_bind_returns in H as (s1 & Hstep & H).
    rewrite count_interrupt_calls_cons in *.
    pose proof (count_interrupt_calls_nonneg ops).
    pose proof (count_interrupt_calls_nonneg [op]).
    destruct (proactor_step_core _ _ _ _ Hstep) as (ls & Hls & Hok).
    apply labels_ok_calls in Hok. rewrite Z.add_assoc. apply (IH s1); [done|lia|].
    rewrite Hls, <- Hok. apply conserved_run; [lia|done].
Qed.

(** Draining: each [proactor_batch_next] takes one pending item. *)
Definition core_round (a : core * list pn_event_type_t) : core * list pn_event_type_t :=
  core_apply (core_apply a LUpdate) LNext.

Definition core_pending (c : core) : Z :=
  c_interrupts c + (if c_expired c then 1 else 0) + (if c_inactive c then 1 else 0)
  + Z.of_nat (length (c_collector c)).

Lemma core_round_pending N a :
  N < 2 ^ 64 → conserved N a →
  core_pending (core_round a).1 = Z.max 0 (core_pending a.1 - 1).
Proof.
  intros HN Hc. pose proof (conserved_bound _ _ Hc) as Hb.
  destruct a as [c d]. destruct Hc as (Hlen & Hdef & Hcount).
  unfold core_round, core_pending. simpl in *. unfold core_update_batch.
  destruct (c_collector c) as [|e q] eqn:Hq; simpl.
  - destruct (0 <? c_deferred c) eqn:Hd; simpl.
    { apply Z.ltb_lt in Hd. rewrite !size_decr_pos by lia.
      destruct (c_expired c), (c_inactive c); lia. }
    apply Z.ltb_ge in Hd.
    destruct (c_expired c) eqn:He; simpl.
    { destruct (c_inactive c); lia. }
    destruct (0 <? c_interrupts c) eqn:Hi; simpl.
    { apply Z.ltb_lt in Hi. rewrite !size_decr_pos by lia.
      destruct (c_inactive c); lia. }
    apply Z.ltb_ge in Hi.
    destruct (c_inactive c) eqn:Hin; simpl; rewrite ?He; [lia|].
    rewrite ?Hq, ?He, ?Hin. simpl. rewrite ?Hq, ?He, ?Hin. simpl. lia.
  - rewrite Hq. simpl. destruct q; simpl in *; [|lia].
    destruct (c_expired c), (c_inactive c); lia.
Qed.

Lemma core_round_conserved N a : N < 2 ^ 64 → conserved N a → conserved N (core_round a).
Proof.
  intros HN Hc. unfold core_round.
  apply (conserved_apply N _ LUpdate) in Hc; [|simpl; lia]. simpl in Hc.
  rewrite Z.add_0_r in Hc.
  apply (conserved_apply N _ LNext) in Hc; [|simpl; lia]. simpl in Hc.
  by rewrite Z.add_0_r in Hc.
Qed.

Lemma core_rounds_drain N k : ∀ a,
  N < 2 ^ 64 → conserved N a → core_pending a.1 ≤ Z.of_nat k →
  conserved N (Nat.iter k core_round a) ∧ core_pending (Nat.iter k core_round a).1 = 0.
Proof.
  induction k as [|k IH]; intros a HN Hc Hk.
  - simpl. split; [done|]. destruct Hc as (_ & Hdef & _).
    unfold core_pending in *. destruct (c_expired a.1), (c_inactive a.1); lia.
  - rewrite Nat.iter_succ_r. apply IH; [done|by apply core_round_conserved|].
    rewrite (core_round_pending N) by done. lia.
Qed.

Lemma proactor_run_batch_next NDEBUG k : ∀ s,
  ∃ s', proactor_run NDEBUG (repeat PBatchNext k) s = Returns s' ∧
        abs_of s' = Nat.iter k core_round (abs_of s).
Proof.
  induction k as [|k IH]; intros s.
  - exists s. done.
  - destruct (proactor_step NDEBUG PBatchNext s) as [s1| |] eqn:Hstep.
    2,3: simpl in Hstep; destruct (proactor_batch_next (ps_world s)); discriminate.
    destruct (proactor_step_core _ _ _ _ Hstep) as (ls & Hls & Hok). simpl in Hok. subst ls.
    destruct (IH s1) as (s' & Hrun & Habs).
    exists s'. split.
    + change (repeat PBatchNext (S k)) with (PBatchNext :: repeat PBatchNext k).
      cbn [proactor_run]. rewrite Hstep. exact Hrun.
    + rewrite Habs, Hls. by rewrite Nat.iter_succ_r.
Qed.

Lemma conserved_init epfd efd tfd w0 :
  pn_proactor epfd efd tfd = Some w0 → conserved 0 (abs_of (mk_proactor_state w0 [])).
Proof.
  unfold pn_proactor. destruct (_ || _); [discriminate|].
  destruct (start_polling _ _ _) as [[tio k] b].
  destruct (start_polling _ _ _) as [[wio k'] b'].
  intros [= <-]. unfold conserved, count_event. simpl. lia.
Qed.

(** C2.  After any sequence of calls on a new proactor with fewer than 2^64
    calls of [pn_proactor_interrupt]: the collector never holds more than
    one event; the interrupt events produced so far (handed out or in the
    collector) plus the counter [interrupts] are exactly the calls made;
    a fill of the empty collector from fresh interrupts emits one and
    reserves the rest in [deferred_interrupts]; deferred interrupts are
    emitted before a timeout or inactive event; and draining the batch hands
    out every interrupt, so that the interrupt events delivered are exactly
    the calls made. *)
Theorem interrupts_conserved NDEBUG epfd efd tfd w0 ops s :
  pn_proactor epfd efd tfd = Some w0 →
  proactor_run NDEBUG ops (mk_proactor_state w0 []) = Returns s →
  count_interrupt_calls ops < 2 ^ 64 →
  let p := w_p (ps_world s) in
  let p' := w_p (proactor_update_batch (ps_world s)).2 in
  (length (collector p) ≤ 1)%nat ∧
  count_event PN_PROACTOR_INTERRUPT (produced s) + interrupts p = count_interrupt_calls ops ∧
  (collector p = [] → deferred_interrupts p = 0 → timer_expired p = false →
   0 < interrupts p →
     collector p' = [PN_PROACTOR_INTERRUPT] ∧ interrupts p' = interrupts p - 1 ∧
     deferred_interrupts p' = interrupts p - 1) ∧
  (collector p = [] → 0 < deferred_interrupts p →
     collector p' = [PN_PROACTOR_INTERRUPT] ∧ interrupts p' = interrupts p - 1 ∧
     deferred_interrupts p' = deferred_interrupts p - 1 ∧
     timer_expired p' = timer_expired p ∧ inactive p' = inactive p) ∧
  (∀ k, interrupts p + 3 ≤ Z.of_nat k →
     ∃ s', proactor_run NDEBUG (repeat PBatchNext k) s = Returns s' ∧
           interrupts (w_p (ps_world s')) = 0 ∧ collector (w_p (ps_world s')) = [] ∧
           count_event PN_PROACTOR_INTERRUPT (ps_delivered s') = count_interrupt_calls ops).
Proof.
  intros Hinit Hrun HN p p'.
  pose proof (proactor_run_conserved _ _ _ _ 0 Hrun ltac:(lia) (conserved_init _ _ _ _ Hinit))
    as Hc.
  rewrite Z.add_0_l in Hc.
  pose proof (conserved_bound _ _ Hc) as Hb.
  pose proof Hc as (Hlen & Hdef & Hcount). simpl in Hlen, Hdef, Hcount, Hb.
  pose proof (proactor_update_batch_core (ps_world s)) as Hub.
  fold p in Hlen, Hdef, Hcount, Hb.
  assert (Hp' : core_of (proactor_update_batch (ps_world s)).2 =
                mk_core (collector p') (interrupts p') (deferred_interrupts p') (inactive p')
                        (timer_expired p') (timer_cancelled p')) by done.
  rewrite Hp' in Hub. unfold core_update_batch, core_of in Hub. fold p in Hub. simpl in Hub.
  split; [done|]. split; [done|]. split; [|split].
  - intros Hq Hd He Hi. rewrite Hq, Hd, He in Hub. simpl in Hub.
    apply Z.ltb_lt in Hi as Hi'. rewrite Hi' in Hub.
    rewrite size_decr_pos in Hub by lia.
    injection Hub as -> -> Hdef' _ _ _. split; [done|]. split; [done|].
    rewrite Hdef'. destruct (0 <? interrupts p - 1) eqn:Hlt; [done|].
    apply Z.ltb_ge in Hlt. lia.
  - intros Hq Hd. rewrite Hq in Hub. apply Z.ltb_lt in Hd as Hd'. rewrite Hd' in Hub.
    rewrite !size_decr_pos in Hub by lia.
    by injection Hub as -> -> -> -> -> _.
  - intros k Hk.
    destruct (proactor_run_batch_next NDEBUG k s) as (s' & Hrun' & Habs).
    exists s'. split; [done|].
    destruct (core_rounds_drain _ k (abs_of s) HN Hc) as (Hc' & Hpend).
    { unfold core_pending. simpl. fold p.
      destruct (timer_expired p), (inactive p); lia. }
    rewrite <- Habs in Hc', Hpend. destruct Hc' as (Hlen' & Hdef' & Hcount').
    unfold core_pending in Hpend. simpl in *.
    assert (Hi0 : interrupts (w_p (ps_world s')) = 0).
    { destruct (timer_expired (w_p (ps_world s'))), (inactive (w_p (ps_world s'))); lia. }
    assert (Hq0 : collector (w_p (ps_world s')) = []).
    { apply length_zero_iff_nil.
      destruct (timer_expired (w_p (ps_world s'))), (inactive (w_p (ps_world s'))); lia. }
    split; [done|]. split; [done|].
    rewrite Hq0, app_nil_r in Hcount'. lia.
Qed.

Lemma interrupts_conserved_witness :
  ∃ w0 s, pn_proactor 3 4 5 = Some w0 ∧
    proactor_run false [PInterrupt; PInterrupt; PGet [epoll_wait_event WAKE 0 EPOLLIN]; PBatchNext]
                 (mk_proactor_state w0 []) = Returns s ∧
    ps_delivered s = [PN_PROACTOR_INTERRUPT] ∧
    (length (collector (w_p (ps_world s))) ≤ 1)%nat.
Proof.
  destruct (pn_proactor 3 4 5) as [w0|] eqn:H0; [|vm_compute in H0; discriminate].
  destruct (proactor_run false
              [PInterrupt; PInterrupt; PGet [epoll_wait_event WAKE 0 EPOLLIN]; PBatchNext]
              (mk_proactor_state w0 [])) as [s| |] eqn:H1.
  2,3: exfalso; vm_compute in H0; injection H0 as <-; vm_compute in H1; discriminate.
  exists w0, s. split; [done|]. split; [done|]. split.
  { vm_compute in H0; injection H0 as <-; vm_compute in H1; injection H1 as <-. reflexivity. }
  refine (proj1 (interrupts_conserved false 3 4 5 w0 _ s H0 H1 _)).
  vm_compute. reflexivity.
Defined.

(** *** A cancelled timeout stays cancelled *)












(** The same calls in a debug build: [pn_proactor_get] stops at the
    assertion on the result of [read]. *)
Example cancel_then_expiry_debug :
  ∃ w0 s0 s1, pn_proactor 3 4 5 = Some w0 ∧
    proactor_run false [PSetTimeout 50; PTimerFire] (mk_proactor_state w0 []) = Returns s0 ∧
    proactor_step false PCancelTimeout s0 = Returns s1 ∧
    proactor_run false [PGet [epoll_wait_event PROACTOR_TIMER 0 EPOLLIN]] s1
      = Aborts AssertFailed.
Proof.
  eexists _, _, _. split; [vm_compute; reflexivity|]. split; [vm_compute; reflexivity|].
  split; [vm_compute; reflexivity|]. vm_compute. reflexivity.
Qed.

(** The timeout is cancelled before the deadline: the timer is disarmed,
    nothing expires and [pn_proactor_get] finds no event, in either build. *)
Example cancel_before_expiry NDEBUG :
  ∃ w0 s, pn_proactor 3 4 5 = Some w0 ∧
    proactor_run NDEBUG [PSetTimeout 50; PCancelTimeout; PTimerFire; PGet []; PBatchNext]
                 (mk_proactor_state w0 []) = Returns s ∧
    ps_delivered s = [] ∧ tfd_armed (w_timerfd (ps_world s)) = false.
Proof.
  eexists _, _. split; [vm_compute; reflexivity|].
  destruct NDEBUG; (split; [vm_compute; reflexivity|]); split; reflexivity.
Qed.

(** ** Sockets and the connection driver *)

(** [psocket_t].  [ps_listener] is the address of the listener's context,
    [None] (NULL) for a connection socket.  [host] and [port] are what
    [pni_parse_addr] finds in the address. *)
Record psocket_t : Type := mk_psocket {
  sockfd : Z;
  ps_epoll_io : epoll_extended_t;
  ps_listener : option nat;
  host : string;
  port : string
}.

Definition set_sockfd (v : Z) (x : psocket_t) : psocket_t :=
  mk_psocket v (ps_epoll_io x) (ps_listener x) (host x) (port x).
Definition set_ps_epoll_io (v : epoll_extended_t) (x : psocket_t) : psocket_t :=
  mk_psocket (sockfd x) v (ps_listener x) (host x) (port x).

Definition psocket_init (listener : option nat) (host port : string) : psocket_t :=
  mk_psocket (-1)
    (mk_epoll_extended (-1) (match listener with Some _ => LISTENER_IO | None => PCONNECTION_IO end)
                       0 false)
    listener host port.

(** Modelled from the spec: the connection driver ([pn_connection_driver_t],
    the protocol engine of one connection) is an external collaborator and
    not among the sources.  Its contract is this interface; a buffer is
    given by its size. *)
Class ConnectionDriver (D : Type) : Type := {
  pn_connection_driver_has_event : D → bool;
  pn_connection_driver_next_event : D → option pn_event_type_t * D;
  pn_connection_driver_finished : D → bool;
  pn_connection_driver_read_closed : D → bool;
  pn_connection_driver_write_closed : D → bool;
  pn_connection_driver_read_buffer : D → Z;
  pn_connection_driver_write_buffer : D → Z;
  pn_connection_driver_read_done : D → Z → D;
  pn_connection_driver_read_close : D → D;
  pn_connection_driver_write_done : D → Z → D;
  pn_connection_driver_close : D → D;
  pn_connection_driver_bind : D → D;
  (* pn_connection_driver_errorf(driver, COND_NAME, "%s %s:%s: %s", what, host, port, strerror(err)) *)
  pn_connection_driver_errorf : D → string → string → string → Z → D;
  pn_connection_driver_release_connection : D → D;
  pn_connection_driver_destroy : D → D;
  (* pn_collector_put(pn_connection_collector(c), PN_OBJECT, c, t) *)
  pn_connection_collector_put : D → pn_event_type_t → D;
  (* pn_condition_copy(pn_transport_condition(transport), cond) *)
  pn_transport_condition_copy : D → string → D;
  (* pn_transport_get_idle_timeout(t) || pn_transport_get_remote_idle_timeout(t) *)
  pn_transport_has_idle_timeout : D → bool;
  pn_transport_tick : D → Z → Z * D
}.

(** One entry of the resolved address list, with what the kernel will answer
    when the address is tried: [socket] fails, [connect] fails at once, or
    the connection is under way on [fd]. *)
Inductive connect_t : Set :=
| socket_fails (errno : Z)
| connect_fails (fd errno : Z)
| connect_starts (fd : Z).

(** What a [read] or [write] on the socket returns: a count, or -1 with
    [errno]. *)
Inductive io_result : Set :=
| io_count (n : Z)
| io_error (errno : Z).

(** The calls out of the connection code that the properties speak about. *)
Inductive action : Type :=
| act_read (size : Z)                 (* read(sockfd, rbuf.start, rbuf.size) *)
| act_write (size : Z)                (* write(sockfd, wbuf.start, wbuf.size) *)
| act_shutdown                        (* shutdown(sockfd, SHUT_WR) *)
| act_close (fd : Z)                  (* close(fd) *)
| act_put (t : pn_event_type_t)       (* pn_collector_put on the connection's collector *)
| act_tick                            (* pconnection_tick *)
| act_error (what : string) (errno : Z)   (* psocket_error *)
(* pconnection_cleanup, with what the thread saw under the lock it has just
   released: closing, current_arm, timer.pending_count, context.wake_ops *)
| act_cleanup (closing : bool) (current_arm pending_count wake_ops : Z)
| act_final_free.                     (* pconnection_final_free *)

(** [pconnection_t].  [pc_context] is the address of the embedded context.
    [local] and [remote] are only written (by [getsockname] and
    [getpeername]) and are left out, as is [batch]. *)
Record pconnection_t (D : Type) : Type := mk_pconnection {
  pc_psocket : psocket_t;
  pc_context : nat;
  new_events : Z;
  wake_count : Z;
  server : bool;
  tick_pending : bool;
  pc_timer_armed : bool;
  queued_disconnect : bool;
  disconnect_condition : option string;
  pc_timer : ptimer_t;
  current_arm : Z;
  connected : bool;
  read_blocked : bool;
  write_blocked : bool;
  disconnected : bool;
  hog_count : Z;
  driver : D;
  addrinfo : option (list connect_t);
  ai : list connect_t
}.
Arguments mk_pconnection {D}.
Arguments pc_psocket {D}.
Arguments pc_context {D}.
Arguments new_events {D}.
Arguments wake_count {D}.
Arguments server {D}.
Arguments tick_pending {D}.
Arguments pc_timer_armed {D}.
Arguments queued_disconnect {D}.
Arguments disconnect_condition {D}.
Arguments pc_timer {D}.
Arguments current_arm {D}.
Arguments connected {D}.
Arguments read_blocked {D}.
Arguments write_blocked {D}.
Arguments disconnected {D}.
Arguments hog_count {D}.
Arguments driver {D}.
Arguments addrinfo {D}.
Arguments ai {D}.

Definition set_pc_psocket {D} (v : psocket_t) (x : pconnection_t D) : pconnection_t D :=
  mk_pconnection v (pc_context x) (new_events x) (wake_count x) (server x) (tick_pending x) (pc_timer_armed x) (queued_disconnect x) (disconnect_condition x) (pc_timer x) (current_arm x) (connected x) (read_blocked x) (write_blocked x) (disconnected x) (hog_count x) (driver x) (addrinfo x) (ai x).
Definition set_new_events {D} (v : Z) (x : pconnection_t D) : pconnection_t D :=
  mk_pconnection (pc_psocket x) (pc_context x) v (wake_count x) (server x) (tick_pending x) (pc_timer_armed x) (queued_disconnect x) (disconnect_condition x) (pc_timer x) (current_arm x) (connected x) (read_blocked x) (write_blocked x) (disconnected x) (hog_count x) (driver x) (addrinfo x) (ai x).
Definition set_wake_count {D} (v : Z) (x : pconnection_t D) : pconnection_t D :=
  mk_pconnection (pc_psocket x) (pc_context x) (new_events x) v (server x) (tick_pending x) (pc_timer_armed x) (queued_disconnect x) (disconnect_condition x) (pc_timer x) (current_arm x) (connected x) (read_blocked x) (write_blocked x) (disconnected x) (hog_count x) (driver x) (addrinfo x) (ai x).
Definition set_tick_pending {D} (v : bool) (x : pconnection_t D) : pconnection_t D :=
  mk_pconnection (pc_psocket x) (pc_context x) (new_events x) (wake_count x) (server x) v (pc_timer_armed x) (queued_disconnect x) (disconnect_condition x) (pc_timer x) (current_arm x) (connected x) (read_blocked x) (write_blocked x) (disconnected x) (hog_count x) (driver x) (addrinfo x) (ai x).
Definition set_pc_timer_armed {D} (v : bool) (x : pconnection_t D) : pconnection_t D :=
  mk_pconnection (pc_psocket x) (pc_context x) (new_events x) (wake_count x) (server x) (tick_pending x) v (queued_disconnect x) (disconnect_condition x) (pc_timer x) (current_arm x) (connected x) (read_blocked x) (write_blocked x) (disconnected x) (hog_count x) (driver x) (addrinfo x) (ai x).
Definition set_queued_disconnect {D} (v : bool) (x : pconnection_t D) : pconnection_t D :=
  mk_pconnection (pc_psocket x) (pc_context x) (new_events x) (wake_count x) (server x) (tick_pending x) (pc_timer_armed x) v (disconnect_condition x) (pc_timer x) (current_arm x) (connected x) (read_blocked x) (write_blocked x) (disconnected x) (hog_count x) (driver x) (addrinfo x) (ai x).
Definition set_disconnect_condition {D} (v : option string) (x : pconnection_t D) : pconnection_t D :=
  mk_pconnection (pc_psocket x) (pc_context x) (new_events x) (wake_count x) (server x) (tick_pending x) (pc_timer_armed x) (queued_disconnect x) v (pc_timer x) (current_arm x) (connected x) (read_blocked x) (write_blocked x) (disconnected x) (hog_count x) (driver x) (addrinfo x) (ai x).
Definition set_pc_timer {D} (v : ptimer_t) (x : pconnection_t D) : pconnection_t D :=
  mk_pconnection (pc_psocket x) (pc_context x) (new_events x) (wake_count x) (server x) (tick_pending x) (pc_timer_armed x) (queued_disconnect x) (disconnect_condition x) v (current_arm x) (connected x) (read_blocked x) (write_blocked x) (disconnected x) (hog_count x) (driver x) (addrinfo x) (ai x).
Definition set_current_arm {D} (v : Z) (x : pconnection_t D) : pconnection_t D :=
  mk_pconnection (pc_psocket x) (pc_context x) (new_events x) (wake_count x) (server x) (tick_pending x) (pc_timer_armed x) (queued_disconnect x) (disconnect_condition x) (pc_timer x) v (connected x) (read_blocked x) (write_blocked x) (disconnected x) (hog_count x) (driver x) (addrinfo x) (ai x).
Definition set_connected {D} (v : bool) (x : pconnection_t D) : pconnection_t D :=
  mk_pconnection (pc_psocket x) (pc_context x) (new_events x) (wake_count x) (server x) (tick_pending x) (pc_timer_armed x) (queued_disconnect x) (disconnect_condition x) (pc_timer x) (current_arm x) v (read_blocked x) (write_blocked x) (disconnected x) (hog_count x) (driver x) (addrinfo x) (ai x).
Definition set_read_blocked {D} (v : bool) (x : pconnection_t D) : pconnection_t D :=
  mk_pconnection (pc_psocket x) (pc_context x) (new_events x) (wake_count x) (server x) (tick_pending x) (pc_timer_armed x) (queued_disconnect x) (disconnect_condition x) (pc_timer x) (current_arm x) (connected x) v (write_blocked x) (disconnected x) (hog_count x) (driver x) (addrinfo x) (ai x).
Definition set_write_blocked {D} (v : bool) (x : pconnection_t D) : pconnection_t D :=
  mk_pconnection (pc_psocket x) (pc_context x) (new_events x) (wake_count x) (server x) (tick_pending x) (pc_timer_armed x) (queued_disconnect x) (disconnect_condition x) (pc_timer x) (current_arm x) (connected x) (read_blocked x) v (disconnected x) (hog_count x) (driver x) (addrinfo x) (ai x).
Definition set_disconnected {D} (v : bool) (x : pconnection_t D) : pconnection_t D :=
  mk_pconnection (pc_psocket x) (pc_context x) (new_events x) (wake_count x) (server x) (tick_pending x) (pc_timer_armed x) (queued_disconnect x) (disconnect_condition x) (pc_timer x) (current_arm x) (connected x) (read_blocked x) (write_blocked x) v (hog_count x) (driver x) (addrinfo x) (ai x).
Definition set_hog_count {D} (v : Z) (x : pconnection_t D) : pconnection_t D :=
  mk_pconnection (pc_psocket x) (pc_context x) (new_events x) (wake_count x) (server x) (tick_pending x) (pc_timer_armed x) (queued_disconnect x) (disconnect_condition x) (pc_timer x) (current_arm x) (connected x) (read_blocked x) (write_blocked x) (disconnected x) v (driver x) (addrinfo x) (ai x).
Definition set_driver {D} (v : D) (x : pconnection_t D) : pconnection_t D :=
  mk_pconnection (pc_psocket x) (pc_context x) (new_events x) (wake_count x) (server x) (tick_pending x) (pc_timer_armed x) (queued_disconnect x) (disconnect_condition x) (pc_timer x) (current_arm x) (connected x) (read_blocked x) (write_blocked x) (disconnected x) (hog_count x) v (addrinfo x) (ai x).
Definition set_addrinfo {D} (v : option (list connect_t)) (x : pconnection_t D) : pconnection_t D :=
  mk_pconnection (pc_psocket x) (pc_context x) (new_events x) (wake_count x) (server x) (tick_pending x) (pc_timer_armed x) (queued_disconnect x) (disconnect_condition x) (pc_timer x) (current_arm x) (connected x) (read_blocked x) (write_blocked x) (disconnected x) (hog_count x) (driver x) v (ai x).
Definition set_ai {D} (v : list connect_t) (x : pconnection_t D) : pconnection_t D :=
  mk_pconnection (pc_psocket x) (pc_context x) (new_events x) (wake_count x) (server x) (tick_pending x) (pc_timer_armed x) (queued_disconnect x) (disconnect_condition x) (pc_timer x) (current_arm x) (connected x) (read_blocked x) (write_blocked x) (disconnected x) (hog_count x) (driver x) (addrinfo x) v.

(** A connection with what surrounds it: the kernel side of its timerfd, the
    proactor's world, what the socket will return call after call (nothing
    to read and no room to write once the list is used up), [errno], the
    clock, and the log of calls. *)
Record conn_state (D : Type) : Type := mk_conn_state {
  cs_pc : pconnection_t D;
  cs_timerfd : timerfd_t;
  cs_world : world;
  cs_net : list io_result;
  cs_errno : Z;
  cs_now : Z;
  cs_log : list action
}.
Arguments mk_conn_state {D}.
Arguments cs_pc {D}.
Arguments cs_timerfd {D}.
Arguments cs_world {D}.
Arguments cs_net {D}.
Arguments cs_errno {D}.
Arguments cs_now {D}.
Arguments cs_log {D}.

Definition set_cs_pc {D} (v : pconnection_t D) (x : conn_state D) : conn_state D :=
  mk_conn_state v (cs_timerfd x) (cs_world x) (cs_net x) (cs_errno x) (cs_now x) (cs_log x).
Definition set_cs_timerfd {D} (v : timerfd_t) (x : conn_state D) : conn_state D :=
  mk_conn_state (cs_pc x) v (cs_world x) (cs_net x) (cs_errno x) (cs_now x) (cs_log x).
Definition set_cs_world {D} (v : world) (x : conn_state D) : conn_state D :=
  mk_conn_state (cs_pc x) (cs_timerfd x) v (cs_net x) (cs_errno x) (cs_now x) (cs_log x).
Definition set_cs_net {D} (v : list io_result) (x : conn_state D) : conn_state D :=
  mk_conn_state (cs_pc x) (cs_timerfd x) (cs_world x) v (cs_errno x) (cs_now x) (cs_log x).
Definition set_cs_errno {D} (v : Z) (x : conn_state D) : conn_state D :=
  mk_conn_state (cs_pc x) (cs_timerfd x) (cs_world x) (cs_net x) v (cs_now x) (cs_log x).
Definition set_cs_now {D} (v : Z) (x : conn_state D) : conn_state D :=
  mk_conn_state (cs_pc x) (cs_timerfd x) (cs_world x) (cs_net x) (cs_errno x) v (cs_log x).
Definition set_cs_log {D} (v : list action) (x : conn_state D) : conn_state D :=
  mk_conn_state (cs_pc x) (cs_timerfd x) (cs_world x) (cs_net x) (cs_errno x) (cs_now x) v.

(** ** The list of contexts in use *)

Definition proactor_add (ctx : nat) (w : world) : outcome world :=
  match contexts (w_p w) with
  | Some h =>
      ch ← load w h;
      let w := store h (set_prev (Some ctx) ch) w in
      c ← load w ctx;
      let w := store ctx (set_next (contexts (w_p w)) c) w in
      Returns (update_p (set_contexts (Some ctx)) w)
  | None => Returns (update_p (set_contexts (Some ctx)) w)
  end.

(** call with psocket's mutex held; return true if safe for caller to free
    psocket *)
Definition proactor_remove (ctx : nat) (w : world) : outcome (bool * world) :=
  c ← load w ctx;
  '(notify, can_free, w) ←
    (if disconnecting c then
       (* No longer on contexts list *)
       n ← int_decr (disconnect_ops c);
       let w := store ctx (set_disconnect_ops n c) w in
       if n =? 0 then
         let w := update_p (λ p, set_disconnects_pending (size_decr (disconnects_pending p)) p) w in
         if (disconnects_pending (w_p w) =? 0) && bool_decide (contexts (w_p w) = None) then
           let w := update_p (set_inactive true) w in
           '(notify, w) ← wake (p_context (w_p w)) w;
           Returns (notify, true, w)
         else Returns (false, true, w)
       else Returns (false, false, w)       (* proactor_disconnect() still processing *)
     else
       (* normal case *)
       w ← match prev c with
           | Some pr => cp ← load w pr; Returns (store pr (set_next (next c) cp) w)
           | None =>
               let w := update_p (set_contexts (next c)) w in
               let w := store ctx (set_next None c) w in
               match contexts (w_p w) with
               | Some h => ch ← load w h; Returns (store h (set_prev None ch) w)
               | None => Returns w
               end
           end;
       c ← load w ctx;
       w ← match next c with
           | Some nx => cn ← load w nx; Returns (store nx (set_prev (prev c) cn) w)
           | None => Returns w
           end;
       if bool_decide (contexts (w_p w) = None) && (disconnects_pending (w_p w) =? 0)
          && negb (shutting_down (w_p w)) then
         let w := update_p (set_inactive true) w in
         '(notify, w) ← wake (p_context (w_p w)) w;
         Returns (notify, true, w)
       else Returns (false, true, w));
  w ← (if notify then wake_notify w else Returns w);
  Returns (can_free, w).

(** ** The connection *)

Definition HOG_MAX : Z := 3.

(** [close(fd)] also takes the descriptor out of the interest list. *)
Definition kernel_close (fd : Z) (k : epoll_set) : epoll_set := delete fd k.

Section Connection.
Variable NDEBUG : bool.
Context {D : Type} `{ConnectionDriver D}.

Definition upd_pc (f : pconnection_t D → pconnection_t D) (s : conn_state D) : conn_state D :=
  set_cs_pc (f (cs_pc s)) s.
Definition upd_driver (f : D → D) (s : conn_state D) : conn_state D :=
  upd_pc (λ pc, set_driver (f (driver pc)) pc) s.
Definition upd_world (f : world → world) (s : conn_state D) : conn_state D :=
  set_cs_world (f (cs_world s)) s.
Definition log (a : action) (s : conn_state D) : conn_state D :=
  set_cs_log (cs_log s ++ [a]) s.

Definition ctx_load (s : conn_state D) : outcome pcontext_t :=
  load (cs_world s) (pc_context (cs_pc s)).
Definition ctx_store (c : pcontext_t) (s : conn_state D) : conn_state D :=
  upd_world (store (pc_context (cs_pc s)) c) s.

Definition on_conn_world {A} (f : world → outcome (A * world)) (s : conn_state D)
  : outcome (A * conn_state D) :=
  '(a, w) ← f (cs_world s); Returns (a, set_cs_world w s).

(** [ptimer_set(&pc->timer, t)] *)
Definition conn_timer_set (t_millis : Z) (s : conn_state D) : outcome (conn_state D) :=
  '(pt, k) ← ptimer_set NDEBUG (pc_timer (cs_pc s)) (cs_timerfd s) t_millis;
  Returns (set_cs_timerfd k (upd_pc (set_pc_timer pt) s)).

(** [ptimer_callback(&pc->timer)] *)
Definition conn_timer_callback (s : conn_state D) : outcome (Z * conn_state D) :=
  '(n, pt, k) ← ptimer_callback NDEBUG (pc_timer (cs_pc s)) (cs_timerfd s)
                                (w_uninit (cs_world s));
  Returns (n, set_cs_timerfd k (upd_pc (set_pc_timer pt) s)).

Definition pconnection_has_event (pc : pconnection_t D) : bool :=
  pn_connection_driver_has_event (driver pc).

(** Call with lock held and closing == true, timer cancelled.  Return true
    when all possible outstanding epoll events associated with this
    pconnection have been processed. *)
Definition pconnection_is_final (s : conn_state D) : outcome bool :=
  c ← ctx_load s;
  Returns ((current_arm (cs_pc s) =? 0) && (pending_count (pc_timer (cs_pc s)) =? 0)
           && (wake_ops c =? 0)).

Definition pconnection_final_free (s : conn_state D) : conn_state D :=
  upd_driver pn_connection_driver_destroy
    (upd_pc (set_disconnect_condition None) (log act_final_free s)).

(** call without lock, but only if pconnection_is_final() is true *)
Definition pconnection_cleanup (s : conn_state D) : outcome (conn_state D) :=
  let fd := sockfd (pc_psocket (cs_pc s)) in
  let s := if fd =? -1 then s
           else upd_world (λ w, set_w_epoll (kernel_close fd (w_epoll w)) w)
                          (log (act_close fd) s) in
  '(ee, k) ← stop_polling (pt_epoll_io (pc_timer (cs_pc s))) (epollfd (w_p (cs_world s)))
                          (w_epoll (cs_world s));
  let s := upd_world (set_w_epoll k) (upd_pc (λ pc, set_pc_timer (set_pt_epoll_io ee (pc_timer pc)) pc) s) in
  (* ptimer_finalize *)
  let tfd := timerfd (pc_timer (cs_pc s)) in
  let s := if 0 <=? tfd
           then upd_world (λ w, set_w_epoll (kernel_close tfd (w_epoll w)) w)
                          (log (act_close tfd) s)
           else s in
  '(can_free, s) ← on_conn_world (proactor_remove (pc_context (cs_pc s))) s;
  if can_free then Returns (pconnection_final_free s)
  else Returns s.    (* proactor_disconnect logic owns psocket and its final free *)

(** The state at a point where the code unlocks and calls
    [pconnection_cleanup]. *)
Definition unlock_and_cleanup (s : conn_state D) : outcome (conn_state D) :=
  c ← ctx_load s;
  pconnection_cleanup
    (log (act_cleanup (closing c) (current_arm (cs_pc s))
                      (pending_count (pc_timer (cs_pc s))) (wake_ops c)) s).

(** Call with lock held or from forced_shutdown *)
Definition pconnection_begin_close (s : conn_state D) : outcome (conn_state D) :=
  c ← ctx_load s;
  if negb (closing c) then
    let s := ctx_store (set_closing true c) s in
    '(ee, k) ← stop_polling (ps_epoll_io (pc_psocket (cs_pc s)))
                            (epollfd (w_p (cs_world s))) (w_epoll (cs_world s));
    let s := upd_world (set_w_epoll k)
               (upd_pc (λ pc, set_pc_psocket (set_ps_epoll_io ee (pc_psocket pc)) pc) s) in
    let s := upd_pc (set_current_arm 0) s in
    let s := upd_driver pn_connection_driver_close s in
    conn_timer_set 0 s
  else Returns s.

Definition pconnection_rclosed (pc : pconnection_t D) : bool :=
  pn_connection_driver_read_closed (driver pc).
Definition pconnection_wclosed (pc : pconnection_t D) : bool :=
  pn_connection_driver_write_closed (driver pc).

(** Call only from working context.  If true returned, caller must do
    pconnection_rearm().  Never rearm(0 | EPOLLONESHOT). *)
Definition pconnection_rearm_check (pc : pconnection_t D) : bool * pconnection_t D :=
  if pconnection_rclosed pc && pconnection_wclosed pc then (false, pc)
  else
    let wanted_now := if read_blocked pc && negb (pconnection_rclosed pc) then EPOLLIN else 0 in
    let wanted_now :=
      if negb (pconnection_wclosed pc) then
        if write_blocked pc then Z.lor wanted_now EPOLLOUT
        else if 0 <? pn_connection_driver_write_buffer (driver pc)
             then Z.lor wanted_now EPOLLOUT
             else wanted_now
      else wanted_now in
    if (wanted_now =? 0) || (current_arm pc =? wanted_now) then (false, pc)
    else
      let pc := set_pc_psocket
                  (set_ps_epoll_io (set_ee_wanted wanted_now (ps_epoll_io (pc_psocket pc)))
                                   (pc_psocket pc)) pc in
      (true, set_current_arm wanted_now pc).

(** Call without lock *)
Definition pconnection_rearm (s : conn_state D) : outcome (conn_state D) :=
  k ← rearm (epollfd (w_p (cs_world s))) (ps_epoll_io (pc_psocket (cs_pc s)))
            (w_epoll (cs_world s));
  Returns (upd_world (set_w_epoll k) s).

(** [if (pconnection_rearm_check(pc)) pconnection_rearm(pc);] *)
Definition rearm_if_needed (s : conn_state D) : outcome (conn_state D) :=
  let '(r, pc) := pconnection_rearm_check (cs_pc s) in
  let s := set_cs_pc pc s in
  if r then pconnection_rearm s else Returns s.

Definition pconnection_work_pending (pc : pconnection_t D) : bool :=
  if negb (new_events pc =? 0) || negb (wake_count pc =? 0) || tick_pending pc
     || queued_disconnect pc then true
  else if negb (read_blocked pc) && negb (pconnection_rclosed pc) then true
  else (0 <? pn_connection_driver_write_buffer (driver pc)) && negb (write_blocked pc).

Definition pconnection_done (s : conn_state D) : outcome (conn_state D) :=
  c ← ctx_load s;
  let s := ctx_store (set_working false c) s in
  let s := upd_pc (set_hog_count 0) s in
  if pconnection_has_event (cs_pc s) || pconnection_work_pending (cs_pc s) then
    '(notify, s) ← on_conn_world (wake (pc_context (cs_pc s))) s;
    s ← rearm_if_needed s;
    if notify then '(_, s) ← on_conn_world (λ w, w ← wake_notify w; Returns ((), w)) s; Returns s
    else Returns s
  else
    '(freed, s) ←
      (if pn_connection_driver_finished (driver (cs_pc s)) then
         s ← pconnection_begin_close s;
         final ← pconnection_is_final s;
         if final then s ← unlock_and_cleanup s; Returns (true, s)
         else Returns (false, s)
       else Returns (false, s));
    if freed then Returns s else rearm_if_needed s.

(** [pconnection_start]; [getsockname] and [getpeername] fill [local] and
    [remote] between the two registrations of the timer. *)
Definition conn_start_polling_timer (s : conn_state D) : conn_state D :=
  let '(ee, k, _) := start_polling (pt_epoll_io (pc_timer (cs_pc s)))
                                   (epollfd (w_p (cs_world s))) (w_epoll (cs_world s)) in
  upd_world (set_w_epoll k)
    (upd_pc (λ pc, set_pc_timer (set_pt_epoll_io ee (pc_timer pc)) pc) s).

Definition conn_start_polling_socket (s : conn_state D) : conn_state D :=
  let ee := ps_epoll_io (pc_psocket (cs_pc s)) in
  let ee := set_ee_fd (sockfd (pc_psocket (cs_pc s))) ee in
  let ee := set_ee_wanted (Z.lor EPOLLIN EPOLLOUT) ee in
  let ee := set_ee_polling false ee in
  let '(ee, k, _) := start_polling ee (epollfd (w_p (cs_world s))) (w_epoll (cs_world s)) in
  upd_world (set_w_epoll k)
    (upd_pc (λ pc, set_pc_psocket (set_ps_epoll_io ee (pc_psocket pc)) pc) s).

Definition pconnection_start (s : conn_state D) : conn_state D :=
  let s := conn_start_polling_timer s in
  let s := conn_start_polling_timer s in
  conn_start_polling_socket s.

(** [pconnection_start] with the timer registered once. *)
Definition pconnection_start_once (s : conn_state D) : conn_state D :=
  let s := conn_start_polling_timer s in
  conn_start_polling_socket s.

(** [psocket_error] on a connection socket ([ps->listener] is NULL). *)
Definition psocket_error_pconnection (err : Z) (what : string) (s : conn_state D)
  : conn_state D :=
  let ps := pc_psocket (cs_pc s) in
  upd_driver (λ d, pn_connection_driver_close
                     (pn_connection_driver_errorf (pn_connection_driver_bind d)
                                                  what (host ps) (port ps) err))
             (log (act_error what err) s).

(** Called with context.lock held *)
Definition pconnection_connected_lh (s : conn_state D) : conn_state D :=
  if negb (connected (cs_pc s)) then
    upd_pc (λ pc, set_ai [] (set_addrinfo None (set_connected true pc))) s
  else s.

(** The loop of [pconnection_maybe_connect_lh] over the addresses left. *)
Fixpoint pconnection_try_addresses (l : list connect_t) (s : conn_state D)
  : bool * conn_state D :=
  match l with
  | [] => (false, upd_pc (set_ai []) s)
  | a :: l =>
      let s := upd_pc (set_ai l) s in   (* Move to next address in case this fails *)
      match a with
      | socket_fails e => pconnection_try_addresses l (set_cs_errno e s)
      | connect_fails fd e => pconnection_try_addresses l (set_cs_errno e s)
      | connect_starts fd =>
          let s := upd_pc (λ pc, set_pc_psocket (set_sockfd fd (pc_psocket pc)) pc) s in
          (true, pconnection_start s)
      end
  end.

(** Called on initial connect, and if connection fails to try another
    address *)
Definition pconnection_maybe_connect_lh (s : conn_state D) : conn_state D :=
  let s := set_cs_errno 0 s in
  if negb (connected (cs_pc s)) then    (* Not yet connected *)
    let '(started, s) := pconnection_try_addresses (ai (cs_pc s)) s in
    if started then s                   (* Async connection started *)
    else
      let s := upd_pc (set_addrinfo None) s in
      let s := if sockfd (pc_psocket (cs_pc s)) <? 1
               then psocket_error_pconnection
                      (if cs_errno s =? 0 then ENOTCONN else cs_errno s) "on connect" s
               else s in
      upd_pc (set_disconnected true) s
  else upd_pc (set_disconnected true) s.

Definition pconnection_tick (s : conn_state D) : outcome (conn_state D) :=
  let s := log act_tick s in
  if pn_transport_has_idle_timeout (driver (cs_pc s)) then
    s ← conn_timer_set 0 s;
    let now := cs_now s in
    let '(next, d) := pn_transport_tick (driver (cs_pc s)) now in
    let s := upd_driver (λ _, d) s in
    if negb (next =? 0) then conn_timer_set ((next - now) mod 2 ^ 64) s
    else Returns s
  else Returns s.

(** [read] and [write] on the socket: the result is the next entry of
    [cs_net], EWOULDBLOCK when there is none; a failure sets [errno]. *)
Definition sys_io (a : action) (s : conn_state D) : Z * conn_state D :=
  let s := log a s in
  match cs_net s with
  | [] => (-1, set_cs_errno EWOULDBLOCK s)
  | io_count n :: net => (n, set_cs_net net s)
  | io_error e :: net => (-1, set_cs_errno e (set_cs_net net s))
  end.

(** The read pump of [pconnection_process] (from [if (!pconnection_rclosed(pc))]
    to the end of that block); [tick_required] is the local variable. *)
Definition pconnection_read_pump (tick_required : bool) (s : conn_state D)
  : outcome (bool * conn_state D) :=
  if negb (pconnection_rclosed (cs_pc s)) then
    let size := pn_connection_driver_read_buffer (driver (cs_pc s)) in
    if (0 <? size) && negb (read_blocked (cs_pc s)) then
      let '(n, s) := sys_io (act_read size) s in
      if 0 <? n then
        let s := upd_driver (λ d, pn_connection_driver_read_done d n) s in
        s ← pconnection_tick s;       (* check for tick changes. *)
        let s := if negb (pn_connection_driver_read_closed (driver (cs_pc s))) && (n <? size)
                 then upd_pc (set_read_blocked true) s else s in
        Returns (false, s)
      else if n =? 0 then
        Returns (tick_required, upd_driver pn_connection_driver_read_close s)
      else if cs_errno s =? EWOULDBLOCK then
        Returns (tick_required, upd_pc (set_read_blocked true) s)
      else if negb ((cs_errno s =? EAGAIN) || (cs_errno s =? EINTR)) then
        Returns (tick_required,
                 psocket_error_pconnection (cs_errno s)
                   (if disconnected (cs_pc s) then "Disconnected" else "on read from") s)
      else Returns (tick_required, s)
    else Returns (tick_required, s)
  else Returns (tick_required, s).

(** Return true unless error *)
Definition pconnection_write (size : Z) (s : conn_state D) : bool * conn_state D :=
  let '(n, s) := sys_io (act_write size) s in
  if 0 <? n then
    let s := upd_driver (λ d, pn_connection_driver_write_done d n) s in
    (true, if n <? size then upd_pc (set_write_blocked true) s else s)
  else if cs_errno s =? EWOULDBLOCK then (true, upd_pc (set_write_blocked true) s)
  else if negb ((cs_errno s =? EAGAIN) || (cs_errno s =? EINTR)) then (false, s)
  else (true, s).

(** The write loop of [pconnection_process]. *)
Fixpoint pconnection_write_pump (fuel : nat) (s : conn_state D) : outcome (conn_state D) :=
  match fuel with
  | O => Spins
  | S fuel =>
      if negb (write_blocked (cs_pc s)) && negb (pconnection_wclosed (cs_pc s)) then
        let size := pn_connection_driver_write_buffer (driver (cs_pc s)) in
        if 0 <? size then
          let '(ok, s) := pconnection_write size s in
          let s := if ok then s
                   else psocket_error_pconnection (cs_errno s)
                          (if disconnected (cs_pc s) then "disconnected" else "on write to") s in
          pconnection_write_pump fuel s
        else if pn_connection_driver_write_closed (driver (cs_pc s)) then
          pconnection_write_pump fuel (upd_pc (set_write_blocked true) (log act_shutdown s))
        else Returns s   (* nothing to write until next read/wake/timeout *)
      else Returns s
  end.

Definition conn_rearm_timer (s : conn_state D) : outcome (conn_state D) :=
  k ← rearm (epollfd (w_p (cs_world s))) (pt_epoll_io (pc_timer (cs_pc s)))
            (w_epoll (cs_world s));
  Returns (upd_world (set_w_epoll k) s).

(** The part of [pconnection_process] under the lock at [retry:], without
    the test for events of the driver that comes in its middle.  Returns
    the locals [waking], [tick_required], [unarmed] and [timer_unarmed]. *)
Definition pconnection_process_disconnect (s : conn_state D) : outcome (conn_state D) :=
  if queued_disconnect (cs_pc s) then     (* From pn_proactor_disconnect() *)
    let s := upd_pc (set_queued_disconnect false) s in
    c ← ctx_load s;
    if negb (closing c) then
      let s := match disconnect_condition (cs_pc s) with
               | Some cond => upd_driver (λ d, pn_transport_condition_copy d cond) s
               | None => s
               end in
      Returns (upd_driver pn_connection_driver_close s)
    else Returns s
  else Returns s.

Definition pconnection_process_sample (timer_unarmed : bool) (s : conn_state D)
  : bool * bool * bool * bool * conn_state D :=
  let closed := pconnection_rclosed (cs_pc s) && pconnection_wclosed (cs_pc s) in
  let '(waking, s) :=
    if negb (wake_count (cs_pc s) =? 0) then (negb closed, upd_pc (set_wake_count 0) s)
    else (false, s) in
  let '(tick_required, s) :=
    if tick_pending (cs_pc s) then (negb closed, upd_pc (set_tick_pending false) s)
    else (false, s) in
  let s :=
    if negb (new_events (cs_pc s) =? 0) then
      let ev := new_events (cs_pc s) in
      let s := if negb (Z.land ev (Z.lor EPOLLHUP EPOLLERR) =? 0)
                  && negb (pconnection_rclosed (cs_pc s))
                  && negb (pconnection_wclosed (cs_pc s))
               then pconnection_maybe_connect_lh s
               else pconnection_connected_lh s in  (* Non error event means we are connected *)
      let s := if negb (Z.land ev EPOLLOUT =? 0) then upd_pc (set_write_blocked false) s else s in
      let s := if negb (Z.land ev EPOLLIN =? 0) then upd_pc (set_read_blocked false) s else s in
      upd_pc (λ pc, set_new_events 0 (set_current_arm 0 pc)) s
    else s in
  let unarmed := current_arm (cs_pc s) =? 0 in
  let '(timer_unarmed, s) :=
    if negb (pc_timer_armed (cs_pc s))
    then (true, upd_pc (set_pc_timer_armed true) s)   (* about to rearm outside the lock *)
    else (timer_unarmed, s) in
  (waking, tick_required, unarmed, timer_unarmed, s).

(** From [retry:] to the end of [pconnection_process]. *)
Fixpoint pconnection_process_retry (fuel : nat) (topup timer_unarmed : bool)
    (s : conn_state D) : outcome (option batch_t * conn_state D) :=
  match fuel with
  | O => Spins
  | S fuel =>
      s ← pconnection_process_disconnect s;
      if pconnection_has_event (cs_pc s) then
        Returns (Some (pconnection_batch (pc_context (cs_pc s))), s)
      else
        let '(waking, tick_required, unarmed, timer_unarmed, s) :=
          pconnection_process_sample timer_unarmed s in
        (* unlock *)
        n ← int_incr (hog_count (cs_pc s));   (* working context doing work *)
        let s := upd_pc (set_hog_count n) s in
        s ← (if timer_unarmed then conn_rearm_timer s else Returns s);
        let s := if waking
                 then upd_driver (λ d, pn_connection_collector_put d PN_CONNECTION_WAKE)
                                 (log (act_put PN_CONNECTION_WAKE) s)
                 else s in
        (* read... tick... write *)
        '(tick_required, s) ← pconnection_read_pump tick_required s;
        s ← (if tick_required then pconnection_tick s else Returns s);
        s ← pconnection_write_pump (S (S (length (cs_net s)))) s;
        if topup then
          (* If there was anything new to topup, we have it by now. *)
          s ← (if unarmed then rearm_if_needed s else Returns s);
          Returns (None, s)     (* caller already owns the batch *)
        else if pconnection_has_event (cs_pc s) then
          s ← (if unarmed then rearm_if_needed s else Returns s);
          Returns (Some (pconnection_batch (pc_context (cs_pc s))), s)
        else
          (* lock *)
          c ← ctx_load s;
          final ← pconnection_is_final s;
          if closing c && final then
            s ← unlock_and_cleanup s; Returns (None, s)
          else if pconnection_work_pending (cs_pc s) then
            (* Never stop working while work remains. *)
            pconnection_process_retry fuel topup false s
          else
            let s := ctx_store (set_working false c) s in
            let s := upd_pc (set_hog_count 0) s in
            '(freed, s) ←
              (if pn_connection_driver_finished (driver (cs_pc s)) then
                 s ← pconnection_begin_close s;
                 final ← pconnection_is_final s;
                 if final then s ← unlock_and_cleanup s; Returns (true, s)
                 else Returns (false, s)
               else Returns (false, s));
            if freed then Returns (None, s)
            else s ← rearm_if_needed s; Returns (None, s)
  end.

(** May be called concurrently from multiple threads: the batch loop
    (topup is true), the timer (timeout is true), socket io (events != 0),
    one or more wake().  Only one thread becomes (or always was) the
    working thread.  [fuel] bounds the passes through [retry:]. *)
Definition pconnection_process (fuel : nat) (events : Z) (timeout topup : bool)
    (s : conn_state D) : outcome (option batch_t * conn_state D) :=
  let inbound_wake := negb (negb (events =? 0) || timeout || topup) in
  (* Don't touch data exclusive to working thread (yet). *)
  '(timer_unarmed, timer_fired, s) ←
    (if timeout then
       '(n, s) ← conn_timer_callback s; Returns (true, negb (n =? 0), s)
     else Returns (false, false, s));
  (* lock *)
  s ← (if negb (events =? 0) then Returns (upd_pc (set_new_events events) s)
       else if timer_fired then Returns (upd_pc (set_tick_pending true) s)
       else if inbound_wake then
         '(_, s) ← on_conn_world (λ w, w ← wake_done NDEBUG (pc_context (cs_pc s)) w;
                                       Returns ((), w)) s;
         Returns s
       else Returns s);
  let s := if timer_unarmed then upd_pc (set_pc_timer_armed false) s else s in
  c ← ctx_load s;
  '(mine, s) ←
    (if topup then
       (* Only called by the batch owner. *)
       _ ← assert NDEBUG (working c); Returns (true, s)
     else if working c then
       Returns (false, s)       (* Another thread is the working context. *)
     else Returns (true, ctx_store (set_working true c) s));
  if negb mine then Returns (None, s)
  else
    (* Confirmed as working thread.  Review state and unlock ASAP. *)
    c ← ctx_load s;
    final ← pconnection_is_final s;
    if closing c && final then
      s ← unlock_and_cleanup s; Returns (None, s)
    else pconnection_process_retry fuel topup timer_unarmed s.

Definition pconnection_batch_next (fuel : nat) (s : conn_state D)
  : outcome (option pn_event_type_t * conn_state D) :=
  let '(e, d) := pn_connection_driver_next_event (driver (cs_pc s)) in
  let s := upd_driver (λ _, d) s in
  match e with
  | None =>
      if hog_count (cs_pc s) <? HOG_MAX then
        '(_, s) ← pconnection_process fuel 0 false true s;   (* top up *)
        let '(e, d) := pn_connection_driver_next_event (driver (cs_pc s)) in
        Returns (e, upd_driver (λ _, d) s)
      else Returns (None, s)
  | Some e => Returns (Some e, s)
  end.

Definition pn_connection_wake (s : conn_state D) : outcome (conn_state D) :=
  c ← ctx_load s;
  '(notify, s) ←
    (if negb (closing c) then
       n ← int_incr (wake_count (cs_pc s));
       let s := upd_pc (set_wake_count n) s in
       on_conn_world (wake (pc_context (cs_pc s))) s
     else Returns (false, s));
  if notify then '(_, s) ← on_conn_world (λ w, w ← wake_notify w; Returns ((), w)) s; Returns s
  else Returns s.

Definition pn_proactor_release_connection (s : conn_state D) : outcome (conn_state D) :=
  let s := upd_driver pn_connection_driver_release_connection s in
  s ← pconnection_begin_close s;
  '(notify, s) ← on_conn_world (wake (pc_context (cs_pc s))) s;
  if notify then '(_, s) ← on_conn_world (λ w, w ← wake_notify w; Returns ((), w)) s; Returns s
  else Returns s.

(** *** The rearm policy *)

(** The mask as the design states it. *)
Definition rearm_wanted (pc : pconnection_t D) : Z :=
  Z.lor (if read_blocked pc && negb (pconnection_rclosed pc) then EPOLLIN else 0)
        (if negb (pconnection_wclosed pc)
            && (write_blocked pc || (0 <? pn_connection_driver_write_buffer (driver pc)))
         then EPOLLOUT else 0).

Definition arm (wanted : Z) (pc : pconnection_t D) : pconnection_t D :=
  set_current_arm wanted
    (set_pc_psocket (set_ps_epoll_io (set_ee_wanted wanted (ps_epoll_io (pc_psocket pc)))
                                     (pc_psocket pc)) pc).

(** C5.  [pconnection_rearm_check] computes the mask of the design, asks
    for no rearm and changes nothing when both sides are closed, when the
    mask equals [current_arm] or when it is zero, and otherwise asks for
    the rearm with [current_arm] (and the mask of the registration) set to
    it; a connection closed for read and write is never rearmed. *)
Theorem rearm_policy (pc : pconnection_t D) :
  pconnection_rearm_check pc =
    (if (pconnection_rclosed pc && pconnection_wclosed pc)
        || (rearm_wanted pc =? current_arm pc) || (rearm_wanted pc =? 0)
     then (false, pc)
     else (true, arm (rearm_wanted pc) pc)) ∧
  (pconnection_rclosed pc && pconnection_wclosed pc = true →
     pconnection_rearm_check pc = (false, pc)) ∧
  ((pconnection_rearm_check pc).1 = true →
     current_arm (pconnection_rearm_check pc).2 = rearm_wanted pc ∧
     ee_wanted (ps_epoll_io (pc_psocket (pconnection_rearm_check pc).2)) = rearm_wanted pc ∧
     rearm_wanted pc ≠ 0 ∧ rearm_wanted pc ≠ current_arm pc) ∧
  ((pconnection_rearm_check pc).1 = false → (pconnection_rearm_check pc).2 = pc).
Proof.
  assert (Heq : pconnection_rearm_check pc =
    (if (pconnection_rclosed pc && pconnection_wclosed pc)
        || (rearm_wanted pc =? current_arm pc) || (rearm_wanted pc =? 0)
     then (false, pc)
     else (true, arm (rearm_wanted pc) pc))).
  { unfold pconnection_rearm_check, rearm_wanted, arm.
    destruct (pconnection_rclosed pc) eqn:Hr, (pconnection_wclosed pc) eqn:Hw,
      (read_blocked pc), (write_blocked pc),
      (0 <? pn_connection_driver_write_buffer (driver pc));
      cbn [andb orb negb]; try reflexivity;
      rewrite (Z.eqb_sym (current_arm pc)); rewrite orb_comm; reflexivity. }
  split; [exact Heq|]. rewrite Heq. split; [|split].
  - by intros ->.
  - destruct (pconnection_rclosed pc && pconnection_wclosed pc); simpl; [discriminate|].
    destruct (rearm_wanted pc =? current_arm pc) eqn:H1; simpl; [discriminate|].
    destruct (rearm_wanted pc =? 0) eqn:H2; simpl; [discriminate|].
    apply Z.eqb_neq in H1, H2. done.
  - destruct (_ || _ || _); [done|discriminate].
Qed.
End Connection.

(** C10.  [start_polling] on a record whose [polling] flag is set returns
    false and changes neither the record nor the interest list; so a second
    call right after a first one does nothing, whatever the first did, and
    [pconnection_start], which registers the timer twice, does what it would
    do registering it once. *)
Theorem start_polling_idempotent (ee : epoll_extended_t) (epollfd : Z) (k : epoll_set) :
  ee_polling ee = true →
  start_polling ee epollfd k = (ee, k, false) ∧
  (∀ ee0 k0, let '(ee1, k1, _) := start_polling ee0 epollfd k0 in
             start_polling ee1 epollfd k1 = (ee1, k1, false)) ∧
  (∀ D (s : conn_state D), pconnection_start s = pconnection_start_once s).
Proof.
  intros Hp. split; [|split].
  - unfold start_polling. by rewrite Hp.
  - intros ee0 k0. unfold start_polling at 1.
    destruct (ee_polling ee0) eqn:Hp0.
    + unfold start_polling. by rewrite Hp0.
    + destruct (epoll_ctl _ _ _ _ _) as [k1 r]. by unfold start_polling.
  - intros D s. unfold pconnection_start, pconnection_start_once. f_equal.
    unfold conn_start_polling_timer at 1.
    set (s1 := conn_start_polling_timer s).
    assert (Hs1 : ee_polling (pt_epoll_io (pc_timer (cs_pc s1))) = true).
    { unfold s1, conn_start_polling_timer, start_polling.
      destruct (ee_polling (pt_epoll_io (pc_timer (cs_pc s)))) eqn:Hp0; simpl; [done|].
      by destruct (epoll_ctl _ _ _ _ _). }
    unfold start_polling. rewrite Hs1.
    destruct s1 as [pc1 ? w1 ? ? ? ?]. destruct w1, pc1 as [? ? ? ? ? ? ? ? ? t1 ? ? ? ? ? ? ? ? ?].
    by destruct t1.
Qed.

Lemma start_polling_idempotent_witness :
  let ee := mk_epoll_extended 7 PCONNECTION_TIMER EPOLLIN true in
  start_polling ee 3 ∅ = (ee, ∅, false).
Proof.
  exact (proj1 (start_polling_idempotent
                  (mk_epoll_extended 7 PCONNECTION_TIMER EPOLLIN true) 3 ∅ eq_refl)).
Defined.

(** ** A small driver to run the connection code on

    It queues events, has a read and a write side that can be closed, a
    write buffer of [td_wbuf] bytes and a read buffer of [td_rbuf] bytes;
    with [td_strict] set it closes its read side when it is fed input (as
    the engine does on a framing error). *)
Record test_driver : Type := mk_test_driver {
  td_events : list pn_event_type_t;
  td_rclosed : bool;
  td_wclosed : bool;
  td_rbuf : Z;
  td_wbuf : Z;
  td_strict : bool;
  td_condition : option string;
  td_idle_timeout : bool
}.

Definition td_set_events (v : list pn_event_type_t) (d : test_driver) : test_driver :=
  mk_test_driver v (td_rclosed d) (td_wclosed d) (td_rbuf d) (td_wbuf d) (td_strict d)
                 (td_condition d) (td_idle_timeout d).
Definition td_set_closed (r w : bool) (d : test_driver) : test_driver :=
  mk_test_driver (td_events d) r w (td_rbuf d) (td_wbuf d) (td_strict d)
                 (td_condition d) (td_idle_timeout d).
Definition td_set_wbuf (v : Z) (d : test_driver) : test_driver :=
  mk_test_driver (td_events d) (td_rclosed d) (td_wclosed d) (td_rbuf d) v (td_strict d)
                 (td_condition d) (td_idle_timeout d).
Definition td_set_condition (v : option string) (d : test_driver) : test_driver :=
  mk_test_driver (td_events d) (td_rclosed d) (td_wclosed d) (td_rbuf d) (td_wbuf d) (td_strict d)
                 v (td_idle_timeout d).

#[global] Instance test_driver_driver : ConnectionDriver test_driver := {|
  pn_connection_driver_has_event d := has_peek (td_events d);
  pn_connection_driver_next_event d :=
    let '(e, q) := pn_collector_next (td_events d) in (e, td_set_events q d);
  pn_connection_driver_finished d :=
    td_rclosed d && td_wclosed d && negb (has_peek (td_events d));
  pn_connection_driver_read_closed := td_rclosed;
  pn_connection_driver_write_closed := td_wclosed;
  pn_connection_driver_read_buffer := td_rbuf;
  pn_connection_driver_write_buffer := td_wbuf;
  pn_connection_driver_read_done d n :=
    if td_strict d then td_set_closed true (td_wclosed d) d
    else td_set_events (pn_collector_put (td_events d) (PN_TRANSPORT_EVENT 0)) d;
  pn_connection_driver_read_close d := td_set_closed true (td_wclosed d) d;
  pn_connection_driver_write_done d n := td_set_wbuf (td_wbuf d - n) d;
  pn_connection_driver_close d := td_set_closed true true d;
  pn_connection_driver_bind d := d;
  pn_connection_driver_errorf d what host port err := td_set_condition (Some what) d;
  pn_connection_driver_release_connection d := d;
  pn_connection_driver_destroy d := d;
  pn_connection_collector_put d t := td_set_events (pn_collector_put (td_events d) t) d;
  pn_transport_condition_copy d cond := td_set_condition (Some cond) d;
  pn_transport_has_idle_timeout := td_idle_timeout;
  pn_transport_tick d now := (0, d)
|}.

(** A proactor with one connection: its context at address 1, its socket 6
    and its timerfd 7 registered, connected and idle. *)
Definition test_world : world :=
  mk_world [pcontext_init PROACTOR; set_next None (pcontext_init PCONNECTION)]
    (mk_proactor 0 3 (ptimer_init 5 false) [] (Some 1%nat)
                 (mk_epoll_extended 4 WAKE EPOLLIN true)
                 0 0 0 false false false true false 4 false None None)
    (<[6 := Z.lor (Z.lor EPOLLIN EPOLLOUT) EPOLLONESHOT]>
       (<[7 := Z.lor EPOLLIN EPOLLONESHOT]>
          (<[5 := Z.lor EPOLLIN EPOLLONESHOT]> (<[4 := Z.lor EPOLLIN EPOLLONESHOT]> ∅))))
    0 timerfd_init 0.

Definition test_pconnection (d : test_driver) : pconnection_t test_driver :=
  mk_pconnection
    (mk_psocket 6 (mk_epoll_extended 6 PCONNECTION_IO (Z.lor EPOLLIN EPOLLOUT) true) None
                "localhost" "5672")
    1%nat 0 0 false false true false None
    (set_pt_epoll_io (mk_epoll_extended 7 PCONNECTION_TIMER EPOLLIN true) (ptimer_init 7 true))
    0 true false false false 0 d None [].

Definition test_conn (d : test_driver) (net : list io_result) : conn_state test_driver :=
  mk_conn_state (test_pconnection d) timerfd_init test_world net 0 1000 [].

Definition test_open_driver : test_driver :=
  mk_test_driver [] false false 10 0 false None false.

(** Three external wakes, then the wake is processed: one event. *)
Example pconnection_process_wakes :
  let run :=
    s ← pn_connection_wake (test_conn test_open_driver []);
    s ← pn_connection_wake s;
    s ← pn_connection_wake s;
    '(ctx, w) ← wake_pop_front false (cs_world s);
    pconnection_process false 5 0 false false (set_cs_world w s) in
  (λ '(b, s), (b, td_events (driver (cs_pc s)), wake_count (cs_pc s), cs_log s,
               wake_ops <$> w_mem (cs_world s))) <$> (match run with Returns r => Some r | _ => None end)
  = Some (Some (pconnection_batch 1), [PN_CONNECTION_WAKE], 0,
          [act_put PN_CONNECTION_WAKE; act_read 10], [0; 0]).
Proof. vm_compute. reflexivity. Qed.

(** ** What the connection code logs, and what it leaves alone *)

Definition io_action (a : action) : Prop :=
  match a with
  | act_put _ | act_cleanup _ _ _ _ | act_final_free => False
  | _ => True
  end.

Definition free_action (a : action) : Prop := io_action a ∨ a = act_final_free.

Section ConnectionSteps.
Variable NDEBUG : bool.
Context {D : Type} `{ConnectionDriver D}.

(** From [s] to [s']: [wake_count] and the address of the context are the
    same, and the log has grown by actions in [P]. *)
Definition steps (P : action → Prop) (s s' : conn_state D) : Prop :=
  wake_count (cs_pc s') = wake_count (cs_pc s) ∧
  pc_context (cs_pc s') = pc_context (cs_pc s) ∧
  ∃ new, cs_log s' = cs_log s ++ new ∧ Forall P new.

Definition frame (f : pconnection_t D → pconnection_t D) : Prop :=
  ∀ pc, wake_count (f pc) = wake_count pc ∧ pc_context (f pc) = pc_context pc.

Lemma steps_refl P s : steps P s s.
Proof. repeat split. exists []. by rewrite app_nil_r. Qed.

Lemma steps_trans P s1 s2 s3 : steps P s1 s2 → steps P s2 s3 → steps P s1 s3.
Proof.
  intros (Hw1 & Hc1 & n1 & Hl1 & Hp1) (Hw2 & Hc2 & n2 & Hl2 & Hp2).
  split; [congruence|]. split; [congruence|].
  exists (n1 ++ n2). split; [by rewrite Hl2, Hl1, (assoc_L (++))|by apply Forall_app].
Qed.

Lemma steps_mono (P Q : action → Prop) s s' :
  (∀ a, P a → Q a) → steps P s s' → steps Q s s'.
Proof.
  intros HPQ (Hw & Hc & n & Hl & Hp). repeat split; [done..|].
  exists n. split; [done|]. eapply Forall_impl; eauto.
Qed.

Lemma steps_log P a s0 s : P a → steps P s0 s → steps P s0 (log a s).
Proof.
  intros Ha Hs. eapply steps_trans; [exact Hs|].
  repeat split. exists [a]. split; [done|]. by constructor.
Qed.

Lemma steps_upd_pc P f s0 s : frame f → steps P s0 s → steps P s0 (upd_pc f s).
Proof.
  intros Hf Hs. eapply steps_trans; [exact Hs|].
  destruct (Hf (cs_pc s)) as [Hw Hc].
  split; [exact Hw|]. split; [exact Hc|]. exists []. by rewrite app_nil_r.
Qed.

Lemma steps_upd_driver P f s0 s : steps P s0 s → steps P s0 (upd_driver f s).
Proof. apply steps_upd_pc. by intros pc. Qed.

Lemma steps_set_cs_pc P pc s0 s :
  wake_count pc = wake_count (cs_pc s) → pc_context pc = pc_context (cs_pc s) →
  steps P s0 s → steps P s0 (set_cs_pc pc s).
Proof.
  intros Hw Hc Hs. eapply steps_trans; [exact Hs|].
  split; [exact Hw|]. split; [exact Hc|]. exists []. by rewrite app_nil_r.
Qed.

Lemma steps_upd_world P f s0 s : steps P s0 s → steps P s0 (upd_world f s).
Proof. intros Hs. eapply steps_trans; [exact Hs|]. repeat split. exists []. by rewrite app_nil_r. Qed.

Lemma steps_set_cs_world P w s0 s : steps P s0 s → steps P s0 (set_cs_world w s).
Proof. intros Hs. eapply steps_trans; [exact Hs|]. repeat split. exists []. by rewrite app_nil_r. Qed.

Lemma steps_ctx_store P c s0 s : steps P s0 s → steps P s0 (ctx_store c s).
Proof. apply steps_upd_world. Qed.

Lemma steps_set_cs_net P v s0 s : steps P s0 s → steps P s0 (set_cs_net v s).
Proof. intros Hs. eapply steps_trans; [exact Hs|]. repeat split. exists []. by rewrite app_nil_r. Qed.

Lemma steps_set_cs_errno P v s0 s : steps P s0 s → steps P s0 (set_cs_errno v s).
Proof. intros Hs. eapply steps_trans; [exact Hs|]. repeat split. exists []. by rewrite app_nil_r. Qed.

Lemma steps_set_cs_timerfd P v s0 s : steps P s0 s → steps P s0 (set_cs_timerfd v s).
Proof. intros Hs. eapply steps_trans; [exact Hs|]. repeat split. exists []. by rewrite app_nil_r. Qed.

Lemma steps_if P (b : bool) s0 s1 s2 :
  steps P s0 s1 → steps P s0 s2 → steps P s0 (if b then s1 else s2).
Proof. by destruct b. Qed.
End ConnectionSteps.

Create HintDb steps.
#[local] Hint Resolve steps_refl steps_log steps_upd_driver steps_upd_world steps_set_cs_world
  steps_ctx_store steps_set_cs_net steps_set_cs_errno steps_set_cs_timerfd steps_if : steps.
#[local] Hint Extern 1 (frame _) => (intros ?; split; reflexivity) : steps.
#[local] Hint Extern 2 (steps _ _ (upd_pc _ _)) => (apply steps_upd_pc) : steps.
#[local] Hint Extern 1 (io_action _) => exact I : steps.

Ltac steps_solve := eauto 20 with steps.

Section ConnectionHelpers.
Variable NDEBUG : bool.
Context {D : Type} `{ConnectionDriver D}.
Implicit Types s : conn_state D.

Lemma psocket_error_pconnection_steps s0 err what s :
  steps io_action s0 s → steps io_action s0 (psocket_error_pconnection err what s).
Proof. intros Hs. unfold psocket_error_pconnection. steps_solve. Qed.

Lemma pconnection_connected_lh_steps s0 s :
  steps io_action s0 s → steps io_action s0 (pconnection_connected_lh s).
Proof. intros Hs. unfold pconnection_connected_lh. steps_solve. Qed.

Lemma conn_start_polling_timer_steps s0 s :
  steps io_action s0 s → steps io_action s0 (conn_start_polling_timer s).
Proof.
  intros Hs. unfold conn_start_polling_timer.
  destruct (start_polling _ _ _) as [[ee k] b]. steps_solve.
Qed.

Lemma conn_start_polling_socket_steps s0 s :
  steps io_action s0 s → steps io_action s0 (conn_start_polling_socket s).
Proof.
  intros Hs. unfold conn_start_polling_socket.
  destruct (start_polling _ _ _) as [[ee k] b]. steps_solve.
Qed.

Lemma pconnection_start_steps s0 s :
  steps io_action s0 s → steps io_action s0 (pconnection_start s).
Proof.
  intros Hs. unfold pconnection_start.
  by apply conn_start_polling_socket_steps, conn_start_polling_timer_steps,
    conn_start_polling_timer_steps.
Qed.

Lemma pconnection_try_addresses_steps l : ∀ s0 s,
  steps io_action s0 s → steps io_action s0 (pconnection_try_addresses l s).2.
Proof.
  induction l as [|a l IH]; intros s0 s Hs; simpl.
  - steps_solve.
  - destruct a; simpl.
    + apply IH. steps_solve.
    + apply IH. steps_solve.
    + apply pconnection_start_steps. steps_solve.
Qed.

Lemma pconnection_maybe_connect_lh_steps s0 s :
  steps io_action s0 s → steps io_action s0 (pconnection_maybe_connect_lh s).
Proof.
  intros Hs. unfold pconnection_maybe_connect_lh.
  destruct (negb (connected (cs_pc (set_cs_errno 0 s)))); [|steps_solve].
  pose proof (pconnection_try_addresses_steps (ai (cs_pc (set_cs_errno 0 s))) s0
                (set_cs_errno 0 s) ltac:(steps_solve)) as Ht.
  destruct (pconnection_try_addresses _ _) as [started s1]. simpl in Ht.
  destruct started; [done|].
  apply steps_upd_pc; [by intros pc|].
  apply steps_if; [apply psocket_error_pconnection_steps|]; steps_solve.
Qed.

Lemma sys_io_steps a s0 s :
  io_action a → steps io_action s0 s → steps io_action s0 (sys_io a s).2.
Proof.
  intros Ha Hs. unfold sys_io. simpl.
  destruct (cs_net s) as [|[n|e] net]; simpl; steps_solve.
Qed.

Lemma pconnection_write_steps size s0 s :
  steps io_action s0 s → steps io_action s0 (pconnection_write size s).2.
Proof.
  intros Hs. unfold pconnection_write.
  pose proof (sys_io_steps (act_write size) s0 s I Hs) as Hio.
  destruct (sys_io _ _) as [n s1]. simpl in Hio.
  destruct (0 <? n); simpl; [steps_solve|].
  destruct (cs_errno s1 =? EWOULDBLOCK); simpl; [steps_solve|].
  destruct (negb _); simpl; done.
Qed.

Lemma conn_timer_set_steps t s s' :
  conn_timer_set NDEBUG t s = Returns s' → steps io_action s s'.
Proof.
  unfold conn_timer_set. intros Hf.
  apply outcome_bind_returns in Hf as ([pt k] & _ & Hf). injection Hf as <-. steps_solve.
Qed.

Lemma conn_timer_callback_steps s n s' :
  conn_timer_callback NDEBUG s = Returns (n, s') → steps io_action s s'.
Proof.
  unfold conn_timer_callback. intros Hf.
  apply outcome_bind_returns in Hf as ([[n' pt] k] & _ & Hf). injection Hf as <- <-.
  steps_solve.
Qed.

Lemma on_conn_world_steps {A} (f : world → outcome (A * world)) s a s' :
  on_conn_world f s = Returns (a, s') → steps io_action s s'.
Proof.
  unfold on_conn_world. intros Hf.
  apply outcome_bind_returns in Hf as ([a' w] & _ & Hf). injection Hf as <- <-. steps_solve.
Qed.

Lemma conn_rearm_timer_steps s s' : conn_rearm_timer s = Returns s' → steps io_action s s'.
Proof.
  unfold conn_rearm_timer. intros Hf.
  apply outcome_bind_returns in Hf as (k & _ & Hf). injection Hf as <-. steps_solve.
Qed.

Lemma pconnection_rearm_steps s s' : pconnection_rearm s = Returns s' → steps io_action s s'.
Proof.
  unfold pconnection_rearm. intros Hf.
  apply outcome_bind_returns in Hf as (k & _ & Hf). injection Hf as <-. steps_solve.
Qed.

Lemma pconnection_rearm_check_frame (pc : pconnection_t D) :
  wake_count (pconnection_rearm_check pc).2 = wake_count pc ∧
  pc_context (pconnection_rearm_check pc).2 = pc_context pc.
Proof.
  unfold pconnection_rearm_check.
  destruct (_ && _); [done|]. destruct (_ || _); done.
Qed.

Lemma rearm_if_needed_steps s s' : rearm_if_needed s = Returns s' → steps io_action s s'.
Proof.
  unfold rearm_if_needed. intros Hf.
  destruct (pconnection_rearm_check_frame (cs_pc s)) as [Hw Hc].
  destruct (pconnection_rearm_check (cs_pc s)) as [r pc]. simpl in Hw, Hc.
  assert (Hs : steps io_action s (set_cs_pc pc s)) by (apply steps_set_cs_pc; steps_solve).
  destruct r.
  - eapply steps_trans; [exact Hs|]. by apply pconnection_rearm_steps.
  - by injection Hf as <-.
Qed.

Lemma pconnection_begin_close_steps s s' :
  pconnection_begin_close NDEBUG s = Returns s' → steps io_action s s'.
Proof.
  unfold pconnection_begin_close. intros Hf.
  apply outcome_bind_returns in Hf as (c & _ & Hf).
  destruct (negb (closing c)); [|injection Hf as <-; steps_solve].
  apply outcome_bind_returns in Hf as ([ee k] & _ & Hf).
  eapply steps_trans; [|by eapply conn_timer_set_steps]. steps_solve.
Qed.

Lemma pconnection_tick_steps s s' :
  pconnection_tick NDEBUG s = Returns s' → steps io_action s s'.
Proof.
  unfold pconnection_tick. intros Hf.
  destruct (pn_transport_has_idle_timeout _); [|injection Hf as <-; steps_solve].
  apply outcome_bind_returns in Hf as (s1 & H1 & Hf).
  apply conn_timer_set_steps in H1.
  assert (Hs1 : steps io_action s s1) by (eapply steps_trans; [|exact H1]; steps_solve).
  destruct (pn_transport_tick _ _) as [next d].
  destruct (negb (next =? 0)).
  - eapply steps_trans; [|by eapply conn_timer_set_steps]. steps_solve.
  - injection Hf as <-. steps_solve.
Qed.

Lemma pconnection_read_pump_steps t s t' s' :
  pconnection_read_pump NDEBUG t s = Returns (t', s') → steps io_action s s'.
Proof.
  unfold pconnection_read_pump. intros Hf.
  destruct (negb (pconnection_rclosed (cs_pc s))); [|injection Hf as <- <-; steps_solve].
  destruct (_ && _); [|injection Hf as <- <-; steps_solve].
  pose proof (sys_io_steps (act_read (pn_connection_driver_read_buffer (driver (cs_pc s))))
                s s I (steps_refl _ _)) as Hio.
  destruct (sys_io _ _) as [n s1]. simpl in Hio.
  destruct (0 <? n).
  - apply outcome_bind_returns in Hf as (s2 & H2 & Hf). injection Hf as <- <-.
    apply pconnection_tick_steps in H2.
    assert (steps io_action s s2) by (eapply steps_trans; [|exact H2]; steps_solve).
    steps_solve.
  - destruct (n =? 0); [injection Hf as <- <-; steps_solve|].
    destruct (cs_errno s1 =? EWOULDBLOCK); [injection Hf as <- <-; steps_solve|].
    destruct (negb _); injection Hf as <- <-; [|done].
    by apply psocket_error_pconnection_steps.
Qed.

Lemma pconnection_write_pump_steps fuel : ∀ s s',
  pconnection_write_pump fuel s = Returns s' → steps io_action s s'.
Proof.
  induction fuel as [|fuel IH]; intros s s' Hf; simpl in Hf; [discriminate|].
  destruct (_ && _); [|injection Hf as <-; steps_solve].
  destruct (0 <? _).
  - pose proof (pconnection_write_steps
                  (pn_connection_driver_write_buffer (driver (cs_pc s))) s s (steps_refl _ _))
      as Hw.
    destruct (pconnection_write _ _) as [ok s1]. simpl in Hw.
    eapply steps_trans; [|by eapply IH].
    destruct ok; [done|]. by apply psocket_error_pconnection_steps.
  - destruct (pn_connection_driver_write_closed _); [|injection Hf as <-; steps_solve].
    eapply steps_trans; [|by eapply IH]. steps_solve.
Qed.

Lemma pconnection_process_disconnect_steps s s' :
  pconnection_process_disconnect s = Returns s' → steps io_action s s'.
Proof.
  unfold pconnection_process_disconnect. intros Hf.
  destruct (queued_disconnect (cs_pc s)); [|injection Hf as <-; steps_solve].
  apply outcome_bind_returns in Hf as (c & _ & Hf).
  destruct (negb (closing c)); injection Hf as <-; [|steps_solve].
  destruct (disconnect_condition _); steps_solve.
Qed.

Lemma pconnection_cleanup_steps s s' :
  pconnection_cleanup s = Returns s' → steps free_action s s'.
Proof.
  unfold pconnection_cleanup. intros Hf.
  apply outcome_bind_returns in Hf as ([ee k] & _ & Hf).
  apply outcome_bind_returns in Hf as ([can_free s1] & H1 & Hf).
  apply on_conn_world_steps in H1.
  match type of H1 with steps _ ?x _ => assert (Hx : steps free_action s x) end.
  { repeat first [apply steps_if | apply steps_upd_world | apply steps_upd_pc
                 | apply steps_log | apply steps_refl ];
      try (by left); by intros pc. }
  assert (Hs1 : steps free_action s s1).
  { eapply steps_trans; [exact Hx|]. eapply steps_mono; [|exact H1]. by left. }
  destruct can_free; injection Hf as <-; [|done].
  unfold pconnection_final_free. apply steps_upd_driver. apply steps_upd_pc; [by intros pc|].
  apply steps_log; [by right|done].
Qed.

Lemma pconnection_is_final_returns s b :
  pconnection_is_final s = Returns b →
  ∃ c, ctx_load s = Returns c ∧
       (b = true ↔ current_arm (cs_pc s) = 0 ∧ pending_count (pc_timer (cs_pc s)) = 0
                   ∧ wake_ops c = 0).
Proof.
  unfold pconnection_is_final. intros Hf.
  apply outcome_bind_returns in Hf as (c & Hc & Hf). injection Hf as <-.
  exists c. split; [done|]. rewrite !andb_true_iff, !Z.eqb_eq. tauto.
Qed.

(** A call of [pconnection_cleanup] made right after the test
    [closing && pconnection_is_final(pc)] under the lock. *)
Lemma unlock_and_cleanup_log s c s' :
  ctx_load s = Returns c → closing c = true → pconnection_is_final s = Returns true →
  unlock_and_cleanup s = Returns s' →
  wake_count (cs_pc s') = wake_count (cs_pc s) ∧
  ∃ post, cs_log s' = cs_log s ++ act_cleanup true 0 0 0 :: post ∧ Forall free_action post.
Proof.
  intros Hc Hcl Hfin Hf. unfold unlock_and_cleanup in Hf. rewrite Hc in Hf. simpl in Hf.
  apply pconnection_is_final_returns in Hfin as (c' & Hc' & Hiff).
  rewrite Hc in Hc'. injection Hc' as <-.
  destruct (proj1 Hiff eq_refl) as (Ha & Hp & Hw). rewrite Hcl, Ha, Hp, Hw in Hf.
  apply pconnection_cleanup_steps in Hf as (Hwc & _ & post & Hlog & Hpost).
  split; [done|]. exists post. split; [|done].
  rewrite Hlog. simpl. by rewrite <- (assoc_L (++)).
Qed.
End ConnectionHelpers.

(** *** The shape of the log of one call *)

Definition work_action (a : action) : Prop := io_action a ∨ a = act_put PN_CONNECTION_WAKE.

(** The log of a call of [pconnection_process] or [pconnection_done]: work,
    and then possibly one cleanup, called when [closing] was set and
    [current_arm], [timer.pending_count] and [wake_ops] were zero, with the
    final free inside it. *)
Definition process_log (new : list action) : Prop :=
  Forall work_action new ∨
  ∃ pre post, new = pre ++ act_cleanup true 0 0 0 :: post ∧
              Forall work_action pre ∧ Forall free_action post.

Fixpoint puts (l : list action) : nat :=
  match l with
  | [] => 0
  | act_put PN_CONNECTION_WAKE :: l => S (puts l)
  | _ :: l => puts l
  end.

Lemma puts_app l1 l2 : puts (l1 ++ l2) = (puts l1 + puts l2)%nat.
Proof.
  induction l1 as [|a l1 IH]; simpl; [done|].
  destruct a as [| | | |t| | | |]; try done. destruct t; simpl; by rewrite ?IH.
Qed.

Lemma puts_io l : Forall io_action l → puts l = 0%nat.
Proof.
  induction 1 as [|a l Ha _ IH]; simpl; [done|].
  destruct a as [| | | |t| | | |]; try done.
Qed.

Lemma puts_free l : Forall free_action l → puts l = 0%nat.
Proof.
  induction 1 as [|a l Ha _ IH]; simpl; [done|].
  destruct a as [| | | |t| | | |]; try done. by destruct Ha as [[]|].
Qed.

Lemma process_log_work l : Forall io_action l → process_log l.
Proof. intros Hl. left. eapply Forall_impl; [exact Hl|]. by left. Qed.

Lemma process_log_app l1 l2 : Forall work_action l1 → process_log l2 → process_log (l1 ++ l2).
Proof.
  intros H1 [H2|(pre & post & -> & Hpre & Hpost)].
  - left. by apply Forall_app.
  - right. exists (l1 ++ pre), post. split; [by rewrite (assoc_L (++))|].
    split; [by apply Forall_app|done].
Qed.

Lemma process_log_cleanup post : Forall free_action post → process_log (act_cleanup true 0 0 0 :: post).
Proof. intros Hp. right. exists [], post. split; [done|]. split; [constructor|done]. Qed.

Lemma io_work l : Forall io_action l → Forall work_action l.
Proof. intros Hl. eapply Forall_impl; [exact Hl|]. by left. Qed.

Lemma work_action_not_cleanup cl a p w : ¬ work_action (act_cleanup cl a p w).
Proof. by intros [[]|]. Qed.

Lemma free_action_not_cleanup cl a p w : ¬ free_action (act_cleanup cl a p w).
Proof. by intros [[]|]. Qed.

Lemma work_action_not_free : ¬ work_action act_final_free.
Proof. by intros [[]|]. Qed.

(** Every cleanup in such a log was called on a final connection, and a free
    is preceded by one. *)
Lemma process_log_final new :
  process_log new →
  (∀ cl a p w, act_cleanup cl a p w ∈ new → cl = true ∧ a = 0 ∧ p = 0 ∧ w = 0) ∧
  (∀ pre post, new = pre ++ act_final_free :: post → act_cleanup true 0 0 0 ∈ pre).
Proof.
  intros [Hw|(pre & post & -> & Hpre & Hpost)]; split.
  - intros cl a p w Hin. rewrite Forall_forall in Hw.
    by destruct (work_action_not_cleanup _ _ _ _ (Hw _ Hin)).
  - intros pre post ->. apply Forall_app in Hw as [_ Hw].
    apply Forall_cons in Hw as [Hw _]. by destruct work_action_not_free.
  - intros cl a p w Hin. rewrite Forall_forall in Hpre, Hpost.
    apply elem_of_app in Hin as [Hin|Hin].
    { by destruct (work_action_not_cleanup _ _ _ _ (Hpre _ Hin)). }
    apply elem_of_cons in Hin as [Hin|Hin].
    { by injection Hin as -> -> -> ->. }
    by destruct (free_action_not_cleanup _ _ _ _ (Hpost _ Hin)).
  - intros pre' post' Heq. revert pre' Heq.
    induction pre as [|x pre IH]; intros pre' Heq.
    + destruct pre' as [|y pre']; [discriminate|]. injection Heq as <- _. left.
    + apply Forall_cons in Hpre as [Hx Hpre].
      destruct pre' as [|y pre'].
      * injection Heq as -> _. by destruct work_action_not_free.
      * injection Heq as -> Heq. right. by apply IH.
Qed.

Arguments pconnection_write_pump : simpl never.

Section ConnectionProcess.
Variable NDEBUG : bool.
Context {D : Type} `{ConnectionDriver D}.
Implicit Types s : conn_state D.

Definition pconnection_closed (pc : pconnection_t D) : bool :=
  pconnection_rclosed pc && pconnection_wclosed pc.

(** After the sampling under the lock: [wake_count] is zero, and the log
    has grown by work with a wake event put exactly when [waking]. *)
Definition pass_steps (waking : bool) s0 s : Prop :=
  wake_count (cs_pc s) = 0 ∧
  ∃ new, cs_log s = cs_log s0 ++ new ∧ Forall work_action new ∧
         puts new = if waking then 1%nat else 0%nat.

Lemma pass_steps_io waking s0 s s' :
  pass_steps waking s0 s → steps io_action s s' → pass_steps waking s0 s'.
Proof.
  intros (Hw & new & Hlog & Hwork & Hputs) (Hw' & _ & new' & Hlog' & Hio).
  split; [congruence|]. exists (new ++ new'). split; [by rewrite Hlog', Hlog, (assoc_L (++))|].
  split; [apply Forall_app; split; [done|by apply io_work]|].
  by rewrite puts_app, (puts_io _ Hio), Nat.add_0_r.
Qed.

Lemma steps_after_reset s0 s1 :
  steps io_action (upd_pc (set_wake_count 0) s0) s1 →
  wake_count (cs_pc s1) = 0 ∧ ∃ new, cs_log s1 = cs_log s0 ++ new ∧ Forall io_action new.
Proof. intros (Hw & _ & new & Hlog & Hio). split; [done|]. by exists new. Qed.

Lemma steps_when_zero s0 s1 :
  wake_count (cs_pc s0) = 0 → steps io_action s0 s1 →
  wake_count (cs_pc s1) = 0 ∧ ∃ new, cs_log s1 = cs_log s0 ++ new ∧ Forall io_action new.
Proof. intros H0 (Hw & _ & new & Hlog & Hio). split; [congruence|]. by exists new. Qed.

Lemma pconnection_process_sample_steps tu s0 waking tr unarmed tu' s1 :
  pconnection_process_sample tu s0 = (waking, tr, unarmed, tu', s1) →
  waking = negb (wake_count (cs_pc s0) =? 0) && negb (pconnection_closed (cs_pc s0)) ∧
  wake_count (cs_pc s1) = 0 ∧
  ∃ new, cs_log s1 = cs_log s0 ++ new ∧ Forall io_action new.
Proof.
  unfold pconnection_process_sample, pconnection_closed. intros Hs.
  destruct (wake_count (cs_pc s0) =? 0) eqn:Hwc; cbn [negb andb] in Hs |- *;
    repeat match type of Hs with
           | context [if ?b then _ else _] => destruct b eqn:?; cbn [negb andb] in Hs
           end;
    injection Hs as <- <- <- <- <-; (split; [reflexivity|]).
  all: try (apply steps_when_zero; [by apply Z.eqb_eq|]).
  all: try apply steps_after_reset.
  all: repeat first [ apply steps_refl
                    | apply steps_upd_pc; [by intros pc|]
                    | apply pconnection_maybe_connect_lh_steps
                    | apply pconnection_connected_lh_steps ].
Qed.

(** What one call of the code from [retry:] on logs and does to
    [wake_count], given the state [s0] in which it looks for events of
    the driver. *)
Definition retry_result s s0 s' : Prop :=
  ∃ new, cs_log s' = cs_log s ++ new ∧ process_log new ∧
    if pconnection_has_event (cs_pc s0) then
      puts new = 0%nat ∧ wake_count (cs_pc s') = wake_count (cs_pc s)
    else
      wake_count (cs_pc s') = 0 ∧
      puts new = if negb (wake_count (cs_pc s) =? 0) && negb (pconnection_closed (cs_pc s0))
                 then 1%nat else 0%nat.

Lemma pass_steps_result waking s s0 s1 s' :
  cs_log s0 = cs_log s → wake_count (cs_pc s0) = wake_count (cs_pc s) →
  pconnection_has_event (cs_pc s0) = false →
  waking = negb (wake_count (cs_pc s0) =? 0) && negb (pconnection_closed (cs_pc s0)) →
  pass_steps waking s0 s1 →
  (∃ new, cs_log s' = cs_log s1 ++ new ∧ process_log new ∧ puts new = 0%nat ∧
          wake_count (cs_pc s') = 0) →
  retry_result s s0 s'.
Proof.
  intros Hlog0 Hwc0 Hev -> (Hw1 & new1 & Hlog1 & Hwork1 & Hputs1)
    (new2 & Hlog2 & Hpl2 & Hputs2 & Hw2).
  exists (new1 ++ new2). split; [by rewrite Hlog2, Hlog1, Hlog0, (assoc_L (++))|].
  split; [by apply process_log_app|]. rewrite Hev. split; [done|].
  rewrite puts_app, Hputs1, Hputs2, Nat.add_0_r. by rewrite Hwc0.
Qed.

Lemma finish_plain s1 s' :
  wake_count (cs_pc s1) = 0 → steps io_action s1 s' →
  ∃ new, cs_log s' = cs_log s1 ++ new ∧ process_log new ∧ puts new = 0%nat ∧
         wake_count (cs_pc s') = 0.
Proof.
  intros Hw (Hw' & _ & new & Hlog & Hio). exists new.
  split; [done|]. split; [by apply process_log_work|]. split; [by apply puts_io|congruence].
Qed.

Lemma finish_cleanup s1 s2 c s' :
  wake_count (cs_pc s1) = 0 → steps io_action s1 s2 →
  ctx_load s2 = Returns c → closing c = true → pconnection_is_final s2 = Returns true →
  unlock_and_cleanup s2 = Returns s' →
  ∃ new, cs_log s' = cs_log s1 ++ new ∧ process_log new ∧ puts new = 0%nat ∧
         wake_count (cs_pc s') = 0.
Proof.
  intros Hw (Hw2 & _ & new & Hlog & Hio) Hc Hcl Hfin Hf.
  destruct (unlock_and_cleanup_log _ _ _ Hc Hcl Hfin Hf) as (Hw' & post & Hlog' & Hpost).
  exists (new ++ act_cleanup true 0 0 0 :: post).
  split; [by rewrite Hlog', Hlog, (assoc_L (++))|].
  split; [apply process_log_app; [by apply io_work|by apply process_log_cleanup]|].
  split; [|congruence].
  rewrite puts_app, (puts_io _ Hio). simpl. by apply puts_free.
Qed.

Lemma begin_close_closing s s' :
  pconnection_begin_close NDEBUG s = Returns s' →
  ∃ c, ctx_load s' = Returns c ∧ closing c = true.
Proof.
  unfold pconnection_begin_close, ctx_load. intros Hf.
  apply outcome_bind_returns in Hf as (c & Hc & Hf).
  destruct (closing c) eqn:Hcl; simpl in Hf.
  - injection Hf as <-. eauto.
  - apply outcome_bind_returns in Hf as ([ee k] & _ & Hf).
    unfold conn_timer_set in Hf.
    apply outcome_bind_returns in Hf as ([pt kt] & _ & Hf). injection Hf as <-.
    cbn. unfold load in *. cbn.
    destruct (w_mem (cs_world s) !! pc_context (cs_pc s)) eqn:Hm; [|discriminate].
    rewrite list_lookup_insert_eq by (by eapply lookup_lt_Some). eauto.
Qed.

Lemma pconnection_process_retry_result fuel : ∀ topup tu s r s',
  pconnection_process_retry NDEBUG fuel topup tu s = Returns (r, s') →
  ∃ s0, pconnection_process_disconnect s = Returns s0 ∧ retry_result s s0 s'.
Proof.
  induction fuel as [|fuel IH]; intros topup tu s r s' Hf; simpl in Hf; [discriminate|].
  apply outcome_bind_returns in Hf as (s0 & Hd & Hf). exists s0. split; [done|].
  apply pconnection_process_disconnect_steps in Hd as Hd'.
  destruct Hd' as (Hwc0 & _ & new0 & Hlog0 & Hio0).
  assert (Hnew0 : new0 = []).
  { unfold pconnection_process_disconnect in Hd.
    assert (cs_log s0 = cs_log s).
    { destruct (queued_disconnect (cs_pc s)); [|by injection Hd as <-].
      apply outcome_bind_returns in Hd as (c & _ & Hd).
      destruct (negb (closing c)); injection Hd as <-; [|done].
      by destruct (disconnect_condition _). }
    rewrite H0 in Hlog0. rewrite <- (app_nil_r (cs_log s)) in Hlog0 at 1.
    by apply app_inv_head in Hlog0. }
  subst new0. rewrite app_nil_r in Hlog0.
  destruct (pconnection_has_event (cs_pc s0)) eqn:Hev.
  { injection Hf as <- <-. exists []. rewrite app_nil_r. split; [done|].
    split; [left; constructor|]. by rewrite Hev. }
  destruct (pconnection_process_sample tu s0) as [[[[waking tr] unarmed] tu'] s1] eqn:Hsample.
  apply pconnection_process_sample_steps in Hsample as (Hwaking & Hw1 & new1 & Hlog1 & Hio1).
  apply outcome_bind_returns in Hf as (n & _ & Hf).
  apply outcome_bind_returns in Hf as (s3 & H3 & Hf).
  apply outcome_bind_returns in Hf as ([tr' s5] & H5 & Hf).
  apply outcome_bind_returns in Hf as (s6 & H6 & Hf).
  apply outcome_bind_returns in Hf as (s7 & H7 & Hf).
  (* up to the rearm of the timer *)
  assert (Hp3 : pass_steps false s0 s3).
  { apply (pass_steps_io false s0 s1).
    - split; [done|]. exists new1. split; [done|]. split; [by apply io_work|by apply puts_io].
    - eapply (steps_trans _ _ (upd_pc (set_hog_count n) s1)); [steps_solve|].
      destruct tu'; [by apply conn_rearm_timer_steps|injection H3 as <-; steps_solve]. }
  (* the wake event *)
  match type of H5 with pconnection_read_pump _ _ ?x = _ => set (s4 := x) in * end.
  assert (Hp4 : pass_steps waking s0 s4).
  { unfold s4. destruct waking.
    - destruct Hp3 as (Hw3 & new3 & Hlog3 & Hwork3 & Hputs3). split; [done|].
      exists (new3 ++ [act_put PN_CONNECTION_WAKE]). split; [|split].
      + cbn. by rewrite Hlog3, (assoc_L (++)).
      + apply Forall_app. split; [done|]. constructor; [by right|constructor].
      + by rewrite puts_app, Hputs3.
    - done. }
  (* read, tick, write *)
  assert (Hp7 : pass_steps waking s0 s7).
  { apply (pass_steps_io _ _ s4); [done|].
    eapply steps_trans; [by eapply pconnection_read_pump_steps|].
    eapply steps_trans; [|by eapply pconnection_write_pump_steps].
    destruct tr'; [by eapply pconnection_tick_steps|injection H6 as <-; steps_solve]. }
  apply (pass_steps_result waking s s0 s7); try done.
  destruct Hp7 as (Hw7 & _).
  destruct topup.
  { apply outcome_bind_returns in Hf as (s8 & H8 & Hf). injection Hf as <- <-.
    apply finish_plain; [done|].
    destruct unarmed; [by apply rearm_if_needed_steps|injection H8 as <-; steps_solve]. }
  destruct (pconnection_has_event (cs_pc s7)).
  { apply outcome_bind_returns in Hf as (s8 & H8 & Hf). injection Hf as <- <-.
    apply finish_plain; [done|].
    destruct unarmed; [by apply rearm_if_needed_steps|injection H8 as <-; steps_solve]. }
  apply outcome_bind_returns in Hf as (c & Hc & Hf).
  apply outcome_bind_returns in Hf as (final & Hfin & Hf).
  destruct (closing c) eqn:Hcl, final; simpl in Hf.
  { apply outcome_bind_returns in Hf as (s8 & H8 & Hf). injection Hf as <- <-.
    by eapply (finish_cleanup s7 s7); [|apply steps_refl|..]. }
  all: destruct (pconnection_work_pending (cs_pc s7)).
  all: try (destruct (IH _ _ _ _ _ Hf) as (s0' & Hd' & new' & Hlog' & Hpl' & Hres');
            apply pconnection_process_disconnect_steps in Hd' as (Hwd & _);
            exists new'; split; [done|]; split; [done|];
            rewrite Hw7 in Hres'; destruct (pconnection_has_event (cs_pc s0'));
            [destruct Hres' as [-> ->]; done|destruct Hres' as [-> ->]; done]).
  all: apply outcome_bind_returns in Hf as ([freed s8] & H8 & Hf).
  all: match type of H8 with
       | context [pconnection_begin_close _ ?x] => set (s7' := x) in *
       end.
  all: assert (Hs7' : steps io_action s7 s7') by (unfold s7'; steps_solve).
  all: match type of H8 with (if ?b then _ else _) = _ => destruct b end.
  all: try (injection H8 as <- <-; apply outcome_bind_returns in Hf as (s9 & H9 & Hf);
            injection Hf as <- <-; apply finish_plain; [done|];
            eapply steps_trans; [exact Hs7'|by apply rearm_if_needed_steps]).
  all: apply outcome_bind_returns in H8 as (s8' & Hbc & H8).
  all: apply outcome_bind_returns in H8 as (final' & Hfin' & H8).
  all: destruct (begin_close_closing _ _ Hbc) as (c' & Hc' & Hcl').
  all: apply pconnection_begin_close_steps in Hbc.
  all: assert (Hs8' : steps io_action s7 s8') by (eapply steps_trans; [exact Hs7'|exact Hbc]).
  all: destruct final'.
  all: try (apply outcome_bind_returns in H8 as (s9 & H9 & H8); injection H8 as <- <-;
            injection Hf as <- <-; by eapply (finish_cleanup s7 s8')).
  all: injection H8 as <- <-; apply outcome_bind_returns in Hf as (s9 & H9 & Hf);
       injection Hf as <- <-; apply finish_plain; [done|];
       eapply steps_trans; [exact Hs8'|by apply rearm_if_needed_steps].
Qed.

(** The part of [pconnection_process] before [retry:] logs nothing and
    leaves the driver, [wake_count] and [queued_disconnect] alone. *)
Definition same_conn s s1 : Prop :=
  cs_log s1 = cs_log s ∧ wake_count (cs_pc s1) = wake_count (cs_pc s) ∧
  driver (cs_pc s1) = driver (cs_pc s) ∧
  queued_disconnect (cs_pc s1) = queued_disconnect (cs_pc s).

Lemma same_conn_refl s : same_conn s s.
Proof. done. Qed.

Lemma same_conn_trans s1 s2 s3 : same_conn s1 s2 → same_conn s2 s3 → same_conn s1 s3.
Proof. intros (?&?&?&?) (?&?&?&?). repeat split; congruence. Qed.

Inductive process_entry (fuel : nat) (topup : bool) s (c0 : pcontext_t)
    (r : option batch_t) s' : Prop :=
| entry_other_thread :   (* another thread is the working context *)
    same_conn s s' → r = None → working c0 = true → topup = false →
    process_entry fuel topup s c0 r s'
| entry_cleanup s1 c :
    same_conn s s1 → ctx_load s1 = Returns c → closing c = true → closing c0 = true →
    pconnection_is_final s1 = Returns true → unlock_and_cleanup s1 = Returns s' →
    r = None → process_entry fuel topup s c0 r s'
| entry_retry s1 tu :
    same_conn s s1 →
    pconnection_process_retry NDEBUG fuel topup tu s1 = Returns (r, s') →
    process_entry fuel topup s c0 r s'.

Lemma ctx_load_store c s : is_Some (w_mem (cs_world s) !! pc_context (cs_pc s)) →
  ctx_load (ctx_store c s) = Returns c.
Proof.
  intros Hs. unfold ctx_load, ctx_store, load. cbn.
  rewrite list_lookup_insert_eq; [done|]. by apply lookup_lt_is_Some.
Qed.

(** The flags of the context that the code before [retry:] reads. *)
Definition ctx_flags s (closing0 working0 : bool) : Prop :=
  ∃ c, ctx_load s = Returns c ∧ closing c = closing0 ∧ working c = working0.

Lemma pconnection_process_entry fuel events timeout topup s c0 r s' :
  ctx_load s = Returns c0 →
  pconnection_process NDEBUG fuel events timeout topup s = Returns (r, s') →
  process_entry fuel topup s c0 r s'.
Proof.
  unfold pconnection_process. intros Hc0 Hf.
  apply outcome_bind_returns in Hf as ([[tu fired] sA] & HA & Hf).
  apply outcome_bind_returns in Hf as (sB & HB & Hf).
  apply outcome_bind_returns in Hf as (c & Hc & Hf).
  apply outcome_bind_returns in Hf as ([mine sD] & HD & Hf).
  assert (HfA : ctx_flags s (closing c0) (working c0)) by (by exists c0).
  assert (HsA : same_conn s sA ∧ ctx_flags sA (closing c0) (working c0)).
  { destruct timeout; [|by injection HA as <- <- <-].
    apply outcome_bind_returns in HA as ([n s1] & Hcb & HA). injection HA as <- <- <-.
    unfold conn_timer_callback in Hcb.
    apply outcome_bind_returns in Hcb as ([[n' pt] k] & _ & Hcb).
    by injection Hcb as <- <-. }
  destruct HsA as [HsA HfA'].
  assert (HsB : same_conn sA sB ∧ ctx_flags sB (closing c0) (working c0)).
  { destruct (negb (events =? 0)); [by injection HB as <-|].
    destruct fired; [by injection HB as <-|].
    destruct (negb _); [|by injection HB as <-].
    apply outcome_bind_returns in HB as ([[] s1] & Hwd & HB). injection HB as <-.
    unfold on_conn_world in Hwd.
    apply outcome_bind_returns in Hwd as ([[] w] & Hwd & Heq). injection Heq as <-.
    split; [done|].
    apply outcome_bind_returns in Hwd as (w' & Hwd & Heq). injection Heq as <-.
    unfold wake_done in Hwd.
    apply outcome_bind_returns in Hwd as (cw & Hcw & Hwd).
    apply outcome_bind_returns in Hwd as ([] & _ & Hwd).
    apply outcome_bind_returns in Hwd as (n & _ & Hwd). injection Hwd as <-.
    destruct HfA' as (c' & Hc' & Hcl' & Hw'). unfold ctx_load in Hc'.
    rewrite Hc' in Hcw. injection Hcw as <-.
    exists (set_wake_ops n c'). split; [|done].
    unfold ctx_load, load, store in *. cbn.
    destruct (w_mem (cs_world sA) !! pc_context (cs_pc sA)) eqn:Hm; [|discriminate].
    rewrite list_lookup_insert_eq; [done|]. by eapply lookup_lt_Some. }
  destruct HsB as [HsB HfB].
  match type of Hc with ctx_load ?x = _ => set (sC := x) in * end.
  assert (HsC : same_conn sB sC ∧ ctx_flags sC (closing c0) (working c0))
    by (unfold sC; by destruct tu).
  destruct HsC as [HsC (c' & Hc' & Hcl' & Hw')].
  rewrite Hc in Hc'. injection Hc' as <-.
  assert (HsD : same_conn sC sD ∧
                (mine = true → ∃ c', ctx_load sD = Returns c' ∧ closing c' = closing c0) ∧
                (mine = false → working c0 = true ∧ topup = false ∧ sD = sC)).
  { destruct topup.
    - apply outcome_bind_returns in HD as ([] & Ha & HD). injection HD as <- <-.
      split; [done|]. split; [|discriminate]. intros _. by exists c.
    - destruct (working c) eqn:Hw; injection HD as <- <-.
      + split; [done|]. split; [discriminate|]. intros _. by rewrite <- Hw'.
      + split; [done|]. split; [|discriminate]. intros _.
        exists (set_working true c). split; [|done].
        apply ctx_load_store. unfold ctx_load, load in Hc.
        destruct (w_mem (cs_world sC) !! pc_context (cs_pc sC)); [eauto|discriminate]. }
  destruct HsD as (HsD & Hmine & Hother).
  assert (Hs : same_conn s sD) by eauto using same_conn_trans.
  destruct mine; simpl in Hf.
  - destruct (Hmine eq_refl) as (c' & Hc' & Hclc).
    apply outcome_bind_returns in Hf as (c2 & Hc2 & Hf).
    rewrite Hc' in Hc2. injection Hc2 as <-.
    apply outcome_bind_returns in Hf as (final & Hfin & Hf).
    destruct (closing c') eqn:Hclc', final; simpl in Hf.
    + apply outcome_bind_returns in Hf as (s9 & H9 & Hf). injection Hf as <- <-.
      by eapply entry_cleanup.
    + by eapply entry_retry.
    + by eapply entry_retry.
    + by eapply entry_retry.
  - injection Hf as <- <-. destruct (Hother eq_refl) as (? & ? & _).
    by apply entry_other_thread.
Qed.

Lemma retry_result_log s s0 s' :
  retry_result s s0 s' → ∃ new, cs_log s' = cs_log s ++ new ∧ process_log new.
Proof. intros (new & Hlog & Hpl & _). eauto. Qed.

Lemma ctx_load_lookup s :
  ctx_load s = match w_mem (cs_world s) !! pc_context (cs_pc s) with
               | Some c => Returns c
               | None => Aborts Undefined
               end.
Proof. reflexivity. Qed.

Lemma pconnection_process_ctx fuel events timeout topup s r s' :
  pconnection_process NDEBUG fuel events timeout topup s = Returns (r, s') →
  ∃ c0, ctx_load s = Returns c0.
Proof.
  unfold pconnection_process. intros Hf.
  apply outcome_bind_returns in Hf as ([[tu fired] sA] & HA & Hf).
  apply outcome_bind_returns in Hf as (sB & HB & Hf).
  apply outcome_bind_returns in Hf as (c & Hc & _).
  assert (HsA : ctx_load sA = ctx_load s).
  { destruct timeout; [|by injection HA as <- <- <-].
    apply outcome_bind_returns in HA as ([n s1] & Hcb & HA). injection HA as <- <- <-.
    unfold conn_timer_callback in Hcb.
    apply outcome_bind_returns in Hcb as ([[n' pt] k] & _ & Hcb).
    by injection Hcb as <- <-. }
  assert (HsB : ∃ cB, ctx_load sB = Returns cB) by (by destruct tu; eexists).
  rewrite <- HsA. clear Hc HsA.
  destruct (negb (events =? 0)); [injection HB as <-; exact HsB|].
  destruct fired; [injection HB as <-; exact HsB|].
  destruct (negb _); [|injection HB as <-; exact HsB].
  apply outcome_bind_returns in HB as ([[] s1] & Hwd & HB). injection HB as <-.
  unfold on_conn_world in Hwd.
  apply outcome_bind_returns in Hwd as ([[] w] & Hwd & _).
  apply outcome_bind_returns in Hwd as (w' & Hwd & _).
  unfold wake_done in Hwd.
  apply outcome_bind_returns in Hwd as (cw & Hcw & _).
  by exists cw.
Qed.

Lemma pconnection_process_log fuel events timeout topup s r s' :
  pconnection_process NDEBUG fuel events timeout topup s = Returns (r, s') →
  ∃ new, cs_log s' = cs_log s ++ new ∧ process_log new.
Proof.
  intros Hf. destruct (pconnection_process_ctx _ _ _ _ _ _ _ Hf) as [c0 Hc0].
  destruct (pconnection_process_entry _ _ _ _ _ _ _ _ Hc0 Hf)
    as [(Hlog & _) _ _ _|s1 c (Hlog & _) Hc Hcl _ Hfin Hcu _|s1 tu (Hlog & _) Hretry].
  - exists []. rewrite app_nil_r. split; [done|]. left. constructor.
  - destruct (unlock_and_cleanup_log _ _ _ Hc Hcl Hfin Hcu) as (_ & post & Hlog' & Hpost).
    exists (act_cleanup true 0 0 0 :: post). rewrite Hlog', Hlog. split; [done|].
    by apply process_log_cleanup.
  - destruct (pconnection_process_retry_result _ _ _ _ _ _ Hretry) as (s0 & _ & Hres).
    apply retry_result_log in Hres as (new & Hlog' & Hpl). exists new. by rewrite Hlog', Hlog.
Qed.

Lemma pconnection_done_log s s' :
  pconnection_done NDEBUG s = Returns s' →
  ∃ new, cs_log s' = cs_log s ++ new ∧ process_log new.
Proof.
  unfold pconnection_done. intros Hf.
  apply outcome_bind_returns in Hf as (c & Hc & Hf).
  match type of Hf with context [pconnection_has_event (cs_pc ?x)] => set (s1 := x) in * end.
  assert (Hs1 : steps io_action s s1) by (unfold s1; steps_solve).
  assert (Hplain : ∀ s2, steps io_action s s2 →
                         ∃ new, cs_log s2 = cs_log s ++ new ∧ process_log new).
  { intros s2 (_ & _ & new & Hlog & Hio). exists new. split; [done|].
    by apply process_log_work. }
  destruct (_ || _).
  - apply outcome_bind_returns in Hf as ([notify s2] & H2 & Hf).
    apply outcome_bind_returns in Hf as (s3 & H3 & Hf).
    apply on_conn_world_steps in H2. apply rearm_if_needed_steps in H3.
    assert (Hs3 : steps io_action s s3) by eauto using steps_trans.
    destruct notify; [|injection Hf as <-; by apply Hplain].
    apply outcome_bind_returns in Hf as ([[] s4] & H4 & Hf). injection Hf as <-.
    apply on_conn_world_steps in H4. apply Hplain. eauto using steps_trans.
  - apply outcome_bind_returns in Hf as ([freed s2] & H2 & Hf).
    destruct (pn_connection_driver_finished _).
    + apply outcome_bind_returns in H2 as (s3 & Hbc & H2).
      apply outcome_bind_returns in H2 as (final & Hfin & H2).
      destruct (begin_close_closing _ _ Hbc) as (c' & Hc' & Hcl').
      apply pconnection_begin_close_steps in Hbc.
      assert (Hs3 : steps io_action s s3) by eauto using steps_trans.
      destruct final.
      * apply outcome_bind_returns in H2 as (s4 & H4 & H2). injection H2 as <- <-.
        injection Hf as <-.
        destruct Hs3 as (_ & _ & new & Hlog & Hio).
        destruct (unlock_and_cleanup_log _ _ _ Hc' Hcl' Hfin H4) as (_ & post & Hlog' & Hpost).
        exists (new ++ act_cleanup true 0 0 0 :: post).
        split; [by rewrite Hlog', Hlog, (assoc_L (++))|].
        apply process_log_app; [by apply io_work|by apply process_log_cleanup].
      * injection H2 as <- <-. apply rearm_if_needed_steps in Hf.
        apply Hplain. eauto using steps_trans.
    + injection H2 as <- <-. apply rearm_if_needed_steps in Hf.
      apply Hplain. eauto using steps_trans.
Qed.

(** C6.  Whatever [pconnection_process] and [pconnection_done] are called
    with, what they log is work followed by at most one call of
    [pconnection_cleanup]; that call is made right after the lock is
    released on a state in which [closing] is set and [current_arm],
    [timer.pending_count] and [context.wake_ops] are zero (which is when
    [pconnection_is_final] holds), and [pconnection_final_free] happens
    only inside it. *)
Theorem pconnection_freed_only_when_final fuel events timeout topup s r s' :
  pconnection_process NDEBUG fuel events timeout topup s = Returns (r, s') ∨
  pconnection_done NDEBUG s = Returns s' →
  (∃ new, cs_log s' = cs_log s ++ new ∧ process_log new ∧
     (∀ cl a p w, act_cleanup cl a p w ∈ new → cl = true ∧ a = 0 ∧ p = 0 ∧ w = 0) ∧
     (∀ pre post, new = pre ++ act_final_free :: post → act_cleanup true 0 0 0 ∈ pre)) ∧
  (∀ b, pconnection_is_final s = Returns b →
     ∃ c, ctx_load s = Returns c ∧
          (b = true ↔ current_arm (cs_pc s) = 0 ∧ pending_count (pc_timer (cs_pc s)) = 0
                      ∧ wake_ops c = 0)).
Proof.
  intros Hf. split; [|apply pconnection_is_final_returns].
  assert (∃ new, cs_log s' = cs_log s ++ new ∧ process_log new) as (new & Hlog & Hpl)
    by (destruct Hf as [Hf|Hf];
        [by eapply pconnection_process_log|by apply pconnection_done_log]).
  exists new. destruct (process_log_final _ Hpl). done.
Qed.
End ConnectionProcess.

(** A connection whose driver has finished is handed back: it is closed,
    found final, cleaned up and freed. *)
Definition test_finished_driver : test_driver :=
  mk_test_driver [] true true 10 0 false None false.

Lemma pconnection_freed_only_when_final_witness :
  ∃ s', pconnection_done false (test_conn test_finished_driver []) = Returns s' ∧
        cs_log s' = [act_cleanup true 0 0 0; act_close 6; act_close 7; act_final_free] ∧
        process_log (cs_log s').
Proof.
  destruct (pconnection_done false (test_conn test_finished_driver [])) as [s'| |] eqn:Hf.
  2,3: vm_compute in Hf; discriminate.
  exists s'. split; [done|].
  destruct (proj1 (pconnection_freed_only_when_final false 0 0 false false
                     (test_conn test_finished_driver []) None s' (or_intror Hf)))
    as (new & Hlog & Hpl & _).
  change (cs_log (test_conn test_finished_driver [])) with (@nil action) in Hlog.
  rewrite app_nil_l in Hlog. rewrite Hlog. split; [|done].
  rewrite <- Hlog. clear Hlog Hpl. vm_compute in Hf. injection Hf as <-. reflexivity.
Defined.

(** ** External wakes of a connection *)

(** What [wake] dereferences when it appends to the list. *)
Definition wake_list_ok (w : world) : Prop :=
  match wake_list_first (w_p w) with
  | None => True
  | Some _ => ∃ l, wake_list_last (w_p w) = Some l ∧ is_Some (w_mem w !! l)
  end.

(** The eventfd is either absent or its counter can take one more write. *)
Definition eventfd_ok (w : world) : Prop :=
  eventfd (w_p w) = -1 ∨ w_eventfd w + 1 < 2 ^ 64 - 1.

Lemma wake_total ctx w c :
  w_mem w !! ctx = Some c →
  wake_ops c ≠ 0 ∨ working c = true ∨ wake_list_ok w →
  ∃ notify w' c',
    wake ctx w = Returns (notify, w') ∧ w_mem w' !! ctx = Some c' ∧
    closing c' = closing c ∧ working c' = working c ∧
    (wake_ops c' ≠ 0 ∨ working c' = true) ∧
    eventfd (w_p w') = eventfd (w_p w) ∧ w_eventfd w' = w_eventfd w ∧
    (wake_ops c ≠ 0 ∨ working c = true → notify = false ∧ w' = w).
Proof.
  intros Hc Hpre. unfold wake, load. rewrite Hc. simpl.
  destruct (wake_ops c =? 0) eqn:Hops.
  2: { apply Z.eqb_neq in Hops. exists false, w, c. repeat split; auto. }
  destruct (working c) eqn:Hw; simpl.
  { exists false, w, c. repeat split; auto. }
  apply Z.eqb_eq in Hops. rewrite Hops. simpl.
  destruct Hpre as [?|[?|Hlist]]; [done..|].
  assert (Hlt : (ctx < length (w_mem w))%nat) by (by eapply lookup_lt_Some).
  unfold wake_list_ok in Hlist. destruct w as [mem p k efd tfd]. cbn in *.
  destruct (wake_list_first p) as [f|] eqn:Hfirst.
  - destruct Hlist as (l & -> & [cl Hcl]). unfold load. cbn.
    assert (Hll : (l < length mem)%nat) by (by eapply lookup_lt_Some).
    destruct (decide (l = ctx)) as [->|Hne].
    + rewrite list_lookup_insert_eq by done. cbn.
      destruct (wakes_in_progress p); cbn;
        eexists _, _, _; (split; [reflexivity|]); cbn;
        rewrite list_lookup_insert_eq by (by rewrite length_insert);
        (split; [reflexivity|]); cbn; repeat split; try done; try (left; lia);
        intuition congruence.
    + rewrite list_lookup_insert_ne by done. rewrite Hcl. cbn.
      destruct (wakes_in_progress p); cbn;
        eexists _, _, _; (split; [reflexivity|]); cbn;
        rewrite list_lookup_insert_ne by done;
        rewrite list_lookup_insert_eq by done;
        (split; [reflexivity|]); cbn; repeat split; try done; try (left; lia);
        intuition congruence.
  - cbn. destruct (wakes_in_progress p); cbn;
      eexists _, _, _; (split; [reflexivity|]); cbn;
      rewrite list_lookup_insert_eq by done;
      (split; [reflexivity|]); cbn; repeat split; try done; try (left; lia);
      intuition congruence.
Qed.

Lemma wake_notify_total w :
  eventfd_ok w →
  ∃ w', wake_notify w = Returns w' ∧ w_mem w' = w_mem w ∧ w_p w' = w_p w.
Proof.
  intros Hok. unfold wake_notify.
  destruct (eventfd (w_p w) =? -1) eqn:He; [by exists w|].
  apply Z.eqb_neq in He. destruct Hok as [?|Hok]; [done|].
  unfold eventfd_write. apply Z.ltb_lt in Hok. rewrite Hok.
  eexists. split; [reflexivity|]. by destruct w.
Qed.

Section ConnectionWake.
Variable NDEBUG : bool.
Context {D : Type} `{ConnectionDriver D}.
Implicit Types s : conn_state D.

(** [n] calls of [pn_connection_wake] in a row, with no drain between. *)
Fixpoint pn_connection_wake_n (n : nat) s : outcome (conn_state D) :=
  match n with
  | O => Returns s
  | S n => s ← pn_connection_wake s; pn_connection_wake_n n s
  end.

(** The context of the connection is there and open, and either it is
    already in the wake list or has a working thread, or [wake] and
    [wake_notify] find what they dereference. *)
Definition wakeable s : Prop :=
  ∃ c, ctx_load s = Returns c ∧ closing c = false ∧
       ((wake_ops c ≠ 0 ∨ working c = true) ∨
        (wake_list_ok (cs_world s) ∧ eventfd_ok (cs_world s))).

Lemma pn_connection_wake_total s :
  wakeable s → INT_MIN ≤ wake_count (cs_pc s) + 1 ≤ INT_MAX →
  ∃ s', pn_connection_wake s = Returns s' ∧ wakeable s' ∧
        cs_pc s' = set_wake_count (wake_count (cs_pc s) + 1) (cs_pc s) ∧
        cs_log s' = cs_log s ∧
        (∀ c c', ctx_load s = Returns c → ctx_load s' = Returns c' →
                 closing c' = closing c ∧ working c' = working c).
Proof.
  intros (c & Hc & Hcl & Hpre) Hwc.
  unfold pn_connection_wake. rewrite Hc. simpl. rewrite Hcl. simpl.
  unfold int_incr, int_add.
  destruct (Z.leb_spec INT_MIN (wake_count (cs_pc s) + 1)); [|lia].
  destruct (Z.leb_spec (wake_count (cs_pc s) + 1) INT_MAX); [|lia]. simpl.
  unfold ctx_load, load in Hc.
  destruct (w_mem (cs_world s) !! pc_context (cs_pc s)) as [c0|] eqn:Hm; [|discriminate].
  injection Hc as ->.
  assert (Hpre' : wake_ops c ≠ 0 ∨ working c = true ∨ wake_list_ok (cs_world s)) by tauto.
  destruct (wake_total _ _ _ Hm Hpre')
    as (notify & w' & c' & Hwake & Hm' & Hcl' & Hw' & Hops' & He1 & He2 & Hquiet).
  unfold on_conn_world. cbn. rewrite Hwake. cbn.
  destruct notify.
  - assert (Hefd' : eventfd_ok w').
    { destruct Hpre as [Hq|[_ Hefd]]; [by destruct (Hquiet Hq)|].
      unfold eventfd_ok. by rewrite He1, He2. }
    destruct (wake_notify_total _ Hefd') as (w'' & Hn & Hmem & Hp).
    rewrite Hn. cbn. eexists. split; [reflexivity|]. cbn.
    split; [|split; [done|split; [done|]]].
    + exists c'. unfold ctx_load, load. cbn. rewrite Hmem, Hm'.
      split; [done|]. split; [congruence|]. by left.
    + intros c1 c2. unfold ctx_load, load. cbn. rewrite Hmem, Hm'.
      intros [= <-] [= <-]. done.
  - eexists. split; [reflexivity|]. cbn.
    split; [|split; [done|split; [done|]]].
    + exists c'. unfold ctx_load, load. cbn. rewrite Hm'.
      split; [done|]. split; [congruence|]. by left.
    + intros c1 c2. unfold ctx_load, load. cbn. rewrite Hm'.
      intros [= <-] [= <-]. done.
Qed.

Lemma pn_connection_wake_n_total n : ∀ s,
  wakeable s → INT_MIN ≤ wake_count (cs_pc s) + 1 →
  wake_count (cs_pc s) + Z.of_nat n ≤ INT_MAX →
  ∃ s', pn_connection_wake_n n s = Returns s' ∧ wakeable s' ∧
        cs_pc s' = set_wake_count (wake_count (cs_pc s) + Z.of_nat n) (cs_pc s) ∧
        cs_log s' = cs_log s ∧
        (∀ c c', ctx_load s = Returns c → ctx_load s' = Returns c' →
                 closing c' = closing c ∧ working c' = working c).
Proof.
  induction n as [|n IH]; intros s Hw Hlo Hhi.
  - exists s. split; [done|]. split; [done|]. split.
    { rewrite Z.add_0_r. by destruct (cs_pc s). }
    split; [done|]. intros c c' Hc Hc'. rewrite Hc in Hc'. by injection Hc' as <-.
  - destruct (pn_connection_wake_total s Hw ltac:(lia)) as (s1 & H1 & Hw1 & Hpc1 & Hlog1 & Hfl1).
    assert (Hwc1 : wake_count (cs_pc s1) = wake_count (cs_pc s) + 1) by (by rewrite Hpc1).
    destruct (IH s1 Hw1 ltac:(lia) ltac:(lia)) as (s2 & H2 & Hw2 & Hpc2 & Hlog2 & Hfl2).
    exists s2. simpl. rewrite H1. simpl. split; [done|]. split; [done|]. split.
    { rewrite Hpc2, Hpc1. cbn.
      replace (wake_count (cs_pc s) + 1 + Z.of_nat n)
        with (wake_count (cs_pc s) + Z.of_nat (S n)) by lia.
      by destruct (cs_pc s). }
    split; [congruence|].
    intros c c' Hc Hc'. destruct Hw1 as (c1 & Hc1 & _).
    destruct (Hfl1 _ _ Hc Hc1) as [<- <-]. by apply Hfl2.
Qed.

(** C3.  On a connection that is not closing, [N ≥ 1] calls of
    [pn_connection_wake] with no drain between return and each adds one to
    [wake_count].  A call of [pconnection_process] after them either does
    not get to the sampling (another thread is working, or the driver still
    has an event to hand out) and then leaves [wake_count] alone and puts
    no [PN_CONNECTION_WAKE]; or it samples: [wake_count] is cleared and
    at most one [PN_CONNECTION_WAKE] is put, exactly one unless the
    connection is read- and write-closed, and then none.  The call samples
    when it becomes the working thread and the driver has no event. *)
Theorem connection_wakes_coalesce (N : nat) s c :
  (1 ≤ N)%nat →
  ctx_load s = Returns c → closing c = false →
  (wake_ops c ≠ 0 ∨ working c = true) ∨
    (wake_list_ok (cs_world s) ∧ eventfd_ok (cs_world s)) →
  0 ≤ wake_count (cs_pc s) → wake_count (cs_pc s) + Z.of_nat N ≤ INT_MAX →
  ∃ s1, pn_connection_wake_n N s = Returns s1 ∧
    wake_count (cs_pc s1) = wake_count (cs_pc s) + Z.of_nat N ∧
    cs_log s1 = cs_log s ∧
    ∀ fuel events timeout topup r s2,
      pconnection_process NDEBUG fuel events timeout topup s1 = Returns (r, s2) →
      ∃ new, cs_log s2 = cs_log s1 ++ new ∧ process_log new ∧
        ((puts new = 0%nat ∧ wake_count (cs_pc s2) = wake_count (cs_pc s1)) ∨
         (wake_count (cs_pc s2) = 0 ∧ (puts new ≤ 1)%nat ∧
          (queued_disconnect (cs_pc s) = false →
           puts new = if pconnection_closed (cs_pc s) then 0%nat else 1%nat))) ∧
        (working c = false ∨ topup = true →
         queued_disconnect (cs_pc s) = false →
         pconnection_has_event (cs_pc s) = false →
         wake_count (cs_pc s2) = 0 ∧
         puts new = if pconnection_closed (cs_pc s) then 0%nat else 1%nat).
Proof.
  intros HN Hc Hcl Hpre Hlo Hhi.
  destruct (pn_connection_wake_n_total N s) as (s1 & Hwn & Hw1 & Hpc & Hlog & Hfl);
    [by exists c|unfold INT_MIN; lia|done|].
  exists s1. split; [done|]. split; [by rewrite Hpc|]. split; [done|].
  intros fuel events timeout topup r s2 Hf.
  destruct Hw1 as (c1 & Hc1 & Hcl1 & _).
  destruct (Hfl _ _ Hc Hc1) as [_ Hwk].
  assert (Hdrv : driver (cs_pc s1) = driver (cs_pc s)) by (by rewrite Hpc).
  assert (Hqd : queued_disconnect (cs_pc s1) = queued_disconnect (cs_pc s)) by (by rewrite Hpc).
  assert (Hwc : wake_count (cs_pc s1) = wake_count (cs_pc s) + Z.of_nat N) by (by rewrite Hpc).
  destruct (pconnection_process_entry NDEBUG _ _ _ _ _ _ _ _ Hc1 Hf)
    as [(Hlog' & Hwc' & _) _ Hworking Htopup
       |s1' c' _ _ _ Hclosing _ _ _
       |s1' tu (Hlog' & Hwc' & Hdrv' & Hqd') Hretry].
  - exists []. rewrite app_nil_r. split; [done|]. split; [left; constructor|].
    split; [by left|]. intros [Hnw| ->]; [|done]. congruence.
  - congruence.
  - destruct (pconnection_process_retry_result NDEBUG _ _ _ _ _ _ Hretry)
      as (s0 & Hdisc & new & Hlog2 & Hpl & Hcase).
    exists new. split; [by rewrite Hlog2, Hlog'|]. split; [done|].
    assert (Hs0 : queued_disconnect (cs_pc s) = false → s0 = s1').
    { intros Hq. unfold pconnection_process_disconnect in Hdisc.
      rewrite Hqd', Hqd, Hq in Hdisc. by injection Hdisc as <-. }
    assert (Hnz : (wake_count (cs_pc s1') =? 0) = false)
      by (apply Z.eqb_neq; rewrite Hwc', Hwc; lia).
    destruct (pconnection_has_event (cs_pc s0)) eqn:He.
    + destruct Hcase as [Hputs Hsame]. split; [left; by rewrite Hsame, Hwc'|].
      intros _ Hq Hne. rewrite (Hs0 Hq) in He.
      unfold pconnection_has_event in *. congruence.
    + destruct Hcase as [Hzero Hputs]. rewrite Hnz in Hputs. simpl in Hputs.
      assert (Hclosed : queued_disconnect (cs_pc s) = false →
                        pconnection_closed (cs_pc s0) = pconnection_closed (cs_pc s)).
      { intros Hq. rewrite (Hs0 Hq).
        unfold pconnection_closed, pconnection_rclosed, pconnection_wclosed.
        by rewrite Hdrv', Hdrv. }
      split.
      * right. split; [done|]. split.
        { rewrite Hputs. destruct (pconnection_closed (cs_pc s0)); simpl; lia. }
        intros Hq. rewrite Hputs, (Hclosed Hq).
        by destruct (pconnection_closed (cs_pc s)).
      * intros _ Hq _. split; [done|]. rewrite Hputs, (Hclosed Hq).
        by destruct (pconnection_closed (cs_pc s)).
Qed.
End ConnectionWake.

(** Three wakes of an idle open connection, then the inbound wake is
    processed: one [PN_CONNECTION_WAKE]. *)
Lemma connection_wakes_coalesce_witness :
  ∃ s1 r s2,
    pn_connection_wake_n 3 (test_conn test_open_driver []) = Returns s1 ∧
    wake_count (cs_pc s1) = 3 ∧
    pconnection_process false 5 0 false false s1 = Returns (r, s2) ∧
    wake_count (cs_pc s2) = 0 ∧ puts (cs_log s2) = 1%nat.
Proof.
  destruct (connection_wakes_coalesce false 3 (test_conn test_open_driver [])
              (set_next None (pcontext_init PCONNECTION)))
    as (s1 & H1 & H2 & H3 & Hdrain).
  - lia.
  - reflexivity.
  - reflexivity.
  - right. split; [exact I|]. right. reflexivity.
  - simpl. lia.
  - simpl. unfold INT_MAX. lia.
  - destruct (pconnection_process false 5 0 false false s1) as [[r s2]| |] eqn:Hf.
    2,3: vm_compute in H1; injection H1 as <-; vm_compute in Hf; discriminate.
    destruct (Hdrain _ _ _ _ _ _ Hf) as (new & Hlog & _ & _ & Hsuff).
    destruct Hsuff as [Hz Hp]; [by left|reflexivity|reflexivity|].
    exists s1, r, s2. split; [done|]. split; [exact H2|]. split; [done|].
    split; [done|]. rewrite Hlog, H3. exact Hp.
Defined.

(** A connection that has begun to close: its context is closing and its
    driver is closed. *)
Definition test_closing_conn : conn_state test_driver :=
  ctx_store (set_closing true (set_next None (pcontext_init PCONNECTION)))
            (test_conn test_finished_driver []).

(** On it [pn_connection_wake] changes nothing: [wake_count] stays zero. *)
Lemma connection_wake_closing_counterexample :
  (∃ c, ctx_load test_closing_conn = Returns c ∧ closing c = true) ∧
  pn_connection_wake test_closing_conn = Returns test_closing_conn ∧
  pn_connection_wake_n 3 test_closing_conn = Returns test_closing_conn ∧
  wake_count (cs_pc test_closing_conn) = 0 ∧
  wake_count (cs_pc test_closing_conn) ≠ wake_count (cs_pc test_closing_conn) + 3.
Proof.
  split; [by eexists|]. split; [reflexivity|]. split; [reflexivity|].
  split; [reflexivity|]. simpl. lia.
Qed.

(** ** The read pump *)

Section ReadPump.
Variable NDEBUG : bool.
Context {D : Type} `{ConnectionDriver D}.
Implicit Types s : conn_state D.

(** The pump reads: the read side is open, the driver has room, and the
    socket is not known to be drained. *)
Definition read_wanted (pc : pconnection_t D) : bool :=
  negb (pconnection_rclosed pc) && (0 <? pn_connection_driver_read_buffer (driver pc))
  && negb (read_blocked pc).

Lemma conn_timer_set_frame t s s1 :
  conn_timer_set NDEBUG t s = Returns s1 →
  cs_log s1 = cs_log s ∧ read_blocked (cs_pc s1) = read_blocked (cs_pc s) ∧
  driver (cs_pc s1) = driver (cs_pc s) ∧ cs_now s1 = cs_now s.
Proof.
  unfold conn_timer_set. intros Hf.
  apply outcome_bind_returns in Hf as ([pt k] & _ & Hf). by injection Hf as <-.
Qed.

Lemma pconnection_tick_frame s s1 :
  pconnection_tick NDEBUG s = Returns s1 →
  cs_log s1 = cs_log s ++ [act_tick] ∧ read_blocked (cs_pc s1) = read_blocked (cs_pc s) ∧
  driver (cs_pc s1) =
    if pn_transport_has_idle_timeout (driver (cs_pc s))
    then (pn_transport_tick (driver (cs_pc s)) (cs_now s)).2
    else driver (cs_pc s).
Proof.
  unfold pconnection_tick. cbn.
  destruct (pn_transport_has_idle_timeout (driver (cs_pc s))); [|by intros [= <-]].
  intros Hf. apply outcome_bind_returns in Hf as (s2 & H2 & Hf).
  apply conn_timer_set_frame in H2 as (Hl2 & Hb2 & Hd2 & Hn2). cbn in *.
  rewrite Hd2, Hn2 in Hf.
  destruct (pn_transport_tick (driver (cs_pc s)) (cs_now s)) as [next d] eqn:Ht.
  destruct (negb (next =? 0)).
  - apply conn_timer_set_frame in Hf as (Hl & Hb & Hd & _). cbn in *.
    by rewrite Hl, Hb, Hd, Hl2, Hb2.
  - injection Hf as <-. cbn. by rewrite Hl2, Hb2.
Qed.

Lemma pconnection_tick_total s :
  pn_transport_has_idle_timeout (driver (cs_pc s)) = false →
  pconnection_tick NDEBUG s = Returns (log act_tick s).
Proof. unfold pconnection_tick. cbn. by intros ->. Qed.

Lemma sys_io_log a s : cs_log (sys_io a s).2 = cs_log s ++ [a].
Proof. unfold sys_io. cbn. by destruct (cs_net s) as [|[] ?]. Qed.

Lemma sys_io_pc a s : cs_pc (sys_io a s).2 = cs_pc s.
Proof. unfold sys_io. cbn. by destruct (cs_net s) as [|[] ?]. Qed.

(** C8.  The pump reads when the read side is open, the driver has room
    and the socket is not marked drained, and then exactly once; otherwise
    it does nothing.  With [n] the result of the read: for [n > 0] the
    driver is fed [n] bytes and ticked, [tick_required] is cleared, and
    [read_blocked] is set exactly when the read was short and the driver's
    read side is still open after the bytes were fed; for [n = 0] the read
    side is closed and nothing else happens, no error is reported; for
    EWOULDBLOCK, which is EAGAIN, [read_blocked] is set; for EINTR nothing
    changes; for any other errno the error is put in the transport's
    condition and the driver is closed.  The pump returns, unless the tick
    after a successful read has to set the timer. *)
Theorem read_pump_classification tick_required s :
  let size := pn_connection_driver_read_buffer (driver (cs_pc s)) in
  let n := (sys_io (act_read size) s).1 in
  let sR := (sys_io (act_read size) s).2 in
  let what := if disconnected (cs_pc s) then "Disconnected" else "on read from" in
  cs_log sR = cs_log s ++ [act_read size] ∧
  (read_wanted (cs_pc s) = false ∨ n ≤ 0 ∨
   pn_transport_has_idle_timeout (pn_connection_driver_read_done (driver (cs_pc s)) n) = false →
   ∃ r s', pconnection_read_pump NDEBUG tick_required s = Returns (r, s')) ∧
  ∀ r s', pconnection_read_pump NDEBUG tick_required s = Returns (r, s') →
    if read_wanted (cs_pc s) then
      if 0 <? n then
        r = false ∧ cs_log s' = cs_log s ++ [act_read size; act_tick] ∧
        (∃ s1, pconnection_tick NDEBUG
                 (upd_driver (λ d, pn_connection_driver_read_done d n) sR) = Returns s1 ∧
               driver (cs_pc s') = driver (cs_pc s1)) ∧
        read_blocked (cs_pc s') =
          negb (pn_connection_driver_read_closed (driver (cs_pc s'))) && (n <? size)
      else if n =? 0 then
        r = tick_required ∧ s' = upd_driver pn_connection_driver_read_close sR
      else if (cs_errno sR =? EWOULDBLOCK) || (cs_errno sR =? EAGAIN) then
        r = tick_required ∧ s' = upd_pc (set_read_blocked true) sR
      else if cs_errno sR =? EINTR then
        r = tick_required ∧ s' = sR
      else
        r = tick_required ∧
        cs_log s' = cs_log s ++ [act_read size; act_error what (cs_errno sR)] ∧
        driver (cs_pc s') =
          pn_connection_driver_close
            (pn_connection_driver_errorf (pn_connection_driver_bind (driver (cs_pc s))) what
               (host (pc_psocket (cs_pc s))) (port (pc_psocket (cs_pc s))) (cs_errno sR)) ∧
        read_blocked (cs_pc s') = false
    else r = tick_required ∧ s' = s.
Proof.
  intros size n sR what.
  assert (Hlog : cs_log sR = cs_log s ++ [act_read size]) by apply sys_io_log.
  assert (Hpc : cs_pc sR = cs_pc s) by apply sys_io_pc.
  assert (Hdef : pconnection_read_pump NDEBUG tick_required s =
    if read_wanted (cs_pc s) then
      if 0 <? n then
        obind (pconnection_tick NDEBUG
                 (upd_driver (λ d, pn_connection_driver_read_done d n) sR))
          (λ s1, Returns (false,
             if negb (pn_connection_driver_read_closed (driver (cs_pc s1))) && (n <? size)
             then upd_pc (set_read_blocked true) s1 else s1))
      else if n =? 0 then
        Returns (tick_required, upd_driver pn_connection_driver_read_close sR)
      else if cs_errno sR =? EWOULDBLOCK then
        Returns (tick_required, upd_pc (set_read_blocked true) sR)
      else if negb ((cs_errno sR =? EAGAIN) || (cs_errno sR =? EINTR)) then
        Returns (tick_required,
                 psocket_error_pconnection (cs_errno sR)
                   (if disconnected (cs_pc sR) then "Disconnected" else "on read from") sR)
      else Returns (tick_required, sR)
    else Returns (tick_required, s)).
  { unfold pconnection_read_pump, read_wanted. fold size.
    destruct (negb (pconnection_rclosed (cs_pc s))); [|done]. simpl.
    destruct ((0 <? size) && negb (read_blocked (cs_pc s))); [|done].
    subst n sR. by destruct (sys_io (act_read size) s). }
  split; [done|]. split.
  - intros Hcase. rewrite Hdef.
    destruct (read_wanted (cs_pc s)); [|by eauto].
    destruct (0 <? n) eqn:Hn.
    + apply Z.ltb_lt in Hn. destruct Hcase as [?|[?|Hidle]]; [done|lia|].
      rewrite pconnection_tick_total by (cbn; by rewrite Hpc). cbn. by eauto.
    + destruct (n =? 0); [by eauto|].
      destruct (cs_errno sR =? EWOULDBLOCK); [by eauto|].
      destruct (negb _); by eauto.
  - intros r s'. rewrite Hdef. intros Hf.
    destruct (read_wanted (cs_pc s)) eqn:Hwant; [|by injection Hf as <- <-].
    destruct (0 <? n) eqn:Hn.
    { apply outcome_bind_returns in Hf as (s1 & Htick & Hf).
      destruct (pconnection_tick_frame _ _ Htick) as (Hl1 & Hb1 & _).
      cbn in Hl1, Hb1. rewrite Hlog in Hl1. rewrite Hpc in Hb1.
      assert (Hrb : read_blocked (cs_pc s) = false).
      { unfold read_wanted in Hwant. by destruct (read_blocked (cs_pc s)), (negb _), (0 <? _). }
      rewrite Hrb in Hb1.
      destruct (negb (pn_connection_driver_read_closed (driver (cs_pc s1))) && (n <? size))
        eqn:Hshort; injection Hf as <- <-; cbn.
      - split; [done|]. split; [by rewrite Hl1, <- (assoc_L (++))|].
        split; [by exists s1|]. by rewrite Hshort.
      - split; [done|]. split; [by rewrite Hl1, <- (assoc_L (++))|].
        split; [by exists s1|]. by rewrite Hshort. }
    destruct (n =? 0); [by injection Hf as <- <-|].
    unfold EWOULDBLOCK in *. rewrite orb_diag.
    destruct (cs_errno sR =? EAGAIN) eqn:He; [by injection Hf as <- <-|].
    simpl in Hf.
    destruct (cs_errno sR =? EINTR); simpl in Hf; [by injection Hf as <- <-|].
    injection Hf as <- <-. split; [done|]. rewrite Hpc. cbn. rewrite Hlog, Hpc.
    split; [by rewrite <- (assoc_L (++))|]. split; [done|].
    unfold read_wanted in Hwant. by destruct (read_blocked (cs_pc s)), (negb _), (0 <? _).
Qed.
End ReadPump.

(** Five bytes arrive for a buffer of ten: the driver is fed and ticked and
    the socket is marked drained. *)
Lemma read_pump_classification_witness :
  ∃ s', pconnection_read_pump false true (test_conn test_open_driver [io_count 5])
        = Returns (false, s') ∧
        cs_log s' = [act_read 10; act_tick] ∧ read_blocked (cs_pc s') = true.
Proof.
  destruct (read_pump_classification false true (test_conn test_open_driver [io_count 5]))
    as (_ & Htotal & Hclass).
  destruct Htotal as (r & s' & Hf); [right; right; reflexivity|].
  destruct (Hclass r s' Hf) as (-> & Hlog & _ & Hblocked).
  exists s'. split; [done|]. split; [exact Hlog|].
  rewrite Hblocked. vm_compute in Hf. injection Hf as <-. reflexivity.
Defined.

(** A driver whose read side closes as soon as bytes are fed to it. *)
Definition test_strict_driver : test_driver :=
  mk_test_driver [] false false 10 0 true None false.

(** The same short read on it: [read_blocked] is not set. *)
Lemma read_pump_short_read_counterexample :
  ∃ s', pconnection_read_pump false true (test_conn test_strict_driver [io_count 5])
        = Returns (false, s') ∧
        cs_log s' = [act_read 10; act_tick] ∧
        pn_connection_driver_read_closed (driver (cs_pc s')) = true ∧
        read_blocked (cs_pc s') = false.
Proof.
  destruct (pconnection_read_pump false true (test_conn test_strict_driver [io_count 5]))
    as [[r s']| |] eqn:Hf; vm_compute in Hf; [|discriminate..].
  injection Hf as <- <-. by eexists.
Qed.

(** ** The listener *)

(** The listener's [pn_condition_t]: unset, or what [psocket_error] formats
    into it. *)
Record pn_condition_t : Type := mk_condition {
  cond_what : string;
  cond_host : string;
  cond_port : string;
  cond_err : Z
}.

(** [struct pn_listener_t].  [l_context] is the address of the embedded
    [context]; [acceptable] and [accepted] are indices into [psockets]. *)
Record pn_listener_t : Type := mk_listener {
  psockets : list psocket_t;          (* Array of listening sockets *)
  psockets_size : Z;
  l_context : nat;
  l_condition : option pn_condition_t;
  l_collector : pn_collector_t;
  backlog : Z;
  acceptable : option nat;
  accepted : option nat;
  close_dispatched : bool;
  l_armed : bool
}.

Definition set_psockets (v : list psocket_t) (l : pn_listener_t) : pn_listener_t :=
  mk_listener v (psockets_size l) (l_context l) (l_condition l) (l_collector l) (backlog l)
              (acceptable l) (accepted l) (close_dispatched l) (l_armed l).
Definition set_psockets_size (v : Z) (l : pn_listener_t) : pn_listener_t :=
  mk_listener (psockets l) v (l_context l) (l_condition l) (l_collector l) (backlog l)
              (acceptable l) (accepted l) (close_dispatched l) (l_armed l).
Definition set_l_condition (v : option pn_condition_t) (l : pn_listener_t) : pn_listener_t :=
  mk_listener (psockets l) (psockets_size l) (l_context l) v (l_collector l) (backlog l)
              (acceptable l) (accepted l) (close_dispatched l) (l_armed l).
Definition set_l_collector (v : pn_collector_t) (l : pn_listener_t) : pn_listener_t :=
  mk_listener (psockets l) (psockets_size l) (l_context l) (l_condition l) v (backlog l)
              (acceptable l) (accepted l) (close_dispatched l) (l_armed l).
Definition set_backlog (v : Z) (l : pn_listener_t) : pn_listener_t :=
  mk_listener (psockets l) (psockets_size l) (l_context l) (l_condition l) (l_collector l) v
              (acceptable l) (accepted l) (close_dispatched l) (l_armed l).
Definition set_acceptable (v : option nat) (l : pn_listener_t) : pn_listener_t :=
  mk_listener (psockets l) (psockets_size l) (l_context l) (l_condition l) (l_collector l)
              (backlog l) v (accepted l) (close_dispatched l) (l_armed l).
Definition set_accepted (v : option nat) (l : pn_listener_t) : pn_listener_t :=
  mk_listener (psockets l) (psockets_size l) (l_context l) (l_condition l) (l_collector l)
              (backlog l) (acceptable l) v (close_dispatched l) (l_armed l).

(** [pn_listener()]: a zeroed listener with an empty collector and an unset
    condition, its context at [ctx]. *)
Definition pn_listener (ctx : nat) : pn_listener_t :=
  mk_listener [] 0 ctx None [] 0 None None false false.

(** A listener, the proactor it listens for, and [errno] of the thread. *)
Record listener_state : Type := mk_listener_state {
  ls_l : pn_listener_t;
  ls_world : world;
  ls_errno : Z
}.

Definition set_ls_l (v : pn_listener_t) (s : listener_state) : listener_state :=
  mk_listener_state v (ls_world s) (ls_errno s).
Definition set_ls_world (v : world) (s : listener_state) : listener_state :=
  mk_listener_state (ls_l s) v (ls_errno s).
Definition set_ls_errno (v : Z) (s : listener_state) : listener_state :=
  mk_listener_state (ls_l s) (ls_world s) v.
Definition upd_l (f : pn_listener_t → pn_listener_t) (s : listener_state) : listener_state :=
  set_ls_l (f (ls_l s)) s.

(** What the kernel answers for one address of [getaddrinfo]: the result of
    [socket], whether [setsockopt], [bind] and [listen] all return 0 on it,
    and the [errno] that the failing call leaves. *)
Record listen_attempt : Type := mk_listen_attempt {
  la_fd : Z;
  la_setup : bool;
  la_errno : Z
}.

(** [pgetaddrinfo]: it fails, leaving some [errno], or gives the addresses;
    each comes with what the kernel answers for it. *)
Inductive getaddrinfo_t : Type :=
| gai_fails (errno : Z)
| gai_ok (ais : list listen_attempt).

(** An element of a [calloc]ed array. *)
Definition psocket_zero : psocket_t :=
  mk_psocket 0 (mk_epoll_extended 0 WAKE 0 false) None "" "".

(** The address listens. *)
Definition la_listens (a : listen_attempt) : bool := (0 <=? la_fd a) && la_setup a.

(** Close all listening sockets: the loop of [listener_begin_close], from
    index [i] for [n] more elements. *)
Fixpoint listener_close_sockets (n i : nat) (s : listener_state) : outcome listener_state :=
  match n with
  | O => Returns s
  | S n =>
      ps ← match psockets (ls_l s) !! i with
           | Some ps => Returns ps
           | None => Aborts Undefined
           end;
      s ← (if 0 <=? sockfd ps then
             '(ee, k) ← stop_polling (ps_epoll_io ps) (epollfd (w_p (ls_world s)))
                                     (w_epoll (ls_world s));
             let s := upd_l (λ l, set_psockets (<[i := set_ps_epoll_io ee ps]> (psockets l)) l) s in
             Returns (set_ls_world (set_w_epoll (kernel_close (sockfd ps) k) (ls_world s)) s)
           else Returns s);
      listener_close_sockets n (S i) s
  end.

Definition listener_begin_close (s : listener_state) : outcome listener_state :=
  let ctx := l_context (ls_l s) in
  c ← load (ls_world s) ctx;
  if negb (closing c) then
    let s := set_ls_world (store ctx (set_closing true c) (ls_world s)) s in
    (* Close all listening sockets *)
    s ← listener_close_sockets (Z.to_nat (psockets_size (ls_l s))) 0 s;
    let s := upd_l (λ l, set_l_collector (pn_collector_put (l_collector l) PN_LISTENER_CLOSE) l) s in
    Returns (upd_l (λ l, set_accepted None (set_acceptable None l)) s)
  else Returns s.

(** [psocket_error] on a socket of a listener; with a NULL [ps->listener]
    the socket is a connection's, and [psocket_error_pconnection] is the
    other branch. *)
Definition psocket_error (ps : psocket_t) (err : Z) (what : string) (s : listener_state)
  : outcome listener_state :=
  match ps_listener ps with
  | None => Aborts Undefined
  | Some _ =>
      let s := upd_l (set_l_condition (Some (mk_condition what (host ps) (port ps) err))) s in
      listener_begin_close s
  end.

(** One round of the loop over the addresses in [pn_proactor_listen]. *)
Definition listen_address (host port : string) (s : listener_state) (a : listen_attempt)
  : listener_state :=
  if la_listens a then
    let l := ls_l s in
    let ps := psocket_init (Some (l_context l)) host port in
    let ps := set_sockfd (la_fd a) ps in
    let ee := set_ee_polling false (set_ee_wanted EPOLLIN (set_ee_fd (la_fd a) (ps_epoll_io ps))) in
    let '(ee, k, _) := start_polling ee (epollfd (w_p (ls_world s))) (w_epoll (ls_world s)) in
    (* TODO: check for error *)
    let l := set_psockets (<[Z.to_nat (psockets_size l) := set_ps_epoll_io ee ps]> (psockets l)) l in
    let l := set_psockets_size (size_incr (psockets_size l)) l in
    set_ls_world (set_w_epoll k (ls_world s)) (set_ls_l l s)
  else set_ls_errno (la_errno a) s.

(** [pn_proactor_listen] up to [freeaddrinfo]. *)
Definition listen_addresses (NDEBUG : bool) (host port : string) (gai : getaddrinfo_t)
    (s : listener_state) : outcome listener_state :=
  match gai with
  | gai_ok ais =>
      (* Count addresses, allocate enough space for sockets *)
      assert NDEBUG (0 <? Z.of_nat (length ais));;    (* guaranteed by getaddrinfo *)
      let s := upd_l (λ l, set_psockets_size 0 (set_psockets (replicate (length ais) psocket_zero) l)) s in
      (* Find working listen addresses *)
      Returns (foldl (listen_address host port) s ais)
  | gai_fails e => Returns (set_ls_errno e s)
  end.

(** [host] and [port] are what [pni_parse_addr] finds in [addr]. *)
Definition pn_proactor_listen (NDEBUG : bool) (host port : string) (backlog' : Z)
    (gai : getaddrinfo_t) (s : listener_state) : outcome listener_state :=
  let ctx := l_context (ls_l s) in
  let s := upd_l (set_backlog backlog') s in
  s ← listen_addresses NDEBUG host port gai s;
  (* Always put an OPEN event for symmetry, even if we immediately close with err *)
  let s := upd_l (λ l, set_l_collector (pn_collector_put (l_collector l) PN_LISTENER_OPEN) l) s in
  '(notify, w) ← wake ctx (ls_world s);
  let s := set_ls_world w s in
  s ← (if psockets_size (ls_l s) =? 0 then
         (* All failed, create dummy socket with an error *)
         let err := ls_errno s in
         let ps := psocket_init (Some ctx) host port in
         let s := upd_l (set_psockets [ps]) s in
         psocket_error ps err "listen on" s
       else Returns s);
  w ← proactor_add ctx (ls_world s);
  let s := set_ls_world w s in
  if notify then w ← wake_notify (ls_world s); Returns (set_ls_world w s)
  else Returns s.

(** *** What [pn_proactor_listen] leaves alone *)

(** The worlds have the same contexts with the same [closing] flags, and
    the same list of contexts. *)
Definition same_closing (w w' : world) : Prop :=
  length (w_mem w') = length (w_mem w) ∧
  (∀ a, closing <$> (w_mem w' !! a) = closing <$> (w_mem w !! a)) ∧
  contexts (w_p w') = contexts (w_p w).

Lemma same_closing_refl w : same_closing w w.
Proof. done. Qed.

Lemma same_closing_trans w1 w2 w3 :
  same_closing w1 w2 → same_closing w2 w3 → same_closing w1 w3.
Proof.
  intros (Hl1 & Hc1 & Hp1) (Hl2 & Hc2 & Hp2). split; [congruence|].
  split; [|congruence]. intros a. by rewrite Hc2, Hc1.
Qed.

Lemma same_closing_store w a c c' :
  w_mem w !! a = Some c → closing c' = closing c → same_closing w (store a c' w).
Proof.
  intros Ha Hcl. unfold store, same_closing. destruct w as [mem p k efd tfd]. cbn in *.
  split; [by rewrite length_insert|]. split; [|done].
  intros b. destruct (decide (a = b)) as [<-|Hne].
  - rewrite list_lookup_insert_eq by (by eapply lookup_lt_Some). rewrite Ha. cbn. by f_equal.
  - by rewrite list_lookup_insert_ne.
Qed.

Lemma same_closing_update_p w f :
  contexts (f (w_p w)) = contexts (w_p w) → same_closing w (update_p f w).
Proof. intros Hf. by destruct w. Qed.

Lemma same_closing_valid w w' a :
  same_closing w w' → is_Some (w_mem w !! a) → is_Some (w_mem w' !! a).
Proof. intros (Hl & _) Ha. apply lookup_lt_is_Some. rewrite Hl. by apply lookup_lt_is_Some. Qed.

Lemma same_closing_load w w' a c :
  same_closing w w' → w_mem w !! a = Some c →
  ∃ c', w_mem w' !! a = Some c' ∧ closing c' = closing c.
Proof.
  intros (_ & Hc & _) Ha. specialize (Hc a). rewrite Ha in Hc.
  destruct (w_mem w' !! a) as [c'|]; [|discriminate]. injection Hc as Hc. by exists c'.
Qed.

Lemma wake_same_closing ctx w notify w' :
  wake ctx w = Returns (notify, w') → same_closing w w'.
Proof.
  unfold wake, load, int_incr, int_add. intros H.
  destruct (w_mem w !! ctx) as [c|] eqn:Hc; [|discriminate]. simpl in H.
  destruct (wake_ops c =? 0); [|by injection H as <- <-].
  destruct (working c); simpl in H; [by injection H as <- <-|].
  destruct (_ && _); [|discriminate]. simpl in H.
  assert (H1 : same_closing w (store ctx (set_wake_ops (wake_ops c + 1) c) w))
    by (by eapply same_closing_store).
  destruct (wake_list_first (w_p w)).
  - destruct (wake_list_last (w_p w)) as [l|]; [|discriminate]. simpl in H.
    destruct (_ !! l) as [cl|] eqn:Hl; [|discriminate]. simpl in H.
    match type of H with context [store l ?x ?y] =>
      assert (H2 : same_closing y (store l x y)) by (by eapply same_closing_store) end.
    destruct (wakes_in_progress (w_p w)); simpl in H; injection H as <- <-.
    + eapply same_closing_trans; [exact H1|]. eapply same_closing_trans; [exact H2|].
      by apply same_closing_update_p.
    + eapply same_closing_trans; [exact H1|]. eapply same_closing_trans; [exact H2|].
      eapply same_closing_trans; by apply same_closing_update_p.
  - simpl in H. destruct (wakes_in_progress (w_p w)); simpl in H; injection H as <- <-.
    + eapply same_closing_trans; [exact H1|]. by apply same_closing_update_p.
    + eapply same_closing_trans; [exact H1|].
      eapply same_closing_trans; by apply same_closing_update_p.
Qed.

Lemma proactor_add_closing ctx w w' :
  proactor_add ctx w = Returns w' →
  length (w_mem w') = length (w_mem w) ∧
  ∀ a, closing <$> (w_mem w' !! a) = closing <$> (w_mem w !! a).
Proof.
  unfold proactor_add, load. intros H.
  destruct (contexts (w_p w)) as [h|].
  - destruct (w_mem w !! h) as [ch|] eqn:Hh; [|discriminate]. simpl in H.
    match type of H with context [store h ?x w] =>
      assert (H1 : same_closing w (store h x w)) by (by eapply same_closing_store);
      set (w1 := store h x w) in *
    end.
    apply outcome_bind_returns in H as (c & Hc & H).
    change (load w1 ctx = Returns c) in Hc. unfold load in Hc.
    destruct (w_mem w1 !! ctx) as [c1|] eqn:Hc1; [|discriminate]. injection Hc as ->.
    match type of H with context [store ctx ?x w1] =>
      assert (H2 : same_closing w1 (store ctx x w1)) by (by eapply same_closing_store)
    end.
    injection H as <-.
    destruct (same_closing_trans _ _ _ H1 H2) as (Hl & Hcl & _). by destruct (store ctx _ w1).
  - injection H as <-. by destruct w.
Qed.

Lemma proactor_add_total ctx w :
  is_Some (w_mem w !! ctx) →
  (∀ h, contexts (w_p w) = Some h → is_Some (w_mem w !! h)) →
  ∃ w', proactor_add ctx w = Returns w'.
Proof.
  intros Hctx Hh. unfold proactor_add, load.
  destruct (contexts (w_p w)) as [h|]; [|by eauto].
  destruct (Hh h eq_refl) as [ch Hch]. rewrite Hch. simpl.
  match goal with |- context [store h ?x w] =>
    assert (H1 : same_closing w (store h x w)) by (by eapply same_closing_store);
    set (w1 := store h x w) in *
  end.
  destruct (same_closing_valid _ _ ctx H1 Hctx) as [c Hc].
  change (w_mem w1 !! ctx) with (w_mem w1 !! ctx) in Hc.
  change (∃ w', obind (load w1 ctx) (λ c, Returns (update_p (set_contexts (Some ctx))
                  (store ctx (set_next (contexts (w_p w1)) c) w1))) = Returns w').
  unfold load. rewrite Hc. simpl. by eauto.
Qed.

Lemma wake_notify_mem w w' : wake_notify w = Returns w' → w_mem w' = w_mem w.
Proof.
  unfold wake_notify. destruct (eventfd (w_p w) =? -1); [by intros [= <-]|].
  destruct (eventfd_write _); [|discriminate]. by intros [= <-].
Qed.

(** The loop over the addresses changes the sockets, the epoll set and
    [errno] only. *)
Definition listen_frame (s s' : listener_state) : Prop :=
  w_mem (ls_world s') = w_mem (ls_world s) ∧ w_p (ls_world s') = w_p (ls_world s) ∧
  w_eventfd (ls_world s') = w_eventfd (ls_world s) ∧
  l_context (ls_l s') = l_context (ls_l s) ∧ l_collector (ls_l s') = l_collector (ls_l s) ∧
  l_condition (ls_l s') = l_condition (ls_l s).

Lemma listen_address_frame host port s a : listen_frame s (listen_address host port s a).
Proof.
  unfold listen_address. destruct (la_listens a); [|done].
  destruct (start_polling _ _ _) as [[ee k] ok]. by destruct s as [l [] e].
Qed.

Lemma listen_fold_frame host port ais : ∀ s,
  listen_frame s (foldl (listen_address host port) s ais).
Proof.
  induction ais as [|a ais IH]; intros s; [done|]. simpl.
  destruct (listen_address_frame host port s a) as (?&?&?&?&?&?).
  destruct (IH (listen_address host port s a)) as (?&?&?&?&?&?).
  repeat split; congruence.
Qed.

(** When no address listens, the loop leaves [errno] of the last one. *)
Lemma listen_fold_fail host port ais : ∀ s,
  Forall (λ a, la_listens a = false) ais →
  foldl (listen_address host port) s ais =
    set_ls_errno (default (ls_errno s) (la_errno <$> last ais)) s.
Proof.
  induction ais as [|a ais IH]; intros s Hall; [by destruct s|].
  apply Forall_cons in Hall as [Ha Hall]. simpl. rewrite IH by done.
  unfold listen_address. rewrite Ha. destruct s as [l w e]. cbn.
  destruct ais as [|b ais]; [done|]. rewrite last_cons_cons.
  destruct (proj2 (last_is_Some (b :: ais)) ltac:(done)) as [x ->]. done.
Qed.

Lemma listen_addresses_frame NDEBUG host port gai s s' :
  listen_addresses NDEBUG host port gai s = Returns s' → listen_frame s s'.
Proof.
  unfold listen_addresses. destruct gai as [e|ais]; [by intros [= <-]|].
  intros Hf. apply outcome_bind_returns in Hf as ([] & _ & Hf). injection Hf as <-.
  match goal with |- listen_frame _ (foldl _ ?x _) =>
    destruct (listen_fold_frame host port ais x) as (?&?&?&?&?&?) end.
  done.
Qed.

(** With no socket to close, [listener_begin_close] sets [closing] and puts
    the CLOSE event, or does nothing if the listener is closing already. *)
Lemma listener_begin_close_no_sockets s c :
  psockets_size (ls_l s) = 0 →
  w_mem (ls_world s) !! l_context (ls_l s) = Some c →
  listener_begin_close s =
    Returns (if closing c then s
             else upd_l (λ l, set_accepted None (set_acceptable None l))
                    (upd_l (λ l, set_l_collector (pn_collector_put (l_collector l) PN_LISTENER_CLOSE) l)
                       (set_ls_world (store (l_context (ls_l s)) (set_closing true c) (ls_world s)) s))).
Proof.
  intros Hsize Hc. unfold listener_begin_close, load. rewrite Hc. simpl.
  destruct (closing c); [done|]. simpl. by rewrite Hsize.
Qed.

Lemma pn_collector_put_last c t : last (pn_collector_put c t) = Some t.
Proof.
  unfold pn_collector_put. destruct (last c) as [t'|] eqn:Hl.
  - destruct (decide (t' = t)) as [->|]; [done|]. by rewrite last_snoc.
  - by rewrite last_snoc.
Qed.

Lemma pn_collector_put_after c t t' :
  t ≠ t' → pn_collector_put (pn_collector_put c t) t' = pn_collector_put c t ++ [t'].
Proof.
  intros Hne. unfold pn_collector_put at 1. rewrite pn_collector_put_last.
  by destruct (decide (t = t')).
Qed.

(** No address listens: [getaddrinfo] fails on a listener without sockets,
    or every address it gives fails. *)
Definition listen_failed (gai : getaddrinfo_t) (s : listener_state) : Prop :=
  match gai with
  | gai_fails _ => psockets_size (ls_l s) = 0
  | gai_ok ais => Forall (λ a, la_listens a = false) ais
  end.

(** What [pn_proactor_listen] needs to return: an address from
    [getaddrinfo] when the assertion is compiled in, the context of the
    listener in memory, and what [wake], [wake_notify] and [proactor_add]
    dereference. *)
Definition listen_ready (NDEBUG : bool) (gai : getaddrinfo_t) (s : listener_state) : Prop :=
  (NDEBUG = true ∨ gai ≠ gai_ok []) ∧
  (∃ c, w_mem (ls_world s) !! l_context (ls_l s) = Some c ∧
        ((wake_ops c ≠ 0 ∨ working c = true) ∨
         (wake_list_ok (ls_world s) ∧ eventfd_ok (ls_world s)))) ∧
  (∀ h, contexts (w_p (ls_world s)) = Some h → is_Some (w_mem (ls_world s) !! h)).

Lemma listen_addresses_failed NDEBUG host port gai s s' :
  listen_addresses NDEBUG host port gai s = Returns s' → listen_failed gai s →
  psockets_size (ls_l s') = 0 ∧
  ∀ ais a, gai = gai_ok (ais ++ [a]) → ls_errno s' = la_errno a.
Proof.
  unfold listen_addresses, listen_failed. destruct gai as [e|ais].
  - intros [= <-] Hsize. split; [done|]. discriminate.
  - intros Hf Hall. apply outcome_bind_returns in Hf as ([] & _ & Hf). injection Hf as <-.
    rewrite listen_fold_fail by done. split; [done|].
    intros ais' a [= ->]. cbn. by rewrite last_snoc.
Qed.

Lemma listen_addresses_total NDEBUG host port gai s :
  NDEBUG = true ∨ gai ≠ gai_ok [] → ∃ s', listen_addresses NDEBUG host port gai s = Returns s'.
Proof.
  intros Hlen. unfold listen_addresses. destruct gai as [e|ais]; [by eauto|].
  unfold assert. destruct NDEBUG; [by eauto|].
  destruct ais as [|a ais]; [by destruct Hlen|]. by eauto.
Qed.

(** The result of a call of [pn_proactor_listen], by whether the listener
    ends without a socket. *)
Definition listen_result (host port : string) (gai : getaddrinfo_t)
    (s s' : listener_state) (c c' : pcontext_t) : Prop :=
  let ctx := l_context (ls_l s) in
  let opened := pn_collector_put (l_collector (ls_l s)) PN_LISTENER_OPEN in
  if psockets_size (ls_l s') =? 0 then
    psockets (ls_l s') = [psocket_init (Some ctx) host port] ∧
    (∃ err, l_condition (ls_l s') = Some (mk_condition "listen on" host port err) ∧
            (listen_failed gai s → ∀ ais a, gai = gai_ok (ais ++ [a]) → err = la_errno a)) ∧
    closing c' = true ∧
    l_collector (ls_l s') = if closing c then opened else opened ++ [PN_LISTENER_CLOSE]
  else
    l_collector (ls_l s') = opened ∧ l_condition (ls_l s') = l_condition (ls_l s) ∧
    closing c' = closing c.

Lemma pn_proactor_listen_returns NDEBUG host port backlog' gai s s' :
  pn_proactor_listen NDEBUG host port backlog' gai s = Returns s' →
  ∃ c c', w_mem (ls_world s) !! l_context (ls_l s) = Some c ∧
          w_mem (ls_world s') !! l_context (ls_l s) = Some c' ∧
          (listen_failed gai s → psockets_size (ls_l s') = 0) ∧
          listen_result host port gai s s' c c'.
Proof.
  unfold pn_proactor_listen. intros Hf.
  apply outcome_bind_returns in Hf as (s1 & H1 & Hf).
  apply outcome_bind_returns in Hf as ([notify w] & Hwake & Hf).
  apply outcome_bind_returns in Hf as (s2 & H2 & Hf).
  apply outcome_bind_returns in Hf as (w3 & Hadd & Hf).
  pose proof (listen_addresses_frame _ _ _ _ _ _ H1) as (Hmem1 & Hp1 & _ & Hctx1 & Hcol1 & Hcond1).
  cbn in Hmem1, Hp1, Hctx1, Hcol1, Hcond1, Hwake.
  pose proof (wake_same_closing _ _ _ _ Hwake) as Hsame.
  assert (∃ c, w_mem (ls_world s) !! l_context (ls_l s) = Some c) as [c Hc].
  { rewrite <- Hmem1. unfold wake, load in Hwake.
    destruct (w_mem (ls_world s1) !! l_context (ls_l s)); [by eauto|discriminate]. }
  destruct (same_closing_load _ _ (l_context (ls_l s)) c Hsame) as (c1 & Hc1 & Hcl1); [by rewrite Hmem1|].
  assert (Hs' : ls_l s' = ls_l s2 ∧ w_mem (ls_world s') = w_mem w3).
  { destruct notify; [|by injection Hf as <-].
    apply outcome_bind_returns in Hf as (w4 & Hn & Hf). injection Hf as <-.
    split; [done|]. by apply wake_notify_mem in Hn. }
  destruct Hs' as [Hl' Hmem'].
  destruct (proactor_add_closing _ _ _ Hadd) as [_ Hadd'].
  assert (Hfail : listen_failed gai s →
                  psockets_size (ls_l s1) = 0 ∧
                  ∀ ais a, gai = gai_ok (ais ++ [a]) → ls_errno s1 = la_errno a).
  { intros Hfl. eapply listen_addresses_failed; [exact H1|]. by destruct gai. }
  cbn in H2. unfold listen_result. rewrite Hl'.
  destruct (psockets_size (ls_l s1) =? 0) eqn:Hsize.
  - apply Z.eqb_eq in Hsize. unfold psocket_error in H2. cbn in H2.
    erewrite listener_begin_close_no_sockets in H2; [|by cbn|cbn; rewrite Hctx1; exact Hc1].
    rewrite Hcl1 in H2. specialize (Hadd' (l_context (ls_l s))).
    destruct (closing c) eqn:Hcl; injection H2 as <-; cbn in *.
    + rewrite Hc1 in Hadd'. cbn in Hadd'.
      destruct (w_mem w3 !! l_context (ls_l s)) as [c'|] eqn:Hc'; [|discriminate].
      injection Hadd' as Hcl'.
      exists c, c'. rewrite Hmem', Hsize, Hcol1, Hcl. cbn.
      split; [done|]. split; [done|]. split; [done|]. split; [done|].
      split; [|split; [congruence|done]].
      exists (ls_errno s1). split; [done|]. intros Hfl. by apply Hfail.
    + rewrite Hctx1 in Hadd'.
      rewrite list_lookup_insert_eq in Hadd' by (by eapply lookup_lt_Some). cbn in Hadd'.
      destruct (w_mem w3 !! l_context (ls_l s)) as [c'|] eqn:Hc'; [|discriminate].
      injection Hadd' as Hcl'.
      exists c, c'. rewrite Hmem', Hsize, Hcol1, Hcl. cbn.
      split; [done|]. split; [done|]. split; [done|]. split; [done|].
      split; [|split; [done|by apply pn_collector_put_after]].
      exists (ls_errno s1). split; [done|]. intros Hfl. by apply Hfail.
  - injection H2 as <-. cbn in *. rewrite Hsize.
    specialize (Hadd' (l_context (ls_l s))). rewrite Hc1 in Hadd'. cbn in Hadd'.
    destruct (w_mem w3 !! l_context (ls_l s)) as [c'|] eqn:Hc'; [|discriminate].
    injection Hadd' as Hcl'.
    exists c, c'. rewrite Hmem'. split; [done|]. split; [done|]. split.
    { intros Hfl. apply Z.eqb_neq in Hsize. by destruct (Hfail Hfl). }
    rewrite Hcol1, Hcond1. split; [done|]. split; [done|]. congruence.
Qed.

Lemma proactor_add_eventfd ctx w w' :
  proactor_add ctx w = Returns w' →
  eventfd (w_p w') = eventfd (w_p w) ∧ w_eventfd w' = w_eventfd w.
Proof.
  unfold proactor_add. intros H. destruct (contexts (w_p w)) as [h|].
  - apply outcome_bind_returns in H as (ch & _ & H).
    apply outcome_bind_returns in H as (c & _ & H). injection H as <-. by destruct w.
  - injection H as <-. by destruct w.
Qed.

Lemma pn_proactor_listen_total NDEBUG host port backlog' gai s :
  listen_ready NDEBUG gai s →
  ∃ s', pn_proactor_listen NDEBUG host port backlog' gai s = Returns s'.
Proof.
  intros (Hlen & (c & Hc & Hpre) & Hhead). unfold pn_proactor_listen.
  destruct (listen_addresses_total NDEBUG host port gai (upd_l (set_backlog backlog') s) Hlen)
    as [s1 H1].
  rewrite H1. cbn.
  pose proof (listen_addresses_frame _ _ _ _ _ _ H1) as (Hmem1 & Hp1 & Hefd1 & Hctx1 & _).
  cbn in Hmem1, Hp1, Hefd1, Hctx1.
  assert (Hlist1 : wake_list_ok (ls_world s1) ↔ wake_list_ok (ls_world s))
    by (unfold wake_list_ok; by rewrite Hmem1, Hp1).
  assert (Hefdok1 : eventfd_ok (ls_world s1) ↔ eventfd_ok (ls_world s))
    by (unfold eventfd_ok; by rewrite Hefd1, Hp1).
  destruct (wake_total (l_context (ls_l s)) (ls_world s1) c)
    as (notify & w & c1 & Hwake & Hc1 & _ & _ & _ & He1 & He2 & Hquiet);
    [by rewrite Hmem1|tauto|].
  rewrite Hwake. unfold obind at 1.
  pose proof (wake_same_closing _ _ _ _ Hwake) as Hsame.
  assert (Hnotify : notify = true → eventfd_ok w).
  { intros ->. destruct Hpre as [Hq|[_ Hok]]; [by destruct (Hquiet Hq)|].
    unfold eventfd_ok. rewrite He1, He2. by apply Hefdok1. }
  assert (Hfin : ∀ s2, ls_world s2 = w ∨
                       ls_world s2 = store (l_context (ls_l s)) (set_closing true c1) w →
    ∃ s', obind (proactor_add (l_context (ls_l s)) (ls_world s2))
            (λ w0, let s3 := set_ls_world w0 s2 in
                   if notify
                   then obind (wake_notify (ls_world s3)) (λ w1, Returns (set_ls_world w1 s3))
                   else Returns s3) = Returns s').
  { intros s2 Hw2.
    assert (Hsame2 : length (w_mem (ls_world s2)) = length (w_mem (ls_world s)) ∧
                     contexts (w_p (ls_world s2)) = contexts (w_p (ls_world s))).
    { destruct Hsame as (Hlen1 & _ & Hcontexts). rewrite <- Hmem1, <- Hp1, <- Hlen1, <- Hcontexts.
      destruct Hw2 as [->| ->]; [done|]. destruct w. cbn. by rewrite length_insert. }
    destruct Hsame2 as [Hlen2 Hcontexts2].
    assert (He : eventfd (w_p (ls_world s2)) = eventfd (w_p w) ∧
                 w_eventfd (ls_world s2) = w_eventfd w)
      by (destruct Hw2 as [->| ->]; by destruct w).
    destruct (proactor_add_total (l_context (ls_l s)) (ls_world s2)) as [w3 Hadd].
    { apply lookup_lt_is_Some. rewrite Hlen2. by eapply lookup_lt_Some. }
    { intros h Hh. apply lookup_lt_is_Some. rewrite Hlen2. apply lookup_lt_is_Some.
      apply Hhead. by rewrite <- Hcontexts2. }
    rewrite Hadd. cbn. destruct notify; [|by eauto].
    destruct (proactor_add_eventfd _ _ _ Hadd) as [He3 He4].
    destruct (wake_notify_total w3) as (w4 & Hn & _).
    { specialize (Hnotify eq_refl). unfold eventfd_ok in *.
      destruct He as [He5 He6]. by rewrite He3, He4, He5, He6. }
    rewrite Hn. cbn. by eauto. }
  destruct (psockets_size (ls_l s1) =? 0) eqn:Hsize.
  - apply Z.eqb_eq in Hsize. unfold psocket_error. cbn [ps_listener psocket_init].
    erewrite listener_begin_close_no_sockets; [|by cbn|cbn; rewrite Hctx1; exact Hc1].
    destruct (closing c1);
      match goal with |- ∃ s', obind (Returns ?x) _ = _ => apply (Hfin x) end;
      cbn; [by left|right; by rewrite Hctx1].
  - match goal with |- ∃ s', obind (Returns ?x) _ = _ => apply (Hfin x) end. by left.
Qed.

(** C9.  Every call of [pn_proactor_listen] that returns has put
    [PN_LISTENER_OPEN] in the listener's collector, and the call returns
    whenever the listener's context and the wake list are in order.  When
    the listener ends without a socket, as it does when every address that
    [getaddrinfo] gave fails, its only socket is a dummy one with [sockfd]
    -1, its condition is set to the error with the [errno] of the last
    failure, its context is closing, and [PN_LISTENER_CLOSE] is put right
    after the OPEN event unless the listener was closing before the call.
    Otherwise the OPEN event is all that is put, and the condition and
    [closing] are as before. *)
Theorem listen_posts_open NDEBUG host port backlog' gai s :
  let ctx := l_context (ls_l s) in
  let opened := pn_collector_put (l_collector (ls_l s)) PN_LISTENER_OPEN in
  last opened = Some PN_LISTENER_OPEN ∧
  (listen_ready NDEBUG gai s →
   ∃ s', pn_proactor_listen NDEBUG host port backlog' gai s = Returns s') ∧
  ∀ s', pn_proactor_listen NDEBUG host port backlog' gai s = Returns s' →
    PN_LISTENER_OPEN ∈ l_collector (ls_l s') ∧
    ∃ c c', w_mem (ls_world s) !! ctx = Some c ∧ w_mem (ls_world s') !! ctx = Some c' ∧
      (listen_failed gai s → psockets_size (ls_l s') = 0) ∧
      if psockets_size (ls_l s') =? 0 then
        psockets (ls_l s') = [psocket_init (Some ctx) host port] ∧
        (∃ err, l_condition (ls_l s') = Some (mk_condition "listen on" host port err) ∧
                (listen_failed gai s → ∀ ais a, gai = gai_ok (ais ++ [a]) → err = la_errno a)) ∧
        closing c' = true ∧
        l_collector (ls_l s') = if closing c then opened else opened ++ [PN_LISTENER_CLOSE]
      else
        l_collector (ls_l s') = opened ∧ l_condition (ls_l s') = l_condition (ls_l s) ∧
        closing c' = closing c.
Proof.
  intros ctx opened.
  assert (Hlast : last opened = Some PN_LISTENER_OPEN) by apply pn_collector_put_last.
  assert (Hin : PN_LISTENER_OPEN ∈ opened).
  { destruct (last_Some opened PN_LISTENER_OPEN) as [[l' Heq] _]; [done|].
    rewrite Heq. apply elem_of_app. right. left. }
  split; [done|]. split; [apply pn_proactor_listen_total|].
  intros s' Hf.
  destruct (pn_proactor_listen_returns _ _ _ _ _ _ _ Hf) as (c & c' & Hc & Hc' & Hsize & Hres).
  unfold listen_result in Hres. fold ctx opened in Hres.
  split; [|by exists c, c'].
  destruct (psockets_size (ls_l s') =? 0).
  - destruct Hres as (_ & _ & _ & ->). destruct (closing c); [done|].
    apply elem_of_app. by left.
  - by destruct Hres as (-> & _).
Qed.

(** A proactor with a connection, and a new listener with its context at
    address 2. *)
Definition test_listener : listener_state :=
  mk_listener_state (pn_listener 2)
    (set_w_mem [pcontext_init PROACTOR; set_next None (pcontext_init PCONNECTION);
                pcontext_init LISTENER] test_world)
    0.

(** [socket] fails for the first address (EAFNOSUPPORT) and [bind] for the
    second (EADDRINUSE): OPEN, then CLOSE, and the condition has the last
    error. *)
Lemma listen_posts_open_witness :
  ∃ s', pn_proactor_listen false "localhost" "5672" 16
          (gai_ok [mk_listen_attempt (-1) false 97; mk_listen_attempt 8 false 98])
          test_listener = Returns s' ∧
        l_collector (ls_l s') = [PN_LISTENER_OPEN; PN_LISTENER_CLOSE] ∧
        l_condition (ls_l s') = Some (mk_condition "listen on" "localhost" "5672" 98) ∧
        sockfd <$> psockets (ls_l s') = [-1].
Proof.
  destruct (listen_posts_open false "localhost" "5672" 16
              (gai_ok [mk_listen_attempt (-1) false 97; mk_listen_attempt 8 false 98])
              test_listener) as (_ & Htotal & Hret).
  destruct Htotal as [s' Hf].
  { split; [right; discriminate|]. split.
    - exists (pcontext_init LISTENER). split; [reflexivity|]. right.
      split; [exact I|]. right. reflexivity.
    - intros h [= <-]. by eexists. }
  assert (Hfailed : listen_failed
            (gai_ok [mk_listen_attempt (-1) false 97; mk_listen_attempt 8 false 98])
            test_listener) by (by repeat constructor).
  destruct (Hret s' Hf) as (_ & c & c' & Hc & _ & Hsize & Hres).
  rewrite (Hsize Hfailed) in Hres.
  destruct Hres as (Hps & (err & Hcond & Herr) & _ & Hcol).
  injection Hc as <-.
  exists s'. split; [done|]. split; [exact Hcol|]. split.
  - rewrite Hcond. by rewrite (Herr Hfailed [mk_listen_attempt (-1) false 97]
                                 (mk_listen_attempt 8 false 98) eq_refl).
  - by rewrite Hps.
Defined.

(** * Further properties of the code *)

(** ** Registration with epoll: [start_polling] and [stop_polling] *)

Lemma epoll_delete_insert (k : gmap Z Z) (fd v : Z) :
  k !! fd = None → delete fd (<[fd := v]> k) = k.
Proof.
  intros Hk. apply map_eq. intros i. destruct (decide (i = fd)) as [->|Hne].
  - by rewrite lookup_delete_eq.
  - by rewrite lookup_delete_ne, lookup_insert_ne.
Qed.

(** A record that is not polled, with a descriptor the interest list does
    not have yet: [start_polling] registers it with [wanted | EPOLLONESHOT];
    [stop_polling] then takes the registration away again and invalidates
    the record ([fd] is -1), so that a second [stop_polling] does nothing
    and a later [start_polling] registers nothing and returns false, though
    it sets [polling]. *)
Theorem stop_polling_undoes_start ee epollfd (k : gmap Z Z) :
  ee_polling ee = false → 0 ≤ ee_fd ee → 0 ≤ epollfd → k !! ee_fd ee = None →
  ∃ ee1 k1,
    start_polling ee epollfd k = (ee1, k1, true) ∧
    k1 !! ee_fd ee = Some (Z.lor (ee_wanted ee) EPOLLONESHOT) ∧
    let ee2 := set_ee_polling false (set_ee_fd (-1) ee1) in
    stop_polling ee1 epollfd k1 = Returns (ee2, k) ∧
    stop_polling ee2 epollfd k = Returns (ee2, k) ∧
    ∀ k', start_polling ee2 epollfd k' = (set_ee_polling true ee2, k', false).
Proof.
  intros Hpoll Hfd Hep Hk. unfold start_polling, stop_polling, epoll_ctl, epoll_set.
  rewrite Hpoll. cbn.
  destruct (Z.ltb_spec epollfd 0); [lia|]. destruct (Z.ltb_spec (ee_fd ee) 0); [lia|].
  cbn. rewrite Hk. cbn. eexists _, _. split; [reflexivity|].
  split; [by rewrite lookup_insert_eq|]. cbn.
  destruct (Z.eqb_spec (ee_fd ee) (-1)); [lia|]. destruct (Z.eqb_spec epollfd (-1)); [lia|].
  cbn. destruct (Z.ltb_spec epollfd 0); [lia|]. destruct (Z.ltb_spec (ee_fd ee) 0); [lia|].
  cbn. rewrite lookup_insert_eq. cbn. rewrite epoll_delete_insert by done.
  split; [done|]. split; [done|]. intros k'. reflexivity.
Qed.

Lemma stop_polling_undoes_start_witness :
  ∃ ee1 k1,
    start_polling (mk_epoll_extended 6 PCONNECTION_IO EPOLLIN false) 3 ∅ = (ee1, k1, true) ∧
    stop_polling ee1 3 k1
    = Returns (mk_epoll_extended (-1) PCONNECTION_IO EPOLLIN false, ∅).
Proof.
  destruct (stop_polling_undoes_start (mk_epoll_extended 6 PCONNECTION_IO EPOLLIN false) 3 ∅)
    as (ee1 & k1 & Hstart & _ & Hstop & _); [reflexivity|simpl; lia|lia|reflexivity|].
  exists ee1, k1. split; [exact Hstart|].
  rewrite Hstop. injection Hstart as <- _. reflexivity.
Defined.

(** [stop_polling] must come before [close]: on a record that is marked
    polled, once the descriptor is closed (which takes it out of the
    interest list) [stop_polling] is fatal (EPOLL_FATAL).  On a record that
    is not marked, or has no descriptor, or without an epoll instance, it
    does nothing. *)
Theorem stop_polling_after_close ee epollfd (k : gmap Z Z) :
  (ee_polling ee = true → 0 ≤ ee_fd ee → 0 ≤ epollfd →
   stop_polling ee epollfd (kernel_close (ee_fd ee) k) = Aborts EpollFatal) ∧
  (ee_polling ee = false ∨ ee_fd ee = -1 ∨ epollfd = -1 →
   stop_polling ee epollfd k = Returns (ee, k)).
Proof.
  unfold stop_polling, epoll_ctl, kernel_close, epoll_set. split.
  - intros Hpoll Hfd Hep. rewrite Hpoll. cbn.
    destruct (Z.eqb_spec (ee_fd ee) (-1)); [lia|]. destruct (Z.eqb_spec epollfd (-1)); [lia|].
    cbn. destruct (Z.ltb_spec epollfd 0); [lia|]. destruct (Z.ltb_spec (ee_fd ee) 0); [lia|].
    cbn. by rewrite lookup_delete_eq.
  - intros [->|[->| ->]]; cbn; [by rewrite orb_true_r|done|by rewrite orb_true_r].
Qed.

Lemma stop_polling_after_close_witness :
  stop_polling (mk_epoll_extended 6 PCONNECTION_IO EPOLLIN true) 3
               (kernel_close 6 (<[6 := EPOLLIN]> ∅)) = Aborts EpollFatal.
Proof.
  apply (proj1 (stop_polling_after_close
                  (mk_epoll_extended 6 PCONNECTION_IO EPOLLIN true) 3 (<[6 := EPOLLIN]> ∅)));
    [reflexivity|simpl; lia|lia].
Defined.

(** ** The listener after [pn_proactor_listen] *)

Definition set_close_dispatched (v : bool) (l : pn_listener_t) : pn_listener_t :=
  mk_listener (psockets l) (psockets_size l) (l_context l) (l_condition l) (l_collector l)
              (backlog l) (acceptable l) (accepted l) v (l_armed l).
Definition set_l_armed (v : bool) (l : pn_listener_t) : pn_listener_t :=
  mk_listener (psockets l) (psockets_size l) (l_context l) (l_condition l) (l_collector l)
              (backlog l) (acceptable l) (accepted l) (close_dispatched l) v.

Definition listener_has_event (l : pn_listener_t) : bool := has_peek (l_collector l).

(** call with lock held *)
Definition listener_can_free (s : listener_state) : outcome bool :=
  c ← load (ls_world s) (l_context (ls_l s));
  Returns (closing c && close_dispatched (ls_l s) && (wake_ops c =? 0)).

(** [pn_listener_free] of a listener that a proactor listens for
    ([l->context.proactor] is set).  The result tells whether
    [listener_final_free] was called. *)
Definition pn_listener_free (s : listener_state) : outcome (bool * listener_state) :=
  '(can_free, w) ← proactor_remove (l_context (ls_l s)) (ls_world s);
  Returns (can_free, set_ls_world w s).

Definition pn_listener_close (s : listener_state) : outcome listener_state :=
  let ctx := l_context (ls_l s) in
  c ← load (ls_world s) ctx;
  if negb (closing c) then
    s ← listener_begin_close s;
    '(notify, w) ← wake ctx (ls_world s);
    let s := set_ls_world w s in
    if notify then w ← wake_notify (ls_world s); Returns (set_ls_world w s)
    else Returns s
  else Returns s.

Section Listener.
Variable NDEBUG : bool.

(** Called by proactor_free, no competing threads, no epoll activity. *)
Definition listener_forced_shutdown (s : listener_state) : outcome (bool * listener_state) :=
  let ctx := l_context (ls_l s) in
  s ← listener_begin_close s;
  (* pconnection_process will never be called again.  Zero everything. *)
  c ← load (ls_world s) ctx;
  let s := set_ls_world (store ctx (set_wake_ops 0 c) (ls_world s)) s in
  let s := upd_l (set_close_dispatched true) s in
  can_free ← listener_can_free s;
  assert NDEBUG can_free;;
  pn_listener_free s.

(** Process a listening socket: [ps] is [&l->psockets[i]]. *)
Definition listener_process (i : nat) (events : Z) (s : listener_state)
  : outcome (option batch_t * listener_state) :=
  let ctx := l_context (ls_l s) in
  s ← (if negb (events =? 0) then
         let s := upd_l (set_l_armed false) s in
         if negb (Z.land events EPOLLRDHUP =? 0) then
           (* Calls listener_begin_close which closes all the listener's sockets *)
           ps ← match psockets (ls_l s) !! i with
                | Some ps => Returns ps
                | None => Aborts Undefined
                end;
           psocket_error ps (ls_errno s) "listener epoll" s
         else
           c ← load (ls_world s) ctx;
           if negb (closing c) && negb (Z.land events EPOLLIN =? 0) then
             Returns (upd_l (λ l, set_l_collector
                                    (pn_collector_put (l_collector l) PN_LISTENER_ACCEPT)
                                    (set_acceptable (Some i) l)) s)
           else Returns s
       else
         (* callback accounting *)
         w ← wake_done NDEBUG ctx (ls_world s); Returns (set_ls_world w s));
  c ← load (ls_world s) ctx;
  if negb (working c) then
    if listener_has_event (ls_l s) then
      Returns (Some (listener_batch ctx),
               set_ls_world (store ctx (set_working true c) (ls_world s)) s)
    else Returns (None, s)
  else Returns (None, s).

Definition listener_batch_next (s : listener_state)
  : option pn_event_type_t * listener_state :=
  let '(e, q) := pn_collector_next (l_collector (ls_l s)) in
  let s := upd_l (set_l_collector q) s in
  match e with
  | Some PN_LISTENER_CLOSE => (e, upd_l (set_close_dispatched true) s)
  | _ => (e, s)
  end.

(** The result tells whether the listener was freed. *)
Definition listener_done (s : listener_state) : outcome (bool * listener_state) :=
  let ctx := l_context (ls_l s) in
  c ← load (ls_world s) ctx;
  let s := set_ls_world (store ctx (set_working false c) (ls_world s)) s in
  if close_dispatched (ls_l s) then
    can_free ← listener_can_free s;
    if can_free then pn_listener_free s
    else Returns (false, s)
  else if listener_has_event (ls_l s) then
    '(notify, w) ← wake ctx (ls_world s);
    let s := set_ls_world w s in
    if notify then w ← wake_notify (ls_world s); Returns (false, set_ls_world w s)
    else Returns (false, s)
  else
    (* Don't rearm until the current socket is accepted *)
    c ← load (ls_world s) ctx;
    match accepted (ls_l s) with
    | Some a =>
        if negb (closing c) && negb (l_armed (ls_l s))
           && negb (bool_decide (is_Some (acceptable (ls_l s)))) then
          ps ← match psockets (ls_l s) !! a with
               | Some ps => Returns ps
               | None => Aborts Undefined
               end;
          k ← rearm (epollfd (w_p (ls_world s))) (ps_epoll_io ps) (w_epoll (ls_world s));
          let s := set_ls_world (set_w_epoll k (ls_world s)) s in
          Returns (false, upd_l (λ l, set_accepted None (set_l_armed true l)) s)
        else Returns (false, s)
    | None => Returns (false, s)
    end.
End Listener.

(** *** Listening sockets: what [pn_proactor_listen] registers,
    [listener_begin_close] takes away *)

(** The socket that the loop of [pn_proactor_listen] sets up for a
    descriptor that listens. *)
Definition listening_socket (ctx : nat) (host port : string) (fd : Z) : psocket_t :=
  mk_psocket fd (mk_epoll_extended fd LISTENER_IO EPOLLIN true) (Some ctx) host port.

(** The same socket after [stop_polling] and [close]. *)
Definition closed_socket (ctx : nat) (host port : string) (fd : Z) : psocket_t :=
  mk_psocket fd (mk_epoll_extended (-1) LISTENER_IO EPOLLIN false) (Some ctx) host port.

(** The descriptors of the addresses that listen. *)
Definition listening_fds (ais : list listen_attempt) : list Z :=
  la_fd <$> filter (λ a, la_listens a = true) ais.

(** The interest list [k] is [k0] with the descriptors [fds] registered for
    EPOLLIN. *)
Definition registered (k0 : gmap Z Z) (fds : list Z) (k : gmap Z Z) : Prop :=
  ∀ fd, k !! fd = if decide (fd ∈ fds) then Some (Z.lor EPOLLIN EPOLLONESHOT) else k0 !! fd.

Lemma registered_nil k0 k : registered k0 [] k ↔ k = k0.
Proof.
  split; [|by intros ->]. intros Hreg. apply map_eq. intros fd. specialize (Hreg fd).
  rewrite decide_False in Hreg; [done|]. apply not_elem_of_nil.
Qed.

Lemma registered_insert k0 fds k fd :
  registered k0 fds k → registered k0 (fds ++ [fd]) (<[fd := Z.lor EPOLLIN EPOLLONESHOT]> k).
Proof.
  intros Hreg fd'. destruct (decide (fd' = fd)) as [->|Hne].
  - rewrite lookup_insert_eq. rewrite decide_True; [done|].
    apply elem_of_app. right. by apply list_elem_of_singleton.
  - rewrite lookup_insert_ne by done. rewrite Hreg.
    destruct (decide (fd' ∈ fds)).
    + rewrite decide_True; [done|]. apply elem_of_app. by left.
    + rewrite decide_False; [done|].
      by intros [?|?%list_elem_of_singleton]%elem_of_app.
Qed.

Lemma registered_delete k0 fds k fd :
  registered k0 (fd :: fds) k → fd ∉ fds → k0 !! fd = None →
  registered k0 fds (delete fd k).
Proof.
  intros Hreg Hnin Hk0 fd'. destruct (decide (fd' = fd)) as [->|Hne].
  - rewrite lookup_delete_eq. by rewrite decide_False.
  - rewrite lookup_delete_ne by done. rewrite Hreg.
    destruct (decide (fd' ∈ fds)).
    + rewrite decide_True; [done|]. by right.
    + rewrite decide_False; [done|]. by intros [?|?]%elem_of_cons.
Qed.

(** The state of the loop over the addresses in [pn_proactor_listen] after
    the descriptors [fds] were found to listen: they have the first
    elements of the array of [len] sockets and are registered. *)
Record listen_loop (ctx : nat) (host port : string) (k0 : gmap Z Z) (len : nat)
    (fds : list Z) (s : listener_state) : Prop := mk_listen_loop {
  ll_psockets : psockets (ls_l s) =
                  (listening_socket ctx host port <$> fds)
                  ++ replicate (len - length fds) psocket_zero;
  ll_size : psockets_size (ls_l s) = Z.of_nat (length fds);
  ll_registered : registered k0 fds (w_epoll (ls_world s));
  ll_context : l_context (ls_l s) = ctx
}.

Lemma listen_address_loop ctx host port k0 len fds s a :
  listen_loop ctx host port k0 len fds s →
  0 ≤ epollfd (w_p (ls_world s)) → Z.of_nat len < 2 ^ 64 →
  (la_listens a = true →
   (length fds < len)%nat ∧ (la_fd a ∉ fds) ∧ k0 !! la_fd a = None) →
  listen_loop ctx host port k0 len
    (if la_listens a then fds ++ [la_fd a] else fds) (listen_address host port s a).
Proof.
  intros [Hps Hsize Hreg Hctx] Hep Hlen Ha. unfold listen_address.
  destruct (la_listens a) eqn:Hl; [|done].
  destruct (Ha eq_refl) as (Hlt & Hnin & Hk0).
  assert (Hfd : 0 ≤ la_fd a).
  { unfold la_listens in Hl. apply andb_true_iff in Hl as [Hl _]. by apply Z.leb_le in Hl. }
  assert (Hk : w_epoll (ls_world s) !! la_fd a = None).
  { rewrite Hreg. by rewrite decide_False. }
  unfold start_polling, epoll_ctl. cbn.
  destruct (Z.ltb_spec (epollfd (w_p (ls_world s))) 0); [lia|].
  destruct (Z.ltb_spec (la_fd a) 0); [lia|]. cbn. rewrite Hk. cbn.
  split; cbn.
  - rewrite Hps, Hsize, Nat2Z.id, Hctx.
    rewrite insert_app_r_alt by (by rewrite length_fmap).
    rewrite length_fmap, Nat.sub_diag, length_app. cbn.
    destruct (len - length fds)%nat as [|m] eqn:Hm; [lia|]. cbn.
    rewrite fmap_app, <- (assoc_L (++)). cbn.
    by replace (len - (length fds + 1))%nat with m by lia.
  - rewrite Hsize, length_app. cbn. unfold size_incr, SIZE_MOD.
    rewrite Z.mod_small by lia. lia.
  - by apply registered_insert.
  - done.
Qed.

Lemma listening_fds_cons a ais :
  listening_fds (a :: ais) =
    if la_listens a then la_fd a :: listening_fds ais else listening_fds ais.
Proof.
  unfold listening_fds. rewrite filter_cons.
  destruct (la_listens a); [by rewrite decide_True|by rewrite decide_False].
Qed.

Lemma listen_fold_loop ctx host port k0 len ais : ∀ fds s,
  listen_loop ctx host port k0 len fds s →
  0 ≤ epollfd (w_p (ls_world s)) → Z.of_nat len < 2 ^ 64 →
  (length fds + length ais ≤ len)%nat →
  NoDup (fds ++ listening_fds ais) →
  (∀ fd, fd ∈ listening_fds ais → k0 !! fd = None) →
  listen_loop ctx host port k0 len (fds ++ listening_fds ais)
    (foldl (listen_address host port) s ais).
Proof.
  induction ais as [|a ais IH]; intros fds s Hinv Hep Hlen Hle Hnd Hfresh.
  { unfold listening_fds. cbn. by rewrite app_nil_r. }
  cbn [foldl]. rewrite listening_fds_cons in Hnd, Hfresh |- *. cbn in Hle.
  pose proof (listen_address_loop ctx host port k0 len fds s a Hinv Hep Hlen) as Hstep.
  assert (Hep' : 0 ≤ epollfd (w_p (ls_world (listen_address host port s a)))).
  { destruct (listen_address_frame host port s a) as (_ & -> & _). done. }
  destruct (la_listens a) eqn:Hl.
  - replace (fds ++ la_fd a :: listening_fds ais)
      with ((fds ++ [la_fd a]) ++ listening_fds ais) in * by (by rewrite <- (assoc_L (++))).
    apply IH; [|done|done|rewrite length_app; cbn; lia|done|].
    + apply Hstep. intros _. split; [lia|].
      apply NoDup_app in Hnd as (Hnd & _ & _). apply NoDup_app in Hnd as (_ & Hnin & _).
      split.
      * intros Hin. apply (Hnin _ Hin). by apply list_elem_of_singleton.
      * apply Hfresh. by left.
    + intros fd Hin. apply Hfresh. by right.
  - apply IH; [|done|done|lia|done|done]. by apply Hstep.
Qed.

Lemma listener_close_sockets_loop ctx host port k0 todo : ∀ closed s rest,
  psockets (ls_l s) = (closed_socket ctx host port <$> closed)
                      ++ (listening_socket ctx host port <$> todo) ++ rest →
  registered k0 todo (w_epoll (ls_world s)) →
  0 ≤ epollfd (w_p (ls_world s)) →
  NoDup todo → Forall (λ fd, 0 ≤ fd ∧ k0 !! fd = None) todo →
  ∃ s', listener_close_sockets (length todo) (length closed) s = Returns s' ∧
        ls_l s' = set_psockets ((closed_socket ctx host port <$> (closed ++ todo)) ++ rest)
                               (ls_l s) ∧
        ls_world s' = set_w_epoll k0 (ls_world s) ∧
        ls_errno s' = ls_errno s.
Proof.
  induction todo as [|fd todo IH]; intros closed s rest Hps Hreg Hep Hnd Hall.
  - exists s. cbn. split; [done|]. rewrite app_nil_r. cbn in Hps.
    apply registered_nil in Hreg.
    split; [|split; [|done]].
    + rewrite <- Hps. by destruct (ls_l s).
    + rewrite <- Hreg. by destruct (ls_world s).
  - apply NoDup_cons in Hnd as [Hnin Hnd]. apply Forall_cons in Hall as [[Hfd Hk0] Hall].
    cbn [length listener_close_sockets].
    assert (Hi : psockets (ls_l s) !! length closed = Some (listening_socket ctx host port fd)).
    { rewrite Hps. rewrite lookup_app_r by (by rewrite length_fmap).
      by rewrite length_fmap, Nat.sub_diag. }
    rewrite Hi. cbn.
    destruct (Z.leb_spec 0 fd); [|lia].
    unfold stop_polling, epoll_ctl. cbn.
    destruct (Z.eqb_spec fd (-1)); [lia|].
    destruct (Z.eqb_spec (epollfd (w_p (ls_world s))) (-1)); [lia|]. cbn.
    destruct (Z.ltb_spec (epollfd (w_p (ls_world s))) 0); [lia|].
    destruct (Z.ltb_spec fd 0); [lia|]. cbn.
    assert (Hk : w_epoll (ls_world s) !! fd = Some (Z.lor EPOLLIN EPOLLONESHOT)).
    { rewrite Hreg. rewrite decide_True; [done|]. by left. }
    rewrite Hk. cbn.
    match goal with |- ∃ s', listener_close_sockets _ _ ?x = _ ∧ _ =>
      destruct (IH (closed ++ [fd]) x rest) as (s' & Hrun & Hl & Hw & He)
    end.
    + cbn. rewrite Hps.
      rewrite insert_app_r_alt by (by rewrite length_fmap).
      rewrite length_fmap, Nat.sub_diag. cbn.
      by rewrite fmap_app, <- (assoc_L (++)).
    + cbn. unfold kernel_close.
      assert (Hdel : registered k0 todo (delete fd (w_epoll (ls_world s))))
        by (by apply registered_delete).
      intros fd'. rewrite <- (Hdel fd'). unfold epoll_set.
      destruct (decide (fd' = fd)) as [->|Hne].
      * by rewrite !lookup_delete_eq.
      * by rewrite lookup_delete_ne.
    + done.
    + done.
    + done.
    + exists s'. rewrite length_app in Hrun. cbn in Hrun.
      replace (length closed + 1)%nat with (S (length closed)) in Hrun by lia.
      split; [exact Hrun|]. rewrite Hl, Hw, He. cbn.
      rewrite <- (assoc_L (++)). cbn. split; [|split; [|done]].
      * by destruct (ls_l s).
      * by destruct (ls_world s).
Qed.

(** [wake], [wake_notify] and [proactor_add] leave the interest list and
    the epoll descriptor alone. *)
Definition same_epoll (w w' : world) : Prop :=
  w_epoll w' = w_epoll w ∧ epollfd (w_p w') = epollfd (w_p w).

Lemma wake_same_epoll ctx w notify w' :
  wake ctx w = Returns (notify, w') → same_epoll w w'.
Proof.
  unfold wake, load, int_incr, int_add. intros H.
  destruct (w_mem w !! ctx) as [c|]; [|discriminate]. simpl in H.
  destruct (wake_ops c =? 0); [|by injection H as <- <-].
  destruct (working c); simpl in H; [by injection H as <- <-|].
  destruct (_ && _); [|discriminate]. simpl in H.
  destruct (wake_list_first (w_p w)).
  - destruct (wake_list_last (w_p w)) as [l|]; [|discriminate]. simpl in H.
    destruct (_ !! l); [|discriminate]. simpl in H.
    destruct (wakes_in_progress (w_p w)); simpl in H; by injection H as <- <-.
  - simpl in H. destruct (wakes_in_progress (w_p w)); simpl in H; by injection H as <- <-.
Qed.

Lemma wake_notify_same_epoll w w' : wake_notify w = Returns w' → same_epoll w w'.
Proof.
  unfold wake_notify. destruct (eventfd (w_p w) =? -1); [by intros [= <-]|].
  destruct (eventfd_write _); [|discriminate]. by intros [= <-].
Qed.

Lemma proactor_add_same_epoll ctx w w' : proactor_add ctx w = Returns w' → same_epoll w w'.
Proof.
  unfold proactor_add. intros H. destruct (contexts (w_p w)) as [h|].
  - apply outcome_bind_returns in H as (ch & _ & H).
    apply outcome_bind_returns in H as (c & _ & H). by injection H as <-.
  - by injection H as <-.
Qed.

(** When some address listens, the rest of [pn_proactor_listen] only puts
    the OPEN event and enlists the context. *)
Lemma pn_proactor_listen_sockets NDEBUG host port backlog' gai s s' :
  pn_proactor_listen NDEBUG host port backlog' gai s = Returns s' →
  ∃ s1, listen_addresses NDEBUG host port gai (upd_l (set_backlog backlog') s) = Returns s1 ∧
        same_epoll (ls_world s1) (ls_world s') ∧
        (psockets_size (ls_l s1) ≠ 0 →
         ls_l s' = set_l_collector (pn_collector_put (l_collector (ls_l s1)) PN_LISTENER_OPEN)
                                   (ls_l s1)).
Proof.
  unfold pn_proactor_listen. intros Hf.
  apply outcome_bind_returns in Hf as (s1 & H1 & Hf).
  apply outcome_bind_returns in Hf as ([notify w] & Hwake & Hf).
  apply outcome_bind_returns in Hf as (s2 & H2 & Hf).
  apply outcome_bind_returns in Hf as (w3 & Hadd & Hf).
  exists s1. split; [done|]. cbn in Hwake, H2.
  destruct (wake_same_epoll _ _ _ _ Hwake) as [Hk1 He1].
  destruct (proactor_add_same_epoll _ _ _ Hadd) as [Hk3 He3].
  assert (Hs' : ls_l s' = ls_l s2 ∧ same_epoll w3 (ls_world s')).
  { destruct notify; [|by injection Hf as <-].
    apply outcome_bind_returns in Hf as (w4 & Hn & Hf). injection Hf as <-.
    split; [done|]. by apply wake_notify_same_epoll in Hn. }
  destruct Hs' as [Hl' [Hk' He']].
  destruct (psockets_size (ls_l s1) =? 0) eqn:Hsize.
  - apply Z.eqb_eq in Hsize. split; [|done]. unfold psocket_error in H2. cbn in H2.
    unfold listener_begin_close in H2. cbn in H2.
    apply outcome_bind_returns in H2 as (c & Hc & H2).
    destruct (closing c); cbn in H2.
    + injection H2 as <-. cbn in *. split; congruence.
    + rewrite Hsize in H2. cbn in H2. injection H2 as <-. cbn in *. split; congruence.
  - injection H2 as <-. cbn in *. split; [split; congruence|]. intros _. by rewrite Hl'.
Qed.

(** Listen, then close.  When [pn_proactor_listen] finds addresses that
    listen on descriptors that are new to the interest list, it registers
    exactly those, one socket each, in the order of the addresses; and
    [listener_begin_close] on the result does not fail: it takes every one
    of them out of the interest list again, which is then as it was before
    the listen call, invalidates their records, puts [PN_LISTENER_CLOSE]
    after the OPEN event and clears [acceptable] and [accepted].  A second
    [listener_begin_close] changes nothing. *)
Theorem listen_then_begin_close NDEBUG host port backlog' ais s s1 c :
  pn_proactor_listen NDEBUG host port backlog' (gai_ok ais) s = Returns s1 →
  w_mem (ls_world s) !! l_context (ls_l s) = Some c → closing c = false →
  0 ≤ epollfd (w_p (ls_world s)) → Z.of_nat (length ais) < 2 ^ 64 →
  listening_fds ais ≠ [] → NoDup (listening_fds ais) →
  (∀ fd, fd ∈ listening_fds ais → w_epoll (ls_world s) !! fd = None) →
  let ctx := l_context (ls_l s) in
  let fds := listening_fds ais in
  let rest := replicate (length ais - length fds) psocket_zero in
  psockets (ls_l s1) = (listening_socket ctx host port <$> fds) ++ rest ∧
  psockets_size (ls_l s1) = Z.of_nat (length fds) ∧
  registered (w_epoll (ls_world s)) fds (w_epoll (ls_world s1)) ∧
  ∃ s2, listener_begin_close s1 = Returns s2 ∧
        psockets (ls_l s2) = (closed_socket ctx host port <$> fds) ++ rest ∧
        w_epoll (ls_world s2) = w_epoll (ls_world s) ∧
        l_collector (ls_l s2) =
          pn_collector_put (l_collector (ls_l s)) PN_LISTENER_OPEN ++ [PN_LISTENER_CLOSE] ∧
        acceptable (ls_l s2) = None ∧ accepted (ls_l s2) = None ∧
        listener_begin_close s2 = Returns s2.
Proof.
  intros Hf Hc Hcl Hep Hlen Hne Hnd Hfresh ctx fds rest.
  destruct (pn_proactor_listen_sockets _ _ _ _ _ _ _ Hf) as (sA & HA & [Hk He] & Hl).
  destruct (pn_proactor_listen_returns _ _ _ _ _ _ _ Hf) as (c0 & c1 & Hc0 & Hc1 & _ & Hres).
  rewrite Hc in Hc0. injection Hc0 as <-.
  unfold listen_addresses in HA.
  apply outcome_bind_returns in HA as ([] & _ & HA). injection HA as HA.
  pose proof (listen_fold_loop ctx host port (w_epoll (ls_world s)) (length ais) ais []
                (upd_l (λ l, set_psockets_size 0
                               (set_psockets (replicate (length ais) psocket_zero) l))
                       (upd_l (set_backlog backlog') s))) as Hloop.
  rewrite HA in Hloop. cbn [app] in Hloop. fold fds in Hloop.
  destruct Hloop as [Hps Hsize Hreg Hctx]; [|done|done|cbn; lia|done|done|].
  { split; cbn; [by rewrite Nat.sub_0_r|done| |done].
    intros fd. by rewrite decide_False by apply not_elem_of_nil. }
  assert (Hnz : psockets_size (ls_l sA) ≠ 0).
  { rewrite Hsize. intros Hz. apply Hne. apply nil_length_inv. fold fds. lia. }
  specialize (Hl Hnz).
  unfold listen_result in Hres. rewrite Hl in Hres. cbn in Hres.
  destruct (psockets_size (ls_l sA) =? 0) eqn:Hz; [by apply Z.eqb_eq in Hz|].
  destruct Hres as (_ & _ & Hcl1). rewrite Hcl in Hcl1.
  fold rest in Hps.
  split; [by rewrite Hl|]. split; [by rewrite Hl|]. split; [by rewrite Hk|].
  assert (Hp : w_p (ls_world sA) = w_p (ls_world s)).
  { destruct (listen_fold_frame host port ais
                (upd_l (λ l, set_psockets_size 0
                               (set_psockets (replicate (length ais) psocket_zero) l))
                       (upd_l (set_backlog backlog') s))) as (_ & Hp & _).
    by rewrite HA in Hp. }
  assert (Hcol : l_collector (ls_l sA) = l_collector (ls_l s)).
  { destruct (listen_fold_frame host port ais
                (upd_l (λ l, set_psockets_size 0
                               (set_psockets (replicate (length ais) psocket_zero) l))
                       (upd_l (set_backlog backlog') s))) as (_ & _ & _ & _ & Hcol & _).
    by rewrite HA in Hcol. }
  assert (Hfds : Forall (λ fd, 0 ≤ fd ∧ w_epoll (ls_world s) !! fd = None) fds).
  { apply Forall_forall. intros fd Hin. split; [|by apply Hfresh].
    unfold fds, listening_fds in Hin. apply list_elem_of_fmap in Hin as (a & -> & Ha).
    apply list_elem_of_filter in Ha as [Ha _]. unfold la_listens in Ha.
    apply andb_true_iff in Ha as [Ha _]. by apply Z.leb_le in Ha. }
  clear Hf. destruct s1 as [l1 w1 e1]. cbn in Hl, Hk, He, Hc1. subst l1.
  unfold listener_begin_close, load. cbn. rewrite Hctx.
  fold ctx in Hc1 |- *. rewrite Hc1. cbn. rewrite Hcl1. cbn. rewrite Hsize, Nat2Z.id.
  match goal with |- ∃ s2, obind (listener_close_sockets _ _ ?x) _ = _ ∧ _ =>
    destruct (listener_close_sockets_loop ctx host port (w_epoll (ls_world s)) fds [] x rest)
      as (s' & Hrun & Hl' & Hw' & _)
  end; [by cbn|cbn; by rewrite Hk|cbn; by rewrite He, Hp|done|done|].
  cbn in Hrun. rewrite Hrun. cbn. eexists. split; [reflexivity|]. cbn.
  rewrite Hl', Hw'. cbn. rewrite Hcol, Hctx. fold ctx.
  split; [done|]. split; [done|]. split; [by apply pn_collector_put_after|].
  split; [done|]. split; [done|].
  rewrite list_lookup_insert_eq by (by eapply lookup_lt_Some). done.
Qed.

(** Two of three addresses listen, on descriptors 8 and 9. *)
Definition test_addresses : list listen_attempt :=
  [mk_listen_attempt 8 true 0; mk_listen_attempt (-1) false 97; mk_listen_attempt 9 true 0].

Lemma listen_then_begin_close_witness :
  ∃ s1 s2,
    pn_proactor_listen false "localhost" "5672" 16 (gai_ok test_addresses) test_listener
    = Returns s1 ∧
    sockfd <$> psockets (ls_l s1) = [8; 9; 0] ∧ psockets_size (ls_l s1) = 2 ∧
    listener_begin_close s1 = Returns s2 ∧
    w_epoll (ls_world s2) = w_epoll (ls_world test_listener) ∧
    l_collector (ls_l s2) = [PN_LISTENER_OPEN; PN_LISTENER_CLOSE].
Proof.
  destruct (pn_proactor_listen false "localhost" "5672" 16 (gai_ok test_addresses)
              test_listener) as [s1| |] eqn:Hf; [|vm_compute in Hf; discriminate..].
  destruct (listen_then_begin_close false "localhost" "5672" 16 test_addresses test_listener s1
              (pcontext_init LISTENER) Hf)
    as (Hps & Hsize & _ & s2 & Hclose & _ & Hk & Hcol & _).
  - reflexivity.
  - reflexivity.
  - simpl. lia.
  - simpl. lia.
  - discriminate.
  - refine (bool_decide_unpack _ _). vm_compute. exact I.
  - intros fd Hin. change (listening_fds test_addresses) with [8; 9] in Hin.
    apply elem_of_cons in Hin as [->|Hin]; [reflexivity|].
    apply list_elem_of_singleton in Hin as ->. reflexivity.
  - exists s1, s2. split; [done|]. split; [by rewrite Hps|]. split; [exact Hsize|].
    split; [exact Hclose|]. split; [exact Hk|]. exact Hcol.
Defined.

(** ** The events of a listener *)

(** [closing] of the listener's context, if it is in memory. *)
Definition listener_closing (s : listener_state) : option bool :=
  closing <$> (w_mem (ls_world s) !! l_context (ls_l s)).

Lemma listener_close_sockets_frame n : ∀ i s s',
  listener_close_sockets n i s = Returns s' →
  l_collector (ls_l s') = l_collector (ls_l s) ∧
  close_dispatched (ls_l s') = close_dispatched (ls_l s) ∧
  l_context (ls_l s') = l_context (ls_l s) ∧
  l_condition (ls_l s') = l_condition (ls_l s) ∧
  w_mem (ls_world s') = w_mem (ls_world s).
Proof.
  induction n as [|n IH]; intros i s s' Hf; [by injection Hf as <-|].
  cbn in Hf. apply outcome_bind_returns in Hf as (ps & _ & Hf).
  apply outcome_bind_returns in Hf as (s1 & H1 & Hf).
  apply IH in Hf as (-> & -> & -> & -> & ->).
  destruct (0 <=? sockfd ps); [|by injection H1 as <-].
  apply outcome_bind_returns in H1 as ([ee k] & _ & H1). by injection H1 as <-.
Qed.

(** [listener_begin_close] puts [PN_LISTENER_CLOSE] when the listener was
    not closing, and nothing otherwise; the listener is closing afterwards. *)
Lemma listener_begin_close_events s s' :
  listener_begin_close s = Returns s' →
  ∃ cl, listener_closing s = Some cl ∧ listener_closing s' = Some true ∧
        l_context (ls_l s') = l_context (ls_l s) ∧
        close_dispatched (ls_l s') = close_dispatched (ls_l s) ∧
        l_collector (ls_l s') =
          if cl then l_collector (ls_l s)
          else pn_collector_put (l_collector (ls_l s)) PN_LISTENER_CLOSE.
Proof.
  unfold listener_begin_close, listener_closing, load. intros Hf.
  destruct (w_mem (ls_world s) !! l_context (ls_l s)) as [c|] eqn:Hc; [|discriminate].
  cbn in Hf. exists (closing c). split; [done|].
  destruct (closing c) eqn:Hcl; cbn in Hf.
  - injection Hf as <-. rewrite Hc. cbn. by rewrite Hcl.
  - apply outcome_bind_returns in Hf as (s1 & H1 & Hf). injection Hf as <-.
    apply listener_close_sockets_frame in H1 as (Hcol & Hcd & Hctx & _ & Hmem).
    cbn in *. rewrite Hctx, Hmem, Hcol, Hcd.
    rewrite list_lookup_insert_eq by (by eapply lookup_lt_Some). done.
Qed.

Lemma psocket_error_events ps err what s s' :
  psocket_error ps err what s = Returns s' →
  ∃ cl, listener_closing s = Some cl ∧ listener_closing s' = Some true ∧
        l_context (ls_l s') = l_context (ls_l s) ∧
        close_dispatched (ls_l s') = close_dispatched (ls_l s) ∧
        l_collector (ls_l s') =
          if cl then l_collector (ls_l s)
          else pn_collector_put (l_collector (ls_l s)) PN_LISTENER_CLOSE.
Proof.
  unfold psocket_error. destruct (ps_listener ps); [|discriminate].
  intros Hf. by apply listener_begin_close_events in Hf.
Qed.

Lemma listener_closing_store s c' cl :
  listener_closing s = Some cl → closing c' = cl →
  listener_closing (set_ls_world (store (l_context (ls_l s)) c' (ls_world s)) s) = Some cl.
Proof.
  unfold listener_closing. cbn. intros Hc <-.
  destruct (w_mem (ls_world s) !! l_context (ls_l s)) as [c|] eqn:Hm; [|discriminate].
  rewrite list_lookup_insert_eq by (by eapply lookup_lt_Some). done.
Qed.

Lemma listener_closing_same s w' :
  same_closing (ls_world s) w' → listener_closing (set_ls_world w' s) = listener_closing s.
Proof. intros (_ & Hcl & _). unfold listener_closing. cbn. apply Hcl. Qed.

(** What one call of [listener_process] does to the events: nothing, or
    an ACCEPT event for a readable socket of a listener that is not
    closing, or the CLOSE event when an error closes it. *)
Definition listener_process_effect (i : nat) (events : Z) (s s' : listener_state)
    (cl cl' : bool) : Prop :=
  (cl' = cl ∧ l_collector (ls_l s') = l_collector (ls_l s)
   ∧ acceptable (ls_l s') = acceptable (ls_l s)) ∨
  (cl = false ∧ cl' = false ∧ Z.land events EPOLLRDHUP = 0 ∧ Z.land events EPOLLIN ≠ 0 ∧
   l_collector (ls_l s') = pn_collector_put (l_collector (ls_l s)) PN_LISTENER_ACCEPT ∧
   acceptable (ls_l s') = Some i) ∨
  (cl = false ∧ cl' = true ∧ Z.land events EPOLLRDHUP ≠ 0 ∧
   l_collector (ls_l s') = pn_collector_put (l_collector (ls_l s)) PN_LISTENER_CLOSE ∧
   acceptable (ls_l s') = None).

Lemma listener_begin_close_acceptable s s' :
  listener_begin_close s = Returns s' →
  acceptable (ls_l s') = if default true (listener_closing s) then acceptable (ls_l s) else None.
Proof.
  unfold listener_begin_close, listener_closing, load. intros Hf.
  destruct (w_mem (ls_world s) !! l_context (ls_l s)) as [c|] eqn:Hc; [|discriminate].
  cbn in Hf |- *. destruct (closing c); cbn in Hf; [by injection Hf as <-|].
  apply outcome_bind_returns in Hf as (s1 & H1 & Hf). by injection Hf as <-.
Qed.

Lemma listener_process_events NDEBUG i events s r s' :
  listener_process NDEBUG i events s = Returns (r, s') →
  ∃ cl cl', listener_closing s = Some cl ∧ listener_closing s' = Some cl' ∧
    l_context (ls_l s') = l_context (ls_l s) ∧
    close_dispatched (ls_l s') = close_dispatched (ls_l s) ∧
    listener_process_effect i events s s' cl cl'.
Proof.
  unfold listener_process. intros Hf.
  apply outcome_bind_returns in Hf as (s1 & H1 & Hf).
  assert (Hs1 : ∃ cl cl', listener_closing s = Some cl ∧ listener_closing s1 = Some cl' ∧
            l_context (ls_l s1) = l_context (ls_l s) ∧
            close_dispatched (ls_l s1) = close_dispatched (ls_l s) ∧
            listener_process_effect i events s s1 cl cl').
  { destruct (negb (events =? 0)).
    - destruct (negb (Z.land events EPOLLRDHUP =? 0)) eqn:Hrd.
      + apply outcome_bind_returns in H1 as (ps & _ & H1).
        pose proof (listener_begin_close_acceptable (upd_l (set_l_condition
          (Some (mk_condition "listener epoll" (host ps) (port ps) (ls_errno s))))
          (upd_l (set_l_armed false) s)) s1) as Hacc.
        unfold psocket_error in H1, Hacc. cbn in H1.
        destruct (ps_listener ps); [|discriminate].
        specialize (Hacc H1).
        apply listener_begin_close_events in H1 as (cl & Hcl & Hcl' & Hctx & Hcd & Hcol).
        cbn in *. change (listener_closing (upd_l _ (upd_l _ s))) with (listener_closing s) in *.
        rewrite Hcl in Hacc. cbn in Hacc.
        exists cl, true. split; [done|]. split; [done|]. split; [done|]. split; [done|].
        destruct cl; [by left|]. right. right.
        apply negb_true_iff, Z.eqb_neq in Hrd. done.
      + apply negb_false_iff, Z.eqb_eq in Hrd.
        apply outcome_bind_returns in H1 as (c & Hc & H1). unfold load in Hc. cbn in Hc.
        destruct (w_mem (ls_world s) !! l_context (ls_l s)) as [c0|] eqn:Hm; [|discriminate].
        injection Hc as ->.
        assert (Hcl : listener_closing s = Some (closing c))
          by (unfold listener_closing; by rewrite Hm).
        destruct (negb (closing c) && negb (Z.land events EPOLLIN =? 0)) eqn:Hacc;
          injection H1 as <-.
        * apply andb_true_iff in Hacc as [Hncl Hin].
          apply negb_true_iff in Hncl. apply negb_true_iff, Z.eqb_neq in Hin.
          exists false, false. rewrite <- Hncl. split; [done|]. split; [done|].
          split; [done|]. split; [done|]. right. left. by rewrite Hncl.
        * exists (closing c), (closing c). repeat (split; [done|]). by left.
    - apply outcome_bind_returns in H1 as (w & Hwd & H1). injection H1 as <-.
      unfold wake_done in Hwd. apply outcome_bind_returns in Hwd as (c & Hc & Hwd).
      apply outcome_bind_returns in Hwd as ([] & _ & Hwd).
      apply outcome_bind_returns in Hwd as (n & _ & Hwd). injection Hwd as <-.
      unfold load in Hc.
      destruct (w_mem (ls_world s) !! l_context (ls_l s)) as [c0|] eqn:Hm; [|discriminate].
      injection Hc as ->.
      assert (Hcl : listener_closing s = Some (closing c))
        by (unfold listener_closing; by rewrite Hm).
      exists (closing c), (closing c). split; [done|].
      split; [by apply (listener_closing_store s)|]. repeat (split; [done|]). by left. }
  destruct Hs1 as (cl & cl' & Hcl & Hcl' & Hctx & Hcd & Heff).
  exists cl, cl'. split; [done|].
  apply outcome_bind_returns in Hf as (c & Hc & Hf).
  assert (Hfin : listener_closing s' = Some cl' ∧ ls_l s' = ls_l s1).
  { destruct (negb (working c)); [|by injection Hf as <- <-].
    destruct (listener_has_event (ls_l s1)); injection Hf as <- <-; [|done].
    split; [|done]. rewrite <- Hctx. apply (listener_closing_store s1); [done|].
    unfold load in Hc. unfold listener_closing in Hcl'. rewrite Hctx in Hcl'.
    destruct (w_mem (ls_world s1) !! l_context (ls_l s)) as [c0|]; [|discriminate].
    injection Hc as ->. by injection Hcl' as <-. }
  destruct Hfin as [Hfin Hl]. split; [done|]. rewrite Hl. split; [done|]. split; [done|].
  unfold listener_process_effect in *. by rewrite Hl.
Qed.

Lemma proactor_remove_kept ctx w w' :
  proactor_remove ctx w = Returns (false, w') → same_closing w w'.
Proof.
  unfold proactor_remove, load. intros Hf.
  destruct (w_mem w !! ctx) as [c|] eqn:Hc; [|discriminate]. cbn in Hf.
  apply outcome_bind_returns in Hf as ([[notify can_free] w1] & H1 & Hf).
  apply outcome_bind_returns in Hf as (w2 & H2 & Hf). injection Hf as -> <-.
  destruct (disconnecting c).
  - apply outcome_bind_returns in H1 as (n & _ & H1).
    destruct (n =? 0).
    + destruct (_ && _).
      * apply outcome_bind_returns in H1 as ([? ?] & _ & H1). discriminate.
      * discriminate.
    + injection H1 as <- <-. injection H2 as <-. by eapply same_closing_store.
  - apply outcome_bind_returns in H1 as (w3 & _ & H1).
    apply outcome_bind_returns in H1 as (c3 & _ & H1).
    apply outcome_bind_returns in H1 as (w4 & _ & H1).
    destruct (_ && _).
    + apply outcome_bind_returns in H1 as ([? ?] & _ & H1). discriminate.
    + discriminate.
Qed.

Lemma wake_then_notify_closing ctx s s' (r : bool) :
  ('(notify, w) ← wake ctx (ls_world s);
   let s := set_ls_world w s in
   if notify then w ← wake_notify (ls_world s); Returns (r, set_ls_world w s)
   else Returns (r, s)) = Returns (r, s') →
  ls_l s' = ls_l s ∧ listener_closing s' = listener_closing s.
Proof.
  intros Hf. apply outcome_bind_returns in Hf as ([notify w] & Hwake & Hf).
  apply wake_same_closing in Hwake.
  destruct notify.
  - apply outcome_bind_returns in Hf as (w1 & Hn & Hf). injection Hf as <-.
    split; [done|]. apply wake_notify_mem in Hn. cbn in Hn.
    unfold listener_closing. cbn. rewrite Hn. by destruct Hwake as (_ & -> & _).
  - injection Hf as <-. split; [done|]. by apply listener_closing_same.
Qed.

(** [listener_done] puts and takes no event; it frees the listener only
    if the CLOSE event has been dispatched, the listener is closing and no
    wake is outstanding. *)
Lemma listener_done_events s freed s' :
  listener_done s = Returns (freed, s') →
  l_collector (ls_l s') = l_collector (ls_l s) ∧
  close_dispatched (ls_l s') = close_dispatched (ls_l s) ∧
  l_context (ls_l s') = l_context (ls_l s) ∧
  if freed
  then close_dispatched (ls_l s) = true ∧ listener_closing s = Some true ∧
       wake_ops <$> (w_mem (ls_world s) !! l_context (ls_l s)) = Some 0
  else listener_closing s' = listener_closing s.
Proof.
  unfold listener_done, load. intros Hf.
  destruct (w_mem (ls_world s) !! l_context (ls_l s)) as [c|] eqn:Hc; [|discriminate].
  cbn in Hf.
  assert (Hcl : listener_closing s = Some (closing c))
    by (unfold listener_closing; by rewrite Hc).
  pose proof (listener_closing_store s (set_working false c) (closing c) Hcl eq_refl) as Hcl0.
  set (s0 := set_ls_world (store (l_context (ls_l s)) (set_working false c) (ls_world s)) s)
    in *.
  destruct (close_dispatched (ls_l s)) eqn:Hcd.
  - apply outcome_bind_returns in Hf as (can_free & Hcan & Hf).
    unfold listener_can_free, load in Hcan. cbn in Hcan.
    rewrite list_lookup_insert_eq in Hcan by (by eapply lookup_lt_Some). cbn in Hcan.
    injection Hcan as <-. rewrite Hcd in Hf.
    destruct (closing c) eqn:Hclc; cbn in Hf; [|injection Hf as <- <-; by rewrite Hcl0].
    destruct (wake_ops c =? 0) eqn:Hops; cbn in Hf; [|injection Hf as <- <-; by rewrite Hcl0].
    unfold pn_listener_free in Hf.
    apply outcome_bind_returns in Hf as ([can_free w] & Hrm & Hf). injection Hf as <- <-.
    cbn. split; [done|]. split; [done|]. split; [done|].
    destruct can_free.
    + apply Z.eqb_eq in Hops. by rewrite Hops.
    + apply proactor_remove_kept in Hrm.
      change (listener_closing (set_ls_world w s0) = listener_closing s).
      rewrite (listener_closing_same s0 w Hrm). by rewrite Hcl0.
  - destruct (listener_has_event (ls_l s)).
    + destruct freed.
      * exfalso. apply outcome_bind_returns in Hf as ([notify w] & _ & Hf).
        destruct notify; [|discriminate].
        apply outcome_bind_returns in Hf as (w1 & _ & Hf). discriminate.
      * apply (wake_then_notify_closing _ s0) in Hf as [Hl Hcl']. rewrite Hl, Hcl'.
        by rewrite Hcl0.
    + apply outcome_bind_returns in Hf as (c1 & _ & Hf).
      destruct (accepted (ls_l s)) as [a|]; [|injection Hf as <- <-; by rewrite Hcl0].
      destruct (_ && _); [|injection Hf as <- <-; by rewrite Hcl0].
      apply outcome_bind_returns in Hf as (ps & _ & Hf).
      apply outcome_bind_returns in Hf as (k & _ & Hf). injection Hf as <- <-.
      cbn. split; [done|]. split; [done|]. split; [done|].
      change (listener_closing s0 = listener_closing s). by rewrite Hcl0.
Qed.

Lemma pn_listener_close_events s s' :
  pn_listener_close s = Returns s' →
  ∃ cl, listener_closing s = Some cl ∧ listener_closing s' = Some true ∧
        l_context (ls_l s') = l_context (ls_l s) ∧
        close_dispatched (ls_l s') = close_dispatched (ls_l s) ∧
        l_collector (ls_l s') =
          if cl then l_collector (ls_l s)
          else pn_collector_put (l_collector (ls_l s)) PN_LISTENER_CLOSE.
Proof.
  unfold pn_listener_close, load. intros Hf.
  destruct (w_mem (ls_world s) !! l_context (ls_l s)) as [c|] eqn:Hc; [|discriminate].
  cbn in Hf.
  assert (Hcl : listener_closing s = Some (closing c))
    by (unfold listener_closing; by rewrite Hc).
  destruct (closing c) eqn:Hclc; cbn in Hf.
  - injection Hf as <-. exists true. by rewrite Hcl.
  - apply outcome_bind_returns in Hf as (s1 & H1 & Hf).
    apply listener_begin_close_events in H1 as (cl & Hcl1 & Hcl1' & Hctx & Hcd & Hcol).
    rewrite Hcl in Hcl1. injection Hcl1 as <-.
    assert (Hs' : ls_l s' = ls_l s1 ∧ listener_closing s' = listener_closing s1).
    { apply outcome_bind_returns in Hf as ([notify w] & Hwake & Hf).
      rewrite <- Hctx in Hwake. apply wake_same_closing in Hwake.
      destruct notify.
      - apply outcome_bind_returns in Hf as (w1 & Hn & Hf). injection Hf as <-.
        split; [done|]. apply wake_notify_mem in Hn. cbn in Hn.
        unfold listener_closing. cbn. rewrite Hn. by destruct Hwake as (_ & -> & _).
      - injection Hf as <-. split; [done|]. by apply listener_closing_same. }
    destruct Hs' as [Hl Hcl']. exists false. rewrite Hcl', Hl. by rewrite Hcl.
Qed.

(** *** A listener in use *)

(** The listener, the events that [listener_batch_next] has handed to the
    application, and whether the listener has been freed. *)
Record listener_run_t : Type := mk_listener_run {
  lr_state : listener_state;
  lr_delivered : list pn_event_type_t;
  lr_freed : bool
}.

(** What happens to a listener that listens: an epoll event for socket [i]
    (an inbound wake when [events] is 0), the application takes an event
    from the batch, finishes the batch, closes the listener; some system
    call changes [errno]. *)
Inductive listener_op : Type :=
| LProcess (i : nat) (events : Z)
| LBatchNext
| LDone
| LClose
| LErrno (e : Z).

Section ListenerMachine.
Variable NDEBUG : bool.

Definition listener_step (op : listener_op) (r : listener_run_t) : outcome listener_run_t :=
  if lr_freed r then Aborts Undefined       (* use after free *)
  else
    match op with
    | LProcess i events =>
        '(_, s) ← listener_process NDEBUG i events (lr_state r);
        Returns (mk_listener_run s (lr_delivered r) false)
    | LBatchNext =>
        let '(e, s) := listener_batch_next (lr_state r) in
        Returns (mk_listener_run s (lr_delivered r ++ option_list e) false)
    | LDone =>
        '(freed, s) ← listener_done (lr_state r);
        Returns (mk_listener_run s (lr_delivered r) freed)
    | LClose =>
        s ← pn_listener_close (lr_state r);
        Returns (mk_listener_run s (lr_delivered r) false)
    | LErrno e =>
        Returns (mk_listener_run (set_ls_errno e (lr_state r)) (lr_delivered r) false)
    end.

Fixpoint listener_run (ops : list listener_op) (r : listener_run_t) : outcome listener_run_t :=
  match ops with
  | [] => Returns r
  | op :: ops => r ← listener_step op r; listener_run ops r
  end.
End ListenerMachine.

(** The events of the listener in order: those handed out, then those
    waiting in the collector. *)
Definition listener_trace (r : listener_run_t) : list pn_event_type_t :=
  lr_delivered r ++ l_collector (ls_l (lr_state r)).

(** [PN_LISTENER_CLOSE] is the last event of [trace], and is there once. *)
Definition close_last (trace : list pn_event_type_t) : Prop :=
  ∃ pre, trace = pre ++ [PN_LISTENER_CLOSE] ∧ PN_LISTENER_CLOSE ∉ pre.

Record listener_inv (r : listener_run_t) : Prop := mk_listener_inv {
  li_closing : lr_freed r = false →
               ∃ cl, listener_closing (lr_state r) = Some cl ∧
                     if cl then close_last (listener_trace r)
                     else PN_LISTENER_CLOSE ∉ listener_trace r;
  li_dispatched : close_dispatched (ls_l (lr_state r)) = true →
                  PN_LISTENER_CLOSE ∈ lr_delivered r;
  li_freed : lr_freed r = true →
             close_dispatched (ls_l (lr_state r)) = true ∧ close_last (listener_trace r)
}.

Lemma elem_of_pn_collector_put x c t : x ∈ pn_collector_put c t → x ∈ c ∨ x = t.
Proof.
  unfold pn_collector_put. destruct (last c) as [t'|].
  - destruct (decide (t' = t)); [by left|].
    intros [?|?%list_elem_of_singleton]%elem_of_app; auto.
  - intros [?|?%list_elem_of_singleton]%elem_of_app; auto.
Qed.

Lemma pn_collector_put_new c t : t ∉ c → pn_collector_put c t = c ++ [t].
Proof.
  intros Hnin. unfold pn_collector_put. destruct (last c) as [t'|] eqn:Hl; [|done].
  destruct (decide (t' = t)) as [->|]; [|done].
  destruct Hnin. apply last_Some in Hl as [l' ->]. apply elem_of_app. right. by left.
Qed.

Lemma listener_batch_next_events s e s' :
  listener_batch_next s = (e, s') →
  ls_world s' = ls_world s ∧ l_context (ls_l s') = l_context (ls_l s) ∧
  option_list e ++ l_collector (ls_l s') = l_collector (ls_l s) ∧
  close_dispatched (ls_l s') =
    close_dispatched (ls_l s) || bool_decide (e = Some PN_LISTENER_CLOSE).
Proof.
  unfold listener_batch_next, pn_collector_next.
  destruct (l_collector (ls_l s)) as [|x q] eqn:Hcol.
  - intros [= <- <-]. cbn. by rewrite orb_false_r.
  - destruct x; intros [= <- <-]; cbn; repeat split; try done;
      case_bool_decide; try done; by rewrite ?orb_false_r, ?orb_true_r.
Qed.

Section ListenerInvariant.
Variable NDEBUG : bool.

Lemma listener_step_inv op r r' :
  listener_inv r → listener_step NDEBUG op r = Returns r' → listener_inv r'.
Proof.
  intros [Hcl Hcd Hfr] Hstep. unfold listener_step in Hstep.
  destruct (lr_freed r) eqn:Hfreed; [discriminate|].
  destruct (Hcl eq_refl) as (cl & Hcl0 & Htrace). clear Hcl Hfr.
  destruct r as [s delivered freed]. cbn in *. subst freed.
  unfold listener_trace in *. cbn in *.
  destruct op as [i events| | | |e].
  - apply outcome_bind_returns in Hstep as ([b s'] & Hp & Hstep). injection Hstep as <-.
    apply listener_process_events in Hp as (cl1 & cl' & Hcl1 & Hcl' & Hctx & Hcd' & Heff).
    rewrite Hcl0 in Hcl1. injection Hcl1 as <-.
    split; cbn; [intros _|by rewrite Hcd'|discriminate].
    exists cl'. split; [done|]. unfold listener_trace. cbn.
    destruct Heff as [(-> & -> & _)|[(-> & -> & _ & _ & -> & _)|(-> & -> & _ & -> & _)]].
    + done.
    + intros [Hin|Hin]%elem_of_app; [apply Htrace, elem_of_app; by left|].
      apply elem_of_pn_collector_put in Hin as [Hin|Hin]; [|done].
      apply Htrace, elem_of_app. by right.
    + exists (delivered ++ l_collector (ls_l s)). split; [|done].
      rewrite pn_collector_put_new; [by rewrite (assoc_L (++))|].
      intros Hin. apply Htrace, elem_of_app. by right.
  - destruct (listener_batch_next s) as [e s'] eqn:Hn. injection Hstep as <-.
    apply listener_batch_next_events in Hn as (Hw & Hctx & Hcol & Hcd').
    assert (Htr : (delivered ++ option_list e) ++ l_collector (ls_l s')
                  = delivered ++ l_collector (ls_l s))
      by (by rewrite <- (assoc_L (++)), Hcol).
    split; cbn; [intros _| |discriminate].
    + exists cl. unfold listener_closing, listener_trace in *. cbn.
      rewrite Hw, Hctx, Htr. done.
    + rewrite Hcd'. intros [Hd|He]%orb_true_iff.
      * apply elem_of_app. left. by apply Hcd.
      * apply bool_decide_eq_true in He as ->. apply elem_of_app. right. by left.
  - apply outcome_bind_returns in Hstep as ([freed s'] & Hd & Hstep). injection Hstep as <-.
    apply listener_done_events in Hd as (Hcol & Hcd' & Hctx & Hfreed).
    split; cbn; unfold listener_trace; cbn; rewrite ?Hcol, ?Hcd'; [| done |].
    + intros ->. exists cl. by rewrite Hfreed.
    + intros ->. destruct Hfreed as (Hd & Hclosing & _). split; [done|].
      rewrite Hcl0 in Hclosing. by injection Hclosing as ->.
  - apply outcome_bind_returns in Hstep as (s' & Hc & Hstep). injection Hstep as <-.
    apply pn_listener_close_events in Hc as (cl1 & Hcl1 & Hcl' & Hctx & Hcd' & Hcol).
    rewrite Hcl0 in Hcl1. injection Hcl1 as <-.
    split; cbn; [intros _|by rewrite Hcd'|discriminate].
    exists true. split; [done|]. unfold listener_trace. cbn. rewrite Hcol.
    destruct cl; [done|].
    exists (delivered ++ l_collector (ls_l s)). split; [|done].
    rewrite pn_collector_put_new; [by rewrite (assoc_L (++))|].
    intros Hin. apply Htrace, elem_of_app. by right.
  - injection Hstep as <-. split; cbn; [intros _|done|discriminate].
    by exists cl.
Qed.

Lemma listener_run_inv ops : ∀ r r',
  listener_inv r → listener_run NDEBUG ops r = Returns r' → listener_inv r'.
Proof.
  induction ops as [|op ops IH]; intros r r' Hinv Hrun; [by injection Hrun as <-|].
  cbn in Hrun. apply outcome_bind_returns in Hrun as (r1 & H1 & Hrun).
  eapply IH; [|exact Hrun]. by eapply listener_step_inv.
Qed.
End ListenerInvariant.

Lemma close_last_unique trace pre post :
  close_last trace → trace = pre ++ PN_LISTENER_CLOSE :: post →
  post = [] ∧ PN_LISTENER_CLOSE ∉ pre.
Proof.
  intros (pre' & -> & Hnin) Heq.
  destruct post as [|x post _] using rev_ind.
  - apply app_inj_tail in Heq as [-> _]. done.
  - exfalso. rewrite app_comm_cons, (assoc_L (++)) in Heq.
    apply app_inj_tail in Heq as [-> _]. apply Hnin, elem_of_app. right. by left.
Qed.

(** The CLOSE event is the last event of a listener.  Whatever happens to
    a listener that is not closing (epoll events and wakes, the application
    taking events and finishing batches, [pn_listener_close], in any order):
    [PN_LISTENER_CLOSE] is put at most once and nothing is put after it; it
    has been put exactly when the listener is closing; and when the
    listener is freed, the application has been handed the CLOSE event as
    the last event and the collector is empty. *)
Theorem listener_close_is_last NDEBUG ops s0 r :
  listener_closing s0 = Some false →
  close_dispatched (ls_l s0) = false →
  PN_LISTENER_CLOSE ∉ l_collector (ls_l s0) →
  listener_run NDEBUG ops (mk_listener_run s0 [] false) = Returns r →
  (∀ pre post, listener_trace r = pre ++ PN_LISTENER_CLOSE :: post →
               post = [] ∧ PN_LISTENER_CLOSE ∉ pre) ∧
  (lr_freed r = false →
   (listener_closing (lr_state r) = Some true ↔ PN_LISTENER_CLOSE ∈ listener_trace r)) ∧
  (lr_freed r = true →
   ∃ pre, lr_delivered r = pre ++ [PN_LISTENER_CLOSE] ∧ (PN_LISTENER_CLOSE ∉ pre) ∧
          l_collector (ls_l (lr_state r)) = []).
Proof.
  intros Hcl0 Hcd0 Hcol0 Hrun.
  assert (Hinv0 : listener_inv (mk_listener_run s0 [] false)).
  { split; cbn; [intros _|by rewrite Hcd0|discriminate]. by exists false. }
  destruct (listener_run_inv NDEBUG ops _ _ Hinv0 Hrun) as [Hcl Hcd Hfr].
  assert (Hshape : PN_LISTENER_CLOSE ∉ listener_trace r ∨ close_last (listener_trace r)).
  { destruct (lr_freed r) eqn:Hfreed; [right; by apply Hfr|].
    destruct (Hcl eq_refl) as ([] & _ & Ht); auto. }
  split; [|split].
  - intros pre post Heq. destruct Hshape as [Hnin|Hlast].
    + destruct Hnin. rewrite Heq. apply elem_of_app. right. by left.
    + by eapply close_last_unique.
  - intros Hfreed. destruct (Hcl Hfreed) as (cl & Hcl' & Ht). rewrite Hcl'. split.
    + intros [= ->]. destruct Ht as (pre & -> & _). apply elem_of_app. right. by left.
    + intros Hin. by destruct cl.
  - intros Hfreed. destruct (Hfr Hfreed) as [Hd (pre & Heq & Hnin)].
    specialize (Hcd Hd). unfold listener_trace in Heq.
    destruct (l_collector (ls_l (lr_state r))) as [|x col _] using rev_ind.
    + rewrite app_nil_r in Heq. by exists pre.
    + exfalso. rewrite (assoc_L (++)) in Heq. apply app_inj_tail in Heq as [<- _].
      apply Hnin, elem_of_app. by left.
Qed.

(** A listener is opened, closed by the application while it works on the
    batch, and freed when the batch is done. *)
Definition test_listener_ops : list listener_op :=
  [LProcess 0 0; LBatchNext; LClose; LBatchNext; LBatchNext; LDone].

Lemma listener_close_is_last_witness :
  ∃ s1 r,
    pn_proactor_listen false "localhost" "5672" 16 (gai_ok test_addresses) test_listener
    = Returns s1 ∧
    listener_run false test_listener_ops (mk_listener_run s1 [] false) = Returns r ∧
    lr_freed r = true ∧
    lr_delivered r = [PN_LISTENER_OPEN; PN_LISTENER_CLOSE].
Proof.
  destruct (pn_proactor_listen false "localhost" "5672" 16 (gai_ok test_addresses)
              test_listener) as [s1| |] eqn:Hf; [|vm_compute in Hf; discriminate..].
  destruct (listener_run false test_listener_ops (mk_listener_run s1 [] false))
    as [r| |] eqn:Hrun.
  2,3: vm_compute in Hf; injection Hf as <-; vm_compute in Hrun; discriminate.
  assert (Hfreed : lr_freed r = true ∧ lr_delivered r = [PN_LISTENER_OPEN; PN_LISTENER_CLOSE]).
  { vm_compute in Hf. injection Hf as <-. vm_compute in Hrun. injection Hrun as <-. done. }
  exists s1, r. split; [done|]. split; [done|]. split; [by destruct Hfreed|].
  destruct (listener_close_is_last false test_listener_ops s1 r) as (_ & _ & Hlast).
  - vm_compute in Hf. injection Hf as <-. reflexivity.
  - vm_compute in Hf. injection Hf as <-. reflexivity.
  - vm_compute in Hf. injection Hf as <-. vm_compute.
    intros Hin. apply list_elem_of_singleton in Hin. discriminate.
  - exact Hrun.
  - by destruct Hfreed.
Defined.

(** The assertion of [listener_forced_shutdown] cannot fail: after
    [listener_begin_close] and the zeroing, [listener_can_free] holds
    whatever the state of the listener was, so debug and release builds do
    the same; and what is left is [pn_listener_free] of a listener whose
    context is closing, with [close_dispatched] set and no wake owed. *)
Theorem listener_forced_shutdown_assertion (s : listener_state) :
  listener_forced_shutdown false s = listener_forced_shutdown true s ∧
  ∀ NDEBUG freed s', listener_forced_shutdown NDEBUG s = Returns (freed, s') →
    ∃ s1 c w,
      listener_begin_close s = Returns s1 ∧
      w_mem (ls_world s1) !! l_context (ls_l s) = Some c ∧ closing c = true ∧
      proactor_remove (l_context (ls_l s))
        (store (l_context (ls_l s)) (set_wake_ops 0 c) (ls_world s1)) = Returns (freed, w) ∧
      s' = set_ls_world w (upd_l (set_close_dispatched true) s1).
Proof.
  assert (Hcan : ∀ s1, listener_begin_close s = Returns s1 →
            ∃ c, w_mem (ls_world s1) !! l_context (ls_l s) = Some c ∧ closing c = true ∧
                 listener_can_free
                   (upd_l (set_close_dispatched true)
                      (set_ls_world (store (l_context (ls_l s)) (set_wake_ops 0 c)
                                           (ls_world s1)) s1)) = Returns true).
  { intros s1 H1.
    apply listener_begin_close_events in H1 as (cl & _ & Hcl1 & Hctx & _).
    unfold listener_closing in Hcl1. rewrite Hctx in Hcl1.
    destruct (w_mem (ls_world s1) !! l_context (ls_l s)) as [c|] eqn:Hc; [|discriminate].
    injection Hcl1 as Hcl1. exists c. split; [done|]. split; [done|].
    unfold listener_can_free, load. cbn. rewrite Hctx.
    rewrite list_lookup_insert_eq by (by eapply lookup_lt_Some). cbn. by rewrite Hcl1. }
  split.
  - unfold listener_forced_shutdown.
    destruct (listener_begin_close s) as [s1| |] eqn:H1; [|done..]. cbn.
    destruct (Hcan s1 eq_refl) as (c & Hc & _ & Hfree).
    unfold load. rewrite Hc. cbn. unfold obind at 1 3. by rewrite Hfree.
  - intros NDEBUG freed s' Hf. unfold listener_forced_shutdown in Hf.
    apply outcome_bind_returns in Hf as (s1 & H1 & Hf).
    destruct (Hcan s1 H1) as (c & Hc & Hcl & Hfree).
    unfold load in Hf. rewrite Hc in Hf. cbn in Hf. unfold obind at 1 in Hf.
    rewrite Hfree in Hf. apply outcome_bind_returns in Hf as ([] & _ & Hf).
    unfold pn_listener_free in Hf.
    apply outcome_bind_returns in Hf as ([can_free w] & Hrm & Hf). injection Hf as <- <-.
    cbn in Hrm. pose proof (listener_begin_close_events _ _ H1) as (_ & _ & _ & Hctx & _).
    rewrite Hctx in Hrm. exists s1, c, w. split; [done|]. split; [done|]. split; [done|].
    split; [exact Hrm|by destruct s1].
Qed.

(** ** The proactor's list of contexts *)

(** [q] is the list of contexts from [cur] on, along [next]; [pr] is what
    [prev] of its first element points to. *)
Inductive ctx_list (mem : list pcontext_t) : option nat → option nat → list nat → Prop :=
| ctx_list_nil pr : ctx_list mem pr None []
| ctx_list_cons pr a c q :
    mem !! a = Some c → prev c = pr → ctx_list mem (Some a) (next c) q →
    ctx_list mem pr (Some a) (a :: q).

(** The contexts in use are [q], first the one added last. *)
Definition contexts_are (w : world) (q : list nat) : Prop :=
  ctx_list (w_mem w) None (contexts (w_p w)) q ∧ NoDup q.

Lemma ctx_list_store_notin mem pr cur q a x :
  ctx_list mem pr cur q → a ∉ q → ctx_list (<[a := x]> mem) pr cur q.
Proof.
  induction 1 as [|pr b c q Hb Hpr Hq IH]; intros Hnin; [constructor|].
  apply not_elem_of_cons in Hnin as [Hne Hnin].
  econstructor; [by rewrite list_lookup_insert_ne|done|by apply IH].
Qed.

(** Redirecting [prev] of the first element. *)
Lemma ctx_list_set_prev mem pr pr' cur q :
  ctx_list mem pr cur q → NoDup q →
  ctx_list (match cur with
            | Some h => match mem !! h with
                        | Some ch => <[h := set_prev pr' ch]> mem
                        | None => mem
                        end
            | None => mem
            end) pr' cur q.
Proof.
  intros Hq Hnd. destruct Hq as [|pr b c q Hb Hpr Hq]; [constructor|].
  rewrite Hb. apply NoDup_cons in Hnd as [Hnin _].
  econstructor.
  - apply list_lookup_insert_eq. by eapply lookup_lt_Some.
  - done.
  - cbn. by apply ctx_list_store_notin.
Qed.

Lemma ctx_list_cur mem pr cur a q :
  ctx_list mem pr cur (a :: q) → cur = Some a.
Proof. by inversion 1. Qed.

Lemma ctx_list_empty mem pr cur : ctx_list mem pr cur [] → cur = None.
Proof. by inversion 1. Qed.

Lemma ctx_list_none mem pr q : ctx_list mem pr None q → q = [].
Proof. by inversion 1. Qed.

(** The element [a] of the list: its [prev] is the element before it. *)
Lemma ctx_list_split mem a q2 : ∀ q1 pr cur,
  ctx_list mem pr cur (q1 ++ a :: q2) →
  ∃ c, mem !! a = Some c ∧ prev c = from_option Some pr (last q1) ∧
       ctx_list mem (Some a) (next c) q2.
Proof.
  induction q1 as [|b q1 IH]; intros pr cur Hq; cbn in Hq.
  - inversion Hq; subst. by eexists.
  - inversion Hq as [|? ? cb ? Hb Hpr Htail]; subst.
    destruct (IH _ _ Htail) as (c & Hc & Hprev & Hq2). exists c. split; [done|].
    split; [|done]. rewrite Hprev. destruct q1 as [|b' q1]; [done|].
    rewrite last_cons_cons.
    by destruct (proj2 (last_is_Some (b' :: q1)) ltac:(done)) as [x ->].
Qed.

(** [proactor_add] of a new context (its links are NULL, as
    [pcontext_init] leaves them) puts it in front of the list of contexts
    and links it both ways; the other contexts stay in their order. *)
Theorem proactor_add_prepends ctx w q c :
  contexts_are w q → ctx ∉ q →
  w_mem w !! ctx = Some c → next c = None → prev c = None →
  ∃ w', proactor_add ctx w = Returns w' ∧ contexts_are w' (ctx :: q) ∧
        length (w_mem w') = length (w_mem w) ∧ w_epoll w' = w_epoll w.
Proof.
  intros [Hq Hnd] Hnin Hc Hnext Hprev. unfold proactor_add, load.
  destruct w as [mem p k efd tfd]. cbn in *.
  inversion Hq as [pr Hpr Hcur Hnil|pr h ch q' Hh Hpr Hq' Hpr' Hcur Hcons].
  - subst. eexists. split; [reflexivity|]. cbn. split; [|done]. split.
    + cbn. econstructor; [done..|]. rewrite Hnext. constructor.
    + apply NoDup_cons. split; [done|constructor].
  - subst q pr. apply not_elem_of_cons in Hnin as [Hne Hnin].
    apply NoDup_cons in Hnd as [Hhq Hnd].
    rewrite Hh. cbn. rewrite list_lookup_insert_ne by done. rewrite Hc. cbn.
    eexists. split; [reflexivity|]. cbn. split; [|by rewrite !length_insert]. split.
    + cbn. econstructor.
      * apply list_lookup_insert_eq. rewrite length_insert. by eapply lookup_lt_Some.
      * done.
      * cbn. econstructor.
        -- rewrite list_lookup_insert_ne by done.
           apply list_lookup_insert_eq. by eapply lookup_lt_Some.
        -- done.
        -- cbn. apply ctx_list_store_notin; [|done]. by apply ctx_list_store_notin.
    + apply NoDup_cons. split; [|by apply NoDup_cons].
      by apply not_elem_of_cons.
Qed.

(** Unlinking an element that is not the first: the two stores of
    [proactor_remove]. *)
Lemma ctx_list_unlink mem a c q2 : ∀ q1 pr0 cur,
  ctx_list mem pr0 cur (q1 ++ a :: q2) → NoDup (q1 ++ a :: q2) →
  mem !! a = Some c → q1 ≠ [] →
  ∃ pr cp, prev c = Some pr ∧ mem !! pr = Some cp ∧ pr ∈ q1 ∧
    match next c with
    | Some nx =>
        ∃ cn, <[pr := set_next (next c) cp]> mem !! nx = Some cn ∧
              ctx_list (<[nx := set_prev (Some pr) cn]> (<[pr := set_next (next c) cp]> mem))
                       pr0 cur (q1 ++ q2)
    | None => ctx_list (<[pr := set_next (next c) cp]> mem) pr0 cur (q1 ++ q2)
    end.
Proof.
  induction q1 as [|x q1 IH]; intros pr0 cur Hq Hnd Ha Hne; [done|].
  cbn in Hq, Hnd. apply NoDup_cons in Hnd as [Hx Hnd].
  inversion Hq as [|? ? cx ? Hcx Hprx Htail]; subst.
  destruct q1 as [|y q1].
  - cbn in *. inversion Htail as [|? ? c' ? Ha' Hpra Hq2 Heq1 Heq2]; subst.
    rewrite Ha in Ha'. injection Ha' as <-.
    apply not_elem_of_cons in Hx as [Hxa Hx]. apply NoDup_cons in Hnd as [Haq Hnd].
    exists x, cx. split; [done|]. split; [done|]. split; [by left|].
    destruct (next c) as [nx|] eqn:Hnx.
    + inversion Hq2 as [|? ? cn q2' Hn Hprn Hq2']; subst.
      apply not_elem_of_cons in Hx as [Hxn Hx]. apply NoDup_cons in Hnd as [Hnq _].
      exists cn. split; [by rewrite list_lookup_insert_ne|].
      apply ctx_list_cons with (c := set_next (Some nx) cx); [|done|].
      * rewrite list_lookup_insert_ne by done.
        apply list_lookup_insert_eq. by eapply lookup_lt_Some.
      * cbn. apply ctx_list_cons with (c := set_prev (Some x) cn); [|done|].
        -- apply list_lookup_insert_eq. rewrite length_insert. by eapply lookup_lt_Some.
        -- cbn. apply ctx_list_store_notin; [|done]. by apply ctx_list_store_notin.
    + apply ctx_list_none in Hq2 as ->.
      apply ctx_list_cons with (c := set_next None cx); [|done|].
      * apply list_lookup_insert_eq. by eapply lookup_lt_Some.
      * cbn. constructor.
  - destruct (IH _ _ Htail Hnd Ha) as (pr & cp & Hpr & Hcp & Hin & Hres); [done|].
    exists pr, cp. split; [done|]. split; [done|]. split; [by right|].
    assert (Hxpr : x ≠ pr).
    { intros ->. apply Hx. apply elem_of_app. by left. }
    destruct (next c) as [nx|] eqn:Hnx.
    + destruct Hres as (cn & Hcn & Hres). exists cn. split; [done|].
      assert (Hxn : x ≠ nx).
      { intros ->. apply Hx. apply elem_of_app. right. right.
        destruct (ctx_list_split _ _ _ _ _ _ Htail) as (c' & Ha' & _ & Hq2).
        rewrite Ha in Ha'. injection Ha' as <-. rewrite Hnx in Hq2.
        inversion Hq2; subst. by left. }
      cbn. apply ctx_list_cons with (c := cx); [|done|].
      * by rewrite !list_lookup_insert_ne.
      * exact Hres.
    + cbn. apply ctx_list_cons with (c := cx); [|done|].
      * by rewrite list_lookup_insert_ne.
      * exact Hres.
Qed.

(** The end of [proactor_remove], after the context is unlinked: the
    proactor becomes inactive when no context is left, no disconnect is
    pending and it is not shutting down. *)
Definition proactor_remove_finish (w : world) : outcome (bool * world) :=
  '(notify, can_free, w) ←
    (if bool_decide (contexts (w_p w) = None) && (disconnects_pending (w_p w) =? 0)
        && negb (shutting_down (w_p w)) then
       let w := update_p (set_inactive true) w in
       '(notify, w) ← wake (p_context (w_p w)) w;
       Returns (notify, true, w)
     else Returns (false, true, w));
  w ← (if notify then wake_notify w else Returns w);
  Returns (can_free, w).

Definition last_context (w : world) (q : list nat) : bool :=
  bool_decide (q = []) && (disconnects_pending (w_p w) =? 0) && negb (shutting_down (w_p w)).

Lemma contexts_are_none w q : contexts_are w q →
  bool_decide (contexts (w_p w) = None) = bool_decide (q = []).
Proof.
  intros [Hq _]. destruct q as [|a q].
  - apply ctx_list_empty in Hq. by rewrite Hq.
  - apply ctx_list_cur in Hq. by rewrite Hq.
Qed.

Lemma proactor_remove_finish_spec w q :
  contexts_are w q →
  (last_context w q = false → proactor_remove_finish w = Returns (true, w)) ∧
  ∀ can_free w', proactor_remove_finish w = Returns (can_free, w') →
    can_free = true ∧ contexts_are w' q ∧
    inactive (w_p w') = inactive (w_p w) || last_context w q ∧
    w_epoll w' = w_epoll w.
Proof.
  intros Hq. unfold proactor_remove_finish, last_context.
  rewrite (contexts_are_none w q Hq).
  destruct (bool_decide (q = []) && _ && _) eqn:Hlast.
  - split; [done|]. intros can_free w' Hf.
    apply andb_true_iff in Hlast as [Hlast _]. apply andb_true_iff in Hlast as [Hnil _].
    apply bool_decide_eq_true in Hnil as ->.
    apply outcome_bind_returns in Hf as ([[notify cf] w1] & H1 & Hf).
    apply outcome_bind_returns in H1 as ([notify' w1'] & Hwake & H1).
    injection H1 as <- <- <-.
    apply outcome_bind_returns in Hf as (w2 & H2 & Hf). injection Hf as <- <-.
    pose proof (wake_core _ _ _ _ Hwake) as Hcore.
    pose proof (wake_same_closing _ _ _ _ Hwake) as (_ & _ & Hctx).
    pose proof (wake_same_epoll _ _ _ _ Hwake) as [Hk _].
    assert (H2' : core_of w2 = core_of w1' ∧ contexts (w_p w2) = contexts (w_p w1')
                  ∧ w_epoll w2 = w_epoll w1').
    { destruct notify'; [|by injection H2 as <-].
      split; [by apply wake_notify_core|].
      unfold wake_notify in H2. destruct (eventfd (w_p w1') =? -1); [by injection H2 as <-|].
      destruct (eventfd_write _); [|discriminate]. by injection H2 as <-. }
    destruct H2' as (Hcore2 & Hctx2 & Hk2).
    split; [done|]. split; [|split].
    + split; [|constructor]. rewrite Hctx2, Hctx. cbn.
      destruct Hq as [Hq _]. apply ctx_list_empty in Hq. rewrite Hq. constructor.
    + rewrite orb_true_r.
      change (c_inactive (core_of w2) = true). by rewrite Hcore2, Hcore.
    + by rewrite Hk2, Hk.
  - split; [done|]. intros can_free w' [= <- <-]. by rewrite orb_false_r.
Qed.

Lemma proactor_remove_unlink ctx w q1 q2 c :
  contexts_are w (q1 ++ ctx :: q2) → w_mem w !! ctx = Some c → disconnecting c = false →
  ∃ w2, proactor_remove ctx w = proactor_remove_finish w2 ∧ contexts_are w2 (q1 ++ q2) ∧
        disconnects_pending (w_p w2) = disconnects_pending (w_p w) ∧
        shutting_down (w_p w2) = shutting_down (w_p w) ∧
        inactive (w_p w2) = inactive (w_p w) ∧ w_epoll w2 = w_epoll w.
Proof.
  intros [Hq Hnd] Hc Hdis. unfold proactor_remove, load. rewrite Hc. cbn. rewrite Hdis.
  destruct w as [mem p k efd tfd un]. cbn in *.
  destruct q1 as [|x q1].
  - cbn in Hq, Hnd. inversion Hq as [|? ? c' ? Hc' Hpr Hq2 Hpr' Hcur]; subst.
    rewrite Hc in Hc'. injection Hc' as <-. rewrite Hpr. cbn.
    apply NoDup_cons in Hnd as [Hnin Hnd].
    destruct (next c) as [h|] eqn:Hnext.
    + inversion Hq2 as [|? ? ch q2' Hh Hprh Hq2']; subst.
      apply not_elem_of_cons in Hnin as [Hne Hnin].
      rewrite list_lookup_insert_ne by done. rewrite Hh. cbn.
      rewrite list_lookup_insert_ne by done.
      rewrite list_lookup_insert_eq by (by eapply lookup_lt_Some). cbn.
      exists (mk_world (<[h := set_prev None ch]> (<[ctx := set_next None c]> mem))
                       (set_contexts (Some h) p) k efd tfd un).
      split; [reflexivity|]. cbn. split; [|done]. split; [|done]. cbn.
      apply ctx_list_cons with (c := set_prev None ch); [|done|].
      * apply list_lookup_insert_eq. rewrite length_insert. by eapply lookup_lt_Some.
      * cbn. apply NoDup_cons in Hnd as [Hhq _].
        apply ctx_list_store_notin; [|done]. by apply ctx_list_store_notin.
    + apply ctx_list_none in Hq2 as ->. cbn.
      rewrite list_lookup_insert_eq by (by eapply lookup_lt_Some). cbn.
      exists (mk_world (<[ctx := set_next None c]> mem) (set_contexts None p) k efd tfd un).
      split; [reflexivity|]. cbn. split; [|done]. split; [constructor|done].
  - destruct (ctx_list_unlink mem ctx c q2 (x :: q1) None (contexts p) Hq Hnd Hc)
      as (pr & cp & Hpr & Hcp & Hin & Hres); [done|].
    assert (Hne : pr ≠ ctx).
    { intros ->. apply NoDup_app in Hnd as (_ & Hnd & _). apply (Hnd _ Hin). by left. }
    rewrite Hpr. cbn. rewrite Hcp. cbn. rewrite list_lookup_insert_ne by done.
    rewrite Hc. cbn.
    assert (Hnd' : NoDup ((x :: q1) ++ q2)).
    { apply NoDup_app in Hnd as (Hnd1 & Hnd12 & Hnd2). apply NoDup_cons in Hnd2 as [_ Hnd2].
      apply NoDup_app. split; [done|]. split; [|done].
      intros y Hy Hy2. apply (Hnd12 _ Hy). by right. }
    destruct (next c) as [nx|] eqn:Hnext.
    + destruct Hres as (cn & Hcn & Hres). rewrite Hcn. cbn. rewrite Hpr.
      exists (mk_world (<[nx := set_prev (Some pr) cn]> (<[pr := set_next (Some nx) cp]> mem))
                       p k efd tfd un).
      split; [reflexivity|]. cbn. split; [|done]. split; [exact Hres|done].
    + exists (mk_world (<[pr := set_next None cp]> mem) p k efd tfd un).
      split; [reflexivity|]. cbn. split; [|done]. split; [exact Hres|done].
Qed.

(** [proactor_remove] of a context that is in the list (and not being
    disconnected) unlinks exactly that context: the others stay, in their
    order; the caller may free it.  The proactor is marked inactive, and
    woken, exactly when this was the last context, no disconnect is pending
    and the proactor is not shutting down.  When it is not the last one the
    call always returns. *)
Theorem proactor_remove_unlinks ctx w q1 q2 c :
  contexts_are w (q1 ++ ctx :: q2) → w_mem w !! ctx = Some c → disconnecting c = false →
  (last_context w (q1 ++ q2) = false → ∃ w', proactor_remove ctx w = Returns (true, w')) ∧
  ∀ can_free w', proactor_remove ctx w = Returns (can_free, w') →
    can_free = true ∧ contexts_are w' (q1 ++ q2) ∧
    inactive (w_p w') = inactive (w_p w) || last_context w (q1 ++ q2) ∧
    w_epoll w' = w_epoll w.
Proof.
  intros Hq Hc Hdis.
  destruct (proactor_remove_unlink ctx w q1 q2 c Hq Hc Hdis)
    as (w2 & -> & Hq2 & Hdp & Hsd & Hin & Hk).
  destruct (proactor_remove_finish_spec w2 _ Hq2) as [Htotal Hret].
  assert (Hlast : last_context w2 (q1 ++ q2) = last_context w (q1 ++ q2))
    by (unfold last_context; by rewrite Hdp, Hsd).
  rewrite Hlast in Htotal, Hret. split.
  - intros Hl. exists w2. by apply Htotal.
  - intros can_free w' Hf. destruct (Hret _ _ Hf) as (-> & Hq' & Hin' & Hk').
    split; [done|]. split; [done|]. split; [by rewrite Hin', Hin|by rewrite Hk', Hk].
Qed.

Lemma test_listener_contexts : contexts_are (ls_world test_listener) [1%nat].
Proof.
  split.
  - apply ctx_list_cons with (c := set_next None (pcontext_init PCONNECTION)); [done..|].
    constructor.
  - apply NoDup_cons. split; [apply not_elem_of_nil|constructor].
Qed.

Lemma proactor_add_prepends_witness :
  ∃ w', proactor_add 2 (ls_world test_listener) = Returns w' ∧ contexts_are w' [2; 1]%nat.
Proof.
  destruct (proactor_add_prepends 2 (ls_world test_listener) [1%nat] (pcontext_init LISTENER))
    as (w' & Hadd & Hq & _).
  - exact test_listener_contexts.
  - intros Hin%list_elem_of_singleton. discriminate.
  - reflexivity.
  - reflexivity.
  - reflexivity.
  - by exists w'.
Defined.

Lemma proactor_remove_unlinks_witness :
  ∃ w1 w2, proactor_add 2 (ls_world test_listener) = Returns w1 ∧
           proactor_remove 1 w1 = Returns (true, w2) ∧ contexts_are w2 [2%nat] ∧
           inactive (w_p w2) = false.
Proof.
  destruct (proactor_add 2 (ls_world test_listener)) as [w1| |] eqn:Hadd;
    [|vm_compute in Hadd; discriminate..].
  vm_compute in Hadd. injection Hadd as <-.
  match goal with |- ∃ w1 w2, Returns ?w = _ ∧ _ => set (w1 := w) end.
  assert (Hq : contexts_are w1 ([2%nat] ++ [1%nat])).
  { split.
    - apply ctx_list_cons with (c := set_next (Some 1%nat) (pcontext_init LISTENER));
        [done..|].
      apply ctx_list_cons
        with (c := set_prev (Some 2%nat) (set_next None (pcontext_init PCONNECTION)));
        [done..|].
      constructor.
    - refine (bool_decide_unpack _ _). vm_compute. exact I. }
  destruct (proactor_remove_unlinks 1 w1 [2%nat] []
              (set_prev (Some 2%nat) (set_next None (pcontext_init PCONNECTION))) Hq)
    as [Htotal Hret]; [reflexivity..|].
  destruct Htotal as [w2 Hrm]; [reflexivity|].
  destruct (Hret _ _ Hrm) as (_ & Hq2 & Hin & _).
  exists w1, w2. split; [done|]. split; [done|]. split; [exact Hq2|].
  rewrite Hin. reflexivity.
Defined.

(** ** When the eventfd is written *)

(** [wakes_in_progress] is set exactly while the wake list has a first
    element. *)
Definition wake_flag_ok (w : world) : Prop :=
  wakes_in_progress (w_p w) = bool_decide (is_Some (wake_list_first (w_p w))).

Lemma wake_flag w ctx notify w' :
  wake_flag_ok w → wake ctx w = Returns (notify, w') → wake_flag_ok w'.
Proof.
  unfold wake_flag_ok, wake, load, int_incr, int_add. intros Hok H.
  destruct (w_mem w !! ctx) as [c|]; [|discriminate]. simpl in H.
  destruct (wake_ops c =? 0); [|by injection H as <- <-].
  destruct (working c); simpl in H; [by injection H as <- <-|].
  destruct (_ && _); [|discriminate]. simpl in H.
  destruct (wake_list_first (w_p w)) eqn:Hfirst.
  - destruct (wake_list_last (w_p w)) as [l|]; [|discriminate]. simpl in H.
    destruct (_ !! l); [|discriminate]. simpl in H.
    destruct (wakes_in_progress (w_p w)) eqn:Hwip; simpl in H; injection H as <- <-;
      cbn; by rewrite ?Hfirst, ?Hwip.
  - simpl in H.
    destruct (wakes_in_progress (w_p w)) eqn:Hwip; simpl in H; injection H as <- <-;
      cbn; [by compute in Hok|done].
Qed.

Lemma wake_pop_front_flag NDEBUG w r w' :
  wake_flag_ok w → wake_pop_front NDEBUG w = Returns (r, w') →
  wake_flag_ok w' ∧
  (is_Some r → wake_list_first (w_p w') = None →
   w_eventfd w' = 0 ∧ wakes_in_progress (w_p w') = false).
Proof.
  unfold wake_flag_ok, wake_pop_front. intros Hok H.
  apply outcome_bind_returns in H as ([] & _ & H).
  apply outcome_bind_returns in H as ([r1 w1] & H1 & H).
  apply outcome_bind_returns in H as (k & _ & H). injection H as <- <-. cbn.
  destruct (wake_list_first (w_p w)) as [a|] eqn:Hfirst.
  - apply outcome_bind_returns in H1 as (c & _ & H1). cbn in H1.
    destruct (wake_next c) as [n|] eqn:Hnext; cbn in H1; injection H1 as <- <-; cbn.
    + rewrite Hok. split; [done|]. by intros _ [=].
    + done.
  - injection H1 as <- <-. split; [by rewrite Hok, Hfirst|]. by intros [? [=]].
Qed.

Section WakeFlag.
Variable NDEBUG : bool.

Lemma wake_step_flag op s s' :
  wake_flag_ok (ws_world s) → wake_step NDEBUG op s = Returns s' →
  wake_flag_ok (ws_world s').
Proof.
  intros Hok H. destruct op as [t|ctx| | |ctx|ctx b]; simpl in H.
  - by injection H as <-.
  - apply outcome_bind_returns in H as ([notify w'] & Hwake & H). injection H as <-.
    by eapply wake_flag.
  - destruct (ws_owed s); [by injection H as <-|].
    apply outcome_bind_returns in H as (w' & Hn & H). injection H as <-. cbn.
    unfold wake_notify in Hn. destruct (eventfd _ =? -1); [by injection Hn as <-|].
    destruct (eventfd_write _); [|discriminate]. by injection Hn as <-.
  - apply outcome_bind_returns in H as ([r w'] & Hpop & H). injection H as <-.
    by destruct (wake_pop_front_flag _ _ _ _ Hok Hpop).
  - destruct (decide _); [|by injection H as <-].
    apply outcome_bind_returns in H as (w' & Hd & H). injection H as <-. cbn.
    unfold wake_done in Hd. apply outcome_bind_returns in Hd as (c & _ & Hd).
    apply outcome_bind_returns in Hd as ([] & _ & Hd).
    apply outcome_bind_returns in Hd as (n & _ & Hd). by injection Hd as <-.
  - apply outcome_bind_returns in H as (c & _ & H). by injection H as <-.
Qed.

Lemma wake_run_flag ops : ∀ s s',
  wake_flag_ok (ws_world s) → wake_run NDEBUG ops s = Returns s' →
  wake_flag_ok (ws_world s').
Proof.
  induction ops as [|op ops IH]; simpl; intros s s' Hok H; [by injection H as <-|].
  apply outcome_bind_returns in H as (s1 & Hstep & H).
  eapply IH; [|exact H]. by eapply wake_step_flag.
Qed.
End WakeFlag.

Lemma wake_inv_first s q :
  wake_inv s q → (q = [] ↔ wake_list_first (w_p (ws_world s)) = None).
Proof.
  intros [Hch _ _ _ _ _]. split.
  - intros ->. by inversion Hch.
  - intros Hnone. rewrite Hnone in Hch. by eapply wake_chain_empty.
Qed.

(** One eventfd write per burst of wakes.  In every state the wake
    subsystem reaches from a new proactor: [wakes_in_progress] is set
    exactly when the wake list is not empty; [wake] tells its caller to
    notify (write the eventfd) exactly when it puts a context into the
    empty list; and the [wake_pop_front] that empties the list resets the
    eventfd and the flag. *)
Theorem wake_notifies_once_per_burst NDEBUG epfd efd tfd w0 ops s :
  pn_proactor epfd efd tfd = Some w0 →
  wake_run NDEBUG ops (mk_wake_state w0 0 []) = Returns s →
  let w := ws_world s in
  wakes_in_progress (w_p w) = negb (bool_decide (wake_queue w = [])) ∧
  (∀ ctx notify w', wake ctx w = Returns (notify, w') →
     (notify = true ↔ wake_queue w = [] ∧ wake_queue w' = [ctx])) ∧
  (∀ ctx w', wake_pop_front NDEBUG w = Returns (Some ctx, w') → wake_queue w' = [] →
     w_eventfd w' = 0 ∧ wakes_in_progress (w_p w') = false).
Proof.
  intros H0 Hrun w.
  destruct (wake_run_inv NDEBUG ops _ _ _ (wake_inv_init _ _ _ _ H0) Hrun) as [q Hinv].
  assert (Hflag : wake_flag_ok w).
  { eapply wake_run_flag; [|exact Hrun]. cbn. unfold pn_proactor in H0.
    destruct (_ || _); [discriminate|].
    destruct (start_polling _ _ _) as [[tio k] b].
    destruct (start_polling _ _ _) as [[wio k'] b']. by injection H0 as <-. }
  pose proof (wake_inv_queue _ _ Hinv) as Hqueue. fold w in Hqueue.
  pose proof (wake_inv_first _ _ Hinv) as Hfirst. fold w in Hfirst.
  assert (Hwip : wakes_in_progress (w_p w) = negb (bool_decide (q = []))).
  { rewrite Hflag. destruct (wake_list_first (w_p w)) as [a|] eqn:Hf.
    - rewrite (bool_decide_eq_false_2 (q = [])); [done|]. intros Hq. by apply Hfirst in Hq.
    - rewrite (bool_decide_eq_true_2 (q = [])); [done|]. by apply Hfirst. }
  split; [by rewrite Hqueue|]. split.
  - intros ctx notify w' Hwake. rewrite Hqueue.
    assert (∃ c, w_mem w !! ctx = Some c) as [c Hc].
    { unfold wake, load in Hwake. destruct (w_mem w !! ctx); [by eauto|discriminate]. }
    pose proof (wake_returns ctx s q notify w' c Hinv Hc Hwake) as Hres.
    destruct ((wake_ops c =? 0) && negb (working c)).
    + destruct Hres as (Hinv' & -> & _). apply wake_inv_queue in Hinv'. cbn in Hinv'.
      rewrite Hinv'. fold w. rewrite Hwip, negb_involutive. split.
      * intros Hq%bool_decide_eq_true. by rewrite Hq.
      * intros [-> _]. by apply bool_decide_eq_true.
    + destruct Hres as [-> ->]. split; [done|]. intros [Hq1 Hq2].
      rewrite (wake_inv_queue _ _ Hinv) in Hq2. congruence.
  - intros ctx w' Hpop Hempty.
    destruct (wake_pop_front_flag _ _ _ _ Hflag Hpop) as [_ Hreset].
    destruct (wake_pop_front_returns NDEBUG s q _ _ Hinv Hpop) as (_ & Hinv' & _).
    apply Hreset; [by eexists|].
    pose proof (wake_inv_queue _ _ Hinv') as Hq'. cbn in Hq'. rewrite Hempty in Hq'.
    pose proof (wake_inv_first _ _ Hinv') as Hf'. cbn in Hf'. by apply Hf'.
Qed.

Lemma wake_notifies_once_per_burst_witness :
  ∃ w0 s w1 w2,
    pn_proactor 3 4 5 = Some w0 ∧
    wake_run false [WNew PCONNECTION; WNew LISTENER] (mk_wake_state w0 0 []) = Returns s ∧
    wake 1 (ws_world s) = Returns (true, w1) ∧
    wake 2 w1 = Returns (false, w2) ∧ wake_queue w2 = [1; 2]%nat.
Proof.
  destruct (pn_proactor 3 4 5) as [w0|] eqn:H0; [|vm_compute in H0; discriminate].
  destruct (wake_run false [WNew PCONNECTION; WNew LISTENER] (mk_wake_state w0 0 []))
    as [s| |] eqn:Hrun.
  2,3: vm_compute in H0; injection H0 as <-; vm_compute in Hrun; discriminate.
  destruct (wake 1 (ws_world s)) as [[notify w1]| |] eqn:Hwake.
  2,3: vm_compute in H0; injection H0 as <-; vm_compute in Hrun; injection Hrun as <-;
       vm_compute in Hwake; discriminate.
  destruct (wake_notifies_once_per_burst false 3 4 5 w0 _ s H0 Hrun) as (_ & Hnotify & _).
  assert (Hq : wake_queue (ws_world s) = [] ∧ wake_queue w1 = [1%nat]).
  { vm_compute in H0. injection H0 as <-. vm_compute in Hrun. injection Hrun as <-.
    vm_compute in Hwake. injection Hwake as <- <-. done. }
  apply (Hnotify 1%nat notify w1 Hwake) in Hq. subst notify.
  destruct (wake 2 w1) as [[notify2 w2]| |] eqn:Hwake2.
  2,3: vm_compute in H0; injection H0 as <-; vm_compute in Hrun; injection Hrun as <-;
       vm_compute in Hwake; injection Hwake as <-; vm_compute in Hwake2; discriminate.
  exists w0, s, w1, w2. split; [done|]. split; [done|]. split; [done|].
  vm_compute in H0. injection H0 as <-. vm_compute in Hrun. injection Hrun as <-.
  vm_compute in Hwake. injection Hwake as <-. vm_compute in Hwake2.
  injection Hwake2 as <- <-. done.
Defined.

(** ** Connecting to the first address that answers *)

(** An address at which no connection starts: [socket] fails, or [connect]
    fails with something other than EINPROGRESS. *)
Definition connect_failure (a : connect_t) : Prop :=
  match a with
  | socket_fails _ => True
  | connect_fails _ e => e ≠ EINPROGRESS
  | connect_starts _ => False
  end.

(** [errno] after the failed attempts [l], when it was [e] before. *)
Definition connect_errno (l : list connect_t) (e : Z) : Z :=
  fold_left (λ e a, match a with
                    | socket_fails e' | connect_fails _ e' => e'
                    | connect_starts _ => e
                    end) l e.

Section ConnectPath.
Context {D : Type} `{ConnectionDriver D}.
Implicit Types s : conn_state D.

(** What a failed attempt leaves alone: everything but [pc->ai] and
    [errno]. *)
Definition connect_frame s s1 : Prop :=
  pc_psocket (cs_pc s1) = pc_psocket (cs_pc s) ∧
  pc_timer (cs_pc s1) = pc_timer (cs_pc s) ∧
  driver (cs_pc s1) = driver (cs_pc s) ∧
  connected (cs_pc s1) = connected (cs_pc s) ∧
  disconnected (cs_pc s1) = disconnected (cs_pc s) ∧
  addrinfo (cs_pc s1) = addrinfo (cs_pc s) ∧
  cs_world s1 = cs_world s ∧
  cs_log s1 = cs_log s ∧
  pc_context (cs_pc s1) = pc_context (cs_pc s).

Lemma pconnection_try_addresses_failures pre : ∀ l s,
  Forall connect_failure pre →
  ∃ s1, pconnection_try_addresses (pre ++ l) s = pconnection_try_addresses l s1 ∧
        connect_frame s s1 ∧ cs_errno s1 = connect_errno pre (cs_errno s).
Proof.
  induction pre as [|a pre IH]; intros l s Hpre.
  - exists s. by repeat split.
  - apply Forall_cons in Hpre as [Ha Hpre].
    destruct a as [e|fd e|fd]; [| |done]; simpl.
    + destruct (IH l (set_cs_errno e (upd_pc (set_ai (pre ++ l)) s)) Hpre)
        as (s1 & -> & Hf & He).
      exists s1. split; [done|]. split; [exact Hf|exact He].
    + destruct (IH l (set_cs_errno e (upd_pc (set_ai (pre ++ l)) s)) Hpre)
        as (s1 & -> & Hf & He).
      exists s1. split; [done|]. split; [exact Hf|exact He].
Qed.

Lemma start_polling_lookup ee epfd (k : gmap Z Z) x :
  x ≠ ee_fd ee → (start_polling ee epfd k).1.2 !! x = k !! x.
Proof.
  intros Hx. unfold start_polling, epoll_ctl.
  destruct (ee_polling ee); [done|]. cbn.
  destruct (_ || _); [done|].
  destruct (_ !! ee_fd ee); cbn; [done|].
  unfold epoll_set. by rewrite lookup_insert_ne.
Qed.

Lemma start_polling_polling ee epfd (k : gmap Z Z) :
  ee_polling (start_polling ee epfd k).1.1 = true ∧
  ee_fd (start_polling ee epfd k).1.1 = ee_fd ee ∧
  ee_type (start_polling ee epfd k).1.1 = ee_type ee ∧
  ee_wanted (start_polling ee epfd k).1.1 = ee_wanted ee.
Proof.
  unfold start_polling. destruct (ee_polling ee) eqn:Hp; [done|].
  destruct (epoll_ctl _ _ _ _ _). done.
Qed.

Lemma conn_start_polling_timer_spec s :
  let s' := conn_start_polling_timer s in
  let r := start_polling (pt_epoll_io (pc_timer (cs_pc s))) (epollfd (w_p (cs_world s)))
                         (w_epoll (cs_world s)) in
  pt_epoll_io (pc_timer (cs_pc s')) = r.1.1 ∧ w_epoll (cs_world s') = r.1.2 ∧
  epollfd (w_p (cs_world s')) = epollfd (w_p (cs_world s)) ∧
  pc_psocket (cs_pc s') = pc_psocket (cs_pc s) ∧ ai (cs_pc s') = ai (cs_pc s) ∧
  driver (cs_pc s') = driver (cs_pc s) ∧ connected (cs_pc s') = connected (cs_pc s) ∧
  disconnected (cs_pc s') = disconnected (cs_pc s) ∧ addrinfo (cs_pc s') = addrinfo (cs_pc s) ∧
  cs_log s' = cs_log s ∧ pc_context (cs_pc s') = pc_context (cs_pc s) ∧
  w_mem (cs_world s') = w_mem (cs_world s) ∧ w_p (cs_world s') = w_p (cs_world s) ∧
  w_eventfd (cs_world s') = w_eventfd (cs_world s).
Proof.
  unfold conn_start_polling_timer.
  destruct (start_polling _ _ _) as [[ee k] b]. by cbn.
Qed.

Lemma conn_start_polling_socket_spec s :
  let s' := conn_start_polling_socket s in
  let ps := pc_psocket (cs_pc s) in
  let r := start_polling (mk_epoll_extended (sockfd ps) (ee_type (ps_epoll_io ps))
                                            (Z.lor EPOLLIN EPOLLOUT) false)
                         (epollfd (w_p (cs_world s))) (w_epoll (cs_world s)) in
  pc_psocket (cs_pc s') = set_ps_epoll_io r.1.1 ps ∧ w_epoll (cs_world s') = r.1.2 ∧
  pc_timer (cs_pc s') = pc_timer (cs_pc s) ∧ ai (cs_pc s') = ai (cs_pc s) ∧
  driver (cs_pc s') = driver (cs_pc s) ∧ connected (cs_pc s') = connected (cs_pc s) ∧
  disconnected (cs_pc s') = disconnected (cs_pc s) ∧ addrinfo (cs_pc s') = addrinfo (cs_pc s) ∧
  cs_log s' = cs_log s ∧ pc_context (cs_pc s') = pc_context (cs_pc s) ∧
  w_mem (cs_world s') = w_mem (cs_world s) ∧ w_p (cs_world s') = w_p (cs_world s) ∧
  w_eventfd (cs_world s') = w_eventfd (cs_world s).
Proof.
  unfold conn_start_polling_socket.
  change (set_ee_polling false _)
    with (mk_epoll_extended (sockfd (pc_psocket (cs_pc s)))
            (ee_type (ps_epoll_io (pc_psocket (cs_pc s)))) (Z.lor EPOLLIN EPOLLOUT) false).
  destruct (start_polling _ _ _) as [[ee k] b]. by cbn.
Qed.

Lemma pconnection_maybe_connect_lh_started s pre fd post :
  connected (cs_pc s) = false →
  ai (cs_pc s) = pre ++ connect_starts fd :: post →
  Forall connect_failure pre →
  let s' := pconnection_maybe_connect_lh s in
  let pc := cs_pc s in
  let pc' := cs_pc s' in
  sockfd (pc_psocket pc') = fd ∧ ai pc' = post ∧
  ps_epoll_io (pc_psocket pc') =
    mk_epoll_extended fd (ee_type (ps_epoll_io (pc_psocket pc))) (Z.lor EPOLLIN EPOLLOUT) true ∧
  ee_polling (pt_epoll_io (pc_timer pc')) = true ∧
  connected pc' = false ∧ disconnected pc' = disconnected pc ∧ addrinfo pc' = addrinfo pc ∧
  driver pc' = driver pc ∧ cs_log s' = cs_log s ∧
  (∀ x, x ≠ fd → x ≠ ee_fd (pt_epoll_io (pc_timer pc)) →
        w_epoll (cs_world s') !! x = w_epoll (cs_world s) !! x) ∧
  (0 ≤ epollfd (w_p (cs_world s)) → 0 ≤ fd → is_Some (w_epoll (cs_world s') !! fd)) ∧
  (0 ≤ epollfd (w_p (cs_world s)) → 0 ≤ fd → w_epoll (cs_world s) !! fd = None →
   fd ≠ ee_fd (pt_epoll_io (pc_timer pc)) →
     w_epoll (cs_world s') !! fd = Some (Z.lor (Z.lor EPOLLIN EPOLLOUT) EPOLLONESHOT)) ∧
  pc_context pc' = pc_context pc ∧ w_mem (cs_world s') = w_mem (cs_world s) ∧
  w_p (cs_world s') = w_p (cs_world s) ∧ w_eventfd (cs_world s') = w_eventfd (cs_world s).
Proof.
  intros Hconn Hai Hpre s' pc pc'. subst s' pc pc'.
  unfold pconnection_maybe_connect_lh.
  change (connected (cs_pc (set_cs_errno 0 s))) with (connected (cs_pc s)).
  change (ai (cs_pc (set_cs_errno 0 s))) with (ai (cs_pc s)).
  rewrite Hconn, Hai. cbn [negb].
  destruct (pconnection_try_addresses_failures pre (connect_starts fd :: post)
              (set_cs_errno 0 s) Hpre) as (s1 & -> & Hf & _).
  destruct Hf as (Hps & Htm & Hdr & Hco & Hdi & Had & Hw & Hlog & Hctx).
  cbn in Hps, Htm, Hdr, Hco, Hdi, Had, Hw, Hlog, Hctx.
  cbn [pconnection_try_addresses]. unfold pconnection_start.
  set (s2 := upd_pc (λ pc, set_pc_psocket (set_sockfd fd (pc_psocket pc)) pc)
                    (upd_pc (set_ai post) s1)).
  set (k0 := w_epoll (cs_world s)).
  set (epfd := epollfd (w_p (cs_world s))).
  set (tio := pt_epoll_io (pc_timer (cs_pc s))).
  pose proof (conn_start_polling_timer_spec s2)
    as (Ht1 & Hk1 & He1 & Hps3 & Hai1 & Hdr3 & Hco3 & Hdi3 & Had3 & Hlog3 & Hctx3 & Hm3 & Hp3' & Hev3).
  set (s3 := conn_start_polling_timer s2) in *.
  pose proof (conn_start_polling_timer_spec s3)
    as (Ht2 & Hk2 & He2 & Hps4 & Hai2 & Hdr4 & Hco4 & Hdi4 & Had4 & Hlog4 & Hctx4 & Hm4 & Hp4' & Hev4).
  set (s4 := conn_start_polling_timer s3) in *.
  pose proof (conn_start_polling_socket_spec s4)
    as (Hps5 & Hk5 & Htm5 & Hai5 & Hdr5 & Hco5 & Hdi5 & Had5 & Hlog5 & Hctx5 & Hm5 & Hp5' & Hev5).
  set (s5 := conn_start_polling_socket s4) in *.
  cbn in Hps3, Hdr3, Hco3, Hdi3, Had3, Hlog3, Hctx3, Hm3, Hp3', Hev3.
  change (cs_world s2) with (cs_world s1) in Ht1, Hk1, He1.
  change (pc_timer (cs_pc s2)) with (pc_timer (cs_pc s1)) in Ht1, Hk1.
  change (ai (cs_pc s2)) with post in Hai1.
  rewrite Hw in Ht1, Hk1, He1. rewrite Htm in Ht1, Hk1. fold k0 epfd tio in Ht1, Hk1, He1.
  destruct (start_polling tio epfd k0) as [[tio1 k1] b1] eqn:H1. cbn in Ht1, Hk1.
  rewrite Ht1, Hk1, He1 in Ht2, Hk2. rewrite He1 in He2.
  destruct (start_polling tio1 epfd k1) as [[tio2 k2] b2] eqn:H2. cbn in Ht2, Hk2.
  rewrite Hps4, Hps3, Hk2, He2 in Hps5, Hk5.
  cbn [sockfd set_sockfd ps_epoll_io] in Hps5, Hk5. rewrite Hps in Hps5, Hk5.
  set (sio := mk_epoll_extended fd (ee_type (ps_epoll_io (pc_psocket (cs_pc s))))
                                (Z.lor EPOLLIN EPOLLOUT) false) in *.
  destruct (start_polling sio epfd k2) as [[sio3 k3] b3] eqn:H3. cbn in Hps5, Hk5.
  pose proof (start_polling_polling tio epfd k0) as Hq1. rewrite H1 in Hq1. cbn in Hq1.
  pose proof (start_polling_polling tio1 epfd k1) as Hq2. rewrite H2 in Hq2. cbn in Hq2.
  pose proof (start_polling_polling sio epfd k2) as Hq3. rewrite H3 in Hq3. cbn in Hq3.
  destruct Hq1 as (Hp1 & Hfd1 & _), Hq2 as (Hp2 & Hfd2 & _), Hq3 as (Hp3 & Hfd3 & Hty3 & Hwa3).
  assert (Hk : ∀ x, x ≠ fd → x ≠ ee_fd tio → k3 !! x = k0 !! x).
  { intros x Hx1 Hx2.
    pose proof (start_polling_lookup sio epfd k2 x Hx1) as E3. rewrite H3 in E3.
    pose proof (start_polling_lookup tio1 epfd k1 x ltac:(by rewrite Hfd1)) as E2. rewrite H2 in E2.
    pose proof (start_polling_lookup tio epfd k0 x Hx2) as E1. rewrite H1 in E1.
    cbn in E1, E2, E3. etrans; [exact E3|]. etrans; [exact E2|]. exact E1. }
  assert (Hin : 0 ≤ epfd → 0 ≤ fd → is_Some (k3 !! fd) ∧
                (k2 !! fd = None → k3 !! fd = Some (Z.lor (Z.lor EPOLLIN EPOLLOUT) EPOLLONESHOT))).
  { intros He Hfd. unfold start_polling, epoll_ctl in H3. cbn in H3.
    destruct (epfd <? 0) eqn:E1; [lia|]. destruct (fd <? 0) eqn:E2; [lia|]. cbn in H3.
    destruct (_ !! fd) as [m|] eqn:Hm; cbn in H3; injection H3 as <- <- <-.
    - split; [by rewrite Hm|]. unfold epoll_set in *. congruence.
    - unfold epoll_set in *. rewrite lookup_insert_eq. split; [by eexists|done]. }
  clearbody s5 s4 s3 s2.
  rewrite Hps5, Htm5, Hai5, Hdr5, Hco5, Hdi5, Had5, Hlog5, Hk5.
  rewrite Hai2, Hai1, Hdr4, Hdr3, Hco4, Hco3, Hdi4, Hdi3, Had4, Had3, Hlog4, Hlog3.
  rewrite Hdr, Hco, Hdi, Had, Hlog, Ht2. cbn.
  rewrite Hctx5, Hctx4, Hctx3, Hctx, Hm5, Hm4, Hm3, Hp5', Hp4', Hp3', Hev5, Hev4, Hev3, Hw.
  repeat split; try done.
  - destruct sio3; cbn in *; congruence.
  - intros He Hfd. by apply Hin.
  - intros He Hfd Hnone Hne. apply Hin; [done..|].
    pose proof (start_polling_lookup tio1 epfd k1 fd ltac:(by rewrite Hfd1)) as E2. rewrite H2 in E2.
    pose proof (start_polling_lookup tio epfd k0 fd Hne) as E1. rewrite H1 in E1.
    cbn in E1, E2. etrans; [exact E2|]. etrans; [exact E1|]. exact Hnone.
Qed.

(** When an address answers ([connect] returns 0 or sets EINPROGRESS),
    [pconnection_maybe_connect_lh] has skipped the addresses before it that
    failed, keeps the ones after it in [pc->ai] for a later attempt, takes
    the new descriptor as the connection's socket and registers it for
    EPOLLIN | EPOLLOUT; it reports no error, closes no descriptor, leaves
    [disconnected] alone, and touches no registration but the new socket's
    and the timer's: a socket of an earlier attempt stays open and
    registered. *)
Theorem connect_takes_first_answer s pre fd post :
  connected (cs_pc s) = false →
  ai (cs_pc s) = pre ++ connect_starts fd :: post →
  Forall connect_failure pre →
  let s' := pconnection_maybe_connect_lh s in
  let pc := cs_pc s in
  let pc' := cs_pc s' in
  sockfd (pc_psocket pc') = fd ∧ ai pc' = post ∧
  ps_epoll_io (pc_psocket pc') =
    mk_epoll_extended fd (ee_type (ps_epoll_io (pc_psocket pc))) (Z.lor EPOLLIN EPOLLOUT) true ∧
  ee_polling (pt_epoll_io (pc_timer pc')) = true ∧
  connected pc' = false ∧ disconnected pc' = disconnected pc ∧ addrinfo pc' = addrinfo pc ∧
  driver pc' = driver pc ∧ cs_log s' = cs_log s ∧
  (∀ x, x ≠ fd → x ≠ ee_fd (pt_epoll_io (pc_timer pc)) →
        w_epoll (cs_world s') !! x = w_epoll (cs_world s) !! x) ∧
  (0 ≤ epollfd (w_p (cs_world s)) → 0 ≤ fd → is_Some (w_epoll (cs_world s') !! fd)) ∧
  (0 ≤ epollfd (w_p (cs_world s)) → 0 ≤ fd → w_epoll (cs_world s) !! fd = None →
   fd ≠ ee_fd (pt_epoll_io (pc_timer pc)) →
     w_epoll (cs_world s') !! fd = Some (Z.lor (Z.lor EPOLLIN EPOLLOUT) EPOLLONESHOT)).
Proof.
  intros Hconn Hai Hpre.
  pose proof (pconnection_maybe_connect_lh_started s pre fd post Hconn Hai Hpre) as Hs.
  cbv zeta in Hs |- *.
  destruct Hs as (H1&H2&H3&H4&H5&H6&H7&H8&H9&H10&H11&H12&_).
  exact (conj H1 (conj H2 (conj H3 (conj H4 (conj H5 (conj H6 (conj H7 (conj H8 (conj H9 (conj H10 (conj H11 (H12)))))))))))).
Qed.


Lemma pconnection_maybe_connect_lh_failed s :
  connected (cs_pc s) = false →
  Forall connect_failure (ai (cs_pc s)) →
  let s' := pconnection_maybe_connect_lh s in
  let pc := cs_pc s in
  let pc' := cs_pc s' in
  let e := connect_errno (ai pc) 0 in
  let err := if e =? 0 then ENOTCONN else e in
  ai pc' = [] ∧ addrinfo pc' = None ∧ disconnected pc' = true ∧ connected pc' = false ∧
  pc_psocket pc' = pc_psocket pc ∧ cs_world s' = cs_world s ∧
  (sockfd (pc_psocket pc) < 1 →
     cs_log s' = cs_log s ++ [act_error "on connect" err] ∧
     driver pc' =
       pn_connection_driver_close
         (pn_connection_driver_errorf (pn_connection_driver_bind (driver pc)) "on connect"
            (host (pc_psocket pc)) (port (pc_psocket pc)) err)) ∧
  (1 ≤ sockfd (pc_psocket pc) → cs_log s' = cs_log s ∧ driver pc' = driver pc) ∧
  pc_context pc' = pc_context pc.
Proof.
  intros Hconn Hfail s' pc pc' e err. subst s' pc pc' e err.
  unfold pconnection_maybe_connect_lh.
  change (connected (cs_pc (set_cs_errno 0 s))) with (connected (cs_pc s)).
  change (ai (cs_pc (set_cs_errno 0 s))) with (ai (cs_pc s)).
  rewrite Hconn. cbn [negb].
  destruct (pconnection_try_addresses_failures (ai (cs_pc s)) [] (set_cs_errno 0 s) Hfail)
    as (s1 & Heq & Hf & He).
  rewrite app_nil_r in Heq. rewrite Heq. cbn [pconnection_try_addresses].
  destruct Hf as (Hps & Htm & Hdr & Hco & Hdi & Had & Hw & Hlog & Hctx).
  cbn in Hps, Htm, Hdr, Hco, Hdi, Had, Hw, Hlog, He, Hctx.
  cbn. rewrite !Hps, ?He.
  destruct (sockfd (pc_psocket (cs_pc s)) <? 1) eqn:Hfd; cbn;
    rewrite ?Hps, ?Hw, ?Hlog, ?Hdr, ?Hco, ?He, ?Hctx.
  - apply Z.ltb_lt in Hfd. repeat split; try done; lia.
  - apply Z.ltb_ge in Hfd. repeat split; try done; lia.
Qed.

(** When no address answers, [pconnection_maybe_connect_lh] uses up the
    address list and marks the connection disconnected, and does nothing to
    the socket or the interest list.  If the connection has no socket from an
    earlier attempt ([sockfd < 1]) it reports the [errno] of the last
    failure, or ENOTCONN if there was none to try, as one "on connect" error
    that closes the driver; otherwise it reports nothing and leaves the error
    to the poller. *)
Theorem connect_reports_last_failure s :
  connected (cs_pc s) = false →
  Forall connect_failure (ai (cs_pc s)) →
  let s' := pconnection_maybe_connect_lh s in
  let pc := cs_pc s in
  let pc' := cs_pc s' in
  let e := connect_errno (ai pc) 0 in
  let err := if e =? 0 then ENOTCONN else e in
  ai pc' = [] ∧ addrinfo pc' = None ∧ disconnected pc' = true ∧ connected pc' = false ∧
  pc_psocket pc' = pc_psocket pc ∧ cs_world s' = cs_world s ∧
  (sockfd (pc_psocket pc) < 1 →
     cs_log s' = cs_log s ++ [act_error "on connect" err] ∧
     driver pc' =
       pn_connection_driver_close
         (pn_connection_driver_errorf (pn_connection_driver_bind (driver pc)) "on connect"
            (host (pc_psocket pc)) (port (pc_psocket pc)) err)) ∧
  (1 ≤ sockfd (pc_psocket pc) → cs_log s' = cs_log s ∧ driver pc' = driver pc).
Proof.
  intros Hconn Hfail.
  pose proof (pconnection_maybe_connect_lh_failed s Hconn Hfail) as Hs.
  cbv zeta in Hs |- *.
  destruct Hs as (H1&H2&H3&H4&H5&H6&H7&H8&_).
  exact (conj H1 (conj H2 (conj H3 (conj H4 (conj H5 (conj H6 (conj H7 (H8)))))))).
Qed.

End ConnectPath.

(** A connection of [test_world] before its first attempt: no socket, the
    timer descriptor 7 not yet registered, the addresses [l] to try. *)
Definition test_connecting (l : list connect_t) : conn_state test_driver :=
  mk_conn_state
    (mk_pconnection (psocket_init None "localhost" "5672") 1%nat 0 0 false false false false None
                    (ptimer_init 7 true) 0 false true true false 0 test_open_driver (Some l) l)
    timerfd_init
    (set_w_epoll (<[5 := Z.lor EPOLLIN EPOLLONESHOT]> (<[4 := Z.lor EPOLLIN EPOLLONESHOT]> ∅))
                 test_world)
    [] 0 1000 [].

(** [socket] fails for the first address, [connect] is refused at the second,
    the third answers on descriptor 9: the fourth is kept. *)
Lemma connect_takes_first_answer_witness :
  let s := test_connecting [socket_fails 97; connect_fails 8 111; connect_starts 9;
                            connect_starts 10] in
  let s' := pconnection_maybe_connect_lh s in
  sockfd (pc_psocket (cs_pc s')) = 9 ∧ ai (cs_pc s') = [connect_starts 10] ∧
  cs_log s' = [] ∧
  w_epoll (cs_world s') !! 9 = Some (Z.lor (Z.lor EPOLLIN EPOLLOUT) EPOLLONESHOT).
Proof.
  intros s s'.
  destruct (connect_takes_first_answer s [socket_fails 97; connect_fails 8 111] 9
              [connect_starts 10])
    as (Hfd & Hai & _ & _ & _ & _ & _ & _ & Hlog & _ & _ & Hreg).
  - reflexivity.
  - reflexivity.
  - apply Forall_cons; split; [exact I|]. apply Forall_cons; split; [|constructor].
    cbn. unfold EINPROGRESS. lia.
  - split; [exact Hfd|]. split; [exact Hai|]. split; [exact Hlog|].
    apply Hreg; [by vm_compute|lia|by vm_compute|by vm_compute].
Defined.

(** Every address fails and there is no socket of an earlier attempt: the
    error of the last failure (ECONNREFUSED) is reported. *)
Lemma connect_reports_last_failure_witness :
  let s := test_connecting [socket_fails 97; connect_fails 8 111] in
  let s' := pconnection_maybe_connect_lh s in
  cs_log s' = [act_error "on connect" 111] ∧ disconnected (cs_pc s') = true ∧
  td_condition (driver (cs_pc s')) = Some "on connect".
Proof.
  intros s s'.
  destruct (connect_reports_last_failure s) as (_ & _ & Hdis & _ & _ & _ & Herr & _).
  - reflexivity.
  - apply Forall_cons; split; [exact I|]. apply Forall_cons; split; [|constructor].
    cbn. unfold EINPROGRESS. lia.
  - destruct Herr as [Hlog Hdrv]; [by vm_compute|].
    split; [exact Hlog|]. split; [exact Hdis|].
    exact (eq_trans (f_equal td_condition Hdrv) eq_refl).
Defined.

(** ** [pn_proactor_connect] *)

(** What [pgetaddrinfo] gives: the resolved addresses, or a failure that
    leaves [errno]. *)
Inductive pgetaddrinfo_t : Set :=
| pgai_fails (errno : Z)
| pgai_ok (res : list connect_t).

(** [proactor_add] writes the links of the list of contexts only. *)
Lemma proactor_add_frame ctx w w' :
  proactor_add ctx w = Returns w' →
  w_eventfd w' = w_eventfd w ∧ w_epoll w' = w_epoll w ∧ w_timerfd w' = w_timerfd w ∧
  length (w_mem w') = length (w_mem w) ∧
  w_p w' = set_contexts (Some ctx) (w_p w) ∧
  ∀ a c', w_mem w' !! a = Some c' →
    ∃ c, w_mem w !! a = Some c ∧ wake_ops c' = wake_ops c ∧ working c' = working c ∧
         wake_next c' = wake_next c ∧ closing c' = closing c.
Proof.
  unfold proactor_add, load. intros Hadd.
  destruct w as [mem p k efd tfd]. cbn in *.
  destruct (contexts p) as [h|] eqn:Hhead.
  - destruct (mem !! h) as [ch|] eqn:Hh; [|discriminate]. cbn in Hadd.
    destruct (<[h:=set_prev (Some ctx) ch]> mem !! ctx) as [c|] eqn:Hc; [|discriminate].
    cbn in Hadd. injection Hadd as <-. cbn. rewrite !length_insert.
    repeat split; try done.
    intros a c' Ha.
    destruct (decide (a = ctx)) as [->|Hne].
    + rewrite list_lookup_insert_eq in Ha by (by eapply lookup_lt_Some).
      injection Ha as <-.
      destruct (decide (ctx = h)) as [->|Hne'].
      * rewrite list_lookup_insert_eq in Hc by (by eapply lookup_lt_Some).
        injection Hc as <-. by exists ch.
      * rewrite list_lookup_insert_ne in Hc by done. by exists c.
    + rewrite list_lookup_insert_ne in Ha by done.
      destruct (decide (a = h)) as [->|Hne'].
      * rewrite list_lookup_insert_eq in Ha by (by eapply lookup_lt_Some).
        injection Ha as <-. by exists ch.
      * rewrite list_lookup_insert_ne in Ha by done. by exists c'.
  - injection Hadd as <-. cbn. repeat split; try done.
    intros a c' Ha. by exists c'.
Qed.

(** [wake] of an idle context when the wake list is empty and no wake is
    under way. *)
Lemma wake_first ctx w c :
  w_mem w !! ctx = Some c → wake_ops c = 0 → working c = false →
  wake_list_first (w_p w) = None → wakes_in_progress (w_p w) = false →
  wake ctx w =
    Returns (true, update_p (set_wakes_in_progress true)
                     (update_p (λ p, set_wake_list_last (Some ctx)
                                       (set_wake_list_first (Some ctx) p))
                               (store ctx (set_wake_ops 1 c) w))).
Proof.
  intros Hc Hops Hwork Hfirst Hwip. unfold wake, load. rewrite Hc. cbn.
  rewrite Hops, Hwork. cbn. change (int_incr 0) with (Returns (A := Z) 1). cbn.
  rewrite Hfirst. cbn. by rewrite Hwip.
Qed.

Section ProactorConnect.
Context {D : Type} `{ConnectionDriver D}.
(** [pn_connection_open] of the protocol engine, on the driver's
    connection. *)
Variable pn_connection_open : D → D.

(** [new_pconnection_t]; [timerfd_create] returns [tfd], and [d] is the
    driver as [pn_connection_driver_init] and, for a server,
    [pn_transport_set_server] leave it.  The embedded context takes the next
    free address.  The fields [server], [addrinfo] and [ai] are not
    assigned: they hold what [pn_class_new] left there. *)
Definition new_pconnection_t (d : D) (tfd : Z) (host port : string)
    (server0 : bool) (addrinfo0 : option (list connect_t)) (ai0 : list connect_t) (w : world)
  : outcome (pconnection_t D * world) :=
  if tfd <? 0 then Aborts EpollFatal    (* perror("timer setup failure"); abort() *)
  else
    Returns (mk_pconnection (psocket_init None host port) (length (w_mem w)) 0 0 server0
                            false false false None (ptimer_init tfd true) 0 false true true
                            false 0 d addrinfo0 ai0,
             set_w_mem (w_mem w ++ [pcontext_init PCONNECTION]) w).

(** [net], [errno] and [now] are what surrounds the new connection. *)
Definition pn_proactor_connect (d : D) (tfd : Z) (host port : string)
    (server0 : bool) (addrinfo0 : option (list connect_t)) (ai0 : list connect_t)
    (gai : pgetaddrinfo_t) (net : list io_result) (errno now : Z) (w : world)
  : outcome (conn_state D) :=
  '(pc, w) ← new_pconnection_t d tfd host port server0 addrinfo0 ai0 w;
  w ← proactor_add (pc_context pc) w;
  let s := mk_conn_state pc timerfd_init w net errno now [] in
  let s := upd_driver pn_connection_open s in    (* Auto-open *)
  '(notify, s) ←
    match gai with
    | pgai_ok res =>
        let s := upd_pc (λ pc, set_ai res (set_addrinfo (Some res) pc)) s in
        let s := pconnection_maybe_connect_lh s in   (* Start connection attempts *)
        Returns (disconnected (cs_pc s), s)
    | pgai_fails e =>
        let s := set_cs_errno e s in
        let s := psocket_error_pconnection (cs_errno s) "connect to " s in
        on_conn_world (wake (pc_context (cs_pc s))) s
    end;
  if notify then '(_, s) ← on_conn_world (λ w, w ← wake_notify w; Returns ((), w)) s; Returns s
  else Returns s.

(** The state in which the attempts start. *)
Lemma pn_proactor_connect_begin d tfd host port server0 addrinfo0 ai0 w :
  0 ≤ tfd →
  (∀ h, contexts (w_p w) = Some h → is_Some (w_mem w !! h)) →
  ∃ pc w0 w1,
    new_pconnection_t d tfd host port server0 addrinfo0 ai0 w = Returns (pc, w0) ∧
    proactor_add (pc_context pc) w0 = Returns w1 ∧
    pc_context pc = length (w_mem w) ∧ pc_psocket pc = psocket_init None host port ∧
    pc_timer pc = ptimer_init tfd true ∧ connected pc = false ∧ disconnected pc = false ∧
    driver pc = d ∧
    w_eventfd w1 = w_eventfd w ∧ w_epoll w1 = w_epoll w ∧
    w_p w1 = set_contexts (Some (length (w_mem w))) (w_p w) ∧
    length (w_mem w1) = S (length (w_mem w)) ∧
    (∃ c, w_mem w1 !! length (w_mem w) = Some c ∧ wake_ops c = 0 ∧ working c = false ∧
          wake_next c = None ∧ closing c = false).
Proof.
  intros Htfd Hhead. unfold new_pconnection_t.
  destruct (tfd <? 0) eqn:E; [lia|].
  set (w0 := set_w_mem (w_mem w ++ [pcontext_init PCONNECTION]) w).
  destruct (proactor_add_total (length (w_mem w)) w0) as [w1 Hadd].
  { cbn. rewrite lookup_app_r by lia. rewrite Nat.sub_diag. by eexists. }
  { intros h Hh. cbn in Hh. destruct (Hhead h Hh) as [c Hc].
    exists c. cbn. by apply lookup_app_l_Some. }
  eexists _, w0, w1. split; [reflexivity|]. cbn. split; [exact Hadd|].
  destruct (proactor_add_frame _ _ _ Hadd) as (Hev & Hk & _ & Hlen & Hp & Hmem).
  cbn in Hev, Hk, Hlen, Hp. rewrite length_app in Hlen. cbn in Hlen.
  repeat split; try done; [lia|].
  destruct (lookup_lt_is_Some_2 (w_mem w1) (length (w_mem w)) ltac:(lia)) as [c' Hc'].
  destruct (Hmem _ _ Hc') as (c & Hc & Hops & Hwork & Hnext & Hcl).
  cbn in Hc. rewrite lookup_app_r in Hc by lia. rewrite Nat.sub_diag in Hc.
  injection Hc as <-. exists c'. by rewrite Hops, Hwork, Hnext, Hcl.
Qed.

(** [pn_proactor_connect] with the addresses resolved.  If an address
    answers, the connection is enlisted with its socket registered, and
    nothing is written to the eventfd.  If every attempt fails at once, the
    error is recorded and the driver closed, and the eventfd is written:
    but the context is not put on the wake list ([wake] is not called), so
    that a thread which finds the wake list empty gets no context to
    process from [wake_pop_front]. *)
Theorem pn_proactor_connect_attempts d tfd addr_host addr_port server0 addrinfo0 ai0 res net
    errno now w :
  0 ≤ tfd →
  (∀ h, contexts (w_p w) = Some h → is_Some (w_mem w !! h)) →
  let run := pn_proactor_connect d tfd addr_host addr_port server0 addrinfo0 ai0 (pgai_ok res)
               net errno now w in
  let ctx := length (w_mem w) in
  (∀ pre fd post, res = pre ++ connect_starts fd :: post → Forall connect_failure pre →
     ∃ s, run = Returns s ∧
       pc_context (cs_pc s) = ctx ∧ contexts (w_p (cs_world s)) = Some ctx ∧
       sockfd (pc_psocket (cs_pc s)) = fd ∧ ai (cs_pc s) = post ∧
       disconnected (cs_pc s) = false ∧ driver (cs_pc s) = pn_connection_open d ∧
       cs_log s = [] ∧ w_eventfd (cs_world s) = w_eventfd w ∧
       wake_list_first (w_p (cs_world s)) = wake_list_first (w_p w) ∧
       wakes_in_progress (w_p (cs_world s)) = wakes_in_progress (w_p w)) ∧
  (Forall connect_failure res → eventfd (w_p w) ≠ -1 → w_eventfd w + 1 < 2 ^ 64 - 1 →
     ∃ s, run = Returns s ∧
       let e := connect_errno res 0 in
       let err := if e =? 0 then ENOTCONN else e in
       pc_context (cs_pc s) = ctx ∧ contexts (w_p (cs_world s)) = Some ctx ∧
       disconnected (cs_pc s) = true ∧ cs_log s = [act_error "on connect" err] ∧
       driver (cs_pc s) =
         pn_connection_driver_close
           (pn_connection_driver_errorf (pn_connection_driver_bind (pn_connection_open d))
              "on connect" addr_host addr_port err) ∧
       w_eventfd (cs_world s) = w_eventfd w + 1 ∧
       wake_list_first (w_p (cs_world s)) = wake_list_first (w_p w) ∧
       wakes_in_progress (w_p (cs_world s)) = wakes_in_progress (w_p w) ∧
       (∃ c, w_mem (cs_world s) !! ctx = Some c ∧ wake_ops c = 0 ∧ working c = false) ∧
       (wake_list_first (w_p w) = None →
        ∀ NDEBUG r w', wake_pop_front NDEBUG (cs_world s) = Returns (r, w') → r = None)).
Proof.
  intros Htfd Hhead run ctx. subst run ctx. unfold pn_proactor_connect.
  destruct (pn_proactor_connect_begin d tfd addr_host addr_port server0 addrinfo0 ai0 w Htfd Hhead)
    as (pc & w0 & w1 & -> & Hadd & Hctx & Hps & Htm & Hco & Hdi & Hdr & Hev & Hk & Hp & Hlen & Hc).
  cbn [obind]. rewrite Hadd. cbn [obind].
  set (s0 := upd_pc (λ pc, set_ai res (set_addrinfo (Some res) pc))
               (upd_driver pn_connection_open
                  (mk_conn_state pc timerfd_init w1 net errno now []))).
  split.
  - intros pre fd post Hres Hpre.
    pose proof (pconnection_maybe_connect_lh_started s0 pre fd post Hco Hres Hpre) as Hs.
    cbv zeta in Hs.
    destruct Hs as (Hfd & Hai & _ & _ & _ & Hdis & _ & Hdrv & Hlog & _ & _ & _ & Hctx' & Hmem' &
                    Hp' & Hev').
    cbn in Hdis, Hdrv, Hlog, Hctx', Hmem', Hp', Hev'.
    rewrite Hdis, Hdi. cbn [obind]. eexists. split; [reflexivity|].
    rewrite Hctx', Hp', Hp, Hev', Hev, Hdrv, Hdr, Hfd, Hai, Hlog, Hdis, Hdi, Hctx. done.
  - intros Hfail Hefd Hroom.
    pose proof (pconnection_maybe_connect_lh_failed s0 Hco Hfail) as Hs.
    cbv zeta in Hs.
    destruct Hs as (_ & _ & Hdis & _ & Hps' & Hw' & Herr & _ & Hctx').
    destruct Herr as [Hlog Hdrv]; [cbn; rewrite Hps; cbn; lia|].
    cbn in Hlog, Hdrv, Hctx', Hw', Hps'. rewrite Hdis. cbn [obind].
    unfold on_conn_world, wake_notify. rewrite Hw'.
    rewrite Hp. cbn [eventfd set_contexts].
    destruct (eventfd (w_p w) =? -1) eqn:E; [lia|].
    unfold eventfd_write. rewrite Hev.
    destruct (w_eventfd w + 1 <? 2 ^ 64 - 1) eqn:E'; [|lia].
    cbn [obind]. eexists. split; [reflexivity|]. cbn.
    rewrite Hctx', Hp, Hlog, Hdrv, Hps, Hdr, Hctx. cbn.
    repeat split; try done.
    { destruct Hc as (c & Hc1 & Hc2 & Hc3 & _). by exists c. }
    intros Hnone NDEBUG r w' Hpop. unfold wake_pop_front in Hpop. cbn in Hpop.
    rewrite Hp in Hpop. cbn in Hpop. rewrite Hnone in Hpop.
    apply outcome_bind_returns in Hpop as ([] & _ & Hpop). cbn in Hpop.
    apply outcome_bind_returns in Hpop as (k & _ & Hpop). by injection Hpop as <- _.
Qed.
(** [pn_proactor_connect] when the address does not resolve, on a proactor
    with no wake under way: the error is recorded with [errno] and the driver
    closed, no connection is attempted, and the context is woken: it is the
    one element of the wake list and the eventfd is written, so that a
    thread will process the connection and hand out the error. *)
Theorem pn_proactor_connect_unresolved d tfd addr_host addr_port server0 addrinfo0 ai0 e net
    errno now w :
  0 ≤ tfd →
  (∀ h, contexts (w_p w) = Some h → is_Some (w_mem w !! h)) →
  wake_list_first (w_p w) = None → wakes_in_progress (w_p w) = false →
  eventfd (w_p w) ≠ -1 → w_eventfd w + 1 < 2 ^ 64 - 1 →
  ∃ s, pn_proactor_connect d tfd addr_host addr_port server0 addrinfo0 ai0 (pgai_fails e) net
         errno now w = Returns s ∧
    let ctx := length (w_mem w) in
    pc_context (cs_pc s) = ctx ∧ contexts (w_p (cs_world s)) = Some ctx ∧
    cs_log s = [act_error "connect to " e] ∧
    driver (cs_pc s) =
      pn_connection_driver_close
        (pn_connection_driver_errorf (pn_connection_driver_bind (pn_connection_open d))
           "connect to " addr_host addr_port e) ∧
    sockfd (pc_psocket (cs_pc s)) = -1 ∧ w_epoll (cs_world s) = w_epoll w ∧
    wake_queue (cs_world s) = [ctx] ∧ wakes_in_progress (w_p (cs_world s)) = true ∧
    w_eventfd (cs_world s) = w_eventfd w + 1 ∧
    (∃ c, w_mem (cs_world s) !! ctx = Some c ∧ wake_ops c = 1).
Proof.
  intros Htfd Hhead Hfirst Hwip Hefd Hroom. unfold pn_proactor_connect.
  destruct (pn_proactor_connect_begin d tfd addr_host addr_port server0 addrinfo0 ai0 w Htfd Hhead)
    as (pc & w0 & w1 & -> & Hadd & Hctx & Hps & Htm & Hco & Hdi & Hdr & Hev & Hk & Hp & Hlen & Hc).
  cbn [obind]. rewrite Hadd. cbn [obind].
  destruct Hc as (c & Hc & Hops & Hwork & Hnext & _).
  unfold on_conn_world, psocket_error_pconnection. cbn. rewrite Hctx.
  rewrite (wake_first (length (w_mem w)) w1 c Hc Hops Hwork)
    by (by rewrite Hp).
  cbn. unfold wake_notify. cbn. rewrite Hp. cbn.
  destruct (eventfd (w_p w) =? -1) eqn:E; [lia|].
  unfold eventfd_write. rewrite Hev.
  destruct (w_eventfd w + 1 <? 2 ^ 64 - 1) eqn:E'; [|lia].
  cbn. eexists. split; [reflexivity|]. cbn. rewrite Hps, Hdr, Hk. cbn.
  assert (Hlt : (length (w_mem w) < length (w_mem w1))%nat) by lia.
  repeat split; try done.
  - by rewrite Hp.
  - unfold wake_queue. cbn. rewrite length_insert, Hlen. cbn.
    rewrite list_lookup_insert_eq by done. cbn. rewrite Hnext. by destruct (length (w_mem w)).
  - eexists. split; [by apply list_lookup_insert_eq|done].
Qed.
End ProactorConnect.

(** On a new proactor, a connect whose two addresses both fail at once:
    the eventfd is written and the wake list stays empty. *)
Lemma pn_proactor_connect_attempts_witness :
  ∃ w0 s, pn_proactor 3 4 5 = Some w0 ∧
    pn_proactor_connect (λ d, d) test_open_driver 7 "localhost" "5672" false None []
      (pgai_ok [socket_fails 97; connect_fails 8 111]) [] 0 1000 w0 = Returns s ∧
    cs_log s = [act_error "on connect" 111] ∧
    w_eventfd (cs_world s) = w_eventfd w0 + 1 ∧
    wake_list_first (w_p (cs_world s)) = None.
Proof.
  destruct (pn_proactor 3 4 5) as [w0|] eqn:H0; [|vm_compute in H0; discriminate].
  assert (Hhead : contexts (w_p w0) = None)
    by (vm_compute in H0; injection H0 as <-; reflexivity).
  assert (Hefd : eventfd (w_p w0) = 4)
    by (vm_compute in H0; injection H0 as <-; reflexivity).
  assert (Hev : w_eventfd w0 = 0)
    by (vm_compute in H0; injection H0 as <-; reflexivity).
  assert (Hfirst : wake_list_first (w_p w0) = None)
    by (vm_compute in H0; injection H0 as <-; reflexivity).
  destruct (pn_proactor_connect_attempts (λ d, d) test_open_driver 7 "localhost" "5672" false
              None [] [socket_fails 97; connect_fails 8 111] [] 0 1000 w0) as [_ Hfail].
  - lia.
  - intros h Hh. rewrite Hhead in Hh. discriminate.
  - destruct Hfail as (s & Hrun & Hres).
    + apply Forall_cons; split; [exact I|]. apply Forall_cons; split; [|constructor].
      cbn. unfold EINPROGRESS. lia.
    + rewrite Hefd. lia.
    + rewrite Hev. lia.
    + cbv zeta in Hres. destruct Hres as (_ & _ & _ & Hlog & _ & Hev' & Hfirst' & _).
      exists w0, s. split; [reflexivity|]. split; [exact Hrun|]. split; [exact Hlog|].
      split; [exact Hev'|]. by rewrite Hfirst'.
Defined.

(** On a new proactor, a connect to a name that does not resolve. *)
Lemma pn_proactor_connect_unresolved_witness :
  ∃ w0 s, pn_proactor 3 4 5 = Some w0 ∧
    pn_proactor_connect (λ d, d) test_open_driver 7 "nowhere" "5672" false None []
      (pgai_fails 2) [] 0 1000 w0 = Returns s ∧
    cs_log s = [act_error "connect to " 2] ∧ wake_queue (cs_world s) = [1%nat] ∧
    w_eventfd (cs_world s) = w_eventfd w0 + 1.
Proof.
  destruct (pn_proactor 3 4 5) as [w0|] eqn:H0; [|vm_compute in H0; discriminate].
  assert (Hhead : contexts (w_p w0) = None)
    by (vm_compute in H0; injection H0 as <-; reflexivity).
  assert (Hefd : eventfd (w_p w0) = 4)
    by (vm_compute in H0; injection H0 as <-; reflexivity).
  assert (Hev : w_eventfd w0 = 0)
    by (vm_compute in H0; injection H0 as <-; reflexivity).
  assert (Hfirst : wake_list_first (w_p w0) = None)
    by (vm_compute in H0; injection H0 as <-; reflexivity).
  assert (Hwip : wakes_in_progress (w_p w0) = false)
    by (vm_compute in H0; injection H0 as <-; reflexivity).
  assert (Hlen : length (w_mem w0) = 1%nat)
    by (vm_compute in H0; injection H0 as <-; reflexivity).
  destruct (pn_proactor_connect_unresolved (λ d, d) test_open_driver 7 "nowhere" "5672" false
              None [] 2 [] 0 1000 w0) as (s & Hrun & Hres).
  - lia.
  - intros h Hh. rewrite Hhead in Hh. discriminate.
  - exact Hfirst.
  - exact Hwip.
  - rewrite Hefd. lia.
  - rewrite Hev. lia.
  - cbv zeta in Hres. destruct Hres as (_ & _ & Hlog & _ & _ & _ & Hq & _ & Hev' & _).
    exists w0, s. split; [reflexivity|]. split; [exact Hrun|]. split; [exact Hlog|].
    split; [by rewrite Hq, Hlen|exact Hev'].
Defined.

(** ** No proactor event is stranded

    The proactor's own events (interrupts, the timeout, inactivity) are
    handed out by whichever thread gets the proactor's batch.  What follows
    shows that whenever there is something to hand out and no thread owns
    the batch, the proactor's context is in the wake list with the eventfd
    written, and the thread that takes the wake gets the batch. *)

(** Something is waiting to be handed out: what makes
    [proactor_update_batch] return true. *)
Definition proactor_pending (w : world) : bool :=
  let p := w_p w in
  has_peek (collector p) || (0 <? deferred_interrupts p) || timer_expired p
  || (0 <? interrupts p) || inactive p.

(** The part of the world the wake of the proactor's context depends on. *)
Definition wake_view (w : world)
  : list pcontext_t * nat * Z * Z * epoll_extended_t * option nat * option nat * bool * Z :=
  (w_mem w, p_context (w_p w), eventfd (w_p w), epollfd (w_p w), epoll_wake (w_p w),
   wake_list_first (w_p w), wake_list_last (w_p w), wakes_in_progress (w_p w), w_eventfd w).

(** The wake state of a proactor whose only context is its own, at address
    0: [idle] (not in the wake list), [queued] (in the list, the eventfd
    written), or [popped] (taken from the list by [wake_pop_front], before
    [wake_done]). *)
Inductive wake_phase : Set := idle | queued | popped.

Record wake_ok (ph : wake_phase) (w : world) (c : pcontext_t) : Prop := mk_wake_ok {
  wo_ctx : p_context (w_p w) = 0%nat;
  wo_mem : w_mem w = [c];
  wo_type : ctx_type c = PROACTOR;
  wo_next : wake_next c = None;
  wo_eventfd : eventfd (w_p w) ≠ -1;
  wo_epollfd : 0 ≤ epollfd (w_p w);
  wo_wakefd : 0 ≤ ee_fd (epoll_wake (w_p w));
  wo_epoll : is_Some (w_epoll w !! ee_fd (epoll_wake (w_p w)));
  wo_ops : wake_ops c = match ph with idle => 0 | _ => 1 end;
  wo_first : wake_list_first (w_p w) = match ph with queued => Some 0%nat | _ => None end;
  wo_last : wake_list_last (w_p w) = match ph with queued => Some 0%nat | _ => None end;
  wo_wip : wakes_in_progress (w_p w) = match ph with queued => true | _ => false end;
  wo_counter : 0 ≤ w_eventfd w;
  wo_written : ph = queued → 1 ≤ w_eventfd w
}.

(** The invariant: the context is idle or queued, and queued if something
    is pending while no thread owns the batch. *)
Definition ready (w : world) : Prop :=
  ∃ ph c, wake_ok ph w c ∧ ph ≠ popped ∧
          (working c = false → proactor_pending w = true → ph = queued).

Lemma proactor_pending_core w w' :
  core_of w' = core_of w → proactor_pending w' = proactor_pending w.
Proof. unfold core_of, proactor_pending. by intros [= -> -> -> -> -> _]. Qed.

(** A change that leaves the view alone and keeps the registrations. *)
Lemma wake_ok_frame ph w w' c :
  wake_ok ph w c → wake_view w' = wake_view w →
  (∀ fd, is_Some (w_epoll w !! fd) → is_Some (w_epoll w' !! fd)) →
  wake_ok ph w' c.
Proof.
  intros [] Hv Hk. unfold wake_view in Hv.
  injection Hv as Hmem Hctx Hefd Hepfd Hwake Hfirst Hlast Hwip Hev.
  constructor; rewrite ?Hmem, ?Hctx, ?Hefd, ?Hepfd, ?Hwake, ?Hfirst, ?Hlast, ?Hwip, ?Hev;
    try done.
  by apply Hk.
Qed.

Lemma wake_ok_same ph w w' c :
  wake_ok ph w c → wake_view w' = wake_view w → w_epoll w' = w_epoll w → wake_ok ph w' c.
Proof. intros Hok Hv Hk. eapply wake_ok_frame; [done..|]. by rewrite Hk. Qed.

(** Writing fields of the context other than those of the wake. *)
Lemma wake_ok_store ph w c c' :
  wake_ok ph w c → ctx_type c' = ctx_type c → wake_next c' = wake_next c →
  wake_ops c' = wake_ops c → wake_ok ph (store 0 c' w) c'.
Proof.
  intros [] Ht Hn Ho. destruct w as [mem p ke kv kt]. cbn in *. subst mem.
  constructor; cbn; try done; congruence.
Qed.

Lemma ready_frame w w' :
  ready w → wake_view w' = wake_view w →
  (∀ fd, is_Some (w_epoll w !! fd) → is_Some (w_epoll w' !! fd)) →
  (proactor_pending w' = true → proactor_pending w = true) →
  ready w'.
Proof.
  intros (ph & c & Hok & Hph & Hq) Hv Hk Hp.
  exists ph, c. split; [by eapply wake_ok_frame|]. split; [done|]. auto.
Qed.

Lemma rearm_registered epfd ee (k k' : gmap Z Z) fd :
  rearm epfd ee k = Returns k' → is_Some (k !! fd) → is_Some (k' !! fd).
Proof.
  unfold rearm, epoll_ctl. destruct (_ || _); [discriminate|].
  destruct (_ !! ee_fd ee) eqn:Hfd; [|discriminate]. cbn. intros [= <-] Hin.
  unfold epoll_set in *. destruct (decide (fd = ee_fd ee)) as [->|Hne].
  - rewrite lookup_insert_eq. by eexists.
  - by rewrite lookup_insert_ne.
Qed.

Lemma rearm_total epfd ee (k : gmap Z Z) :
  0 ≤ epfd → 0 ≤ ee_fd ee → is_Some (k !! ee_fd ee) → ∃ k', rearm epfd ee k = Returns k'.
Proof.
  intros H1 H2 [m Hm]. unfold rearm, epoll_ctl.
  destruct (epfd <? 0) eqn:E1; [lia|]. destruct (ee_fd ee <? 0) eqn:E2; [lia|]. cbn.
  unfold epoll_set in *. rewrite Hm. cbn. by eexists.
Qed.

(** [proactor_update_batch] turns what is pending into one event of the
    collector, and reports whether there is one. *)
Lemma proactor_update_batch_pending w :
  wake_view (proactor_update_batch w).2 = wake_view w ∧
  w_epoll (proactor_update_batch w).2 = w_epoll w ∧
  (proactor_update_batch w).1 = proactor_pending w ∧
  proactor_has_event (proactor_update_batch w).2 = proactor_pending w ∧
  proactor_pending (proactor_update_batch w).2 = proactor_pending w.
Proof.
  unfold proactor_update_batch, proactor_pending, proactor_has_event, proactor_add_event,
    wake_view, update_p.
  destruct w as [mem p ke kv kt]. destruct p. cbn.
  destruct collector0 as [|e q]; cbn; [|done].
  destruct (0 <? deferred_interrupts0) eqn:Hd; cbn; [done|].
  destruct timer_expired0; cbn; [done|].
  destruct (0 <? interrupts0) eqn:Hi; cbn.
  - rewrite andb_false_r.
    destruct (0 <? size_decr interrupts0) eqn:Hi'; cbn; rewrite ?Hd, ?Hi;
      repeat split; reflexivity.
  - destruct inactive0; cbn; rewrite ?Hd, ?Hi; repeat split; reflexivity.
Qed.

Section Ready.
Variable NDEBUG : bool.

(** [wake] of the proactor's context followed by the [wake_notify] it asks
    for: if the context is not working it is queued afterwards. *)
Lemma wake_then_notify_ready ph w c w' :
  wake_ok ph w c → ph ≠ popped →
  ('(notify, w) ← wake 0 w; if notify then wake_notify w else Returns w) = Returns w' →
  ∃ ph' c', wake_ok ph' w' c' ∧ ph' ≠ popped ∧ working c' = working c ∧
            core_of w' = core_of w ∧ (working c = false → ph' = queued).
Proof.
  intros Hok Hph H.
  pose proof (wake_then_notify_core _ _ _ H) as Hcore.
  apply outcome_bind_returns in H as ([notify w1] & Hwake & H).
  pose proof Hok as []. unfold wake, load in Hwake. rewrite wo_mem0 in Hwake. cbn in Hwake.
  destruct ph; [| |done].
  - (* idle *)
    rewrite wo_ops0 in Hwake. cbn in Hwake.
    destruct (working c) eqn:Hwork; cbn in Hwake.
    + injection Hwake as <- <-. injection H as <-.
      exists idle, c. by repeat split.
    + change (int_incr 0) with (Returns (A := Z) 1) in Hwake. cbn in Hwake.
      rewrite wo_first0 in Hwake. cbn in Hwake. rewrite wo_wip0 in Hwake. cbn in Hwake.
      injection Hwake as <- <-.
      unfold wake_notify in H. cbn in H.
      destruct (eventfd (w_p w) =? -1) eqn:E; [lia|].
      destruct (eventfd_write (w_eventfd w)) as [n|] eqn:Hn; [|discriminate].
      injection H as <-.
      exists queued, (set_wake_ops 1 c). split; [|by repeat split].
      unfold eventfd_write in Hn. destruct (_ <? _) eqn:E2; [|discriminate].
      injection Hn as <-.
      destruct w as [mem p ke kv kt]. cbn in *. subst mem.
      constructor; cbn; try done; lia.
  - (* queued *)
    rewrite wo_ops0 in Hwake. cbn in Hwake. injection Hwake as <- <-. injection H as <-.
    exists queued, c. by repeat split.
Qed.

Lemma proactor_timer_set_view t w w' :
  proactor_timer_set NDEBUG t w = Returns w' →
  wake_view w' = wake_view w ∧ w_epoll w' = w_epoll w.
Proof.
  unfold proactor_timer_set. intros H.
  apply outcome_bind_returns in H as ([pt k] & _ & H). by injection H as <-.
Qed.

Lemma proactor_timer_callback_view w n w' :
  proactor_timer_callback NDEBUG w = Returns (n, w') →
  wake_view w' = wake_view w ∧ w_epoll w' = w_epoll w.
Proof.
  unfold proactor_timer_callback. intros H.
  apply outcome_bind_returns in H as ([[n' pt] k] & _ & H). by injection H as <- <-.
Qed.

Lemma proactor_rearm_timer_view w w' :
  proactor_rearm_timer w = Returns w' →
  wake_view w' = wake_view w ∧
  ∀ fd, is_Some (w_epoll w !! fd) → is_Some (w_epoll w' !! fd).
Proof.
  unfold proactor_rearm_timer. intros H.
  apply outcome_bind_returns in H as (k & Hk & H). injection H as <-.
  split; [done|]. intros fd. by apply (rearm_registered _ _ _ _ _ Hk).
Qed.

(** [wake_pop_front] takes the context from the list if it is there. *)
Lemma wake_pop_front_ready ph w c r w' :
  wake_ok ph w c → ph ≠ popped →
  wake_pop_front NDEBUG w = Returns (r, w') →
  core_of w' = core_of w ∧
  ((ph = queued ∧ r = Some 0%nat ∧ wake_ok popped w' c ∧ w_eventfd w' = 0) ∨
   (ph = idle ∧ r = None ∧ wake_ok idle w' c)).
Proof.
  intros Hok Hph H. pose proof (wake_pop_front_core _ _ _ _ H) as Hcore.
  split; [done|]. pose proof Hok as [].
  unfold wake_pop_front in H.
  apply outcome_bind_returns in H as ([] & _ & H).
  apply outcome_bind_returns in H as ([r1 w1] & H1 & H).
  apply outcome_bind_returns in H as (k & Hk & H). injection H as <- <-.
  destruct ph; [| |done].
  - right. rewrite wo_first0 in H1. injection H1 as <- <-.
    split; [done|]. split; [done|].
    eapply wake_ok_frame; [exact Hok|done|].
    intros fd. by apply (rearm_registered _ _ _ _ _ Hk).
  - left. rewrite wo_first0 in H1. unfold load in H1. rewrite wo_mem0 in H1. cbn in H1.
    rewrite wo_next0 in H1. cbn in H1. injection H1 as <- <-.
    split; [done|]. split; [done|]. split; [|done].
    assert (Hc : set_wake_next None c = c) by (destruct c; cbn in *; by subst).
    destruct w as [mem p ke kv kt]. cbn in *. subst mem. cbn. rewrite Hc.
    constructor; cbn; try done.
    by apply (rearm_registered _ _ _ _ _ Hk).
Qed.

Lemma wake_pop_front_total w c :
  wake_ok queued w c → ∃ w', wake_pop_front NDEBUG w = Returns (Some 0%nat, w').
Proof.
  intros []. unfold wake_pop_front. rewrite wo_wip0.
  replace (assert NDEBUG true) with (Returns ()) by (by destruct NDEBUG).
  cbn. rewrite wo_first0. unfold load. rewrite wo_mem0. cbn. rewrite wo_next0. cbn.
  destruct (rearm_total (epollfd (w_p w)) (epoll_wake (w_p w)) (w_epoll w)) as [k Hk];
    [done..|].
  rewrite Hk. cbn. by eexists.
Qed.

Lemma wake_done_ready w c w' :
  wake_ok popped w c → wake_done NDEBUG 0 w = Returns w' →
  w' = store 0 (set_wake_ops 0 c) w ∧ wake_ok idle w' (set_wake_ops 0 c) ∧
  core_of w' = core_of w.
Proof.
  intros Hok H. pose proof (wake_done_core _ _ _ _ H) as Hcore. pose proof Hok as [].
  unfold wake_done, load in H. rewrite wo_mem0 in H. cbn in H. rewrite wo_ops0 in H.
  apply outcome_bind_returns in H as ([] & _ & H).
  change (int_decr 1) with (Returns (A := Z) 0) in H. cbn in H. injection H as <-.
  split; [done|]. split; [|done].
  destruct w as [mem p ke kv kt]. cbn in *. subst mem. constructor; cbn; done.
Qed.

Lemma wake_done_total w c :
  wake_ok popped w c → ∃ w', wake_done NDEBUG 0 w = Returns w'.
Proof.
  intros []. unfold wake_done, load. rewrite wo_mem0. cbn. rewrite wo_ops0.
  replace (assert NDEBUG (0 <? 1)) with (Returns ()) by (by destruct NDEBUG).
  cbn. change (int_decr 1) with (Returns (A := Z) 0). cbn. by eexists.
Qed.

(** From the test of [working] to the end of [proactor_process]. *)
Definition proactor_process_tail (w : world) : outcome (option batch_t * world) :=
  c ← load w (p_context (w_p w));
  let '(has_batch, w) :=
    if negb (working c) then proactor_update_batch w else (false, w) in
  if has_batch then
    w ← set_ctx_working (p_context (w_p w)) true w;
    Returns (Some proactor_batch, w)
  else
    let rearm_timer := negb (timer_armed (w_p w)) in
    w ← (if rearm_timer then proactor_rearm_timer w else Returns w);
    Returns (None, w).

Lemma proactor_process_tail_ready ph w c b w' :
  wake_ok ph w c → ph ≠ popped →
  proactor_process_tail w = Returns (b, w') →
  ready w' ∧
  (working c = false → proactor_pending w = true →
     b = Some proactor_batch ∧ proactor_has_event w' = true ∧
     w_mem w' = [set_working true c] ∧ w_eventfd w' = w_eventfd w).
Proof.
  intros Hok Hph H. pose proof Hok as []. unfold proactor_process_tail, load in H.
  rewrite wo_ctx0, wo_mem0 in H. cbn in H.
  destruct (working c) eqn:Hwork; cbn in H.
  - split; [|done].
    apply outcome_bind_returns in H as (w1 & H1 & H). injection H as <- <-.
    exists ph, c. split; [|by rewrite Hwork].
    destruct (negb (timer_armed (w_p w))).
    + apply proactor_rearm_timer_view in H1 as [Hv Hk]. by eapply wake_ok_frame.
    + by injection H1 as <-.
  - destruct (proactor_update_batch_pending w) as (Hv & Hk & Hb & He & Hp).
    destruct (proactor_update_batch w) as [has_batch w1]. cbn in Hv, Hk, Hb, He, Hp.
    assert (Hok1 : wake_ok ph w1 c) by (by eapply wake_ok_same).
    pose proof Hok1 as []. subst has_batch.
    destruct (proactor_pending w) eqn:Hpend.
    + apply outcome_bind_returns in H as (w2 & H2 & H). injection H as <- <-.
      unfold set_ctx_working, load in H2. rewrite wo_ctx1, wo_mem1 in H2. cbn in H2.
      injection H2 as <-. split.
      * exists ph, (set_working true c). split; [by eapply wake_ok_store; [exact Hok1|..]|]. by split.
      * intros _ _. split; [done|]. split; [done|]. cbn. rewrite wo_mem1.
        split; [done|]. unfold wake_view in Hv. by injection Hv.
    + split; [|done].
      apply outcome_bind_returns in H as (w2 & H2 & H). injection H as <- <-.
      assert (Hw2 : wake_view w2 = wake_view w1 ∧
                    (∀ fd, is_Some (w_epoll w1 !! fd) → is_Some (w_epoll w2 !! fd)) ∧
                    core_of w2 = core_of w1).
      { destruct (negb (timer_armed (w_p w1))).
        - pose proof (proactor_rearm_timer_core _ _ H2).
          apply proactor_rearm_timer_view in H2 as [? ?]. done.
        - by injection H2 as <-. }
      destruct Hw2 as (Hv2 & Hk2 & Hc2).
      exists ph, c. split; [by eapply wake_ok_frame|]. split; [done|].
      intros _. rewrite (proactor_pending_core _ _ Hc2), Hp. done.
Qed.

Lemma proactor_process_wake w :
  proactor_process NDEBUG false w =
  (w ← wake_done NDEBUG (p_context (w_p w)) w; proactor_process_tail w).
Proof. reflexivity. Qed.

(** [proactor_process] on a timer event, or on a wake after
    [wake_pop_front] has returned the context. *)
Lemma proactor_process_ready (timeout : bool) ph w c b w' :
  wake_ok ph w c → (if timeout then ph ≠ popped else ph = popped) →
  proactor_process NDEBUG timeout w = Returns (b, w') → ready w'.
Proof.
  intros Hok Hph H. destruct timeout.
  - unfold proactor_process in H.
    apply outcome_bind_returns in H as ([fired w1] & H1 & H).
    apply outcome_bind_returns in H as (w2 & H2 & H).
    change (proactor_process_tail w2 = Returns (b, w')) in H.
    apply outcome_bind_returns in H1 as ([n w0] & Hcb & H1). injection H1 as <- <-.
    apply proactor_timer_callback_view in Hcb as [Hv Hk]. injection H2 as <-.
    match type of H with proactor_process_tail ?x = _ =>
      assert (Hok2 : wake_ok ph x c)
    end.
    { eapply wake_ok_same; [exact Hok| |].
      - rewrite <- Hv. by destruct (_ && _).
      - rewrite <- Hk. by destruct (_ && _). }
    by destruct (proactor_process_tail_ready _ _ _ _ _ Hok2 Hph H).
  - rewrite proactor_process_wake in H.
    apply outcome_bind_returns in H as (w2 & H2 & H).
    subst ph. pose proof Hok as []. rewrite wo_ctx0 in H2.
    destruct (wake_done_ready _ _ _ Hok H2) as (_ & Hok2 & _).
    by destruct (proactor_process_tail_ready _ _ _ _ _ Hok2 ltac:(done) H).
Qed.

Lemma process_inbound_wake_ready w b w' :
  ready w →
  process_inbound_wake NDEBUG id (λ w _, w) no_pconnection no_listener w = Returns (b, w') →
  ready w'.
Proof.
  intros (ph & c & Hok & Hph & Hq) H. unfold process_inbound_wake, on_world in H. cbn in H.
  apply outcome_bind_returns in H as ([r w1] & Hpop & H).
  apply outcome_bind_returns in Hpop as ([r' w1'] & Hpop & Heq). injection Heq as <- <-.
  destruct (wake_pop_front_ready _ _ _ _ _ Hok Hph Hpop)
    as (Hcore & [(-> & -> & Hok1 & _)|(-> & -> & Hok1)]).
  - pose proof Hok1 as []. unfold load in H. rewrite wo_mem0 in H. cbn in H.
    rewrite wo_type0 in H.
    apply outcome_bind_returns in H as ([b2 w2] & Hp & Heq). injection Heq as <- <-.
    by eapply (proactor_process_ready false).
  - injection H as <- <-. exists idle, c. split; [done|]. split; [done|].
    intros Hwork Hpend. rewrite (proactor_pending_core _ _ Hcore) in Hpend. auto.
Qed.

Lemma proactor_epoll_ready can_block kernel : ∀ w b w',
  ready w → proactor_epoll NDEBUG can_block kernel w = Returns (b, w') → ready w'.
Proof.
  unfold proactor_epoll.
  induction kernel as [|ev kernel IH]; intros w b w' Hr H; simpl in H.
  - destruct can_block; [discriminate|]. by injection H as <- <-.
  - destruct ev as [errno| |type owner events].
    + destruct can_block; [eauto|]. by injection H as <- <-.
    + destruct can_block; [eauto|]. by injection H as <- <-.
    + apply outcome_bind_returns in H as ([batch w1] & H1 & H).
      assert (Hr1 : ready w1).
      { destruct type; try discriminate H1.
        - by eapply process_inbound_wake_ready.
        - unfold on_world in H1. cbn in H1.
          apply outcome_bind_returns in H1 as ([b2 w2] & Hp & Heq). injection Heq as <- <-.
          destruct Hr as (ph & c & Hok & Hph & _).
          by eapply (proactor_process_ready true). }
      destruct batch as [b1|]; [by injection H as <- <-|eauto].
Qed.

Lemma proactor_step_ready op s s' :
  ready (ps_world s) → proactor_step NDEBUG op s = Returns s' → ready (ps_world s').
Proof.
  destruct s as [w d]. cbn. intros Hr H. destruct op; simpl in H.
  - (* interrupt *)
    apply outcome_bind_returns in H as (w1 & H1 & H). injection H as <-. cbn.
    unfold pn_proactor_interrupt in H1.
    destruct Hr as (ph & c & Hok & Hph & _).
    set (w0 := update_p (λ p, set_interrupts (size_incr (interrupts p)) p) w) in *.
    assert (Hok0 : wake_ok ph w0 c) by (by eapply wake_ok_same).
    pose proof Hok0 as []. rewrite wo_ctx0 in H1.
    destruct (wake_then_notify_ready _ _ _ _ Hok0 Hph H1) as (ph' & c' & Hok' & Hph' & Hw & _ & Hq).
    exists ph', c'. split; [done|]. split; [done|]. rewrite Hw. auto.
  - (* set_timeout *)
    apply outcome_bind_returns in H as (w1 & H1 & H). injection H as <-. cbn.
    unfold pn_proactor_set_timeout in H1.
    set (w0 := update_p (set_timer_cancelled false) w) in *.
    destruct (t mod 2 ^ 32 =? 0).
    + destruct Hr as (ph & c & Hok & Hph & _).
      apply outcome_bind_returns in H1 as ([notify w2] & H2 & H1).
      apply outcome_bind_returns in H2 as (w3 & H3 & H2).
      apply proactor_timer_set_view in H3 as [Hv Hk].
      set (w4 := update_p (set_timer_expired true) w3) in *.
      assert (Hok4 : wake_ok ph w4 c).
      { eapply wake_ok_same; [exact Hok|exact Hv|exact Hk]. }
      pose proof Hok4 as []. rewrite wo_ctx0 in H2.
      assert (Hwn : ('(notify, w) ← wake 0 w4; if notify then wake_notify w else Returns w)
                    = Returns w1) by (by rewrite H2).
      destruct (wake_then_notify_ready _ _ _ _ Hok4 Hph Hwn)
        as (ph' & c' & Hok' & Hph' & Hw & _ & Hq).
      exists ph', c'. split; [done|]. split; [done|]. rewrite Hw. auto.
    + apply outcome_bind_returns in H1 as ([notify w2] & H2 & H1).
      apply outcome_bind_returns in H2 as (w3 & H3 & H2). injection H2 as <- <-.
      injection H1 as <-. pose proof (proactor_timer_set_core _ _ _ _ H3) as Hc.
      apply proactor_timer_set_view in H3 as [Hv Hk].
      eapply ready_frame; [exact Hr| | |].
      * by rewrite Hv.
      * by rewrite Hk.
      * rewrite (proactor_pending_core _ _ Hc). done.
  - (* cancel_timeout *)
    apply outcome_bind_returns in H as (w1 & H1 & H). injection H as <-. cbn.
    unfold pn_proactor_cancel_timeout in H1.
    pose proof (proactor_timer_set_core _ _ _ _ H1) as Hc.
    apply proactor_timer_set_view in H1 as [Hv Hk].
    eapply ready_frame; [exact Hr| | |].
    + by rewrite Hv.
    + by rewrite Hk.
    + rewrite (proactor_pending_core _ _ Hc). unfold proactor_pending. cbn.
      rewrite orb_false_r. intros Hp. apply orb_true_iff in Hp as [Hp| ->];
        [|by rewrite orb_true_r].
      apply orb_true_iff in Hp as [Hp| ->]; [|by rewrite !orb_true_r].
      rewrite Hp. done.
  - (* the timer fires *)
    destruct (timerfd_fire _); injection H as <-; cbn; [|done].
    eapply ready_frame; [exact Hr|done..].
  - apply outcome_bind_returns in H as ([b w1] & H1 & H). injection H as <-.
    by eapply proactor_epoll_ready.
  - apply outcome_bind_returns in H as ([b w1] & H1 & H). injection H as <-.
    by eapply proactor_epoll_ready.
  - (* batch_next *)
    unfold proactor_batch_next in H.
    destruct (proactor_update_batch_pending w) as (Hv & Hk & _ & _ & Hp).
    destruct (proactor_update_batch w) as [b w1]. cbn in Hv, Hk, Hp.
    destruct (pn_collector_next (collector (w_p w1))) as [e q] eqn:Hnext.
    injection H as <-. cbn.
    eapply ready_frame; [exact Hr| | |].
    + by rewrite <- Hv.
    + by rewrite <- Hk.
    + rewrite <- Hp. unfold proactor_pending. cbn.
      unfold pn_collector_next in Hnext.
      destruct (collector (w_p w1)) as [|e' q']; injection Hnext as <- <-; [done|].
      cbn. done.
  - (* done *)
    apply outcome_bind_returns in H as (w1 & H1 & H). injection H as <-. cbn.
    unfold pn_proactor_done in H1.
    destruct Hr as (ph & c & Hok & Hph & _). pose proof Hok as [].
    apply outcome_bind_returns in H1 as (w2 & H2 & H1).
    unfold set_ctx_working, load in H2. rewrite wo_ctx0, wo_mem0 in H2. cbn in H2.
    injection H2 as <-.
    assert (Hok2 : wake_ok ph (store 0 (set_working false c) w) (set_working false c))
      by (by eapply wake_ok_store; [exact Hok|..]).
    destruct (proactor_update_batch_pending (store 0 (set_working false c) w))
      as (Hv & Hk & _ & He & Hp).
    destruct (proactor_update_batch (store 0 (set_working false c) w)) as [b w3].
    cbn in Hv, Hk, He, Hp.
    assert (Hok3 : wake_ok ph w3 (set_working false c)) by (by eapply wake_ok_same).
    apply outcome_bind_returns in H1 as ([notify w4] & H4 & H1).
    apply outcome_bind_returns in H1 as (w5 & H5 & H1).
    assert (Hw5 : ∃ ph' c', wake_ok ph' w5 c' ∧ ph' ≠ popped ∧ working c' = false ∧
                    core_of w5 = core_of w3 ∧
                    (proactor_has_event w3 = true → ph' = queued)).
    { destruct (proactor_has_event w3) eqn:Hev.
      - pose proof Hok3 as []. rewrite wo_ctx1 in H4.
        assert (Hwn : ('(notify, w) ← wake 0 w3; if notify then wake_notify w else Returns w)
                      = Returns w5) by (by rewrite H4).
        destruct (wake_then_notify_ready _ _ _ _ Hok3 Hph Hwn)
          as (ph' & c' & Hok' & Hph' & Hw & Hc & Hq).
        exists ph', c'. split; [done|]. split; [done|]. split; [by rewrite Hw|].
        split; [done|]. intros _. by apply Hq.
      - injection H4 as <- <-. injection H5 as <-.
        exists ph, (set_working false c). split; [done|]. split; [done|].
        split; [done|]. split; [done|]. discriminate. }
    destruct Hw5 as (ph' & c' & Hok' & Hph' & Hwork & Hcore & Hq).
    assert (Hw1 : wake_view w1 = wake_view w5 ∧
                  (∀ fd, is_Some (w_epoll w5 !! fd) → is_Some (w_epoll w1 !! fd)) ∧
                  core_of w1 = core_of w5).
    { destruct (negb (timer_armed (w_p w))).
      - pose proof (proactor_rearm_timer_core _ _ H1).
        apply proactor_rearm_timer_view in H1 as [? ?]. done.
      - by injection H1 as <-. }
    destruct Hw1 as (Hv1 & Hk1 & Hc1).
    exists ph', c'. split; [by eapply wake_ok_frame|]. split; [done|].
    intros _ Hpend. apply Hq.
    rewrite (proactor_pending_core _ _ Hc1), (proactor_pending_core _ _ Hcore) in Hpend.
    by rewrite He, <- Hp.
  - (* inactive *)
    apply outcome_bind_returns in H as (w1 & H1 & H). injection H as <-. cbn.
    unfold proactor_set_inactive in H1.
    destruct Hr as (ph & c & Hok & Hph & _).
    set (w0 := update_p (set_inactive true) w) in *.
    assert (Hok0 : wake_ok ph w0 c) by (by eapply wake_ok_same).
    pose proof Hok0 as []. rewrite wo_ctx0 in H1.
    destruct (wake_then_notify_ready _ _ _ _ Hok0 Hph H1) as (ph' & c' & Hok' & Hph' & Hw & _ & Hq).
    exists ph', c'. split; [done|]. split; [done|]. rewrite Hw. auto.
  - (* the stack *)
    injection H as <-. cbn. eapply ready_frame; [exact Hr|done..].
Qed.

Lemma proactor_run_ready ops : ∀ s s',
  ready (ps_world s) → proactor_run NDEBUG ops s = Returns s' → ready (ps_world s').
Proof.
  induction ops as [|op ops IH]; simpl; intros s s' Hr H; [by injection H as <-|].
  apply outcome_bind_returns in H as (s1 & Hstep & H).
  eapply IH; [|exact H]. by eapply proactor_step_ready.
Qed.
End Ready.

#[local] Arguments proactor_process : simpl never.
#[local] Arguments proactor_process_tail : simpl never.

Lemma pn_proactor_ready epfd efd tfd w0 : pn_proactor epfd efd tfd = Some w0 → ready w0.
Proof.
  unfold pn_proactor. destruct (_ || _) eqn:Hneg; [discriminate|].
  apply orb_false_iff in Hneg as [Hneg Htfd]. apply orb_false_iff in Hneg as [Hepfd Hefd].
  apply Z.ltb_ge in Hepfd, Hefd, Htfd.
  destruct (start_polling _ _ _) as [[tio k] b] eqn:H1.
  destruct (start_polling _ _ k) as [[wio k'] b'] eqn:H2.
  intros [= <-]. exists idle, (pcontext_init PROACTOR).
  pose proof (start_polling_polling (mk_epoll_extended efd WAKE EPOLLIN false) epfd k) as Hp.
  rewrite H2 in Hp. cbn in Hp. destruct Hp as (_ & Hfd & _).
  split; [|by split].
  constructor; cbn; try done; try lia.
  rewrite Hfd. unfold start_polling, epoll_ctl in H2. cbn in H2.
  destruct (epfd <? 0) eqn:E1; [lia|]. destruct (efd <? 0) eqn:E2; [lia|]. cbn in H2.
  destruct (_ !! efd) as [m|] eqn:Hm; cbn in H2; injection H2 as <- <- <-.
  - unfold epoll_set in *. by rewrite Hm.
  - unfold epoll_set in *. rewrite lookup_insert_eq. by eexists.
Qed.

(** In every state a new proactor reaches through calls of its interface
    and kernel events: if something is waiting to be handed out (an event in
    the collector, an interrupt, an expired timeout, inactivity) and no
    thread owns the proactor's batch, then the proactor's context has a wake
    outstanding, is the element of the wake list, and the eventfd is
    written; and the thread that takes the wake from [epoll_wait] gets the
    proactor's batch with an event in it, the eventfd reset. *)
Theorem proactor_event_not_stranded NDEBUG epfd efd tfd w0 ops s c :
  pn_proactor epfd efd tfd = Some w0 →
  proactor_run NDEBUG ops (mk_proactor_state w0 []) = Returns s →
  let w := ps_world s in
  w_mem w !! p_context (w_p w) = Some c → working c = false →
  proactor_pending w = true →
  wake_ops c = 1 ∧ wake_queue w = [p_context (w_p w)] ∧
  wakes_in_progress (w_p w) = true ∧ 1 ≤ w_eventfd w ∧
  ∀ owner events, ∃ w' c' e,
    proactor_epoll NDEBUG false [epoll_wait_event WAKE owner events] w
      = Returns (Some proactor_batch, w') ∧
    w_mem w' !! p_context (w_p w') = Some c' ∧ working c' = true ∧ wake_ops c' = 0 ∧
    (proactor_batch_next w').1 = Some e ∧ w_eventfd w' = 0.
Proof.
  intros H0 Hrun w Hc Hwork Hpend.
  pose proof (proactor_run_ready NDEBUG ops (mk_proactor_state w0 []) s
                (pn_proactor_ready _ _ _ _ H0) Hrun) as (ph & c0 & Hok & Hph & Hq).
  fold w in Hok, Hq. pose proof Hok as [].
  rewrite wo_ctx0, wo_mem0 in Hc. injection Hc as ->.
  specialize (Hq Hwork Hpend). subst ph.
  split; [done|]. split; [by unfold wake_queue; rewrite wo_mem0, wo_first0, wo_ctx0|].
  split; [done|]. split; [by apply wo_written0|].
  intros owner events. unfold proactor_epoll. cbn.
  unfold process_inbound_wake, on_world. cbn.
  destruct (wake_pop_front_total NDEBUG w c Hok) as [w1 Hpop]. rewrite Hpop. cbn.
  destruct (wake_pop_front_ready NDEBUG _ _ _ _ _ Hok ltac:(done) Hpop)
    as (Hcore1 & [(_ & _ & Hok1 & Hev1)|(? & _)]); [|done].
  pose proof Hok1 as []. unfold load. rewrite wo_mem1. cbn. rewrite wo_type1.
  rewrite proactor_process_wake. rewrite wo_ctx1.
  destruct (wake_done_total NDEBUG w1 c Hok1) as [w2 Hdone]. rewrite Hdone. cbn.
  destruct (wake_done_ready NDEBUG _ _ _ Hok1 Hdone) as (Hw2 & Hok2 & Hcore2).
  assert (Hpend2 : proactor_pending w2 = true).
  { by rewrite (proactor_pending_core _ _ Hcore2), (proactor_pending_core _ _ Hcore1). }
  assert (∃ r, proactor_process_tail w2 = Returns r) as [[b w3] Htail].
  { pose proof Hok2 as []. unfold proactor_process_tail, load.
    rewrite wo_ctx2, wo_mem2. cbn. rewrite Hwork. cbn.
    destruct (proactor_update_batch_pending w2) as (Hv & Hk & Hb & _).
    destruct (proactor_update_batch w2) as [has_batch w2'] eqn:Hub. cbn in Hv, Hk, Hb.
    rewrite Hb, Hpend2.
    assert (Hok2' : wake_ok idle w2' (set_wake_ops 0 c)) by (by eapply wake_ok_same).
    pose proof Hok2' as []. unfold set_ctx_working, load. rewrite wo_ctx3, wo_mem3. cbn.
    by eexists. }
  rewrite Htail.
  destruct (proactor_process_tail_ready _ _ _ _ _ Hok2 ltac:(done) Htail) as [_ Hres].
  destruct Hres as (-> & Hev & Hmem & Hcnt); [done..|].
  cbn.
  assert (Hctx3 : p_context (w_p w3) = 0%nat).
  { unfold proactor_process_tail, load in Htail. pose proof Hok2 as [].
    rewrite wo_ctx2, wo_mem2 in Htail. cbn in Htail. rewrite Hwork in Htail. cbn in Htail.
    destruct (proactor_update_batch_pending w2) as (Hv & _).
    destruct (proactor_update_batch w2) as [has_batch w2']. cbn in Hv.
    unfold wake_view in Hv. injection Hv as _ Hctx _ _ _ _ _ _ _.
    destruct has_batch.
    - apply outcome_bind_returns in Htail as (w4 & H4 & Htail). injection Htail as <-.
      unfold set_ctx_working in H4. apply outcome_bind_returns in H4 as (c4 & _ & H4).
      injection H4 as <-. cbn. congruence.
    - apply outcome_bind_returns in Htail as (w4 & H4 & Htail). discriminate. }
  unfold proactor_has_event, has_peek, pn_collector_peek in Hev.
  destruct (collector (w_p w3)) as [|e q] eqn:Hcol; [discriminate|].
  exists w3, (set_working true (set_wake_ops 0 c)), e.
  split; [done|]. rewrite Hctx3, Hmem. split; [done|]. split; [done|]. split; [done|].
  split.
  - unfold proactor_batch_next.
    destruct (proactor_update_batch_pending w3) as (_ & _ & _ & _ & _).
    unfold proactor_update_batch, proactor_has_event, has_peek, pn_collector_peek.
    rewrite Hcol. cbn. rewrite Hcol. done.
  - rewrite Hcnt, Hw2. cbn. done.
Qed.

(** An interrupt on a new proactor: the context is queued, and the thread
    that takes the wake gets the batch. *)
Lemma proactor_event_not_stranded_witness :
  ∃ w0 s w' e, pn_proactor 3 4 5 = Some w0 ∧
    proactor_run false [PInterrupt] (mk_proactor_state w0 []) = Returns s ∧
    wake_queue (ps_world s) = [p_context (w_p (ps_world s))] ∧
    proactor_epoll false false [epoll_wait_event WAKE 0 EPOLLIN] (ps_world s)
      = Returns (Some proactor_batch, w') ∧
    (proactor_batch_next w').1 = Some e.
Proof.
  destruct (pn_proactor 3 4 5) as [w0|] eqn:H0; [|vm_compute in H0; discriminate].
  destruct (proactor_run false [PInterrupt] (mk_proactor_state w0 [])) as [s| |] eqn:Hrun.
  2,3: vm_compute in H0; injection H0 as <-; vm_compute in Hrun; discriminate.
  destruct (w_mem (ps_world s) !! p_context (w_p (ps_world s))) as [c|] eqn:Hc.
  2: { vm_compute in H0. injection H0 as <-. vm_compute in Hrun. injection Hrun as <-.
       vm_compute in Hc. discriminate. }
  destruct (proactor_event_not_stranded false 3 4 5 w0 [PInterrupt] s c H0 Hrun Hc)
    as (_ & Hq & _ & _ & Hget).
  - vm_compute in H0. injection H0 as <-. vm_compute in Hrun. injection Hrun as <-.
    vm_compute in Hc. injection Hc as <-. reflexivity.
  - vm_compute in H0. injection H0 as <-. vm_compute in Hrun. injection Hrun as <-.
    reflexivity.
  - destruct (Hget 0%nat EPOLLIN) as (w' & c' & e & Hrun' & _ & _ & _ & He & _).
    exists w0, s, w', e. split; [reflexivity|]. split; [exact Hrun|]. split; [exact Hq|].
    split; [exact Hrun'|exact He].
Defined.

(** ** The write loop *)

(** What the write loop of [pconnection_process] calls. *)
Definition write_action (a : action) : Prop :=
  match a with
  | act_write _ | act_error _ _ | act_shutdown => True
  | _ => False
  end.

Fixpoint count_writes (l : list action) : nat :=
  match l with
  | [] => 0
  | act_write _ :: l => S (count_writes l)
  | _ :: l => count_writes l
  end.

Lemma count_writes_app l1 l2 : count_writes (l1 ++ l2) = (count_writes l1 + count_writes l2)%nat.
Proof. induction l1 as [|[] l1 IH]; simpl; lia. Qed.

Section WritePump.
Context {D : Type} `{ConnectionDriver D}.
Implicit Types s : conn_state D.

(** One [pconnection_write]: one [write], which takes the next result of
    the socket; with none left it finds the socket full. *)
Lemma pconnection_write_spec size s :
  let r := pconnection_write size s in
  cs_log r.2 = cs_log s ++ [act_write size] ∧ cs_net r.2 = tail (cs_net s) ∧
  cs_world r.2 = cs_world s ∧ read_blocked (cs_pc r.2) = read_blocked (cs_pc s) ∧
  (cs_net s = [] → r.1 = true ∧ write_blocked (cs_pc r.2) = true).
Proof.
  unfold pconnection_write, sys_io. destruct s as [pc kt w net e0 now lg]. cbn.
  destruct net as [|[n|e] net]; cbn.
  - by repeat split.
  - destruct (0 <? n); cbn.
    + destruct (n <? size); by repeat split.
    + destruct (e0 =? EWOULDBLOCK); cbn; [by repeat split|].
      destruct (negb _); by repeat split.
  - destruct (e =? EWOULDBLOCK); cbn; [by repeat split|].
    destruct (negb _); by repeat split.
Qed.

Lemma pconnection_write_pump_S fuel s :
  pconnection_write_pump (S fuel) s =
  if negb (write_blocked (cs_pc s)) && negb (pconnection_wclosed (cs_pc s)) then
    let size := pn_connection_driver_write_buffer (driver (cs_pc s)) in
    if 0 <? size then
      let '(ok, s) := pconnection_write size s in
      let s := if ok then s
               else psocket_error_pconnection (cs_errno s)
                      (if disconnected (cs_pc s) then "disconnected" else "on write to") s in
      pconnection_write_pump fuel s
    else if pn_connection_driver_write_closed (driver (cs_pc s)) then
      pconnection_write_pump fuel (upd_pc (set_write_blocked true) (log act_shutdown s))
    else Returns s
  else Returns s.
Proof. reflexivity. Qed.

Lemma pconnection_write_pump_stops fuel : ∀ s,
  (write_blocked (cs_pc s) = true ∧ 1 ≤ fuel)%nat ∨ (length (cs_net s) + 2 ≤ fuel)%nat →
  ∃ s' new, pconnection_write_pump fuel s = Returns s' ∧
    cs_log s' = cs_log s ++ new ∧ Forall write_action new ∧
    (count_writes new ≤ if write_blocked (cs_pc s) then 0 else length (cs_net s) + 1)%nat ∧
    cs_world s' = cs_world s ∧ read_blocked (cs_pc s') = read_blocked (cs_pc s) ∧
    write_blocked (cs_pc s') || pconnection_wclosed (cs_pc s')
      || (pn_connection_driver_write_buffer (driver (cs_pc s')) <=? 0) = true.
Proof.
  induction fuel as [|fuel IH]; intros s Hfuel; [lia|].
  rewrite pconnection_write_pump_S.
  destruct (write_blocked (cs_pc s)) eqn:Hwb; cbn [negb andb].
  { exists s, []. rewrite app_nil_r, Hwb. by repeat split. }
  destruct Hfuel as [[? _]|Hfuel]; [done|].
  destruct (pconnection_wclosed (cs_pc s)) eqn:Hwc; cbn [negb].
  { exists s, []. rewrite app_nil_r, Hwb, Hwc. repeat split; try done; cbn; lia. }
  destruct (0 <? pn_connection_driver_write_buffer (driver (cs_pc s))) eqn:Hsize.
  - pose proof (pconnection_write_spec (pn_connection_driver_write_buffer (driver (cs_pc s))) s)
      as (Hlog & Hnet & Hw & Hrb & Hempty).
    destruct (pconnection_write _ s) as [ok s1]. cbn in Hlog, Hnet, Hw, Hrb, Hempty.
    set (s2 := if ok then s1
               else psocket_error_pconnection (cs_errno s1)
                      (if disconnected (cs_pc s1) then "disconnected" else "on write to") s1).
    assert (Hs2 : ∃ new2, cs_log s2 = cs_log s1 ++ new2 ∧ Forall write_action new2 ∧
                    count_writes new2 = 0%nat ∧ cs_net s2 = cs_net s1 ∧
                    cs_world s2 = cs_world s1 ∧
                    read_blocked (cs_pc s2) = read_blocked (cs_pc s1) ∧
                    (ok = true → write_blocked (cs_pc s2) = write_blocked (cs_pc s1))).
    { subst s2. destruct ok.
      - exists []. rewrite app_nil_r. by repeat split.
      - eexists [_]. cbn. repeat split; try done. by repeat constructor. }
    destruct Hs2 as (new2 & Hlog2 & Hwa2 & Hcnt2 & Hnet2 & Hw2 & Hrb2 & Hwb2).
    destruct (IH s2) as (s' & new & Hrun & Hlog' & Hwa & Hcnt & Hw' & Hrb' & Hexit).
    { destruct (cs_net s) as [|x net] eqn:Hn.
      - left. destruct (Hempty eq_refl) as [-> Hb]. rewrite (Hwb2 eq_refl), Hb.
        cbn in Hfuel. split; [done|lia].
      - right. rewrite Hnet2, Hnet. cbn in *. lia. }
    exists s', (act_write (pn_connection_driver_write_buffer (driver (cs_pc s))) :: new2 ++ new).
    split; [exact Hrun|]. split.
    { rewrite Hlog', Hlog2, Hlog, <- !(assoc_L (++)). done. }
    split; [constructor; [done|by apply Forall_app]|].
    split.
    { cbn. rewrite count_writes_app, Hcnt2. cbn.
      destruct (cs_net s) as [|x net] eqn:Hn.
      - destruct (Hempty eq_refl) as [-> Hb]. rewrite (Hwb2 eq_refl), Hb in Hcnt. cbn. lia.
      - destruct (write_blocked (cs_pc s2)); [lia|].
        rewrite Hnet2, Hnet in Hcnt. cbn in *. lia. }
    split; [congruence|]. split; [congruence|done].
  - destruct (pn_connection_driver_write_closed (driver (cs_pc s))) eqn:Hclosed.
    + destruct (IH (upd_pc (set_write_blocked true) (log act_shutdown s)))
        as (s' & new & Hrun & Hlog' & Hwa & Hcnt & Hw' & Hrb' & Hexit).
      { left. split; [done|lia]. }
      exists s', (act_shutdown :: new). split; [exact Hrun|]. split.
      { rewrite Hlog'. cbn. by rewrite <- (assoc_L (++)). }
      split; [by constructor|]. cbn in Hcnt. split; [cbn; lia|]. by repeat split.
    + exists s, []. rewrite app_nil_r, Hwb, Hwc.
      split; [done|]. split; [done|]. split; [constructor|]. split; [cbn; lia|].
      split; [done|]. split; [done|].
      apply Z.ltb_ge in Hsize. cbn. by apply Z.leb_le.
Qed.

(** The write loop ends: with one pass for every result the socket still
    has to give and two more it returns.  It calls [write] at most once per
    result and once more (which finds the socket full), and nothing at all
    when the connection is write-blocked; it never reads and leaves the
    proactor alone.  When it returns, nothing can be written for now: the
    connection is write-blocked, or the driver's write side is closed, or
    its write buffer is empty. *)
Theorem write_pump_stops s fuel :
  (length (cs_net s) + 2 ≤ fuel)%nat →
  ∃ s' new, pconnection_write_pump fuel s = Returns s' ∧
    cs_log s' = cs_log s ++ new ∧ Forall write_action new ∧
    (count_writes new ≤ if write_blocked (cs_pc s) then 0 else length (cs_net s) + 1)%nat ∧
    cs_world s' = cs_world s ∧ read_blocked (cs_pc s') = read_blocked (cs_pc s) ∧
    write_blocked (cs_pc s') || pconnection_wclosed (cs_pc s')
      || (pn_connection_driver_write_buffer (driver (cs_pc s')) <=? 0) = true.
Proof. intros Hfuel. apply pconnection_write_pump_stops. by right. Qed.
End WritePump.

(** Twenty bytes to write, the socket takes five: one [write], and the
    connection is write-blocked. *)
Lemma write_pump_stops_witness :
  ∃ s', pconnection_write_pump 3
          (test_conn (mk_test_driver [] false false 10 20 false None false) [io_count 5])
        = Returns s' ∧
    cs_log s' = [act_write 20] ∧ write_blocked (cs_pc s') = true.
Proof.
  destruct (write_pump_stops
              (test_conn (mk_test_driver [] false false 10 20 false None false) [io_count 5]) 3)
    as (s' & new & Hrun & _); [cbn; lia|].
  exists s'. split; [exact Hrun|].
  vm_compute in Hrun. injection Hrun as <-. split; reflexivity.
Defined.

(** ** Closing a connection *)

Lemma assert_holds NDEBUG e : e = true → assert NDEBUG e = Returns ().
Proof. intros ->. unfold assert. by destruct NDEBUG. Qed.

(** [ptimer_set(pt, 0)] on a timer whose accounting is sound. *)
Lemma ptimer_set_cancel_total NDEBUG pt k :
  timer_inv (pt, k) → skip_count pt < INT_MAX →
  ∃ pt' k', ptimer_set NDEBUG pt k 0 = Returns (pt', k') ∧
            (pending_count pt ≠ 0 → tfd_armed k' = false) ∧
            (pending_count pt = 0 → pt' = pt ∧ k' = k).
Proof.
  unfold timer_inv, armed_count. cbn. intros (Hs & Ht & Hp & Hmax) Hskip.
  unfold ptimer_set, timerfd_settime. cbn.
  destruct (pending_count pt =? 0) eqn:Hp0.
  { apply Z.eqb_eq in Hp0. eexists _, _. split; [reflexivity|]. by split. }
  apply Z.eqb_neq in Hp0. cbn. unfold INT_MAX in *.
  destruct (tfd_armed k) eqn:Harmed; cbn.
  - rewrite assert_holds by lia. cbn. unfold int_decr.
    rewrite int_add_total by (unfold INT_MIN, INT_MAX; lia). cbn.
    rewrite assert_holds by (cbn; lia). cbn.
    eexists _, _. split; [reflexivity|]. by split.
  - unfold int_incr. rewrite int_add_total by (unfold INT_MIN, INT_MAX; lia). cbn.
    rewrite assert_holds by (cbn; lia). cbn.
    eexists _, _. split; [reflexivity|]. by split.
Qed.

Section ConnectionClose.
Variable NDEBUG : bool.
Context {D : Type} `{ConnectionDriver D}.
Implicit Types s : conn_state D.

(** [pconnection_begin_close] on a connection that is not closing, whose
    socket registration is as its record says and whose timer accounting is
    sound, returns.  It marks the context closing, takes the socket out of
    the interest list while the descriptor is still open (it closes nothing
    itself), clears [current_arm], closes the driver and cancels a pending
    timer; a second call changes nothing. *)
Theorem begin_close_unregisters_socket s c :
  ctx_load s = Returns c → closing c = false →
  let io := ps_epoll_io (pc_psocket (cs_pc s)) in
  let epfd := epollfd (w_p (cs_world s)) in
  let polled := negb ((ee_fd io =? -1) || negb (ee_polling io) || (epfd =? -1)) in
  (polled = true → 0 ≤ epfd ∧ 0 ≤ ee_fd io ∧ is_Some (w_epoll (cs_world s) !! ee_fd io)) →
  timer_inv (pc_timer (cs_pc s), cs_timerfd s) → skip_count (pc_timer (cs_pc s)) < INT_MAX →
  ∃ s1, pconnection_begin_close NDEBUG s = Returns s1 ∧
    ctx_load s1 = Returns (set_closing true c) ∧
    current_arm (cs_pc s1) = 0 ∧
    driver (cs_pc s1) = pn_connection_driver_close (driver (cs_pc s)) ∧
    sockfd (pc_psocket (cs_pc s1)) = sockfd (pc_psocket (cs_pc s)) ∧
    cs_log s1 = cs_log s ∧
    w_epoll (cs_world s1) = (if polled then delete (ee_fd io) (w_epoll (cs_world s))
                             else w_epoll (cs_world s)) ∧
    ps_epoll_io (pc_psocket (cs_pc s1)) = (if polled then set_ee_polling false (set_ee_fd (-1) io)
                                           else io) ∧
    (pending_count (pc_timer (cs_pc s)) ≠ 0 → tfd_armed (cs_timerfd s1) = false) ∧
    pconnection_begin_close NDEBUG s1 = Returns s1.
Proof.
  intros Hc Hcl io epfd polled Hreg Htimer Hskip.
  unfold pconnection_begin_close. rewrite Hc. cbn [obind]. rewrite Hcl. cbn [negb].
  unfold ctx_load, load in Hc.
  destruct (w_mem (cs_world s) !! pc_context (cs_pc s)) as [c0|] eqn:Hmem; [|discriminate].
  injection Hc as ->.
  assert (Hstop : stop_polling io epfd (w_epoll (cs_world s)) =
                  Returns (if polled then set_ee_polling false (set_ee_fd (-1) io) else io,
                           if polled then delete (ee_fd io) (w_epoll (cs_world s))
                           else w_epoll (cs_world s))).
  { unfold stop_polling. subst polled.
    destruct ((ee_fd io =? -1) || negb (ee_polling io) || (epfd =? -1)) eqn:E; [done|].
    destruct (Hreg eq_refl) as (H1 & H2 & [m Hm]). unfold epoll_ctl.
    destruct (epfd <? 0) eqn:E1; [lia|]. destruct (ee_fd io <? 0) eqn:E2; [lia|]. cbn.
    unfold epoll_set in *. rewrite Hm. done. }
  change (stop_polling (ps_epoll_io (pc_psocket (cs_pc (ctx_store (set_closing true c) s))))
            (epollfd (w_p (cs_world (ctx_store (set_closing true c) s))))
            (w_epoll (cs_world (ctx_store (set_closing true c) s))))
    with (stop_polling io epfd (w_epoll (cs_world s))).
  rewrite Hstop. cbn [obind].
  destruct (ptimer_set_cancel_total NDEBUG _ _ Htimer Hskip) as (pt' & k' & Hset & Harm & _).
  unfold conn_timer_set. cbn. rewrite Hset. cbn.
  eexists. split; [reflexivity|]. cbn.
  assert (Hload : <[pc_context (cs_pc s):=set_closing true c]> (w_mem (cs_world s))
                    !! pc_context (cs_pc s) = Some (set_closing true c)).
  { apply list_lookup_insert_eq. by eapply lookup_lt_Some. }
  unfold ctx_load, load. cbn. rewrite Hload. cbn.
  repeat split; try done.
Qed.
End ConnectionClose.

(** The connection of [test_world]: its socket 6 leaves the interest list,
    the descriptor stays open. *)
Lemma begin_close_unregisters_socket_witness :
  ∃ s1, pconnection_begin_close false (test_conn test_open_driver []) = Returns s1 ∧
    w_epoll (cs_world s1) !! 6 = None ∧ sockfd (pc_psocket (cs_pc s1)) = 6 ∧
    cs_log s1 = [] ∧ pconnection_begin_close false s1 = Returns s1.
Proof.
  destruct (begin_close_unregisters_socket false (test_conn test_open_driver [])
              (set_next None (pcontext_init PCONNECTION)))
    as (s1 & Hrun & _ & _ & _ & Hfd & Hlog & Hk & _ & _ & Hagain).
  - reflexivity.
  - reflexivity.
  - intros _. split; [by vm_compute|]. split; [by vm_compute|]. vm_compute. by eexists.
  - unfold timer_inv, armed_count, INT_MAX. cbn. lia.
  - unfold INT_MAX. cbn. lia.
  - exists s1. split; [exact Hrun|]. split; [by rewrite Hk|].
    split; [exact Hfd|]. split; [exact Hlog|exact Hagain].
Defined.

(** ** [pn_listener_accept] *)

Section ListenerAccept.
Context {D : Type} `{ConnectionDriver D}.

(** [host] and [port] are what [pni_parse_addr] finds in the empty address
    of the new connection; [newfd] is the result of [accept], which leaves
    [accept_errno] when it fails.  The result is the listener and the new
    connection, in one world. *)
Definition pn_listener_accept (d : D) (tfd : Z) (host port : string) (server0 : bool)
    (addrinfo0 : option (list connect_t)) (ai0 : list connect_t) (newfd accept_errno : Z)
    (net : list io_result) (now : Z) (s : listener_state)
  : outcome (listener_state * conn_state D) :=
  '(pc, w) ← new_pconnection_t d tfd host port server0 addrinfo0 ai0 (ls_world s);
  w ← proactor_add (pc_context pc) w;
  let s := set_ls_world w s in
  c ← load (ls_world s) (l_context (ls_l s));
  let err := if closing c then EBADF
             else if acceptable (ls_l s) is None then EAGAIN else 0 in
  if negb (err =? 0) then
    (* Error on one socket closes the entire listener *)
    ps0 ← match psockets (ls_l s) !! 0%nat with
          | Some ps => Returns ps
          | None => Aborts Undefined
          end;
    s ← psocket_error ps0 (ls_errno s) "listener state on accept" s;
    Returns (s, mk_conn_state pc timerfd_init (ls_world s) net (ls_errno s) now [])
  else
    match acceptable (ls_l s) with
    | None => Aborts Undefined
    | Some i =>
        let s := upd_l (λ l, set_acceptable None (set_accepted (Some i) l)) s in
        ps ← match psockets (ls_l s) !! i with
             | Some ps => Returns ps
             | None => Aborts Undefined
             end;
        if newfd <? 0 then
          let s := set_ls_errno accept_errno s in
          let err := ls_errno s in
          let cs := mk_conn_state pc timerfd_init (ls_world s) net (ls_errno s) now [] in
          let cs := psocket_error_pconnection err "failed initialization on accept" cs in
          s ← psocket_error ps err "accept" s;
          Returns (s, set_cs_world (ls_world s) cs)
        else
          let cs := mk_conn_state pc timerfd_init (ls_world s) net (ls_errno s) now [] in
          let cs := upd_pc (λ pc, set_pc_psocket (set_sockfd newfd (pc_psocket pc)) pc) cs in
          let cs := pconnection_start cs in
          Returns (set_ls_world (cs_world cs) s, cs)
    end.

(** The start of [pn_listener_accept]: the new connection and its context,
    enlisted; the listener's context is as before. *)
Lemma pn_listener_accept_begin (d : D) tfd host port server0 addrinfo0 ai0 s
    (pc : pconnection_t D) w0 w1 c :
  new_pconnection_t d tfd host port server0 addrinfo0 ai0 (ls_world s) = Returns (pc, w0) →
  proactor_add (pc_context pc) w0 = Returns w1 →
  w_mem (ls_world s) !! l_context (ls_l s) = Some c →
  pc_context pc = length (w_mem (ls_world s)) ∧
  pc_psocket pc = psocket_init None host port ∧ pc_timer pc = ptimer_init tfd true ∧
  driver pc = d ∧
  w_epoll w1 = w_epoll (ls_world s) ∧
  contexts (w_p w1) = Some (length (w_mem (ls_world s))) ∧
  epollfd (w_p w1) = epollfd (w_p (ls_world s)) ∧
  ∃ c1, w_mem w1 !! l_context (ls_l s) = Some c1 ∧ closing c1 = closing c.
Proof.
  unfold new_pconnection_t. destruct (tfd <? 0); [discriminate|].
  intros [= <- <-] Hadd Hc. cbn in *.
  destruct (proactor_add_frame _ _ _ Hadd) as (_ & Hk & _ & Hlen & Hp & Hmem).
  cbn in Hk, Hlen, Hp. rewrite length_app in Hlen. cbn in Hlen.
  repeat split; try done; [by rewrite Hp..|].
  assert (Hlt : (l_context (ls_l s) < length (w_mem (ls_world s)))%nat)
    by (by eapply lookup_lt_Some).
  destruct (lookup_lt_is_Some_2 (w_mem w1) (l_context (ls_l s)) ltac:(lia)) as [c1 Hc1].
  destruct (Hmem _ _ Hc1) as (c0 & Hc0 & _ & _ & _ & Hcl).
  cbn in Hc0. rewrite lookup_app_l in Hc0 by done. rewrite Hc in Hc0. injection Hc0 as <-.
  by exists c1.
Qed.

(** [pn_listener_accept] needs an acceptable socket: on a listener that is
    closing or has none, the call closes the listener with the condition
    "listener state on accept" carrying the thread's [errno]; the new
    connection is enlisted with the proactor and left as it was made, with
    no socket, no registration and no error of its own. *)
Lemma pn_listener_accept_refused d tfd addr_host addr_port server0 addrinfo0 ai0 newfd e net now s c ps0
    s' cs :
  pn_listener_accept d tfd addr_host addr_port server0 addrinfo0 ai0 newfd e net now s
    = Returns (s', cs) →
  w_mem (ls_world s) !! l_context (ls_l s) = Some c →
  closing c = true ∨ acceptable (ls_l s) = None →
  psockets (ls_l s) !! 0%nat = Some ps0 →
  listener_closing s' = Some true ∧
  l_collector (ls_l s') = (if closing c then l_collector (ls_l s)
                           else pn_collector_put (l_collector (ls_l s)) PN_LISTENER_CLOSE) ∧
  l_condition (ls_l s') =
    Some (mk_condition "listener state on accept" (host ps0) (port ps0)
                       (ls_errno s)) ∧
  cs_world cs = ls_world s' ∧
  contexts (w_p (ls_world s')) = Some (length (w_mem (ls_world s))) ∧
  pc_context (cs_pc cs) = length (w_mem (ls_world s)) ∧
  sockfd (pc_psocket (cs_pc cs)) = -1 ∧ cs_log cs = [] ∧ driver (cs_pc cs) = d ∧
  ee_polling (pt_epoll_io (pc_timer (cs_pc cs))) = false.
Proof.
  intros Hrun Hc Hstate Hps0. unfold pn_listener_accept in Hrun.
  apply outcome_bind_returns in Hrun as ([pc w0] & Hnew & Hrun).
  apply outcome_bind_returns in Hrun as (w1 & Hadd & Hrun).
  destruct (pn_listener_accept_begin _ _ _ _ _ _ _ _ _ _ _ _ Hnew Hadd Hc)
    as (Hctx & Hps & Htm & Hdr & Hk & Hhead & Hepfd & c1 & Hc1 & Hcl).
  unfold load in Hrun. cbn in Hrun. rewrite Hc1 in Hrun. cbn in Hrun. rewrite Hcl in Hrun.
  assert (Herr : negb ((if closing c then EBADF
                        else if acceptable (ls_l s) is None then EAGAIN else 0) =? 0) = true).
  { destruct Hstate as [-> | ->]; [done|]. by destruct (closing c). }
  rewrite Herr in Hrun. rewrite Hps0 in Hrun. cbn in Hrun.
  apply outcome_bind_returns in Hrun as (s1 & Herror & Hrun). injection Hrun as <- <-.
  unfold psocket_error in Herror. destruct (ps_listener ps0); [|discriminate].
  pose proof Herror as Hclose.
  unfold listener_begin_close, load in Hclose. cbn in Hclose. rewrite Hc1 in Hclose.
  cbn in Hclose.
  apply listener_begin_close_events in Herror as (cl & Hcl0 & Hcl1 & Hctx1 & _ & Hcol).
  unfold listener_closing in Hcl0. cbn in Hcl0. rewrite Hc1 in Hcl0. cbn in Hcl0.
  injection Hcl0 as <-. rewrite Hcl in Hcol. cbn in Hcol.
  split; [done|]. split; [done|]. cbn. rewrite Hctx, Hps, Htm, Hdr.
  assert (Hrest : l_condition (ls_l s1) =
                    Some (mk_condition "listener state on accept" (host ps0)
                                       (port ps0) (ls_errno s)) ∧
                  contexts (w_p (ls_world s1)) = Some (length (w_mem (ls_world s)))).
  { destruct (closing c1) eqn:Hcl1'; cbn in Hclose.
    - injection Hclose as <-. by rewrite <- Hhead.
    - apply outcome_bind_returns in Hclose as (s2 & H2 & Hclose). injection Hclose as <-.
      cbn. pose proof (listener_close_sockets_frame _ _ _ _ H2) as (_ & _ & _ & Hcond & _).
      rewrite Hcond. cbn. split; [done|].
      clear -H2 Hhead. revert H2.
      generalize (Z.to_nat (psockets_size (ls_l s))). intros n. generalize 0%nat.
      match goal with |- ∀ i, listener_close_sockets n i ?x = _ → _ =>
        assert (Hx : contexts (w_p (ls_world x)) = Some (length (w_mem (ls_world s))))
          by exact Hhead;
        generalize dependent x
      end.
      induction n as [|n IH]; intros x Hx i Hrun; [by injection Hrun as <-|].
      cbn in Hrun. apply outcome_bind_returns in Hrun as (ps & _ & Hrun).
      apply outcome_bind_returns in Hrun as (x1 & H1 & Hrun).
      eapply IH; [|exact Hrun].
      destruct (0 <=? sockfd ps); [|by injection H1 as <-].
      apply outcome_bind_returns in H1 as ([ee k] & _ & H1). by injection H1 as <-. }
  destruct Hrest as [Hcond Hhead1]. by repeat split.
Qed.
(** [pconnection_start]: the socket is registered for EPOLLIN | EPOLLOUT. *)
Lemma pconnection_start_spec (cs : conn_state D) :
  let cs' := pconnection_start cs in
  let ps := pc_psocket (cs_pc cs) in
  pc_psocket (cs_pc cs') =
    set_ps_epoll_io (mk_epoll_extended (sockfd ps) (ee_type (ps_epoll_io ps))
                                       (Z.lor EPOLLIN EPOLLOUT) true) ps ∧
  cs_log cs' = cs_log cs ∧ driver (cs_pc cs') = driver (cs_pc cs) ∧
  pc_context (cs_pc cs') = pc_context (cs_pc cs) ∧
  w_mem (cs_world cs') = w_mem (cs_world cs) ∧ w_p (cs_world cs') = w_p (cs_world cs) ∧
  (0 ≤ epollfd (w_p (cs_world cs)) → 0 ≤ sockfd ps →
   is_Some (w_epoll (cs_world cs') !! sockfd ps)).
Proof.
  intros cs' ps. subst cs'. unfold pconnection_start.
  pose proof (conn_start_polling_timer_spec cs)
    as (_ & _ & He1 & Hps1 & _ & Hdr1 & _ & _ & _ & Hlog1 & Hctx1 & Hm1 & Hp1 & _).
  set (cs1 := conn_start_polling_timer cs) in *.
  pose proof (conn_start_polling_timer_spec cs1)
    as (_ & _ & He2 & Hps2 & _ & Hdr2 & _ & _ & _ & Hlog2 & Hctx2 & Hm2 & Hp2 & _).
  set (cs2 := conn_start_polling_timer cs1) in *.
  pose proof (conn_start_polling_socket_spec cs2)
    as (Hps3 & Hk3 & _ & _ & Hdr3 & _ & _ & _ & Hlog3 & Hctx3 & Hm3 & Hp3 & _).
  set (cs3 := conn_start_polling_socket cs2) in *.
  clearbody cs3 cs2 cs1. cbv zeta in Hps3, Hk3.
  rewrite Hps2, Hps1, He2, He1 in Hps3, Hk3. fold ps in Hps3, Hk3.
  set (sio := mk_epoll_extended (sockfd ps) (ee_type (ps_epoll_io ps))
                                (Z.lor EPOLLIN EPOLLOUT) false) in *.
  pose proof (start_polling_polling sio (epollfd (w_p (cs_world cs))) (w_epoll (cs_world cs2)))
    as (Hq1 & Hq2 & Hq3 & Hq4).
  split.
  { rewrite Hps3. f_equal.
    destruct (start_polling sio _ _) as [[ee k] b]. cbn in *. destruct ee; cbn in *.
    by subst. }
  split; [congruence|]. split; [congruence|]. split; [congruence|]. split; [congruence|].
  split; [congruence|].
  intros He Hfd. rewrite Hk3. unfold start_polling, epoll_ctl. cbn.
  destruct (epollfd (w_p (cs_world cs)) <? 0) eqn:E1; [lia|].
  destruct (sockfd ps <? 0) eqn:E2; [lia|]. cbn.
  destruct (w_epoll (cs_world cs2) !! sockfd ps) as [m|] eqn:Hm; cbn.
  - unfold epoll_set in *. by rewrite Hm.
  - unfold epoll_set in *. rewrite lookup_insert_eq. by eexists.
Qed.

(** With an acceptable socket and a listener that is not closing, an
    [accept] that succeeds: the socket is taken ([accepted] is set and
    [acceptable] cleared), the listener is otherwise as it was, and the new
    connection has the descriptor as its socket, registered. *)
Lemma pn_listener_accept_accepted d tfd addr_host addr_port server0 addrinfo0 ai0 newfd e net
    now s c i s' cs :
  pn_listener_accept d tfd addr_host addr_port server0 addrinfo0 ai0 newfd e net now s
    = Returns (s', cs) →
  w_mem (ls_world s) !! l_context (ls_l s) = Some c →
  closing c = false → acceptable (ls_l s) = Some i → 0 ≤ newfd →
  ls_l s' = set_acceptable None (set_accepted (Some i) (ls_l s)) ∧ ls_errno s' = ls_errno s ∧
  listener_closing s' = Some false ∧
  length (w_mem (ls_world s')) = S (length (w_mem (ls_world s))) ∧
  cs_world cs = ls_world s' ∧
  contexts (w_p (ls_world s')) = Some (length (w_mem (ls_world s))) ∧
  pc_context (cs_pc cs) = length (w_mem (ls_world s)) ∧
  sockfd (pc_psocket (cs_pc cs)) = newfd ∧
  ps_epoll_io (pc_psocket (cs_pc cs)) =
    mk_epoll_extended newfd PCONNECTION_IO (Z.lor EPOLLIN EPOLLOUT) true ∧
  cs_log cs = [] ∧ driver (cs_pc cs) = d ∧
  (0 ≤ epollfd (w_p (ls_world s)) → is_Some (w_epoll (ls_world s') !! newfd)).
Proof.
  intros Hrun Hc Hcl Hacc Hfd. unfold pn_listener_accept in Hrun.
  apply outcome_bind_returns in Hrun as ([pc w0] & Hnew & Hrun).
  apply outcome_bind_returns in Hrun as (w1 & Hadd & Hrun).
  destruct (pn_listener_accept_begin _ _ _ _ _ _ _ _ _ _ _ _ Hnew Hadd Hc)
    as (Hctx & Hps & Htm & Hdr & Hk & Hhead & Hepfd & c1 & Hc1 & Hcl1).
  assert (Hlen : length (w_mem w1) = S (length (w_mem (ls_world s)))).
  { unfold new_pconnection_t in Hnew. destruct (tfd <? 0); [discriminate|].
    injection Hnew as _ <-.
    destruct (proactor_add_frame _ _ _ Hadd) as (_ & _ & _ & Hlen & _).
    cbn in Hlen. rewrite length_app in Hlen. cbn in Hlen. lia. }
  unfold load in Hrun. cbn in Hrun. rewrite Hc1 in Hrun. cbn in Hrun.
  rewrite Hcl1, Hcl, Hacc in Hrun. cbn in Hrun.
  apply outcome_bind_returns in Hrun as (ps & _ & Hrun).
  destruct (newfd <? 0) eqn:E; [lia|]. injection Hrun as <- <-.
  match goal with |- context [pconnection_start ?x] =>
    pose proof (pconnection_start_spec x) as (Hps' & Hlog' & Hdr' & Hctx' & Hm' & Hp' & Hreg');
    set (cs' := pconnection_start x) in *
  end.
  clearbody cs'. cbn in Hps', Hlog', Hdr', Hctx', Hm', Hp', Hreg'. cbn.
  rewrite Hps', Hlog', Hdr', Hctx', Hm', Hp', Hps, Hdr, Hctx. cbn.
  unfold listener_closing. cbn. rewrite Hm', Hc1. cbn. rewrite Hcl1, Hcl.
  split; [by destruct (ls_l s)|]. repeat split; try done.
  intros He. apply Hreg'; [by rewrite Hepfd|done].
Qed.

(** One ACCEPT event, one accept.  [pn_listener_accept] takes the
    acceptable socket: afterwards [accepted] is set and [acceptable] is
    cleared, the listener is otherwise unchanged and still open, and the
    new connection has the accepted descriptor as its registered socket.  A
    further [pn_listener_accept] before the listener has a new acceptable
    socket closes the whole listener: PN_LISTENER_CLOSE is put, the
    condition is "listener state on accept" with the thread's [errno], and
    that call's connection is enlisted with the proactor but has no socket,
    no registered timer and no error of its own. *)
Theorem listener_accept_takes_acceptable d1 tfd1 host1 port1 server1 addrinfo1 ai1 newfd1 e1
    net1 now1 d2 tfd2 host2 port2 server2 addrinfo2 ai2 newfd2 e2 net2 now2 s c i ps0 s1
    (cs1 : conn_state D) s2 (cs2 : conn_state D) :
  w_mem (ls_world s) !! l_context (ls_l s) = Some c → closing c = false →
  acceptable (ls_l s) = Some i → psockets (ls_l s) !! 0%nat = Some ps0 → 0 ≤ newfd1 →
  pn_listener_accept d1 tfd1 host1 port1 server1 addrinfo1 ai1 newfd1 e1 net1 now1 s
    = Returns (s1, cs1) →
  pn_listener_accept d2 tfd2 host2 port2 server2 addrinfo2 ai2 newfd2 e2 net2 now2 s1
    = Returns (s2, cs2) →
  (accepted (ls_l s1) = Some i ∧ acceptable (ls_l s1) = None ∧
   l_collector (ls_l s1) = l_collector (ls_l s) ∧ l_condition (ls_l s1) = l_condition (ls_l s) ∧
   listener_closing s1 = Some false ∧
   sockfd (pc_psocket (cs_pc cs1)) = newfd1 ∧
   ee_polling (ps_epoll_io (pc_psocket (cs_pc cs1))) = true ∧
   (0 ≤ epollfd (w_p (ls_world s)) → is_Some (w_epoll (ls_world s1) !! newfd1))) ∧
  (listener_closing s2 = Some true ∧
   l_collector (ls_l s2) = pn_collector_put (l_collector (ls_l s)) PN_LISTENER_CLOSE ∧
   l_condition (ls_l s2) =
     Some (mk_condition "listener state on accept" (host ps0) (port ps0) (ls_errno s)) ∧
   acceptable (ls_l s2) = None ∧ accepted (ls_l s2) = None ∧
   contexts (w_p (ls_world s2)) = Some (pc_context (cs_pc cs2)) ∧
   pc_context (cs_pc cs2) ≠ pc_context (cs_pc cs1) ∧
   sockfd (pc_psocket (cs_pc cs2)) = -1 ∧ cs_log cs2 = [] ∧ driver (cs_pc cs2) = d2 ∧
   ee_polling (pt_epoll_io (pc_timer (cs_pc cs2))) = false).
Proof.
  intros Hc Hcl Hacc Hps0 Hfd Hrun1 Hrun2.
  destruct (pn_listener_accept_accepted _ _ _ _ _ _ _ _ _ _ _ _ _ _ _ _ Hrun1 Hc Hcl Hacc Hfd)
    as (Hl1 & He1 & Hcl1 & Hlen1 & Hw1 & Hhead1 & Hctx1 & Hfd1 & Hio1 & _ & _ & Hreg1).
  split.
  { rewrite Hl1, Hio1. cbn. by repeat split. }
  unfold listener_closing in Hcl1.
  destruct (w_mem (ls_world s1) !! l_context (ls_l s1)) as [c1|] eqn:Hc1; [|discriminate].
  cbn in Hcl1. injection Hcl1 as Hcl1.
  assert (Hacc1 : acceptable (ls_l s1) = None) by (by rewrite Hl1).
  assert (Hps1 : psockets (ls_l s1) !! 0%nat = Some ps0) by (by rewrite Hl1).
  destruct (pn_listener_accept_refused _ _ _ _ _ _ _ _ _ _ _ _ _ _ _ _ Hrun2 Hc1 (or_intror Hacc1)
              Hps1)
    as (Hcl2 & Hcol2 & Hcond2 & Hw2 & Hhead2 & Hctx2 & Hfd2 & Hlog2 & Hdr2 & Hpoll2).
  rewrite Hcl1 in Hcol2. rewrite Hl1 in Hcol2. cbn in Hcol2. rewrite He1 in Hcond2.
  split; [done|]. split; [done|]. split; [done|].
  assert (Hnone : acceptable (ls_l s2) = None ∧ accepted (ls_l s2) = None).
  { unfold pn_listener_accept in Hrun2.
    apply outcome_bind_returns in Hrun2 as ([pc w0] & Hnew & Hrun2).
    apply outcome_bind_returns in Hrun2 as (w1 & Hadd & Hrun2).
    destruct (pn_listener_accept_begin _ _ _ _ _ _ _ _ _ _ _ _ Hnew Hadd Hc1)
      as (_ & _ & _ & _ & _ & _ & _ & c2 & Hc2 & Hcl2').
    unfold load in Hrun2. cbn in Hrun2. rewrite Hc2 in Hrun2. cbn in Hrun2.
    rewrite Hcl2', Hcl1, Hacc1 in Hrun2. cbn in Hrun2. rewrite Hps1 in Hrun2. cbn in Hrun2.
    apply outcome_bind_returns in Hrun2 as (s3 & Herror & Hrun2). injection Hrun2 as <- _.
    unfold psocket_error in Herror. destruct (ps_listener ps0); [|discriminate].
    unfold listener_begin_close, load in Herror. cbn in Herror. rewrite Hc2 in Herror.
    cbn in Herror. rewrite Hcl2', Hcl1 in Herror. cbn in Herror.
    apply outcome_bind_returns in Herror as (s4 & _ & Herror). by injection Herror as <-. }
  destruct Hnone as [Hn1 Hn2]. split; [done|]. split; [done|].
  rewrite Hhead2, Hctx2, Hctx1, Hfd2, Hlog2, Hdr2, Hpoll2. repeat split; try done. lia.
Qed.
End ListenerAccept.

(** A listener of [test_world] on socket 8, its context at address 2, with
    an ACCEPT event handed out and the socket acceptable. *)
Definition test_accepting : listener_state :=
  mk_listener_state
    (mk_listener [listening_socket 2 "localhost" "5672" 8] 1 2 None [] 16 (Some 0%nat) None
                 false false)
    (set_w_epoll (<[8 := Z.lor EPOLLIN EPOLLONESHOT]> (w_epoll test_world))
       (set_w_mem [pcontext_init PROACTOR; set_next None (pcontext_init PCONNECTION);
                   set_working true (pcontext_init LISTENER)] test_world))
    0.

(** The first accept gives descriptor 10; the second closes the listener. *)
Lemma listener_accept_takes_acceptable_witness :
  ∃ s1 cs1 s2 cs2,
    pn_listener_accept test_open_driver 9 "" "" false None [] 10 0 [] 1000 test_accepting
      = Returns (s1, cs1) ∧
    pn_listener_accept test_open_driver 11 "" "" false None [] 12 0 [] 1000 s1
      = Returns (s2, cs2) ∧
    sockfd (pc_psocket (cs_pc cs1)) = 10 ∧
    l_collector (ls_l s2) = [PN_LISTENER_CLOSE] ∧ sockfd (pc_psocket (cs_pc cs2)) = -1.
Proof.
  destruct (pn_listener_accept test_open_driver 9 "" "" false None [] 10 0 [] 1000
              test_accepting) as [[s1 cs1]| |] eqn:H1; [|vm_compute in H1; discriminate..].
  destruct (pn_listener_accept test_open_driver 11 "" "" false None [] 12 0 [] 1000 s1)
    as [[s2 cs2]| |] eqn:H2.
  2,3: vm_compute in H1; injection H1 as <- <-; vm_compute in H2; discriminate.
  destruct (listener_accept_takes_acceptable
              test_open_driver 9 "" "" false None [] 10 0 [] 1000
              test_open_driver 11 "" "" false None [] 12 0 [] 1000
              test_accepting (set_working true (pcontext_init LISTENER)) 0%nat
              (listening_socket 2 "localhost" "5672" 8) s1 cs1 s2 cs2)
    as [(_ & _ & _ & _ & _ & Hfd1 & _) (_ & Hcol & _ & _ & _ & _ & _ & Hfd2 & _)];
    [reflexivity|reflexivity|reflexivity|reflexivity| |exact H1|exact H2|]; [lia|].
  exists s1, cs1, s2, cs2. split; [reflexivity|]. split; [exact H2|].
  split; [exact Hfd1|]. split; [exact Hcol|exact Hfd2].
Defined.

(** ** Flow control of a listener: rearmed once the socket is accepted *)

(** [start_polling] never takes a registration away, nor changes its mask. *)
Lemma start_polling_keeps ee epfd (k : gmap Z Z) x m :
  k !! x = Some m → (start_polling ee epfd k).1.2 !! x = Some m.
Proof.
  intros Hx. unfold start_polling, epoll_ctl.
  destruct (ee_polling ee); [done|]. cbn.
  destruct (_ || _); [done|].
  destruct (_ !! ee_fd ee) eqn:Hfd; cbn; [done|].
  unfold epoll_set in *. rewrite lookup_insert_ne; [done|]. intros <-. congruence.
Qed.

Section ListenerFlow.
Context {D : Type} `{ConnectionDriver D}.
Variable NDEBUG : bool.

Lemma pconnection_start_keeps (cs : conn_state D) x m :
  w_epoll (cs_world cs) !! x = Some m →
  w_epoll (cs_world (pconnection_start cs)) !! x = Some m.
Proof.
  intros Hx. unfold pconnection_start.
  pose proof (conn_start_polling_timer_spec cs) as (_ & Hk1 & _).
  set (cs1 := conn_start_polling_timer cs) in *.
  pose proof (conn_start_polling_timer_spec cs1) as (_ & Hk2 & _).
  set (cs2 := conn_start_polling_timer cs1) in *.
  pose proof (conn_start_polling_socket_spec cs2) as (_ & Hk3 & _).
  set (cs3 := conn_start_polling_socket cs2) in *.
  clearbody cs3 cs2 cs1. cbv zeta in Hk1, Hk2, Hk3.
  rewrite Hk3. apply start_polling_keeps. rewrite Hk2. apply start_polling_keeps.
  rewrite Hk1. by apply start_polling_keeps.
Qed.

(** An accept that succeeds leaves every registration of the proactor as
    it is, and adds its own. *)
Lemma pn_listener_accept_keeps (d : D) tfd addr_host addr_port server0 addrinfo0 ai0 newfd e
    net now s c i s' (cs : conn_state D) :
  pn_listener_accept d tfd addr_host addr_port server0 addrinfo0 ai0 newfd e net now s
    = Returns (s', cs) →
  w_mem (ls_world s) !! l_context (ls_l s) = Some c →
  closing c = false → acceptable (ls_l s) = Some i → 0 ≤ newfd →
  epollfd (w_p (ls_world s')) = epollfd (w_p (ls_world s)) ∧
  ∀ x m, w_epoll (ls_world s) !! x = Some m → w_epoll (ls_world s') !! x = Some m.
Proof.
  intros Hrun Hc Hcl Hacc Hfd. unfold pn_listener_accept in Hrun.
  apply outcome_bind_returns in Hrun as ([pc w0] & Hnew & Hrun).
  apply outcome_bind_returns in Hrun as (w1 & Hadd & Hrun).
  destruct (pn_listener_accept_begin _ _ _ _ _ _ _ _ _ _ _ _ Hnew Hadd Hc)
    as (_ & _ & _ & _ & Hk & _ & Hepfd & c1 & Hc1 & Hcl1).
  unfold load in Hrun. cbn in Hrun. rewrite Hc1 in Hrun. cbn in Hrun.
  rewrite Hcl1, Hcl, Hacc in Hrun. cbn in Hrun.
  apply outcome_bind_returns in Hrun as (ps & _ & Hrun).
  destruct (newfd <? 0) eqn:E; [lia|]. injection Hrun as <- _.
  match goal with |- context [pconnection_start ?x] =>
    pose proof (pconnection_start_spec x) as (_ & _ & _ & _ & _ & Hp' & _);
    pose proof (pconnection_start_keeps x) as Hkeep;
    set (cs' := pconnection_start x) in *
  end.
  clearbody cs'. cbn in Hp', Hkeep. cbn. rewrite Hp'. split; [done|].
  intros x m Hx. apply Hkeep. by rewrite Hk.
Qed.

(** An ACCEPT event on an idle listener: [listener_process] hands out the
    batch, which holds PN_LISTENER_ACCEPT and nothing else. *)
Lemma listener_process_acceptable i events s c :
  w_mem (ls_world s) !! l_context (ls_l s) = Some c →
  closing c = false → working c = false → l_collector (ls_l s) = [] →
  Z.land events EPOLLRDHUP = 0 → Z.land events EPOLLIN ≠ 0 →
  ∃ s1, listener_process NDEBUG i events s
          = Returns (Some (listener_batch (l_context (ls_l s))), s1) ∧
        ls_l s1 = set_l_collector [PN_LISTENER_ACCEPT]
                    (set_acceptable (Some i) (set_l_armed false (ls_l s))) ∧
        ls_errno s1 = ls_errno s ∧
        ls_world s1 = store (l_context (ls_l s)) (set_working true c) (ls_world s).
Proof.
  intros Hc Hcl Hwk Hcol Hhup Hin. unfold listener_process.
  assert (Hev : (events =? 0) = false).
  { apply Z.eqb_neq. intros ->. by rewrite Z.land_0_l in Hin. }
  rewrite Hev. cbn. rewrite Hhup. cbn. unfold load. rewrite Hc. cbn. rewrite Hcl. cbn.
  apply Z.eqb_neq in Hin. rewrite Hin. cbn. rewrite Hc. cbn. rewrite Hwk. cbn.
  unfold listener_has_event. cbn. rewrite Hcol. cbn.
  eexists. split; [reflexivity|]. cbn. by rewrite Hcol.
Qed.

(** [listener_done] without an accepted socket to rearm: only [working] is
    reset. *)
Lemma listener_done_unaccepted s c :
  w_mem (ls_world s) !! l_context (ls_l s) = Some c →
  close_dispatched (ls_l s) = false → l_collector (ls_l s) = [] →
  accepted (ls_l s) = None ∨ is_Some (acceptable (ls_l s)) →
  listener_done s
    = Returns (false, set_ls_world (store (l_context (ls_l s)) (set_working false c)
                                          (ls_world s)) s).
Proof.
  intros Hc Hcd Hcol Hacc. unfold listener_done, load. rewrite Hc. cbn. rewrite Hcd.
  unfold listener_has_event. cbn. rewrite Hcol. cbn.
  rewrite list_lookup_insert_eq by (by eapply lookup_lt_Some). cbn.
  destruct (accepted (ls_l s)) as [a|]; [|done].
  destruct Hacc as [|Hacc]; [done|]. rewrite bool_decide_true by done.
  by rewrite !andb_false_r.
Qed.

(** [listener_done] with an accepted socket: it is rearmed. *)
Lemma listener_done_accepted s c a ps :
  w_mem (ls_world s) !! l_context (ls_l s) = Some c → closing c = false →
  close_dispatched (ls_l s) = false → l_collector (ls_l s) = [] →
  accepted (ls_l s) = Some a → acceptable (ls_l s) = None → l_armed (ls_l s) = false →
  psockets (ls_l s) !! a = Some ps →
  0 ≤ epollfd (w_p (ls_world s)) → 0 ≤ ee_fd (ps_epoll_io ps) →
  is_Some (w_epoll (ls_world s) !! ee_fd (ps_epoll_io ps)) →
  ∃ s', listener_done s = Returns (false, s') ∧
        ls_l s' = set_accepted None (set_l_armed true (ls_l s)) ∧
        w_epoll (ls_world s') =
          <[ee_fd (ps_epoll_io ps) := Z.lor (ee_wanted (ps_epoll_io ps)) EPOLLONESHOT]>
            (w_epoll (ls_world s)).
Proof.
  intros Hc Hcl Hcd Hcol Hacc Hable Harm Hps He Hfd [m Hm].
  unfold listener_done, load. rewrite Hc. cbn. rewrite Hcd.
  unfold listener_has_event. cbn. rewrite Hcol. cbn.
  rewrite list_lookup_insert_eq by (by eapply lookup_lt_Some). cbn.
  rewrite Hacc, Hcl, Harm, Hable. cbn. rewrite Hps. cbn.
  unfold rearm, epoll_ctl.
  destruct (epollfd (w_p (ls_world s)) <? 0) eqn:E1; [lia|].
  destruct (ee_fd (ps_epoll_io ps) <? 0) eqn:E2; [lia|]. cbn.
  unfold epoll_set in *. rewrite Hm. cbn.
  eexists. split; [reflexivity|]. by cbn.
Qed.

(** Flow control.  An ACCEPT event on an idle listener that is not closing
    disarms it and hands out a batch with PN_LISTENER_ACCEPT alone.  If the
    handler calls [pn_listener_accept] before the batch is done,
    [listener_done] rearms the listening socket: the listener is armed
    again and its socket registered for [wanted | EPOLLONESHOT].  If the
    batch is done first, [listener_done] rearms nothing and the socket
    stays acceptable; a [pn_listener_accept] after that takes the socket
    but leaves the listener unarmed and the registration of its socket
    untouched. *)
Theorem listener_rearms_after_accept d tfd addr_host addr_port server0 addrinfo0 ai0 newfd e
    net now i events s c ps m :
  w_mem (ls_world s) !! l_context (ls_l s) = Some c →
  closing c = false → working c = false →
  l_collector (ls_l s) = [] → close_dispatched (ls_l s) = false →
  psockets (ls_l s) !! i = Some ps →
  0 ≤ epollfd (w_p (ls_world s)) → 0 ≤ ee_fd (ps_epoll_io ps) →
  w_epoll (ls_world s) !! ee_fd (ps_epoll_io ps) = Some m →
  Z.land events EPOLLRDHUP = 0 → Z.land events EPOLLIN ≠ 0 → 0 ≤ newfd →
  ∃ s1 s2,
    listener_process NDEBUG i events s
      = Returns (Some (listener_batch (l_context (ls_l s))), s1) ∧
    listener_batch_next s1 = (Some PN_LISTENER_ACCEPT, s2) ∧
    listener_batch_next s2 = (None, s2) ∧
    l_armed (ls_l s2) = false ∧ acceptable (ls_l s2) = Some i ∧
    (∀ s3 (cs : conn_state D),
       pn_listener_accept d tfd addr_host addr_port server0 addrinfo0 ai0 newfd e net now s2
         = Returns (s3, cs) →
       ∃ s4, listener_done s3 = Returns (false, s4) ∧
             l_armed (ls_l s4) = true ∧
             accepted (ls_l s4) = None ∧ acceptable (ls_l s4) = None ∧
             w_epoll (ls_world s4) !! ee_fd (ps_epoll_io ps)
               = Some (Z.lor (ee_wanted (ps_epoll_io ps)) EPOLLONESHOT)) ∧
    (∃ s3, listener_done s2 = Returns (false, s3) ∧
           l_armed (ls_l s3) = false ∧ acceptable (ls_l s3) = Some i ∧
           w_epoll (ls_world s3) = w_epoll (ls_world s) ∧
           ∀ s4 (cs : conn_state D),
             pn_listener_accept d tfd addr_host addr_port server0 addrinfo0 ai0 newfd e net
                                now s3 = Returns (s4, cs) →
             l_armed (ls_l s4) = false ∧ accepted (ls_l s4) = Some i ∧
             acceptable (ls_l s4) = None ∧
             w_epoll (ls_world s4) !! ee_fd (ps_epoll_io ps) = Some m).
Proof.
  intros Hc Hcl Hwk Hcol Hcd Hps He Hfd Hm Hhup Hin Hnew.
  destruct (listener_process_acceptable i events s c Hc Hcl Hwk Hcol Hhup Hin)
    as (s1 & Hrun1 & Hl1 & He1 & Hw1).
  set (ctx := l_context (ls_l s)) in *.
  set (s2 := upd_l (set_l_collector []) s1).
  assert (Hl2 : ls_l s2 = set_l_collector [] (set_acceptable (Some i)
                                               (set_l_armed false (ls_l s))))
    by (subst s2; cbn; by rewrite Hl1).
  assert (Hw2 : ls_world s2 = store ctx (set_working true c) (ls_world s))
    by (by subst s2).
  assert (Hctx2 : l_context (ls_l s2) = ctx) by (by rewrite Hl2).
  assert (Hlt : (ctx < length (w_mem (ls_world s)))%nat) by (by eapply lookup_lt_Some).
  assert (Hc2 : w_mem (ls_world s2) !! l_context (ls_l s2) = Some (set_working true c)).
  { rewrite Hctx2, Hw2. cbn. by rewrite list_lookup_insert_eq. }
  assert (Hk2 : w_epoll (ls_world s2) = w_epoll (ls_world s)) by (by rewrite Hw2).
  assert (Hp2 : w_p (ls_world s2) = w_p (ls_world s)) by (by rewrite Hw2).
  assert (Hn1 : listener_batch_next s1 = (Some PN_LISTENER_ACCEPT, s2))
    by (unfold listener_batch_next; rewrite Hl1; by cbn).
  assert (Hn2 : listener_batch_next s2 = (None, s2)) by (by subst s2).
  clearbody s2.
  exists s1, s2. split; [exact Hrun1|]. split; [exact Hn1|]. split; [exact Hn2|].
  split; [by rewrite Hl2|]. split; [by rewrite Hl2|]. split.
  - intros s3 cs Hacc.
    assert (Hable : acceptable (ls_l s2) = Some i) by (by rewrite Hl2).
    destruct (pn_listener_accept_accepted _ _ _ _ _ _ _ _ _ _ _ _ _ _ _ _ Hacc Hc2 Hcl Hable
                Hnew) as (Hl3 & _ & Hcl3 & _).
    destruct (pn_listener_accept_keeps _ _ _ _ _ _ _ _ _ _ _ _ _ _ _ _ Hacc Hc2 Hcl Hable Hnew)
      as (He3 & Hkeep).
    unfold listener_closing in Hcl3.
    destruct (w_mem (ls_world s3) !! l_context (ls_l s3)) as [c3|] eqn:Hc3; [|discriminate].
    cbn in Hcl3. injection Hcl3 as Hcl3.
    destruct (listener_done_accepted s3 c3 i ps Hc3 Hcl3) as (s4 & Hdone & Hl4 & Hk4).
    + by rewrite Hl3, Hl2.
    + by rewrite Hl3, Hl2.
    + by rewrite Hl3.
    + by rewrite Hl3.
    + by rewrite Hl3, Hl2.
    + by rewrite Hl3, Hl2.
    + by rewrite He3, Hp2.
    + done.
    + exists m. apply Hkeep. by rewrite Hk2.
    + exists s4. split; [exact Hdone|]. rewrite Hl4, Hk4, Hl3. cbn.
      unfold epoll_set in *. by rewrite lookup_insert_eq.
  - eexists. split; [apply (listener_done_unaccepted s2 _ Hc2);
                     [by rewrite Hl2|by rewrite Hl2|right; rewrite Hl2; by eexists]|].
    cbn. split; [by rewrite Hl2|]. split; [by rewrite Hl2|]. split; [by rewrite Hw2|].
    intros s4 cs Hacc.
    set (s3 := set_ls_world _ s2) in Hacc.
    assert (Hc3 : w_mem (ls_world s3) !! l_context (ls_l s3)
                  = Some (set_working false (set_working true c))).
    { subst s3. cbn. rewrite Hctx2, Hw2. cbn. rewrite list_lookup_insert_eq; [done|].
      by rewrite length_insert. }
    assert (Hable : acceptable (ls_l s3) = Some i) by (subst s3; cbn; by rewrite Hl2).
    destruct (pn_listener_accept_accepted _ _ _ _ _ _ _ _ _ _ _ _ _ _ _ _ Hacc Hc3 Hcl Hable
                Hnew) as (Hl4 & _).
    destruct (pn_listener_accept_keeps _ _ _ _ _ _ _ _ _ _ _ _ _ _ _ _ Hacc Hc3 Hcl Hable Hnew)
      as (_ & Hkeep).
    rewrite Hl4. subst s3. cbn. rewrite Hl2. cbn. repeat split; try done.
    apply Hkeep. cbn. by rewrite Hw2.
Qed.
End ListenerFlow.

(** An idle listener of [test_world] on socket 8, armed, its context at
    address 2. *)
Definition test_listening : listener_state :=
  mk_listener_state
    (mk_listener [listening_socket 2 "localhost" "5672" 8] 1 2 None [] 16 None None false true)
    (set_w_epoll (<[8 := Z.lor EPOLLIN EPOLLONESHOT]> (w_epoll test_world))
       (set_w_mem [pcontext_init PROACTOR; set_next None (pcontext_init PCONNECTION);
                   pcontext_init LISTENER] test_world))
    0.

(** The handler accepts descriptor 10; the listener is armed again when
    the batch is done. *)
Lemma listener_rearms_after_accept_witness :
  ∃ s1 s2 s3 cs s4,
    listener_process false 0%nat EPOLLIN test_listening
      = Returns (Some (listener_batch 2), s1) ∧
    listener_batch_next s1 = (Some PN_LISTENER_ACCEPT, s2) ∧
    pn_listener_accept test_open_driver 9 "" "" false None [] 10 0 [] 1000 s2
      = Returns (s3, cs) ∧
    listener_done s3 = Returns (false, s4) ∧ l_armed (ls_l s4) = true.
Proof.
  destruct (listener_rearms_after_accept false test_open_driver 9 "" "" false None [] 10 0 []
              1000 0%nat EPOLLIN test_listening (pcontext_init LISTENER)
              (listening_socket 2 "localhost" "5672" 8) (Z.lor EPOLLIN EPOLLONESHOT))
    as (s1 & s2 & Hp & Hn1 & _ & _ & _ & Hbefore & _);
    [reflexivity|reflexivity|reflexivity|reflexivity|reflexivity|reflexivity| | |
     reflexivity|reflexivity| | |].
  - by vm_compute.
  - by vm_compute.
  - by vm_compute.
  - lia.
  - destruct (pn_listener_accept test_open_driver 9 "" "" false None [] 10 0 [] 1000 s2)
      as [[s3 cs]| |] eqn:Hacc.
    2,3: vm_compute in Hp; injection Hp as <-; vm_compute in Hn1; injection Hn1 as <-;
         vm_compute in Hacc; discriminate.
    destruct (Hbefore s3 cs eq_refl) as (s4 & Hdone & Harm & _).
    exists s1, s2, s3, cs, s4. split; [exact Hp|]. split; [exact Hn1|].
    split; [exact Hacc|]. split; [exact Hdone|exact Harm].
Defined.

(** ** [pn_proactor_disconnect] *)

(** What the second pass of [pn_proactor_disconnect] and [proactor_remove]
    read of a context. *)
Definition disconnect_view (c : pcontext_t)
  : option nat * option nat * bool * Z * Z * bool :=
  (next c, prev c, disconnecting c, disconnect_ops c, wake_ops c, working c).

(** The proactor but for its count of pending disconnects and the wake
    list. *)
Definition disconnect_rest (p : pn_proactor_t) : pn_proactor_t :=
  set_wake_list_last None
    (set_wake_list_first None (set_wakes_in_progress false (set_disconnects_pending 0 p))).

(** Between the two worlds every context reads the same, and so does the
    proactor. *)
Definition disconnect_frame (w w' : world) : Prop :=
  w_p w' = w_p w ∧ length (w_mem w') = length (w_mem w) ∧
  ∀ a, disconnect_view <$> (w_mem w' !! a) = disconnect_view <$> (w_mem w !! a).

Lemma ctx_list_links mem mem' q : ∀ pr cur,
  ctx_list mem pr cur q →
  (∀ a c, a ∈ q → mem !! a = Some c →
     ∃ c', mem' !! a = Some c' ∧ next c' = next c ∧ prev c' = prev c) →
  ctx_list mem' pr cur q.
Proof.
  induction q as [|b q IH]; intros pr cur Hq Hv.
  - apply ctx_list_empty in Hq as Hcur. subst. constructor.
  - inversion Hq as [|? ? c ? Hb Hpr Htail]; subst.
    destruct (Hv b c ltac:(by left) Hb) as (c' & Hb' & Hn & Hp).
    econstructor; [exact Hb'|done|]. rewrite Hn. apply IH; [done|].
    intros a ca Ha. apply Hv. by right.
Qed.

Lemma disconnect_view_lookup (mem mem' : list pcontext_t) a c :
  disconnect_view <$> (mem' !! a) = disconnect_view <$> (mem !! a) → mem !! a = Some c →
  ∃ c', mem' !! a = Some c' ∧ disconnect_view c' = disconnect_view c.
Proof.
  intros Hv Ha. rewrite Ha in Hv. destruct (mem' !! a) as [c'|]; [|discriminate].
  exists c'. split; [done|]. unfold disconnect_view in *. cbn in Hv. congruence.
Qed.

Lemma ctx_list_view mem mem' q pr cur :
  ctx_list mem pr cur q →
  (∀ a, a ∈ q → disconnect_view <$> (mem' !! a) = disconnect_view <$> (mem !! a)) →
  ctx_list mem' pr cur q.
Proof.
  intros Hq Hv. eapply ctx_list_links; [exact Hq|]. intros a c Ha Hc.
  destruct (disconnect_view_lookup _ _ _ _ (Hv a Ha) Hc) as (c' & Hc' & Hvc).
  injection Hvc as Hn Hp _ _ _ _. by exists c'.
Qed.

(** [wake] in terms of what a disconnect reads: the context is awake
    afterwards, the others are as before. *)
Lemma wake_disconnect_view ctx w notify w' :
  wake ctx w = Returns (notify, w') →
  disconnect_rest (w_p w') = disconnect_rest (w_p w) ∧
  disconnects_pending (w_p w') = disconnects_pending (w_p w) ∧
  length (w_mem w') = length (w_mem w) ∧
  (∀ a, a ≠ ctx → disconnect_view <$> (w_mem w' !! a) = disconnect_view <$> (w_mem w !! a)) ∧
  ∃ c c', w_mem w !! ctx = Some c ∧ w_mem w' !! ctx = Some c' ∧
          next c' = next c ∧ prev c' = prev c ∧ disconnecting c' = disconnecting c ∧
          disconnect_ops c' = disconnect_ops c ∧ working c' = working c ∧
          (wake_ops c' ≠ 0 ∨ working c' = true).
Proof.
  unfold wake, load. intros Hw.
  destruct w as [mem p k efd tfd]. cbn in *.
  destruct (mem !! ctx) as [c|] eqn:Hc; [|discriminate]. cbn in Hw.
  assert (Hlt : (ctx < length mem)%nat) by (by eapply lookup_lt_Some).
  destruct (wake_ops c =? 0) eqn:Hops.
  2: { injection Hw as <- <-. cbn. repeat split; try done.
       exists c, c. rewrite Hc. repeat split; try done. left. by apply Z.eqb_neq. }
  destruct (working c) eqn:Hwk; cbn in Hw.
  { injection Hw as <- <-. cbn. repeat split; try done.
    exists c, c. rewrite Hc. repeat split; try done. by right. }
  apply Z.eqb_eq in Hops. rewrite Hops in Hw.
  change (int_incr 0) with (Returns (A := Z) 1) in Hw. cbn in Hw.
  destruct (wake_list_first p) as [f|] eqn:Hfirst.
  - destruct (wake_list_last p) as [l|] eqn:Hlast; [|discriminate]. cbn in Hw.
    destruct (<[ctx := set_wake_ops 1 c]> mem !! l) as [cl|] eqn:Hl; [|discriminate].
    cbn in Hw.
    assert (Hres : w_mem w' = <[l := set_wake_next (Some ctx) cl]>
                                (<[ctx := set_wake_ops 1 c]> mem) ∧
                   disconnect_rest (w_p w') = disconnect_rest p ∧
                   disconnects_pending (w_p w') = disconnects_pending p).
    { destruct (wakes_in_progress p); cbn in Hw; by injection Hw as <- <-. }
    destruct Hres as (Hm & Hp & Hd). rewrite Hm, !length_insert.
    split; [done|]. split; [done|]. split; [done|]. split.
    + intros a Ha. destruct (decide (a = l)) as [->|Hne].
      * rewrite list_lookup_insert_eq by (by eapply lookup_lt_Some).
        rewrite list_lookup_insert_ne in Hl by done. by rewrite Hl.
      * rewrite list_lookup_insert_ne by done. by rewrite list_lookup_insert_ne.
    + exists c. destruct (decide (ctx = l)) as [<-|Hne].
      * rewrite list_lookup_insert_eq in Hl by done. injection Hl as <-.
        eexists. split; [done|].
        split; [apply list_lookup_insert_eq; by rewrite length_insert|].
        cbn. rewrite Hwk. repeat split; try done. by left.
      * eexists. split; [done|]. rewrite list_lookup_insert_ne by done.
        split; [by apply list_lookup_insert_eq|].
        cbn. rewrite Hwk. repeat split; try done. by left.
  - cbn in Hw.
    assert (Hres : w_mem w' = <[ctx := set_wake_ops 1 c]> mem ∧
                   disconnect_rest (w_p w') = disconnect_rest p ∧
                   disconnects_pending (w_p w') = disconnects_pending p).
    { destruct (wakes_in_progress p); cbn in Hw; by injection Hw as <- <-. }
    destruct Hres as (Hm & Hp & Hd). rewrite Hm, !length_insert.
    split; [done|]. split; [done|]. split; [done|]. split.
    + intros a Ha. by rewrite list_lookup_insert_ne.
    + exists c. eexists. split; [done|]. split; [by apply list_lookup_insert_eq|].
      cbn. rewrite Hwk. repeat split; try done. by left.
Qed.

Lemma wake_notify_p w w' : wake_notify w = Returns w' → w_p w' = w_p w.
Proof.
  unfold wake_notify. destruct (_ =? _); [by intros [= <-]|].
  destruct (eventfd_write _); [|discriminate]. by intros [= <-].
Qed.

(** [proactor_remove] of a context that [pn_proactor_disconnect] has
    passed: it is the last operation on it, the context can be freed, and
    the proactor turns inactive if it was the last pending disconnect and no
    context has been added meanwhile. *)
Lemma proactor_remove_disconnected a w c can_free w' :
  w_mem w !! a = Some c → disconnecting c = true → disconnect_ops c = 1 →
  proactor_remove a w = Returns (can_free, w') →
  can_free = true ∧ contexts (w_p w') = contexts (w_p w) ∧
  disconnects_pending (w_p w') = size_decr (disconnects_pending (w_p w)) ∧
  inactive (w_p w') = inactive (w_p w)
                      || ((size_decr (disconnects_pending (w_p w)) =? 0)
                          && bool_decide (contexts (w_p w) = None)) ∧
  length (w_mem w') = length (w_mem w) ∧
  ∀ b cb, b ≠ a → w_mem w !! b = Some cb →
    ∃ cb', w_mem w' !! b = Some cb' ∧ disconnecting cb' = disconnecting cb ∧
           disconnect_ops cb' = disconnect_ops cb.
Proof.
  intros Ha Hdg Hops Hrun. unfold proactor_remove, load in Hrun.
  rewrite Ha in Hrun. cbn in Hrun. rewrite Hdg, Hops in Hrun.
  change (int_decr 1) with (Returns (A := Z) 0) in Hrun. cbn in Hrun.
  assert (Hlt : (a < length (w_mem w))%nat) by (by eapply lookup_lt_Some).
  destruct w as [mem p k efd tfd]. cbn in *.
  destruct ((size_decr (disconnects_pending p) =? 0) && bool_decide (contexts p = None))
    eqn:Hlast; cbn in Hrun.
  - apply outcome_bind_returns in Hrun as ([[notify free] w3] & Hwake & Hrun).
    apply outcome_bind_returns in Hwake as ([nt w3'] & Hwake & Hres).
    injection Hres as <- <- <-.
    apply outcome_bind_returns in Hrun as (w4 & Hnotify & Hrun). injection Hrun as <- <-.
    assert (Hw4 : w_mem w4 = w_mem w3' ∧ w_p w4 = w_p w3').
    { destruct nt; [|by injection Hnotify as <-].
      split; [by eapply wake_notify_mem|by eapply wake_notify_p]. }
    destruct Hw4 as [Hm4 Hp4].
    apply wake_disconnect_view in Hwake
      as (Hp3 & Hd3 & Hlen3 & Hv3 & c2 & c3 & Ha2 & Ha3 & _ & _ & Hdg3 & Hops3 & _).
    cbn in Hp3, Hd3, Hlen3, Hv3, Ha2. rewrite length_insert in Hlen3.
    rewrite Hm4, Hp4, Hd3, Hlen3. split; [done|].
    split; [exact (f_equal contexts Hp3)|]. split; [done|].
    split. { rewrite orb_true_r. exact (f_equal inactive Hp3). }
    split; [done|].
    intros b cb Hb Hcb.
    destruct (decide (b = p_context p)) as [->|Hne].
    + rewrite list_lookup_insert_ne in Ha2 by done. rewrite Hcb in Ha2.
      injection Ha2 as <-. by exists c3.
    + pose proof (Hv3 b Hne) as Hvb. rewrite list_lookup_insert_ne in Hvb by done.
      destruct (disconnect_view_lookup _ _ _ _ Hvb Hcb) as (cb' & Hcb' & Hvc).
      injection Hvc as _ _ Hd Ho _ _. by exists cb'.
  - injection Hrun as <- <-. cbn. rewrite length_insert, orb_false_r.
    repeat split; try done.
    intros b cb Hb Hcb. exists cb. by rewrite list_lookup_insert_ne.
Qed.

(** [proactor_remove] of the contexts [l], one after the other; the result
    holds what each call returns. *)
Fixpoint proactor_remove_all (l : list nat) (w : world) : outcome (list bool * world) :=
  match l with
  | [] => Returns ([], w)
  | a :: l =>
      '(can_free, w) ← proactor_remove a w;
      '(frees, w) ← proactor_remove_all l w;
      Returns (can_free :: frees, w)
  end.

Lemma proactor_remove_all_disconnected l : ∀ w frees w' pending,
  NoDup l →
  (∀ a, a ∈ l → ∃ c, w_mem w !! a = Some c ∧ disconnecting c = true ∧ disconnect_ops c = 1) →
  contexts (w_p w) = None →
  0 ≤ pending → pending + Z.of_nat (length l) < SIZE_MOD →
  disconnects_pending (w_p w) = pending + Z.of_nat (length l) →
  proactor_remove_all l w = Returns (frees, w') →
  frees = replicate (length l) true ∧ contexts (w_p w') = None ∧
  disconnects_pending (w_p w') = pending ∧
  inactive (w_p w') = inactive (w_p w) || (bool_decide (l ≠ []) && (pending =? 0)).
Proof.
  induction l as [|a l IH]; intros w frees w' pending Hnd Hl Hc Hp0 Hp1 Hd Hrun.
  - injection Hrun as <- <-. cbn in *. rewrite orb_false_r. split; [done|].
    split; [done|]. split; [lia|done].
  - cbn in Hrun. apply NoDup_cons in Hnd as [Hnin Hnd].
    cbn [length] in Hp1, Hd. rewrite Nat2Z.inj_succ in Hp1, Hd.
    apply outcome_bind_returns in Hrun as ([can_free w1] & Hrm & Hrun).
    apply outcome_bind_returns in Hrun as ([frees1 w2] & Hall & Hrun).
    injection Hrun as <- <-.
    destruct (Hl a ltac:(by left)) as (c & Ha & Hdg & Hops).
    destruct (proactor_remove_disconnected _ _ _ _ _ Ha Hdg Hops Hrm)
      as (-> & Hc1 & Hd1 & Hi1 & Hlen1 & Hothers).
    assert (Hd1' : disconnects_pending (w_p w1) = pending + Z.of_nat (length l)).
    { rewrite Hd1, Hd. unfold size_decr. rewrite Z.mod_small; lia. }
    destruct (IH w1 frees1 w2 pending) as (-> & Hc2 & Hd2 & Hi2); try done.
    + intros b Hb. destruct (Hl b ltac:(by right)) as (cb & Hcb & Hdgb & Hopsb).
      assert (Hne : b ≠ a) by (intros ->; done).
      destruct (Hothers b cb Hne Hcb) as (cb' & Hcb' & Hdg' & Hops').
      exists cb'. split; [done|]. split; congruence.
    + congruence.
    + lia.
    + split; [done|]. split; [done|]. split; [done|].
      rewrite Hi2, Hi1, Hd, Hc. rewrite bool_decide_true by done.
      rewrite (bool_decide_true (a :: l ≠ [])) by done. cbn [andb].
      rewrite andb_true_r. unfold size_decr. rewrite Z.mod_small by lia.
      rewrite <- orb_assoc. f_equal.
      destruct l as [|b l].
      * cbn. rewrite orb_false_r. f_equal. lia.
      * rewrite (bool_decide_true (b :: l ≠ [])) by done. cbn [andb length].
        rewrite Nat2Z.inj_succ.
        replace (pending + Z.succ (Z.succ (Z.of_nat (length l))) - 1 =? 0)
          with false by (symmetry; apply Z.eqb_neq; lia).
        done.
Qed.

Section ProactorDisconnect.
Variable NDEBUG : bool.
Context {S : Type} (world_of : S → world) (with_world : world → S → S).
(** What the second pass does to a connection and to a listener under the
    mutex of its context, the object given by the address of its context
    (see [pconnection_disconnect] and [listener_disconnect] below). *)
Variable disconnect_pconnection : nat → S → outcome S.
Variable disconnect_listener : nat → S → outcome S.
(** [pconnection_final_free] and [listener_final_free], likewise. *)
Variable pconnection_final_free : nat → S → outcome S.
Variable listener_final_free : nat → S → outcome S.

(** First pass: mark each pcontext as disconnecting and update global
    pending count.  The loop ends on a list that ends; [fuel] bounds the
    contexts there are. *)
Fixpoint disconnect_mark (fuel : nat) (ctx : option nat) (w : world) : outcome world :=
  match ctx with
  | None => Returns w
  | Some a =>
      match fuel with
      | O => Spins
      | Datatypes.S fuel =>
          c ← load w a;
          (* Second pass below and proactor_remove(), in any order. *)
          let w := store a (set_disconnect_ops 2 (set_disconnecting true c)) w in
          let w := update_p (λ p, set_disconnects_pending
                                    (size_incr (disconnects_pending p)) p) w in
          disconnect_mark fuel (next c) w
      end
  end.

(** Second pass: different locking, close the pcontexts, free them if
    !disconnect_ops.  The result holds [notify] and the contexts that
    [pconnection_final_free] or [listener_final_free] was called for. *)
Fixpoint disconnect_close (fuel : nat) (ctx : option nat) (notify : bool) (freed : list nat)
    (s : S) : outcome (bool * list nat * S) :=
  match ctx with
  | None => Returns (notify, freed, s)
  | Some a =>
      match fuel with
      | O => Spins
      | Datatypes.S fuel =>
          c ← load (world_of s) a;
          s ← match ctx_type c with
              | PCONNECTION => disconnect_pconnection a s
              | LISTENER => disconnect_listener a s
              | _ => assert NDEBUG false;; Aborts Undefined   (* assert(l) *)
              end;
          c ← load (world_of s) a;
          n ← int_decr (disconnect_ops c);
          let w := store a (set_disconnect_ops n c) (world_of s) in
          '(do_free, ctx_notify, notify, w) ←
            (if n =? 0 then
               let w := update_p (λ p, set_disconnects_pending
                                         (size_decr (disconnects_pending p)) p) w in
               if (disconnects_pending (w_p w) =? 0)
                  && bool_decide (contexts (w_p w) = None) then
                 let w := update_p (set_inactive true) w in
                 '(notify, w) ← wake (p_context (w_p w)) w;
                 Returns (true, false, notify, w)
               else Returns (true, false, notify, w)
             else
               (* If initiating the close, wake the pcontext to do the free. *)
               '(ctx_notify, w) ← wake a w;
               Returns (false, ctx_notify, notify, w));
          s ← (if do_free then
                 match ctx_type c with
                 | PCONNECTION => pconnection_final_free a (with_world w s)
                 | _ => listener_final_free a (with_world w s)
                 end
               else if ctx_notify then w ← wake_notify w; Returns (with_world w s)
               else Returns (with_world w s));
          c ← load (world_of s) a;
          disconnect_close fuel (next c) notify (if do_free then freed ++ [a] else freed) s
      end
  end.

(** The result holds the contexts that were freed. *)
Definition pn_proactor_disconnect (s : S) : outcome (list nat * S) :=
  let w := world_of s in
  (* Move the whole contexts list into a disconnecting state *)
  let disconnecting_pcontexts := contexts (w_p w) in
  let fuel := length (w_mem w) in
  let w := update_p (set_contexts None) w in
  w ← disconnect_mark fuel disconnecting_pcontexts w;
  let s := with_world w s in
  match disconnecting_pcontexts with
  | None => Returns ([], s)
  | Some _ =>
      '(notify, freed, s) ← disconnect_close fuel disconnecting_pcontexts false [] s;
      if notify then w ← wake_notify (world_of s); Returns (freed, with_world w s)
      else Returns (freed, s)
  end.

Hypothesis world_of_with_world : ∀ w s, world_of (with_world w s) = w.
Hypothesis disconnect_pconnection_frame : ∀ a s s',
  disconnect_pconnection a s = Returns s' → disconnect_frame (world_of s) (world_of s').
Hypothesis disconnect_listener_frame : ∀ a s s',
  disconnect_listener a s = Returns s' → disconnect_frame (world_of s) (world_of s').

(** The first pass over the list [q]. *)
Lemma disconnect_mark_spec q : ∀ fuel pr cur w w',
  ctx_list (w_mem w) pr cur q → NoDup q →
  0 ≤ disconnects_pending (w_p w) < SIZE_MOD →
  disconnect_mark fuel cur w = Returns w' →
  length (w_mem w') = length (w_mem w) ∧
  set_disconnects_pending 0 (w_p w') = set_disconnects_pending 0 (w_p w) ∧
  disconnects_pending (w_p w')
    = (disconnects_pending (w_p w) + Z.of_nat (length q)) mod SIZE_MOD ∧
  (∀ b, b ∉ q → w_mem w' !! b = w_mem w !! b) ∧
  (∀ a, a ∈ q → ∃ c, w_mem w !! a = Some c ∧
                     w_mem w' !! a = Some (set_disconnect_ops 2 (set_disconnecting true c))).
Proof.
  induction q as [|a q IH]; intros fuel pr cur w w' Hq Hnd Hrange Hrun.
  - apply ctx_list_empty in Hq as ->.
    assert (w' = w) as -> by (by destruct fuel; injection Hrun as <-).
    cbn. rewrite Z.add_0_r, Z.mod_small by done. repeat split; try done.
    intros a Ha. by apply elem_of_nil in Ha.
  - inversion Hq as [|? ? c ? Ha Hpr Htail]; subst.
    apply NoDup_cons in Hnd as [Hnin Hnd].
    destruct fuel as [|fuel]; [discriminate|]. cbn in Hrun.
    unfold load in Hrun. rewrite Ha in Hrun. cbn in Hrun.
    set (w1 := update_p _ (store a _ w)) in Hrun.
    assert (Hm1 : w_mem w1 = <[a := set_disconnect_ops 2 (set_disconnecting true c)]> (w_mem w))
      by (by destruct w).
    assert (Hp1 : set_disconnects_pending 0 (w_p w1) = set_disconnects_pending 0 (w_p w))
      by (by destruct w).
    assert (Hd1 : disconnects_pending (w_p w1) = size_incr (disconnects_pending (w_p w)))
      by (by destruct w).
    assert (Hlt : (a < length (w_mem w))%nat) by (by eapply lookup_lt_Some).
    destruct (IH fuel (Some a) (next c) w1 w') as (Hlen & Hp & Hd & Hout & Hin).
    + rewrite Hm1. by apply ctx_list_store_notin.
    + done.
    + rewrite Hd1. unfold size_incr. apply Z.mod_pos_bound. by unfold SIZE_MOD.
    + exact Hrun.
    + split; [by rewrite Hlen, Hm1, length_insert|]. split; [by rewrite Hp|].
      split.
      { rewrite Hd, Hd1. unfold size_incr. rewrite Zplus_mod_idemp_l. f_equal.
        cbn [length]. lia. }
      split.
      { intros b Hb. apply not_elem_of_cons in Hb as [Hne Hb].
        rewrite (Hout b Hb), Hm1. by rewrite list_lookup_insert_ne. }
      intros b Hb. apply elem_of_cons in Hb as [->|Hb].
      * exists c. split; [done|]. rewrite (Hout a Hnin), Hm1.
        by apply list_lookup_insert_eq.
      * destruct (Hin b Hb) as (cb & Hb1 & Hb2). exists cb. split; [|done].
        rewrite Hm1 in Hb1. rewrite list_lookup_insert_ne in Hb1; [done|].
        intros <-. done.
Qed.

(** One context of the second pass that the first pass has marked: it is
    closed, left with one operation to go, and woken; nothing is freed. *)
Lemma disconnect_close_spec q : ∀ fuel pr cur s notify freed r,
  ctx_list (w_mem (world_of s)) pr cur q → NoDup q →
  (∀ a, a ∈ q → ∃ c, w_mem (world_of s) !! a = Some c ∧ disconnect_ops c = 2) →
  disconnect_close fuel cur notify freed s = Returns r →
  r.1.1 = notify ∧ r.1.2 = freed ∧
  disconnect_rest (w_p (world_of r.2)) = disconnect_rest (w_p (world_of s)) ∧
  disconnects_pending (w_p (world_of r.2)) = disconnects_pending (w_p (world_of s)) ∧
  length (w_mem (world_of r.2)) = length (w_mem (world_of s)) ∧
  (∀ b, b ∉ q → disconnect_view <$> (w_mem (world_of r.2) !! b)
                = disconnect_view <$> (w_mem (world_of s) !! b)) ∧
  (∀ a, a ∈ q → ∃ c c', w_mem (world_of s) !! a = Some c ∧
                        w_mem (world_of r.2) !! a = Some c' ∧
                        disconnecting c' = disconnecting c ∧ disconnect_ops c' = 1 ∧
                        (wake_ops c' ≠ 0 ∨ working c' = true)).
Proof.
  induction q as [|a q IH]; intros fuel pr cur s notify freed r Hq Hnd Hops Hrun.
  - apply ctx_list_empty in Hq as ->.
    assert (r = (notify, freed, s)) as -> by (by destruct fuel; injection Hrun as <-).
    cbn. repeat split; try done. intros a Ha. by apply elem_of_nil in Ha.
  - inversion Hq as [|? ? c ? Ha Hpr Htail]; subst.
    apply NoDup_cons in Hnd as [Hnin Hnd].
    destruct fuel as [|fuel]; [discriminate|]. cbn in Hrun.
    unfold load in Hrun at 1. rewrite Ha in Hrun. cbn in Hrun.
    apply outcome_bind_returns in Hrun as (s1 & Hobj & Hrun).
    assert (Hf1 : disconnect_frame (world_of s) (world_of s1)).
    { destruct (ctx_type c).
      - apply outcome_bind_returns in Hobj as (? & _ & Hobj). discriminate.
      - by eapply disconnect_pconnection_frame.
      - by eapply disconnect_listener_frame.
      - apply outcome_bind_returns in Hobj as (? & _ & Hobj). discriminate. }
    destruct Hf1 as (Hp1 & Hlen1 & Hv1).
    destruct (Hops a ltac:(by left)) as (c0 & Ha0 & Hops0).
    rewrite Ha in Ha0. injection Ha0 as <-.
    destruct (disconnect_view_lookup _ _ _ _ (Hv1 a) Ha) as (c1 & Ha1 & Hc1).
    injection Hc1 as Hn1 Hpr1 Hdg1 Hops1 Hwo1 Hwk1.
    unfold load in Hrun at 1. rewrite Ha1 in Hrun. cbn in Hrun.
    rewrite Hops1, Hops0 in Hrun. change (int_decr 2) with (Returns (A := Z) 1) in Hrun.
    cbn in Hrun.
    apply outcome_bind_returns in Hrun as ([[[do_free ctx_notify] notify1] w3] & Hwake & Hrun).
    apply outcome_bind_returns in Hwake as ([cn w3'] & Hwake & Hres).
    injection Hres as <- <- <- <-. cbn in Hrun.
    apply outcome_bind_returns in Hrun as (s2 & Hnotify & Hrun).
    assert (Hw4 : ∃ w4, s2 = with_world w4 s1 ∧ w_mem w4 = w_mem w3' ∧ w_p w4 = w_p w3').
    { destruct cn; [|injection Hnotify as <-; by exists w3'].
      apply outcome_bind_returns in Hnotify as (w4 & Hnotify & Hres). injection Hres as <-.
      exists w4. split; [done|].
      split; [by eapply wake_notify_mem|by eapply wake_notify_p]. }
    destruct Hw4 as (w4 & -> & Hm4 & Hp4).
    apply wake_disconnect_view in Hwake
      as (Hp3 & Hd3 & Hlen3 & Hv3 & c2 & c3 & Ha2 & Ha3 & Hn3 & Hpr3 & Hdg3 & Hops3 & Hwk3 & Hwoken).
    assert (Hlt1 : (a < length (w_mem (world_of s1)))%nat) by (by eapply lookup_lt_Some).
    cbn in Ha2. rewrite list_lookup_insert_eq in Ha2 by done. injection Ha2 as <-.
    cbn in Hn3, Hpr3, Hdg3, Hops3, Hwk3, Hp3, Hd3, Hlen3. rewrite length_insert in Hlen3.
    rewrite world_of_with_world in Hrun. unfold load in Hrun. rewrite Hm4, Ha3 in Hrun.
    cbn in Hrun. rewrite Hn3, Hn1 in Hrun.
    set (s2 := with_world w4 s1) in *.
    assert (Hw2 : world_of s2 = w4) by apply world_of_with_world.
    assert (Hv2 : ∀ b, b ≠ a → disconnect_view <$> (w_mem (world_of s2) !! b)
                               = disconnect_view <$> (w_mem (world_of s) !! b)).
    { intros b Hb. rewrite Hw2, Hm4, (Hv3 b Hb). cbn.
      rewrite list_lookup_insert_ne by done. apply Hv1. }
    destruct (IH fuel (Some a) (next c) s2 notify freed r)
      as (Hr1 & Hr2 & Hrp & Hrd & Hrlen & Hout & Hin).
    + eapply ctx_list_view; [exact Htail|]. intros b Hb. apply Hv2. intros ->. done.
    + done.
    + intros b Hb. destruct (Hops b ltac:(by right)) as (cb & Hcb & Hopsb).
      assert (Hne : b ≠ a) by (intros ->; done).
      destruct (disconnect_view_lookup _ _ _ _ (Hv2 b Hne) Hcb) as (cb' & Hcb' & Hvb).
      exists cb'. split; [done|]. injection Hvb as _ _ _ Hvb _ _. congruence.
    + exact Hrun.
    + split; [done|]. split; [done|].
      split; [by rewrite Hrp, Hw2, Hp4, Hp3, Hp1|].
      split; [by rewrite Hrd, Hw2, Hp4, Hd3, Hp1|].
      split; [by rewrite Hrlen, Hw2, Hm4, Hlen3|].
      split.
      { intros b Hb. apply not_elem_of_cons in Hb as [Hne Hb].
        rewrite (Hout b Hb). by apply Hv2. }
      intros b Hb. apply elem_of_cons in Hb as [->|Hb].
      * exists c. pose proof (Hout a Hnin) as Hva.
        rewrite Hw2, Hm4, Ha3 in Hva.
        destruct (w_mem (world_of r.2) !! a) as [c'|]; [|discriminate].
        injection Hva as _ _ Hdg' Hops' Hwo' Hwk'.
        exists c'. split; [done|]. split; [done|].
        split; [congruence|]. split; [congruence|].
        rewrite Hwo', Hwk'. exact Hwoken.
      * destruct (Hin b Hb) as (cb2 & cb' & Hb2 & Hb' & Hdgb & Hopsb & Hwokenb).
        assert (Hne : b ≠ a) by (intros ->; done).
        pose proof (Hv2 b Hne) as Hvb. rewrite Hb2 in Hvb.
        destruct (w_mem (world_of s) !! b) as [cb|]; [|discriminate].
        injection Hvb as _ _ Hdgb0 _ _ _.
        exists cb, cb'. split; [done|]. split; [done|]. split; [congruence|]. done.
Qed.
(** [pn_proactor_disconnect] on a proactor whose contexts are [q]. *)
Lemma pn_proactor_disconnect_spec s q freed s' :
  contexts_are (world_of s) q →
  0 ≤ disconnects_pending (w_p (world_of s)) < SIZE_MOD →
  pn_proactor_disconnect s = Returns (freed, s') →
  freed = [] ∧ contexts (w_p (world_of s')) = None ∧
  disconnects_pending (w_p (world_of s'))
    = (disconnects_pending (w_p (world_of s)) + Z.of_nat (length q)) mod SIZE_MOD ∧
  inactive (w_p (world_of s')) = inactive (w_p (world_of s)) ∧
  length (w_mem (world_of s')) = length (w_mem (world_of s)) ∧
  (∀ a, a ∈ q → ∃ c c', w_mem (world_of s) !! a = Some c ∧
                        w_mem (world_of s') !! a = Some c' ∧
                        disconnecting c' = true ∧ disconnect_ops c' = 1 ∧
                        (wake_ops c' ≠ 0 ∨ working c' = true)) ∧
  (∀ b, b ∉ q → disconnect_view <$> (w_mem (world_of s') !! b)
                = disconnect_view <$> (w_mem (world_of s) !! b)).
Proof.
  intros [Hq Hnd] Hrange Hrun. unfold pn_proactor_disconnect in Hrun.
  apply outcome_bind_returns in Hrun as (w1 & Hmark & Hrun).
  set (w0 := update_p (set_contexts None) (world_of s)) in *.
  assert (Hm0 : w_mem w0 = w_mem (world_of s)) by (by destruct (world_of s)).
  assert (Hd0 : disconnects_pending (w_p w0) = disconnects_pending (w_p (world_of s)))
    by (by destruct (world_of s)).
  assert (Hc0 : contexts (w_p w0) = None) by (by destruct (world_of s)).
  assert (Hi0 : inactive (w_p w0) = inactive (w_p (world_of s))) by (by destruct (world_of s)).
  clearbody w0.
  assert (Hq0 : ctx_list (w_mem w0) None (contexts (w_p (world_of s))) q) by (by rewrite Hm0).
  assert (Hrange0 : 0 ≤ disconnects_pending (w_p w0) < SIZE_MOD) by (by rewrite Hd0).
  destruct (disconnect_mark_spec q _ _ _ _ _ Hq0 Hnd Hrange0 Hmark)
    as (Hlen1 & Hp1 & Hd1 & Hout1 & Hin1).
  assert (Hc1 : contexts (w_p w1) = None).
  { rewrite <- Hc0. exact (f_equal contexts Hp1). }
  assert (Hi1 : inactive (w_p w1) = inactive (w_p (world_of s))).
  { rewrite <- Hi0. exact (f_equal inactive Hp1). }
  rewrite Hd0 in Hd1. rewrite Hm0 in Hlen1.
  set (s1 := with_world w1 s) in *.
  assert (Hw1 : world_of s1 = w1) by apply world_of_with_world.
  destruct (contexts (w_p (world_of s))) as [h|] eqn:Hhead.
  - apply outcome_bind_returns in Hrun as ([[notify freed1] s2] & Hclose & Hrun).
    assert (Hq1 : ctx_list (w_mem (world_of s1)) None (Some h) q).
    { rewrite Hw1. eapply ctx_list_links; [exact Hq|]. intros a c Ha Hc.
      destruct (Hin1 a Ha) as (c0 & Hc0' & Hc1'). rewrite Hm0, Hc in Hc0'.
      injection Hc0' as <-. eexists. split; [exact Hc1'|]. done. }
    assert (Hops1 : ∀ a, a ∈ q → ∃ c, w_mem (world_of s1) !! a = Some c ∧ disconnect_ops c = 2).
    { intros a Ha. destruct (Hin1 a Ha) as (c0 & _ & Hc1'). rewrite Hw1.
      eexists. split; [exact Hc1'|]. done. }
    destruct (disconnect_close_spec q _ _ _ _ _ _ _ Hq1 Hnd Hops1 Hclose)
      as (Hr1 & Hr2 & Hrp & Hrd & Hrlen & Hout & Hin).
    + cbn in Hr1, Hr2, Hrp, Hrd, Hrlen, Hout, Hin. subst notify freed1.
      injection Hrun as <- <-. rewrite Hw1 in *.
      split; [done|].
      split. { rewrite <- Hc1. exact (f_equal contexts Hrp). }
      split; [by rewrite Hrd|].
      split. { rewrite <- Hi1. exact (f_equal inactive Hrp). }
      split; [by rewrite Hrlen|].
      split.
      * intros a Ha. destruct (Hin a Ha) as (c1 & c' & Hc1' & Hc' & Hdg & Hops & Hwoken).
        destruct (Hin1 a Ha) as (c0 & Hc0' & Hc1''). rewrite Hc1'' in Hc1'.
        injection Hc1' as <-. rewrite Hm0 in Hc0'.
        exists c0, c'. split; [done|]. split; [done|]. split; [by rewrite Hdg|]. done.
      * intros b Hb. rewrite (Hout b Hb), (Hout1 b Hb). by rewrite Hm0.
  - apply ctx_list_none in Hq as Hnil. subst q. injection Hrun as <- <-.
    fold s1. rewrite Hw1. cbn in Hd1. split; [done|]. split; [done|]. split; [done|].
    split; [done|]. split; [done|].
    split; [intros a Ha; by apply elem_of_nil in Ha|].
    intros b Hb. rewrite (Hout1 b Hb). by rewrite Hm0.
Qed.
(** [pn_proactor_disconnect] takes every context off the proactor's list:
    afterwards the list is empty, each context that was on it is marked
    [disconnecting] with one operation left, for [proactor_remove], and is
    awake (a wake is counted for it, or a thread is working on it), and
    [disconnects_pending] has grown by their number.  The call itself frees
    no context and does not make the proactor inactive; contexts that were
    not on the list read as before. *)
Theorem pn_proactor_disconnect_marks s q freed s' :
  contexts_are (world_of s) q →
  0 ≤ disconnects_pending (w_p (world_of s)) < SIZE_MOD →
  pn_proactor_disconnect s = Returns (freed, s') →
  freed = [] ∧ contexts (w_p (world_of s')) = None ∧
  disconnects_pending (w_p (world_of s'))
    = (disconnects_pending (w_p (world_of s)) + Z.of_nat (length q)) mod SIZE_MOD ∧
  inactive (w_p (world_of s')) = inactive (w_p (world_of s)) ∧
  length (w_mem (world_of s')) = length (w_mem (world_of s)) ∧
  (∀ a, a ∈ q → ∃ c c', w_mem (world_of s) !! a = Some c ∧
                        w_mem (world_of s') !! a = Some c' ∧
                        disconnecting c' = true ∧ disconnect_ops c' = 1 ∧
                        (wake_ops c' ≠ 0 ∨ working c' = true)) ∧
  (∀ b, b ∉ q → disconnect_view <$> (w_mem (world_of s') !! b)
                = disconnect_view <$> (w_mem (world_of s) !! b)).
Proof. apply pn_proactor_disconnect_spec. Qed.

(** After [pn_proactor_disconnect] with nothing pending before, the
    disconnected contexts are removed in any order: each
    [proactor_remove] reports that its context can be freed, the count of
    pending disconnects is the number of contexts still to remove, and the
    proactor is made inactive by the removal of the last one, not before. *)
Theorem disconnect_then_remove_inactive s q freed s' l1 l2 frees w' :
  contexts_are (world_of s) q → q ≠ [] →
  disconnects_pending (w_p (world_of s)) = 0 → Z.of_nat (length q) < SIZE_MOD →
  pn_proactor_disconnect s = Returns (freed, s') →
  l1 ++ l2 ≡ₚ q →
  proactor_remove_all l1 (world_of s') = Returns (frees, w') →
  frees = replicate (length l1) true ∧
  disconnects_pending (w_p w') = Z.of_nat (length l2) ∧
  inactive (w_p w') = inactive (w_p (world_of s)) || bool_decide (l2 = []).
Proof.
  intros Hq Hne Hd Hlen Hrun Hperm Hall.
  assert (Hrange : 0 ≤ disconnects_pending (w_p (world_of s)) < SIZE_MOD)
    by (rewrite Hd; by unfold SIZE_MOD).
  destruct (pn_proactor_disconnect_spec s q freed s' Hq Hrange Hrun)
    as (_ & Hc1 & Hd1 & Hi1 & _ & Hin & _).
  destruct Hq as [_ Hnd].
  assert (Hnd12 : NoDup (l1 ++ l2)) by (by rewrite Hperm).
  apply NoDup_app in Hnd12 as (Hnd1 & _ & _).
  assert (Hl : length q = (length l1 + length l2)%nat).
  { rewrite <- Hperm. by rewrite length_app. }
  rewrite Hd, Z.add_0_l, Z.mod_small in Hd1 by lia.
  destruct (proactor_remove_all_disconnected l1 (world_of s') frees w'
              (Z.of_nat (length l2))) as (Hf & _ & Hd2 & Hi2); try done.
  - intros a Ha.
    assert (Haq : a ∈ q) by (rewrite <- Hperm; apply elem_of_app; by left).
    destruct (Hin a Haq) as (c & c' & _ & Hc' & Hdg & Hops & _). by exists c'.
  - lia.
  - lia.
  - lia.
  - split; [done|]. split; [done|]. rewrite Hi2, Hi1. f_equal.
    destruct l2 as [|b l2].
    + rewrite app_nil_r in Hperm. destruct l1 as [|a l1].
      * symmetry in Hperm. apply Permutation_nil_r in Hperm. done.
      * by rewrite bool_decide_true.
    + rewrite (bool_decide_false (b :: l2 = [])) by done. cbn [length].
      rewrite Nat2Z.inj_succ.
      replace (Z.succ (Z.of_nat (length l2)) =? 0) with false
        by (symmetry; apply Z.eqb_neq; lia).
      by rewrite andb_false_r.
Qed.
End ProactorDisconnect.


(** The second pass on a connection, under the mutex of its context. *)
Definition pconnection_disconnect {D : Type} `{ConnectionDriver D} (cond : option string)
    (s : conn_state D) : outcome (conn_state D) :=
  c ← load (cs_world s) (pc_context (cs_pc s));
  if negb (closing c) then
    if working c then
      (* Must defer *)
      let s := upd_pc (set_queued_disconnect true) s in
      match cond with
      | Some k => Returns (upd_pc (set_disconnect_condition (Some k)) s)
      | None => Returns s
      end
    else
      (* No conflicting working context. *)
      let s := match cond with
               | Some k => upd_driver (λ d, pn_transport_condition_copy d k) s
               | None => s
               end in
      Returns (upd_driver pn_connection_driver_close s)
  else Returns s.

(** The second pass on a listener, under the mutex of its context. *)
Definition listener_disconnect (cond : option pn_condition_t) (s : listener_state)
  : outcome listener_state :=
  c ← load (ls_world s) (l_context (ls_l s));
  if negb (closing c) then
    let s := match cond with
             | Some k => upd_l (set_l_condition (Some k)) s
             | None => s
             end in
    listener_begin_close s
  else Returns s.

Lemma pconnection_disconnect_world {D : Type} `{ConnectionDriver D} cond (s s' : conn_state D) :
  pconnection_disconnect cond s = Returns s' →
  cs_world s' = cs_world s ∧ pc_context (cs_pc s') = pc_context (cs_pc s).
Proof.
  unfold pconnection_disconnect. intros Hrun.
  apply outcome_bind_returns in Hrun as (c & _ & Hrun).
  destruct (closing c); cbn in Hrun; [by injection Hrun as <-|].
  destruct (working c), cond; by injection Hrun as <-.
Qed.

Lemma listener_close_sockets_p n : ∀ i s s',
  listener_close_sockets n i s = Returns s' → w_p (ls_world s') = w_p (ls_world s).
Proof.
  induction n as [|n IH]; intros i s s' Hf; [by injection Hf as <-|].
  cbn in Hf. apply outcome_bind_returns in Hf as (ps & _ & Hf).
  apply outcome_bind_returns in Hf as (s1 & H1 & Hf).
  apply IH in Hf as ->.
  destruct (0 <=? sockfd ps); [|by injection H1 as <-].
  apply outcome_bind_returns in H1 as ([ee k] & _ & H1). by injection H1 as <-.
Qed.

Lemma listener_begin_close_disconnect_frame s s' :
  listener_begin_close s = Returns s' → disconnect_frame (ls_world s) (ls_world s').
Proof.
  unfold listener_begin_close, load. intros Hrun.
  destruct (w_mem (ls_world s) !! l_context (ls_l s)) as [c|] eqn:Hc; [|discriminate].
  cbn in Hrun. destruct (closing c); cbn in Hrun; [by injection Hrun as <-|].
  apply outcome_bind_returns in Hrun as (s1 & Hclose & Hrun). injection Hrun as <-. cbn.
  pose proof (listener_close_sockets_p _ _ _ _ Hclose) as Hp.
  pose proof (listener_close_sockets_frame _ _ _ _ Hclose) as (_ & _ & _ & _ & Hm).
  cbn in Hp, Hm. split; [done|]. rewrite Hm. split; [by rewrite length_insert|].
  intros a. destruct (decide (a = l_context (ls_l s))) as [->|Hne].
  - rewrite list_lookup_insert_eq by (by eapply lookup_lt_Some). by rewrite Hc.
  - by rewrite list_lookup_insert_ne.
Qed.

Lemma listener_disconnect_frame cond s s' :
  listener_disconnect cond s = Returns s' → disconnect_frame (ls_world s) (ls_world s').
Proof.
  unfold listener_disconnect. intros Hrun.
  apply outcome_bind_returns in Hrun as (c & _ & Hrun).
  destruct (closing c); cbn in Hrun; [by injection Hrun as <-|].
  apply listener_begin_close_disconnect_frame in Hrun. by destruct cond.
Qed.

(** A proactor with a listener and a connection, the listener added last:
    the connection of [test_conn] and the listener of [test_listening],
    their contexts at addresses 1 and 2. *)
Record test_store : Type := mk_test_store {
  ts_pc : pconnection_t test_driver;
  ts_l : pn_listener_t;
  ts_world : world
}.

Definition ts_with_world (w : world) (s : test_store) : test_store :=
  mk_test_store (ts_pc s) (ts_l s) w.

Definition ts_disconnect_pconnection (cond : option string) (a : nat) (s : test_store)
  : outcome test_store :=
  if decide (a = pc_context (ts_pc s)) then
    cs ← pconnection_disconnect cond (mk_conn_state (ts_pc s) timerfd_init (ts_world s) [] 0 0 []);
    Returns (mk_test_store (cs_pc cs) (ts_l s) (cs_world cs))
  else Aborts Undefined.

Definition ts_disconnect_listener (cond : option pn_condition_t) (a : nat) (s : test_store)
  : outcome test_store :=
  if decide (a = l_context (ts_l s)) then
    ls ← listener_disconnect cond (mk_listener_state (ts_l s) (ts_world s) 0);
    Returns (mk_test_store (ts_pc s) (ls_l ls) (ls_world ls))
  else Aborts Undefined.

Definition ts_pconnection_final_free (a : nat) (s : test_store) : outcome test_store :=
  if decide (a = pc_context (ts_pc s)) then
    let cs := pconnection_final_free
                (mk_conn_state (ts_pc s) timerfd_init (ts_world s) [] 0 0 []) in
    Returns (mk_test_store (cs_pc cs) (ts_l s) (cs_world cs))
  else Aborts Undefined.

(** [listener_final_free] frees the listener and its sockets. *)
Definition ts_listener_final_free (a : nat) (s : test_store) : outcome test_store :=
  if decide (a = l_context (ts_l s)) then Returns s else Aborts Undefined.

Definition test_two_contexts : test_store :=
  mk_test_store (test_pconnection test_open_driver) (ls_l test_listening)
    (update_p (set_contexts (Some 2%nat))
       (set_w_mem [pcontext_init PROACTOR; set_prev (Some 2%nat) (pcontext_init PCONNECTION);
                   set_next (Some 1%nat) (pcontext_init LISTENER)]
                  (ls_world test_listening))).

Lemma ts_disconnect_pconnection_frame cond a s s' :
  ts_disconnect_pconnection cond a s = Returns s' → disconnect_frame (ts_world s) (ts_world s').
Proof.
  unfold ts_disconnect_pconnection. destruct (decide _); [|discriminate]. intros Hrun.
  apply outcome_bind_returns in Hrun as (cs & Hd & Hrun). injection Hrun as <-.
  apply pconnection_disconnect_world in Hd as [Hw _]. cbn in *. by rewrite Hw.
Qed.

Lemma ts_disconnect_listener_frame cond a s s' :
  ts_disconnect_listener cond a s = Returns s' → disconnect_frame (ts_world s) (ts_world s').
Proof.
  unfold ts_disconnect_listener. destruct (decide _); [|discriminate]. intros Hrun.
  apply outcome_bind_returns in Hrun as (ls & Hd & Hrun). injection Hrun as <-.
  by apply listener_disconnect_frame in Hd.
Qed.

Lemma test_two_contexts_are : contexts_are (ts_world test_two_contexts) [2%nat; 1%nat].
Proof.
  split.
  - econstructor; [reflexivity|reflexivity|]. econstructor; [reflexivity|reflexivity|].
    constructor.
  - apply (bool_decide_unpack _). by vm_compute.
Qed.

(** The listener and the connection are disconnected with a condition: the
    listener closes and its socket 8 is unregistered, the driver of the
    connection is closed with the condition, and both contexts are woken. *)
Lemma pn_proactor_disconnect_marks_witness :
  ∃ s', pn_proactor_disconnect false ts_world ts_with_world
          (ts_disconnect_pconnection (Some "shutdown"))
          (ts_disconnect_listener (Some (mk_condition "shutdown" "" "" 0)))
          ts_pconnection_final_free ts_listener_final_free
          test_two_contexts = Returns ([], s') ∧
        contexts (w_p (ts_world s')) = None ∧ disconnects_pending (w_p (ts_world s')) = 2 ∧
        td_condition (driver (ts_pc s')) = Some "shutdown" ∧
        l_collector (ts_l s') = [PN_LISTENER_CLOSE] ∧ w_epoll (ts_world s') !! 8 = None.
Proof.
  destruct (pn_proactor_disconnect false ts_world ts_with_world
              (ts_disconnect_pconnection (Some "shutdown"))
              (ts_disconnect_listener (Some (mk_condition "shutdown" "" "" 0)))
              ts_pconnection_final_free ts_listener_final_free
              test_two_contexts) as [[freed s']| |] eqn:Hrun; [|vm_compute in Hrun; discriminate..].
  destruct (pn_proactor_disconnect_marks false ts_world ts_with_world
              (ts_disconnect_pconnection (Some "shutdown"))
              (ts_disconnect_listener (Some (mk_condition "shutdown" "" "" 0)))
              ts_pconnection_final_free ts_listener_final_free
              (λ _ _, eq_refl) (ts_disconnect_pconnection_frame _)
              (ts_disconnect_listener_frame _) test_two_contexts [2%nat; 1%nat] freed s'
              test_two_contexts_are)
    as (-> & Hc & Hd & _); [by vm_compute|exact Hrun|].
  exists s'. split; [reflexivity|]. split; [exact Hc|]. split; [exact Hd|].
  vm_compute in Hrun. injection Hrun as <-. by vm_compute.
Defined.

(** Then the connection and the listener are removed, in this order: the
    proactor is inactive after the second removal. *)
Lemma disconnect_then_remove_inactive_witness :
  ∃ s' w1 w2,
    pn_proactor_disconnect false ts_world ts_with_world
      (ts_disconnect_pconnection None) (ts_disconnect_listener None)
      ts_pconnection_final_free ts_listener_final_free test_two_contexts
      = Returns ([], s') ∧
    proactor_remove_all [1%nat] (ts_world s') = Returns ([true], w1) ∧
    inactive (w_p w1) = false ∧
    proactor_remove_all [1%nat; 2%nat] (ts_world s') = Returns ([true; true], w2) ∧
    inactive (w_p w2) = true.
Proof.
  destruct (pn_proactor_disconnect false ts_world ts_with_world
              (ts_disconnect_pconnection None) (ts_disconnect_listener None)
              ts_pconnection_final_free ts_listener_final_free
              test_two_contexts) as [[freed s']| |] eqn:Hrun; [|vm_compute in Hrun; discriminate..].
  assert (Hfreed : freed = []) by (vm_compute in Hrun; by injection Hrun as <- _).
  subst freed.
  destruct (proactor_remove_all [1%nat] (ts_world s')) as [[frees1 w1]| |] eqn:H1.
  2,3: vm_compute in Hrun; injection Hrun as <-; vm_compute in H1; discriminate.
  destruct (proactor_remove_all [1%nat; 2%nat] (ts_world s')) as [[frees2 w2]| |] eqn:H2.
  2,3: vm_compute in Hrun; injection Hrun as <-; vm_compute in H2; discriminate.
  destruct (disconnect_then_remove_inactive false ts_world ts_with_world
              (ts_disconnect_pconnection None) (ts_disconnect_listener None)
              ts_pconnection_final_free ts_listener_final_free
              (λ _ _, eq_refl) (ts_disconnect_pconnection_frame _)
              (ts_disconnect_listener_frame _) test_two_contexts [2%nat; 1%nat] [] s'
              [1%nat] [2%nat] frees1 w1 test_two_contexts_are)
    as (-> & _ & Hi1); [done|reflexivity|by vm_compute|exact Hrun| |exact H1|].
  { apply Permutation_swap. }
  destruct (disconnect_then_remove_inactive false ts_world ts_with_world
              (ts_disconnect_pconnection None) (ts_disconnect_listener None)
              ts_pconnection_final_free ts_listener_final_free
              (λ _ _, eq_refl) (ts_disconnect_pconnection_frame _)
              (ts_disconnect_listener_frame _) test_two_contexts [2%nat; 1%nat] [] s'
              [1%nat; 2%nat] [] frees2 w2 test_two_contexts_are)
    as (-> & _ & Hi2); [done|reflexivity|by vm_compute|exact Hrun| |exact H2|].
  { apply Permutation_swap. }
  exists s', w1, w2. split; [reflexivity|]. split; [exact H1|]. split; [exact Hi1|].
  split; [exact H2|exact Hi2].
Defined.

(** ** A disconnect that finds the connection at work *)

Section DeferredDisconnect.
Variable NDEBUG : bool.
Context {D : Type} `{ConnectionDriver D}.

Lemma rearm_if_needed_keeps (s s' : conn_state D) :
  rearm_if_needed s = Returns s' →
  driver (cs_pc s') = driver (cs_pc s) ∧
  queued_disconnect (cs_pc s') = queued_disconnect (cs_pc s) ∧
  disconnect_condition (cs_pc s') = disconnect_condition (cs_pc s) ∧
  pc_context (cs_pc s') = pc_context (cs_pc s) ∧
  w_mem (cs_world s') = w_mem (cs_world s) ∧ cs_log s' = cs_log s.
Proof.
  unfold rearm_if_needed, pconnection_rearm_check, pconnection_rearm. intros Hrun.
  destruct (_ && _); [by injection Hrun as <-|].
  destruct (_ || _); [by injection Hrun as <-|].
  apply outcome_bind_returns in Hrun as (k & _ & Hrun). by injection Hrun as <-.
Qed.

(** [pn_proactor_disconnect] finds the connection open and a thread
    working on it: the disconnect is deferred, the driver and the proactor
    are not touched.  When the working thread is done, [pconnection_done]
    takes the queued disconnect for pending work and wakes the connection:
    a wake is counted for its context.  At [retry:] of the
    [pconnection_process] that follows, the driver is closed with the
    condition, as it is at once for a connection nobody works on. *)
Theorem deferred_disconnect_not_lost cond (s s1 s2 : conn_state D) c :
  ctx_load s = Returns c → closing c = false → working c = true →
  disconnect_condition (cs_pc s) = None →
  pconnection_disconnect cond s = Returns s1 →
  pconnection_done NDEBUG s1 = Returns s2 →
  (queued_disconnect (cs_pc s1) = true ∧ driver (cs_pc s1) = driver (cs_pc s) ∧
   cs_world s1 = cs_world s ∧ cs_log s1 = cs_log s) ∧
  (∃ c2, ctx_load s2 = Returns c2 ∧ working c2 = false ∧ wake_ops c2 ≠ 0 ∧
         closing c2 = false ∧ cs_log s2 = cs_log s) ∧
  ∃ s3 s', pconnection_process_disconnect s2 = Returns s3 ∧
           queued_disconnect (cs_pc s3) = false ∧
           pconnection_disconnect cond (ctx_store (set_working false c) s) = Returns s' ∧
           driver (cs_pc s3) = driver (cs_pc s').
Proof.
  intros Hc Hcl Hwk Hcond Hdis Hdone.
  unfold pconnection_disconnect in Hdis. unfold ctx_load in Hc. rewrite Hc in Hdis.
  cbn in Hdis. rewrite Hcl, Hwk in Hdis. cbn in Hdis.
  assert (Hs1 : queued_disconnect (cs_pc s1) = true ∧ driver (cs_pc s1) = driver (cs_pc s) ∧
                cs_world s1 = cs_world s ∧ cs_log s1 = cs_log s ∧
                pc_context (cs_pc s1) = pc_context (cs_pc s) ∧
                disconnect_condition (cs_pc s1) = cond).
  { destruct cond; injection Hdis as <-; by cbn. }
  clear Hdis. destruct Hs1 as (Hq1 & Hd1 & Hw1 & Hl1 & Hctx1 & Hcond1).
  split; [done|].
  unfold pconnection_done, ctx_load in Hdone. rewrite Hw1, Hctx1, Hc in Hdone.
  cbn in Hdone.
  assert (Hwork : pconnection_work_pending (cs_pc s1) = true).
  { unfold pconnection_work_pending. by rewrite Hq1, orb_true_r. }
  unfold pconnection_has_event in Hdone. cbn in Hdone.
  unfold pconnection_work_pending in Hdone. cbn in Hdone.
  rewrite Hq1, !orb_true_r in Hdone. cbn in Hdone.
  apply outcome_bind_returns in Hdone as ([notify sB] & Hwake & Hdone).
  unfold on_conn_world in Hwake.
  apply outcome_bind_returns in Hwake as ([notify' wB] & Hwake & Hres).
  injection Hres as <- <-. cbn in Hwake. rewrite Hw1, Hctx1 in Hwake.
  apply outcome_bind_returns in Hdone as (sC & Hrearm & Hdone).
  apply rearm_if_needed_keeps in Hrearm as (HdC & HqC & HcC & HctxC & HmC & HlC).
  cbn in HdC, HqC, HcC, HctxC, HmC, HlC.
  assert (Hs2 : driver (cs_pc s2) = driver (cs_pc sC) ∧
                queued_disconnect (cs_pc s2) = queued_disconnect (cs_pc sC) ∧
                disconnect_condition (cs_pc s2) = disconnect_condition (cs_pc sC) ∧
                pc_context (cs_pc s2) = pc_context (cs_pc sC) ∧
                w_mem (cs_world s2) = w_mem (cs_world sC) ∧ cs_log s2 = cs_log sC).
  { destruct notify'; [|by injection Hdone as <-].
    apply outcome_bind_returns in Hdone as ([[] sD] & Hnotify & Hdone). injection Hdone as <-.
    unfold on_conn_world in Hnotify.
    apply outcome_bind_returns in Hnotify as ([[] wD] & Hnotify & Hres). injection Hres as <-.
    apply outcome_bind_returns in Hnotify as (wD' & Hnotify & Hres). injection Hres as <-.
    apply wake_notify_mem in Hnotify. by cbn. }
  destruct Hs2 as (Hd2 & Hq2 & Hc2 & Hctx2 & Hm2 & Hl2).
  assert (Hlt : (pc_context (cs_pc s) < length (w_mem (cs_world s)))%nat).
  { unfold load in Hc. destruct (w_mem (cs_world s) !! pc_context (cs_pc s)) eqn:E;
      [by eapply lookup_lt_Some|discriminate]. }
  pose proof (wake_same_closing _ _ _ _ Hwake) as (_ & Hclosing & _).
  apply wake_disconnect_view in Hwake
    as (_ & _ & _ & _ & cA & cB & HA & HB & _ & _ & _ & _ & HwkB & Hwoken).
  cbn in HA. rewrite list_lookup_insert_eq in HA by done. injection HA as <-.
  cbn in HwkB. specialize (Hclosing (pc_context (cs_pc s))). rewrite HB in Hclosing.
  cbn in Hclosing. rewrite list_lookup_insert_eq in Hclosing by done. cbn in Hclosing.
  injection Hclosing as HclB. rewrite Hcl in HclB.
  assert (Hload2 : ctx_load s2 = Returns cB).
  { unfold ctx_load, load. by rewrite Hm2, HmC, Hctx2, HctxC, Hctx1, HB. }
  split.
  { exists cB. split; [done|]. split; [done|].
    split; [destruct Hwoken as [|Hw]; [done|congruence]|].
    split; [done|]. by rewrite Hl2, HlC. }
  unfold pconnection_process_disconnect. rewrite Hq2, HqC, Hq1.
  unfold ctx_load in *. cbn. rewrite Hload2. cbn. rewrite HclB. cbn.
  rewrite Hc2, HcC, Hcond1.
  unfold pconnection_disconnect. cbn. unfold load. cbn.
  rewrite list_lookup_insert_eq by done. cbn. rewrite Hcl. cbn.
  eexists. eexists. split; [reflexivity|]. split; [by destruct cond|].
  split; [reflexivity|]. destruct cond; cbn; by rewrite Hd2, HdC, Hd1.
Qed.
End DeferredDisconnect.

(** The connection of [test_conn] with a thread working on it. *)
Definition test_working : conn_state test_driver :=
  ctx_store (set_working true (set_next None (pcontext_init PCONNECTION)))
            (test_conn test_open_driver []).

(** The disconnect is queued, the connection wakes itself when done, and
    the driver is then closed with the condition. *)
Lemma deferred_disconnect_not_lost_witness :
  ∃ s1 s2 s3,
    pconnection_disconnect (Some "shutdown") test_working = Returns s1 ∧
    pconnection_done false s1 = Returns s2 ∧
    (wake_ops <$> (w_mem (cs_world s2) !! 1%nat)) = Some 1 ∧
    pconnection_process_disconnect s2 = Returns s3 ∧
    td_condition (driver (cs_pc s3)) = Some "shutdown" ∧
    td_rclosed (driver (cs_pc s3)) = true ∧ td_wclosed (driver (cs_pc s3)) = true.
Proof.
  destruct (pconnection_disconnect (Some "shutdown") test_working) as [s1| |] eqn:H1;
    [|vm_compute in H1; discriminate..].
  destruct (pconnection_done false s1) as [s2| |] eqn:H2.
  2,3: vm_compute in H1; injection H1 as <-; vm_compute in H2; discriminate.
  destruct (deferred_disconnect_not_lost false (Some "shutdown") test_working s1 s2
              (set_working true (set_next None (pcontext_init PCONNECTION))))
    as (_ & _ & s3 & s' & H3 & _ & _ & _);
    [reflexivity|reflexivity|reflexivity|reflexivity|exact H1|exact H2|].
  exists s1, s2, s3. split; [reflexivity|]. split; [exact H2|].
  vm_compute in H1. injection H1 as <-. vm_compute in H2. injection H2 as <-.
  vm_compute in H3. injection H3 as <-. by vm_compute.
Defined.
